(* ===== verification/_CoqProject ===== *)
-Q . S2P
Prelude.v
SeqMath.v
Double.v
HeaderMem.v
Inet.v
AddressPort.v
Sockets.v
IPPacket.v
TCPOptions.v
WiFuPacket.v
TCPPacket.v
UDPPacket.v
PacketBuffer.v
Events.v
Outstanding.v
Congestion.v
Reliability.v
Stamps.v
DelayedAck.v
RateLimiter.v
ConnManager.v
BackLog.v
ProtocolState.v
Protocol.v
Tahoe.v
TCPModule.v
TCPAP.v
SimpleUDP.v
Queues.v
ConcurrentQueue.v
Timers.v
Dispatcher.v
EventLoop.v
BackEnd.v
FrontEnd.v
Network.v
Receiver.v
Transfer.v
PacketLog.v
Utilities.v
Numbers.v
WedgeTables.v
WedgeCalls.v
Wedge.v
CorePacket.v
CoreTransport.v
CoreHandler.v
