(* ===== verification/Prelude.v ===== *)
(** * WiFu: a verification library

    WiFu consists of two programs and a kernel module. WiFu Transport (src/transport) is a
    TCP/UDP stack in user space; most of this library is about it. WiFu Core (src/core) puts
    shim headers into the packets that the kernel hands to it. Applications talk to WiFu
    Transport over a local socket, through a library they link or through the kernel module
    (src/wedge), which replaces the kernel's internet sockets; WiFu Transport sends and receives
    raw IP packets. This library translates the code into executable Rocq definitions, function
    by function and with the names of the source, and proves what makes it correct. Paths below
    are under src/transport/src unless they say otherwise; headers are under
    src/transport/headers.

    ** The program

    A front-end call arrives as an event; the dispatcher hands it to the modules that
    registered for its type. A protocol (TCPTahoe, TCPDelayedACK, TCPAP, SimpleUDP) is a module: a
    thread that takes events off a priority queue and runs a method for each
    (protocol/Protocol.cc: [imodule_] methods). Those call the implementation's [icontext_]
    methods (protocol/TCPTahoe.cc), which find the socket's container of three contexts and
    call, in a fixed order, the reliability context, the connection manager and the
    congestion control. Each context is a state machine that reads and writes its own data
    and the shared socket, enqueues protocol events on the module's queue and dispatches
    events for other modules: responses, packets for the network, timers.

    ** Files

    - Prelude: outcomes ([Done], or [Fault] where the program stops or is undefined), 32-bit
      wrap-around, generic lemmas and tactics.
    - SeqMath (Math.cc), Double (the doubles of the RTO estimate), HeaderMem (bytes and bit
      fields of packet memory), Inet (inet_pton and inet_ntop), AddressPort (AddressPort.cc),
      Sockets (Socket.cc, SocketCollection.cc, SocketOptions.cc, visitors/).
    - IPPacket, WiFuPacket, TCPPacket, UDPPacket, TCPOptions (packet/): packets as their
      bytes; setters and getters at the bit positions of the C structs; checksums.
    - PacketBuffer (TCPPacketBuffer.cc): the reassembly buffer.
    - Events (headers/events/): events as one type, and [handler], the monad a context's
      method runs in: its context, the socket, the clock, fresh pointers, and the trace of
      what it enqueued and dispatched.
    - Outstanding (contexts/OutstandingDataContext.cc), Congestion
      (states/TCPTahoeBaseCongestionControl.cc, SlowStart.cc, CongestionAvoidance.cc),
      Reliability (states/TCPTahoeReliabilityState.cc), DelayedAck (states/tcp-ap/
      TCPDelayedACKReliabilityState.cc), Stamps (packing and checksum of what leaves),
      RateLimiter (states/tcp-ap/SendRateLimiter.cc, TCPAPSendRateLimiter.cc), ConnManager
      (contexts/ConnectionManagerContext.cc and the eleven connection states), BackLog
      (BackLog.cc).
    - ProtocolState, Protocol (protocol/Protocol.cc): the module's world (its sockets, the
      heap of all sockets, the collection), [protocol], the monad over it, the [imodule_]
      methods, and the class [ProtocolImpl] an implementation instantiates, with its laws.
    - Tahoe (protocol/TCPTahoe.cc), TCPModule (it implements Protocol's interface with either
      reliability context), TCPAP (protocol/TCPAP.cc: TCPTahoe with a rate limiter), SimpleUDP
      (protocol/SimpleUDP.cc).
    - Queues (headers/PriorityQueue.h), ConcurrentQueue (Semaphore.cc, PriorityQueue.h and
      Queue.h with their semaphores, step by step), Timers (TimeoutEventManager.cc and its semaphore).
    - Dispatcher (Dispatcher.cc, ProtocolManager.cc and the registrations of main.cc),
      EventLoop (headers/QueueProcessor.h, Module.cc: a module's queue and thread over the
      interface of Protocol), BackEnd (WiFuTransportBackEndTranslator.cc,
      headers/ObjectPool.h, events/framework_events/), Network (NetworkInterface.cc,
      RawSocketListener.cc, RawSocketSender.cc).
    - PacketLog (PacketLogger.cc, PacketLogReader.cc, NetworkTrace.cc: the log of all packets as
      a pcap file, and what can be read back from it).
    - Utilities (QueryStringParser.cc, OptionParser.cc, Utils.cc: text) and Numbers
      (headers/RandomNumberSet.h, headers/Set.h and the managers of identifiers and ports).
    - FrontEnd (src/transport/applib: the socket API that applications link, its threads and
      semaphores).
    - WedgeTables, WedgeCalls, Wedge (src/wedge/wifu_wedge.c: the kernel module's tables of
      sockets and calls; what each socket call sends and makes of the answer; the phases that
      all calls share, as steps of any number of threads, with the locks, the semaphores and
      the daemon). A call's phases are the definitions [start], [locking], [inserting],
      [sending], [waiting], [finishing], [leaving] and [removing]; the map shows them in
      [wifu_bind], [wifu_create] and [wifu_accept], whose code the others repeat.
    - Receiver (TCPTahoe's receive path under arbitrary schedules of segments and calls, over
      an interface that both reliability contexts meet) and Transfer (both ends and the wire)
      compose the others; they add no code of their own.

    A C++ object that is shared is an entry of a heap (sockets, containers, back logs,
    received packets by their address); one with a single owner is a value. A u_int32_t is
    a Z wrapped by [u32] where the code wraps it; a conversion to int is [i32], and an overflow
    of int or long arithmetic that the program can come to (the doubled probe timer, deadlines) is
    the fault [SignedOverflow]. The event counters of type int (duplicate acknowledgements, the
    datagrams of SimpleUDP) are taken modulo 2^32 instead: 2^31 events would have to pass.
    Shared memory that two threads use at once without a semaphore is the fault [DataRace].

    ** Theorems

    The properties are the theorems labelled C1, C2, ... in their comments. They fall into
    groups:
    - end to end: what one application hands to TCPTahoe is, whatever the network reorders or
      repeats, what the application at the other end receives (Receiver, Transfer);
    - data transfer: the reassembly buffer delivers exactly the stream in whatever order
      segments arrive (PacketBuffer); the reliability state appends exactly that stretch to
      the receive buffer, keeps the advertised window, answers receive calls and processes
      acknowledgements (Reliability); the send loop queues exactly the bytes the windows
      allow and what reaches the network is a well-formed segment (Congestion, Tahoe); the
      delayed-acknowledgement state delivers the same data and acknowledges by its policy
      (DelayedAck); TCP-AP's limiter keeps the order and the pace, and loses nothing
      (RateLimiter, TCPAP);
    - bounds: the congestion window stays where its 32-bit arithmetic is exact; acceptance
      tests on wrapped sequence numbers agree with intervals of stream positions (SeqMath,
      Tahoe); the send buffer keeps its limit;
    - the connection life cycle: the connection manager refines an abstract machine, over
      whose runs the answers to calls and the FINs are counted (ConnManager);
    - packets: checksums, options, header fields (IPPacket, TCPPacket, TCPOptions);
    - modules: events of foreign sockets do nothing, no socket loses its data (Protocol,
      TCPModule), the collection of sockets stays an index (Sockets), datagrams are answered
      in order (SimpleUDP), queues are linearizable and their calls return, although a call
      is at the container in two steps, and timers keep their contract but for what the two steps
      of a post allow, under every interleaving (ConcurrentQueue, Timers); a module's loop refines a
      machine that runs one event with all its consequences after the other (EventLoop);
    - the program around the protocols: which module gets which event (Dispatcher), calls and
      responses are matched and no event object serves two calls (BackEnd), each application
      thread gets the answer to its own call (FrontEnd), in the kernel module no two calls share
      a slot, an answer goes to a call that waits for its socket and type, and a call that
      is answered leaves the tables and locks as they were (Wedge), packets survive the wire and reach the
      right socket (Network), the log of packets reads back in order (PacketLog),
      identifiers in use are distinct (Numbers);
    - WiFu Core: a shim that is inserted is found and removed without a trace, hosts that run
      the test handler are transparent to each other, every packet gets its verdict (CorePacket,
      CoreTransport, CoreHandler).
    A theorem that needs hypotheses is followed by a [_witness] that applies it to concrete
    data. Where the code has a defect the theorem states what it does do, and a lemma or a part
    of the theorem shows the failing run: the calls of the connection manager that read a null
    event ([ConnManager.crashes]), the delayed acknowledgements under a retransmission timer
    ([DelayedAck.delayed_ack_policy]), the receive call that another replaces
    ([SimpleUDP.standing]), the descriptors and buffers that the socket API does not check
    ([FrontEnd.front_end_calls]), the cancelled timer that fires during a post
    ([Timers.cancelled_timer_fires]), the log that the reader refuses or a reset spoils
    ([PacketLog.log_read_back]). For the kernel module the theorems speak of runs in which no
    signal ends the wait for a semaphore of its tables ([Wedge.with_down]).

    ** Bounds and fuel

    Loops that are not structural take fuel: [carry_seconds] the number of seconds to carry,
    [send_packets_loop] one round per byte of the send buffer, [fold_carries] three rounds
    of end-around carries, [lower_bound] one halving per packet. Each is enough, and
    that the loop ends with it is part of the theorem about it. Packets are at most MTU =
    1500 bytes, windows at most 65535, as in the code. The kernel module's counter of calls wraps
    into the number that marks a free slot; [Wedge.wedge_answers_matched] is about runs of fewer
    than 2^32 - 1 steps, in which it cannot.

    ** Not modelled

    The local sockets to applications, raw sockets, netlink and signals (I/O), except the signal
    that ends a wait in the kernel module; the text forms to_s (logging); threads other than in
    ConcurrentQueue, Timers, EventLoop, Numbers, FrontEnd, PacketLog and Wedge, since every module runs on one; the
    conservative garbage collector, under which no object is ever freed too early; how the
    kernel module finds kernel symbols and registers itself; the vendored libraries; CacheMap
    and Timer, which the program does not call. The source address the kernel chooses
    (SourceGetter.cc) and the content of uninitialised memory are parameters. *)
From stdpp Require Export base numbers list gmap strings.
From Stdlib Require Export ZArith Lia.

#[export] Set Default Goal Selector "!".
#[global] Open Scope Z_scope.

(** ** Outcomes of C++ code

    A call either returns ([Done]) or stops the program: an [assert] fails, a
    C++ exception leaves the method, or the code has undefined behaviour
    (a null pointer is dereferenced, memory is touched out of bounds). *)
Inductive fault :=
| AssertionFailure
| DataRace
| IllegalStateException
| IOError
| InvalidAddressException
| InvalidFree
| LengthError
| MalformedPacketException
| MissingReturn
| NullDereference
| OutOfBounds
| PacketProtocolNotSetException
| SignedOverflow
| StackOverflow
| UndefinedConversion
| WiFuException.

#[export] Instance fault_eq_dec : EqDecision fault.
Proof. solve_decision. Defined.

Inductive outcome (A : Type) :=
| Done (a : A)
| Fault (f : fault).
Arguments Done {A} _.
Arguments Fault {A} _.

#[export] Instance outcome_ret : MRet outcome := fun A a => Done a.
#[export] Instance outcome_bind : MBind outcome :=
  fun A B f m => match m with Done a => f a | Fault e => Fault e end.

(** [assert(b)] of <assert.h>. *)
Definition assert (b : bool) : outcome unit := if b then Done tt else Fault AssertionFailure.

(** Dereferencing a pointer that may be null. *)
Definition deref {A} (p : option A) : outcome A :=
  match p with Some a => Done a | None => Fault NullDereference end.

Lemma outcome_bind_Done {A B} (f : A → outcome B) (m : outcome A) (b : B) :
  (m ≫= f) = Done b → ∃ a, m = Done a ∧ f a = Done b.
Proof. destruct m; cbn; [eauto | discriminate]. Qed.

Lemma assert_Done b u : assert b = Done u → b = true.
Proof. destruct b; [reflexivity | discriminate]. Qed.

Lemma deref_Done {A} (p : option A) a : deref p = Done a → p = Some a.
Proof. destruct p; [intros [= ->]; reflexivity | discriminate]. Qed.

(** ** Machine integers *)

Definition u8 (x : Z) : Z := x mod 2 ^ 8.
Definition u16 (x : Z) : Z := x mod 2 ^ 16.
Definition u32 (x : Z) : Z := x mod 2 ^ 32.
Definition u64 (x : Z) : Z := x mod 2 ^ 64.
(** Two's complement [int]. *)
Definition i32 (x : Z) : Z := (x + 2 ^ 31) mod 2 ^ 32 - 2 ^ 31.

Definition is_u8 (x : Z) : Prop := 0 ≤ x < 2 ^ 8.
Definition is_u16 (x : Z) : Prop := 0 ≤ x < 2 ^ 16.
Definition is_u32 (x : Z) : Prop := 0 ≤ x < 2 ^ 32.

Definition INT_MAX : Z := 2 ^ 31 - 1.
Definition USHRT_MAX : Z := 2 ^ 16 - 1.

(** ** Constants the components share (headers/defines.h) *)

Definition TCP_TAHOE : Z := 6.
Definition UDP : Z := 17.
Definition TCP_DELAYEDACK : Z := 209.
Definition TCP_AP : Z := 211.
Definition TCP_AP_DELAYEDACK : Z := 213.
Definition NANOSECONDS_IN_SECONDS : Z := 1000000000.
Definition MICROSECONDS_IN_SECONDS : Z := 1000000.

(** Evaluates every power of two with literal arguments. *)
Ltac eval_pow2 :=
  repeat match goal with
         | |- context [2 ^ ?n] => let v := eval vm_compute in (2 ^ n) in change (2 ^ n) with v
         | H : context [2 ^ ?n] |- _ =>
             let v := eval vm_compute in (2 ^ n) in change (2 ^ n) with v in H
         end.

Ltac unfold_words := unfold u8, u16, u32, u64, i32, is_u8, is_u16, is_u32, INT_MAX, USHRT_MAX in *.

(** Linear arithmetic over machine words. *)
Ltac word_lia := unfold_words; eval_pow2; Z.div_mod_to_equations; lia.

Lemma u8_range x : is_u8 (u8 x). Proof. word_lia. Qed.
Lemma u16_range x : is_u16 (u16 x). Proof. word_lia. Qed.
Lemma u32_range x : is_u32 (u32 x). Proof. word_lia. Qed.

Lemma u8_small x : is_u8 x → u8 x = x. Proof. apply Z.mod_small. Qed.
Lemma u16_small x : is_u16 x → u16 x = x. Proof. apply Z.mod_small. Qed.
Lemma u32_small x : is_u32 x → u32 x = x. Proof. apply Z.mod_small. Qed.
Lemma u32_idemp x : u32 (u32 x) = u32 x. Proof. apply u32_small, u32_range. Qed.
Lemma u32_add_l x y : u32 (u32 x + y) = u32 (x + y).
Proof. apply Zplus_mod_idemp_l. Qed.
Lemma u32_add_r x y : u32 (x + u32 y) = u32 (x + y).
Proof. apply Zplus_mod_idemp_r. Qed.
Lemma u32_sub_l x y : u32 (u32 x - y) = u32 (x - y).
Proof. apply Zminus_mod_idemp_l. Qed.
Lemma u32_sub_r x y : u32 (x - u32 y) = u32 (x - y).
Proof. apply Zminus_mod_idemp_r. Qed.
Lemma i32_small x : - 2 ^ 31 ≤ x < 2 ^ 31 → i32 x = x.
Proof. intros. unfold i32. rewrite Z.mod_small by lia. lia. Qed.

Create Rewrite HintDb words.
#[export] Hint Rewrite u32_idemp u32_add_l u32_add_r u32_sub_l u32_sub_r : words.

Create HintDb words.
#[export] Hint Resolve u8_range u16_range u32_range : words.

(** ** Lists *)

(** Induction two elements at a time. *)
Lemma list_pair_ind {A} (P : list A → Prop) :
  P [] → (∀ a, P [a]) → (∀ a b l, P l → P (a :: b :: l)) → ∀ l, P l.
Proof.
  intros H0 H1 H2. fix IH 1. intros [|a [|b l]]; [exact H0 | exact (H1 a) |].
  apply H2, IH.
Qed.

(** ** Tactics *)

(** Splits boolean connectives and comparisons into propositions. *)
Ltac bool_to_prop :=
  repeat match goal with
         | H : (_ && _) = true |- _ => apply andb_true_iff in H as [? ?]
         | H : (_ || _) = false |- _ => apply orb_false_iff in H as [? ?]
         | H : negb _ = true |- _ => apply negb_true_iff in H
         | H : negb _ = false |- _ => apply negb_false_iff in H
         | H : (_ =? _) = true |- _ => apply Z.eqb_eq in H
         | H : (_ =? _) = false |- _ => apply Z.eqb_neq in H
         | H : (_ <? _) = true |- _ => apply Z.ltb_lt in H
         | H : (_ <? _) = false |- _ => apply Z.ltb_ge in H
         | H : (_ <=? _) = true |- _ => apply Z.leb_le in H
         | H : (_ <=? _) = false |- _ => apply Z.leb_gt in H
         end.

(** Inverts a chain of binds that ended in [Done]. *)
Ltac outcome_inv :=
  repeat match goal with
         | H : Done _ = Done _ |- _ => injection H as H; subst
         | H : Fault _ = Done _ |- _ => discriminate H
         | H : (_ ≫= _) = Done _ |- _ =>
             let a := fresh "a" in let Ha := fresh "H" in
             apply outcome_bind_Done in H as (a & Ha & H)
         | H : assert _ = Done _ |- _ => apply assert_Done in H
         | H : deref _ = Done _ |- _ => apply deref_Done in H
         end.
