(* ===== verification/SeqMath.v ===== *)
(** * Circular sequence-number comparisons

    The free functions of transport/src/Math.cc on [u_int32_t] values; every
    comparison is made as the C++ code makes it, on wrapped differences. *)
From S2P Require Import Prelude.

Definition less_than (lhs rhs : Z) : bool :=
  ((lhs <? rhs) && (u32 (rhs - lhs) <=? INT_MAX))
  || ((rhs <? lhs) && (INT_MAX <? u32 (lhs - rhs))).

Definition less_than_or_equal (lhs rhs : Z) : bool := less_than lhs rhs || (lhs =? rhs).

Definition between_equal (left number right : Z) : bool :=
  less_than_or_equal left number && less_than_or_equal number right.

Definition between_equal_right (left number right : Z) : bool :=
  less_than left number && less_than_or_equal number right.

Definition between_equal_left (left number right : Z) : bool :=
  less_than_or_equal left number && less_than number right.

Definition between (left number right : Z) : bool :=
  less_than left number && less_than number right.

(** ** The comparison in unwrapped coordinates *)

Lemma less_than_diff a b :
  is_u32 a → is_u32 b →
  less_than a b =
    (((0 <? u32 (b - a)) && (u32 (b - a) <? 2 ^ 31)) || ((u32 (b - a) =? 2 ^ 31) && (b <? a))).
Proof. unfold less_than. intros. apply eq_true_iff_eq. word_lia. Qed.

Lemma less_than_irrefl a : less_than a a = false.
Proof. unfold less_than. rewrite Z.ltb_irrefl. reflexivity. Qed.

(** On any two 32-bit sequence numbers exactly one of "earlier", "equal" and
    "later" holds, the antipodal pairs (2^31 apart) included: the comparison the
    packet buffer and the contexts rely on is total and asymmetric on all inputs. *)
Theorem less_than_trichotomy a b :
  is_u32 a → is_u32 b →
  (less_than a b = true ∧ a ≠ b ∧ less_than b a = false)
  ∨ (less_than a b = false ∧ a = b ∧ less_than b a = false)
  ∨ (less_than a b = false ∧ a ≠ b ∧ less_than b a = true).
Proof.
  intros Ha Hb. rewrite !less_than_diff by assumption.
  destruct (Z.lt_trichotomy a b) as [?|[->|?]].
  - destruct (decide (b - a < 2 ^ 31)); [left | right; right];
      repeat split; try lia; apply eq_true_iff_eq || apply not_true_iff_false; word_lia.
  - right; left. repeat split; apply not_true_iff_false; word_lia.
  - destruct (decide (a - b < 2 ^ 31)); [right; right | left];
      repeat split; try lia; apply eq_true_iff_eq || apply not_true_iff_false; word_lia.
Qed.

(** A stream position [i] travels as the sequence number [base + i] mod 2^32. *)
Definition seq_at (base i : Z) : Z := u32 (base + i).

Lemma seq_at_range base i : is_u32 (seq_at base i).
Proof. apply u32_range. Qed.

Lemma seq_at_add base i n : u32 (seq_at base i + n) = seq_at base (i + n).
Proof. unfold seq_at. rewrite u32_add_l. f_equal. lia. Qed.

Lemma seq_at_sub base i j : u32 (seq_at base j - seq_at base i) = u32 (j - i).
Proof. unfold seq_at. rewrite u32_sub_l, u32_sub_r. f_equal. lia. Qed.

Lemma seq_at_less_than base i j :
  - 2 ^ 31 < j - i < 2 ^ 31 → less_than (seq_at base i) (seq_at base j) = (i <? j).
Proof.
  intros. rewrite less_than_diff by apply seq_at_range. rewrite seq_at_sub.
  apply eq_true_iff_eq. word_lia.
Qed.

Lemma seq_at_eqb base i j :
  - 2 ^ 32 < j - i < 2 ^ 32 → (seq_at base i =? seq_at base j) = (i =? j).
Proof. intros. unfold seq_at. apply eq_true_iff_eq. word_lia. Qed.

Lemma seq_at_less_than_or_equal base i j :
  - 2 ^ 31 < j - i < 2 ^ 31 → less_than_or_equal (seq_at base i) (seq_at base j) = (i <=? j).
Proof.
  intros. unfold less_than_or_equal. rewrite seq_at_less_than, seq_at_eqb by lia.
  apply eq_true_iff_eq. lia.
Qed.

Create Rewrite HintDb seqnum.
#[export] Hint Rewrite seq_at_add : seqnum.
#[export] Hint Rewrite seq_at_less_than seq_at_less_than_or_equal seq_at_eqb using lia : seqnum.

(** C13: wherever a connection's sequence space wraps, the four window tests of
    Math.cc decide the ordinary interval tests on stream positions, provided the
    positions compared are less than 2^31 apart (a window of two gigabytes). *)
Theorem between_positions base l n r :
  - 2 ^ 31 < n - l < 2 ^ 31 → - 2 ^ 31 < r - n < 2 ^ 31 →
  between_equal (seq_at base l) (seq_at base n) (seq_at base r) = ((l <=? n) && (n <=? r)) ∧
  between_equal_right (seq_at base l) (seq_at base n) (seq_at base r) = ((l <? n) && (n <=? r)) ∧
  between_equal_left (seq_at base l) (seq_at base n) (seq_at base r) = ((l <=? n) && (n <? r)) ∧
  between (seq_at base l) (seq_at base n) (seq_at base r) = ((l <? n) && (n <? r)).
Proof.
  intros. unfold between_equal, between_equal_right, between_equal_left, between.
  autorewrite with seqnum. auto.
Qed.

(** A window that straddles the wrap from 2^32 - 1 to 0. *)
Lemma between_positions_witness :
  - 2 ^ 31 < 10 - 0 < 2 ^ 31 ∧ - 2 ^ 31 < 20 - 10 < 2 ^ 31 ∧
  between_equal (2 ^ 32 - 5) 5 15 = true.
Proof.
  split; [lia |]. split; [lia |].
  exact (proj1 (between_positions (2 ^ 32 - 5) 0 10 20 ltac:(lia) ltac:(lia))).
Defined.

Lemma less_than_trichotomy_witness :
  is_u32 0 ∧ is_u32 (2 ^ 31) ∧ less_than 0 (2 ^ 31) = false ∧ less_than (2 ^ 31) 0 = true.
Proof.
  split; [split; lia |]. split; [split; lia |].
  destruct (less_than_trichotomy 0 (2 ^ 31)) as [(H&_)|[(_&H&_)|(H1&_&H2)]];
    [split; lia | split; lia | vm_compute in H; discriminate H | discriminate H | exact (conj H1 H2)].
Defined.
