(* ===== verification/Double.v ===== *)
(** * IEEE double arithmetic

    The [double] operations the retransmission timer uses, as the Standard
    Library's executable specification of binary64 (round to nearest even).
    Conversions to integers truncate and are undefined outside the target type. *)
From Stdlib Require Import Floats.SpecFloat.
From S2P Require Import Prelude.

Abbreviation double := spec_float.

Definition prec : Z := 53.
Definition emax : Z := 1024.

Definition dadd : double → double → double := SFadd prec emax.
Definition dsub : double → double → double := SFsub prec emax.
Definition dmul : double → double → double := SFmul prec emax.
Definition ddiv : double → double → double := SFdiv prec emax.
Definition dabs : double → double := SFabs.
Definition dltb : double → double → bool := SFltb.
Definition dleb : double → double → bool := SFleb.

(** An integer converted to [double]; a literal [n / d] correctly rounded. *)
Definition of_Z (n : Z) : double := binary_normalize prec emax n 0 false.
Definition literal (n d : Z) : double := ddiv (of_Z n) (of_Z d).

(** [std::max]: the second argument only when the first compares less. *)
Definition dmax (a b : double) : double := if dltb a b then b else a.

(** Truncation towards zero; none for infinities and NaN. *)
Definition trunc (x : double) : option Z :=
  match x with
  | S754_zero _ => Some 0
  | S754_finite s m e =>
      let n := if 0 <=? e then Z.pos m * 2 ^ e else Z.pos m / 2 ^ (- e) in
      Some (if s then - n else n)
  | _ => None
  end.

(** [(int) x] and [(long int) x] *)
Definition to_int (x : double) : outcome Z :=
  match trunc x with
  | Some n => if (- 2 ^ 31 <=? n) && (n <? 2 ^ 31) then Done n else Fault UndefinedConversion
  | None => Fault UndefinedConversion
  end.
Definition to_long (x : double) : outcome Z :=
  match trunc x with
  | Some n => if (- 2 ^ 63 <=? n) && (n <? 2 ^ 63) then Done n else Fault UndefinedConversion
  | None => Fault UndefinedConversion
  end.

(** [modf(x, &integral)]: fractional and integral part; an infinity keeps all of itself in
    the integral part. *)
Definition modf (x : double) : double * double :=
  match x with
  | S754_infinity s => (S754_zero s, x)
  | S754_nan => (x, x)
  | _ => match trunc x with Some n => (dsub x (of_Z n), of_Z n) | None => (x, x) end
  end.

Lemma dmax_ge a b : dleb a a = true → dleb a (dmax a b) = true.
Proof.
  unfold dmax, dleb, dltb, SFleb, SFltb. intros Ha.
  destruct (SFcompare a b) as [[]|] eqn:E; [exact Ha | rewrite E; reflexivity | exact Ha | exact Ha].
Qed.

Lemma modf_example : modf (literal 5 2) = (literal 1 2, of_Z 2).
Proof. vm_compute. reflexivity. Qed.
