(* ===== verification/HeaderMem.v ===== *)
(** * Packet memory and header fields

    A packet's [payload_] array as a list of bytes, the header structs of
    <netinet/ip.h>, <netinet/tcp.h> and <netinet/udp.h> as fields at fixed byte
    offsets of it, and the laws of reading and writing fields and byte ranges
    that the packet classes share. Multi-byte fields list their byte offsets
    from the least to the most significant byte: [be16]/[be32] are what
    [ntohs]/[ntohl] of the loaded word give on any host, [le16] is a word that
    the code loads and stores in (little-endian) host order. *)
From S2P Require Import Prelude.

Abbreviation mem := (list Z).

Definition byte_at (m : mem) (i : nat) : Z := default 0 (m !! i).

Inductive field :=
| Bytes (offs : list nat)
| Bits (off shift width : nat).

#[export] Instance field_eq_dec : EqDecision field.
Proof. solve_decision. Defined.

Definition byte (o : nat) : field := Bytes [o].
Definition le16 (o : nat) : field := Bytes [o; S o].
Definition be16 (o : nat) : field := Bytes [S o; o].
Definition be32 (o : nat) : field := Bytes [3 + o; 2 + o; 1 + o; o]%nat.

Fixpoint get_bytes (offs : list nat) (m : mem) : Z :=
  match offs with
  | [] => 0
  | o :: r => byte_at m o + 256 * get_bytes r m
  end.

Fixpoint put_bytes (offs : list nat) (v : Z) (m : mem) : mem :=
  match offs with
  | [] => m
  | o :: r => <[o := v mod 256]> (put_bytes r (v / 256) m)
  end.

Definition get (f : field) (m : mem) : Z :=
  match f with
  | Bytes offs => get_bytes offs m
  | Bits o s w => byte_at m o / 2 ^ Z.of_nat s mod 2 ^ Z.of_nat w
  end.

(** Replaces bits [s .. s + w) of the byte [b] by the low bits of [v]. *)
Definition set_bits (s w : nat) (v b : Z) : Z :=
  b - (b / 2 ^ Z.of_nat s mod 2 ^ Z.of_nat w) * 2 ^ Z.of_nat s
  + (v mod 2 ^ Z.of_nat w) * 2 ^ Z.of_nat s.

Definition put (f : field) (v : Z) (m : mem) : mem :=
  match f with
  | Bytes offs => put_bytes offs v m
  | Bits o s w => <[o := set_bits s w v (byte_at m o)]> m
  end.

Definition width (f : field) : Z :=
  match f with Bytes offs => 8 * Z.of_nat (length offs) | Bits _ _ w => Z.of_nat w end.

Definition offsets (f : field) : list nat :=
  match f with Bytes offs => offs | Bits o _ _ => [o] end.

(** The field lies inside the first [n] bytes and, for a bit field, inside its byte. *)
Definition field_ok (n : nat) (f : field) : bool :=
  forallb (fun o => Nat.ltb o n) (offsets f)
  && bool_decide (NoDup (offsets f))
  && match f with Bytes _ => true | Bits _ s w => Nat.leb (s + w) 8 end.

Definition disjoint_offsets (f g : field) : bool :=
  forallb (fun o => negb (existsb (Nat.eqb o) (offsets g))) (offsets f).

Definition disjoint (f g : field) : bool :=
  disjoint_offsets f g ||
  match f, g with
  | Bits o s w, Bits o' s' w' => Nat.eqb o o' && (Nat.leb (s + w) s' || Nat.leb (s' + w') s)
  | _, _ => false
  end.

Definition is_byte (b : Z) : Prop := 0 ≤ b < 256.

(** ** Byte ranges: memcpy, memset and pointer reads *)

Definition slice (m : mem) (off len : nat) : list Z := take len (drop off m).

(** [memcpy(m + off, data, length data)]: writing past the array is undefined. *)
Definition memcpy (m : mem) (off : nat) (data : list Z) : outcome mem :=
  if decide (off + length data ≤ length m)%nat
  then Done (take off m ++ data ++ drop (off + length data) m)
  else Fault OutOfBounds.

(** ** Laws *)

Lemma byte_at_insert m i j v :
  (i < length m)%nat → byte_at (<[i := v]> m) j = if decide (i = j) then v else byte_at m j.
Proof.
  intros Hi. unfold byte_at. case_decide as H.
  - subst. rewrite list_lookup_insert_eq by assumption. reflexivity.
  - rewrite list_lookup_insert_ne by assumption. reflexivity.
Qed.

Lemma length_put_bytes offs v m : length (put_bytes offs v m) = length m.
Proof. revert v. induction offs; intros; cbn; [done |]. rewrite length_insert. auto. Qed.

Lemma length_put f v m : length (put f v m) = length m.
Proof. destruct f; cbn; [apply length_put_bytes | apply length_insert]. Qed.

Lemma byte_at_put_bytes offs v m j :
  Forall (fun o => o < length m)%nat offs → j ∉ offs → byte_at (put_bytes offs v m) j = byte_at m j.
Proof.
  revert v. induction offs as [|o r IH]; intros v Hlt Hj; cbn; [done |].
  apply Forall_cons in Hlt as [Ho Hr]. apply not_elem_of_cons in Hj as [Hne Hj].
  rewrite byte_at_insert by (rewrite length_put_bytes; assumption).
  rewrite decide_False by congruence. auto.
Qed.

Lemma get_bytes_ext offs m m' :
  (∀ o, o ∈ offs → byte_at m o = byte_at m' o) → get_bytes offs m = get_bytes offs m'.
Proof.
  induction offs as [|o r IH]; intros H; cbn; [done |].
  rewrite H by apply elem_of_cons, or_introl, eq_refl. rewrite IH; [done |].
  intros. apply H, elem_of_cons. auto.
Qed.

Lemma get_put_bytes offs v m :
  NoDup offs → Forall (fun o => o < length m)%nat offs →
  get_bytes offs (put_bytes offs v m) = v mod 2 ^ (8 * Z.of_nat (length offs)).
Proof.
  revert v. induction offs as [|o r IH]; intros v Hnd Hlt; cbn [get_bytes put_bytes length].
  { rewrite Z.mod_1_r. reflexivity. }
  apply NoDup_cons in Hnd as [Hno Hnd]. apply Forall_cons in Hlt as [Ho Hr].
  rewrite byte_at_insert by (rewrite length_put_bytes; assumption).
  rewrite decide_True by reflexivity.
  rewrite (get_bytes_ext r _ (put_bytes r (v / 256) m)).
  - rewrite IH by assumption.
    replace (2 ^ (8 * Z.of_nat (S (length r)))) with (256 * 2 ^ (8 * Z.of_nat (length r))).
    + rewrite Z.rem_mul_r by (try apply Z.pow_nonzero; lia). reflexivity.
    + rewrite Nat2Z.inj_succ, Z.mul_succ_r, Z.add_comm, Z.pow_add_r by lia. reflexivity.
  - intros o' Ho'. rewrite byte_at_insert by (rewrite length_put_bytes; assumption).
    rewrite decide_False; [reflexivity | congruence].
Qed.

Lemma field_ok_spec n f :
  field_ok n f = true →
  Forall (fun o => o < n)%nat (offsets f) ∧ NoDup (offsets f)
  ∧ match f with Bytes _ => True | Bits _ s w => (s + w ≤ 8)%nat end.
Proof.
  unfold field_ok. intros H. apply andb_true_iff in H as [H Hb]. apply andb_true_iff in H as [Ha Hn].
  apply bool_decide_eq_true in Hn. repeat split; [| exact Hn |].
  - apply List.Forall_forall. intros o Ho. rewrite forallb_forall in Ha.
    specialize (Ha o Ho). apply Nat.ltb_lt in Ha. exact Ha.
  - destruct f; [exact I | apply Nat.leb_le, Hb].
Qed.

Lemma disjoint_offsets_spec f g :
  disjoint_offsets f g = true → ∀ o, o ∈ offsets f → o ∉ offsets g.
Proof.
  unfold disjoint_offsets. rewrite forallb_forall. intros H o Hf Hg.
  apply list_elem_of_In in Hf. specialize (H o Hf). apply negb_true_iff in H.
  apply not_true_iff_false in H. apply H, existsb_exists. exists o. split.
  - apply list_elem_of_In, Hg.
  - apply Nat.eqb_refl.
Qed.

(** *** Bit fields *)

Lemma set_bits_split s w v b :
  set_bits s w v b
  = (b / (2 ^ Z.of_nat s * 2 ^ Z.of_nat w) * 2 ^ Z.of_nat w + v mod 2 ^ Z.of_nat w) * 2 ^ Z.of_nat s
    + b mod 2 ^ Z.of_nat s.
Proof.
  unfold set_bits. assert (2 ^ Z.of_nat s ≠ 0 ∧ 2 ^ Z.of_nat w ≠ 0) as [Hs Hw].
  { split; apply Z.pow_nonzero; lia. }
  pose proof (Z.div_mod b (2 ^ Z.of_nat s) Hs).
  pose proof (Z.div_mod (b / 2 ^ Z.of_nat s) (2 ^ Z.of_nat w) Hw).
  rewrite <- Zdiv_Zdiv by (apply Z.pow_nonneg; lia). nia.
Qed.

Lemma set_bits_get s w v b :
  set_bits s w v b / 2 ^ Z.of_nat s mod 2 ^ Z.of_nat w = v mod 2 ^ Z.of_nat w.
Proof.
  assert (0 < 2 ^ Z.of_nat s ∧ 0 < 2 ^ Z.of_nat w) as [Hs Hw].
  { split; apply Z.pow_pos_nonneg; lia. }
  rewrite set_bits_split, Z.div_add_l, (Z.div_small (b mod _)), Z.add_0_r
    by (try apply Z.mod_pos_bound; lia).
  rewrite Z.add_comm, Z_mod_plus_full, Z.mod_mod by lia. reflexivity.
Qed.

Lemma set_bits_high s w v b s' :
  (s + w ≤ s')%nat → set_bits s w v b / 2 ^ Z.of_nat s' = b / 2 ^ Z.of_nat s'.
Proof.
  intros H. assert (0 < 2 ^ Z.of_nat s ∧ 0 < 2 ^ Z.of_nat w) as [Hs Hw].
  { split; apply Z.pow_pos_nonneg; lia. }
  replace (2 ^ Z.of_nat s') with (2 ^ Z.of_nat s * (2 ^ Z.of_nat w * 2 ^ Z.of_nat (s' - (s + w)))).
  2: { rewrite <- !Z.pow_add_r by lia. f_equal. lia. }
  assert (∀ x, x / (2 ^ Z.of_nat s * (2 ^ Z.of_nat w * 2 ^ Z.of_nat (s' - (s + w))))
               = x / 2 ^ Z.of_nat s / 2 ^ Z.of_nat w / 2 ^ Z.of_nat (s' - (s + w))) as E.
  { intros. rewrite !Zdiv_Zdiv by (try apply Z.mul_nonneg_nonneg; apply Z.pow_nonneg; lia).
    reflexivity. }
  rewrite !E. f_equal.
  rewrite set_bits_split, Z.div_add_l, (Z.div_small (b mod _)), Z.add_0_r
    by (try apply Z.mod_pos_bound; lia).
  rewrite Z.div_add_l, (Z.div_small (v mod _)), Z.add_0_r by (try apply Z.mod_pos_bound; lia).
  rewrite Zdiv_Zdiv by lia. reflexivity.
Qed.

Lemma set_bits_low s w v b : set_bits s w v b mod 2 ^ Z.of_nat s = b mod 2 ^ Z.of_nat s.
Proof.
  rewrite set_bits_split, Z.add_comm, Z_mod_plus_full, Z.mod_mod by (apply Z.pow_nonzero; lia).
  reflexivity.
Qed.

Lemma bits_of_low x s w k :
  (s + w ≤ k)%nat →
  x / 2 ^ Z.of_nat s mod 2 ^ Z.of_nat w
  = (x mod 2 ^ Z.of_nat k) / 2 ^ Z.of_nat s mod 2 ^ Z.of_nat w.
Proof.
  intros H. pose proof (Z.div_mod x (2 ^ Z.of_nat k) ltac:(apply Z.pow_nonzero; lia)) as E.
  assert (2 ^ Z.of_nat k = 2 ^ Z.of_nat s * (2 ^ Z.of_nat w * 2 ^ Z.of_nat (k - (s + w)))) as K.
  { rewrite <- !Z.pow_add_r by lia. f_equal. lia. }
  rewrite E at 1. rewrite K at 1.
  rewrite (Z.add_comm (_ * _ * _)).
  replace (2 ^ Z.of_nat s * (2 ^ Z.of_nat w * 2 ^ Z.of_nat (k - (s + w))) * (x / 2 ^ Z.of_nat k))
    with ((2 ^ Z.of_nat (k - (s + w)) * (x / 2 ^ Z.of_nat k) * 2 ^ Z.of_nat w) * 2 ^ Z.of_nat s) by ring.
  rewrite Z.div_add, Z_mod_plus_full by (apply Z.pow_nonzero; lia). reflexivity.
Qed.

Lemma set_bits_other s w v b s' w' :
  (s + w ≤ s' ∨ s' + w' ≤ s)%nat →
  set_bits s w v b / 2 ^ Z.of_nat s' mod 2 ^ Z.of_nat w' = b / 2 ^ Z.of_nat s' mod 2 ^ Z.of_nat w'.
Proof.
  intros [H|H].
  - rewrite set_bits_high by assumption. reflexivity.
  - rewrite (bits_of_low (set_bits _ _ _ _) s' w' s), (bits_of_low b s' w' s), set_bits_low by assumption.
    reflexivity.
Qed.

Lemma set_bits_byte s w v b : (s + w ≤ 8)%nat → is_byte b → is_byte (set_bits s w v b).
Proof.
  intros H Hb. assert (0 < 2 ^ Z.of_nat s ∧ 0 < 2 ^ Z.of_nat w) as [Hs Hw].
  { split; apply Z.pow_pos_nonneg; lia. }
  assert (set_bits s w v b / 2 ^ Z.of_nat 8 = 0) as E.
  { rewrite set_bits_high by assumption. apply Z.div_small. exact Hb. }
  apply Z.div_small_iff in E; [| lia]. change (2 ^ Z.of_nat 8) with 256 in E.
  unfold is_byte. destruct E as [?|E]; [assumption |]. exfalso.
  rewrite set_bits_split in E.
  pose proof (Z.mod_pos_bound v (2 ^ Z.of_nat w) Hw).
  pose proof (Z.mod_pos_bound b (2 ^ Z.of_nat s) Hs).
  assert (0 ≤ b / (2 ^ Z.of_nat s * 2 ^ Z.of_nat w)) by (apply Z.div_pos; [apply Hb | lia]).
  nia.
Qed.

(** *** Fields *)

Lemma get_put_same f v m :
  field_ok (length m) f = true → get f (put f v m) = v mod 2 ^ width f.
Proof.
  intros (Hlt & Hnd & Hf)%field_ok_spec. destruct f as [offs|o s w]; cbn in *.
  - apply get_put_bytes; assumption.
  - apply Forall_cons in Hlt as [Ho _]. rewrite byte_at_insert by assumption.
    rewrite decide_True by reflexivity. apply set_bits_get.
Qed.

Lemma byte_at_put f v m j :
  field_ok (length m) f = true → j ∉ offsets f → byte_at (put f v m) j = byte_at m j.
Proof.
  intros (Hlt & Hnd & Hf)%field_ok_spec Hj. destruct f as [offs|o s w]; cbn in *.
  - apply byte_at_put_bytes; assumption.
  - apply Forall_cons in Hlt as [Ho _]. rewrite byte_at_insert by assumption.
    rewrite decide_False; [reflexivity |]. apply not_elem_of_cons in Hj as [? _]. congruence.
Qed.

Lemma get_ext f m m' :
  (∀ o, o ∈ offsets f → byte_at m o = byte_at m' o) → get f m = get f m'.
Proof.
  destruct f as [offs|o s w]; cbn; intros H.
  - apply get_bytes_ext, H.
  - rewrite H by (apply elem_of_cons; left; reflexivity). reflexivity.
Qed.

Lemma get_put_other f g v m :
  field_ok (length m) g = true → disjoint f g = true → get f (put g v m) = get f m.
Proof.
  intros Hg H. unfold disjoint in H. apply orb_true_iff in H as [H|H].
  - apply get_ext. intros o Ho. apply byte_at_put; [assumption |].
    exact (disjoint_offsets_spec f g H o Ho).
  - destruct f as [|o s w], g as [|o' s' w']; try discriminate.
    apply andb_true_iff in H as [->%Nat.eqb_eq Hd]. apply orb_true_iff in Hd.
    rewrite !Nat.leb_le in Hd. apply field_ok_spec in Hg as (Hlt & _ & _). cbn in *.
    apply Forall_cons in Hlt as [Ho _]. rewrite byte_at_insert by assumption.
    rewrite decide_True by reflexivity. apply set_bits_other. lia.
Qed.

(** *** Byte validity *)

Lemma byte_at_is_byte m i : Forall is_byte m → is_byte (byte_at m i).
Proof.
  intros H. unfold byte_at. destruct (m !! i) eqn:E; cbn.
  - rewrite Forall_lookup in H. eauto.
  - unfold is_byte. lia.
Qed.

Lemma put_bytes_is_byte offs v m : Forall is_byte m → Forall is_byte (put_bytes offs v m).
Proof.
  revert v. induction offs as [|o r IH]; intros v H; cbn; [assumption |].
  apply Forall_insert; [auto |]. apply Z.mod_pos_bound. lia.
Qed.

Lemma put_is_byte f v m :
  field_ok (length m) f = true → Forall is_byte m → Forall is_byte (put f v m).
Proof.
  intros (_ & _ & Hf)%field_ok_spec H. destruct f; cbn.
  - apply put_bytes_is_byte, H.
  - apply Forall_insert; [assumption |]. apply set_bits_byte; [assumption |].
    apply byte_at_is_byte, H.
Qed.

Lemma get_bytes_bound offs m :
  Forall is_byte m → 0 ≤ get_bytes offs m < 2 ^ (8 * Z.of_nat (length offs)).
Proof.
  intros H. induction offs as [|o r IH]; cbn [get_bytes length]; [cbn; lia |].
  rewrite Nat2Z.inj_succ, Z.mul_succ_r, Z.pow_add_r by lia.
  pose proof (byte_at_is_byte m o H). unfold is_byte in *. nia.
Qed.

Lemma get_bound f m : Forall is_byte m → 0 ≤ get f m < 2 ^ width f.
Proof.
  intros H. destruct f; cbn; [apply get_bytes_bound, H |].
  apply Z.mod_pos_bound, Z.pow_pos_nonneg; lia.
Qed.

(** *** Byte ranges *)

Lemma memcpy_Done m off data m' :
  memcpy m off data = Done m' →
  (off + length data ≤ length m)%nat ∧ m' = take off m ++ data ++ drop (off + length data) m.
Proof. unfold memcpy. case_decide; [intros [= <-]; auto | discriminate]. Qed.

Lemma memcpy_fits m off data :
  (off + length data ≤ length m)%nat →
  memcpy m off data = Done (take off m ++ data ++ drop (off + length data) m).
Proof. intros. unfold memcpy. rewrite decide_True by assumption. reflexivity. Qed.

Lemma length_memcpy m off data m' : memcpy m off data = Done m' → length m' = length m.
Proof.
  intros [? ->]%memcpy_Done. rewrite !length_app, length_take, length_drop. lia.
Qed.

Lemma lookup_memcpy m off data m' i :
  memcpy m off data = Done m' →
  m' !! i = if decide (off ≤ i < off + length data)%nat then data !! (i - off)%nat else m !! i.
Proof.
  intros [? ->]%memcpy_Done. case_decide.
  - rewrite lookup_app_r, length_take, Nat.min_l, lookup_app_l by (rewrite ?length_take; lia).
    reflexivity.
  - destruct (decide (i < off)%nat).
    + rewrite lookup_app_l, lookup_take_lt by (rewrite ?length_take; lia). reflexivity.
    + rewrite !lookup_app_r, length_take, lookup_drop by (rewrite ?length_take; lia).
      f_equal. lia.
Qed.

Lemma memcpy_slice m off data m' :
  memcpy m off data = Done m' → slice m' off (length data) = data.
Proof.
  intros H. apply list_eq. intros i. unfold slice.
  destruct (decide (i < length data)%nat).
  - rewrite lookup_take_lt, lookup_drop, (lookup_memcpy _ _ _ _ _ H) by assumption.
    rewrite decide_True by lia. f_equal. lia.
  - rewrite lookup_take_ge, lookup_ge_None_2 by lia. reflexivity.
Qed.

(** The field touches no byte of [off .. off + len). *)
Definition outside (f : field) (off len : nat) : bool :=
  forallb (fun o => Nat.ltb o off || Nat.leb (off + len) o) (offsets f).

Lemma outside_spec f off len o :
  outside f off len = true → o ∈ offsets f → (o < off ∨ off + len ≤ o)%nat.
Proof.
  unfold outside. rewrite forallb_forall. intros H Ho. apply list_elem_of_In in Ho.
  apply H in Ho. apply orb_true_iff in Ho. rewrite Nat.ltb_lt, Nat.leb_le in Ho. exact Ho.
Qed.

Lemma get_memcpy f m off data m' :
  memcpy m off data = Done m' → outside f off (length data) = true → get f m' = get f m.
Proof.
  intros Hm Hf. apply get_ext. intros o Ho. unfold byte_at.
  rewrite (lookup_memcpy _ _ _ _ _ Hm). apply (outside_spec _ _ _ _ Hf) in Ho.
  rewrite decide_False by lia. reflexivity.
Qed.

Lemma lookup_put f v m i : i ∉ offsets f → put f v m !! i = m !! i.
Proof.
  destruct f as [offs|o s w]; cbn.
  - revert v. induction offs as [|o r IH]; intros v Hi; cbn; [done |].
    apply not_elem_of_cons in Hi as [? ?]. rewrite list_lookup_insert_ne by congruence. auto.
  - intros Hi. apply not_elem_of_cons in Hi as [? _].
    rewrite list_lookup_insert_ne by congruence. reflexivity.
Qed.

Lemma slice_put f v m off len :
  outside f off len = true → slice (put f v m) off len = slice m off len.
Proof.
  intros Hf. apply list_eq. intros i. unfold slice. rewrite !lookup_take, !lookup_drop.
  case_decide; [| reflexivity]. apply lookup_put. intros Ho.
  apply (outside_spec _ _ _ _ Hf) in Ho. lia.
Qed.

Lemma length_slice m off len : length (slice m off len) = Nat.min len (length m - off).
Proof. unfold slice. rewrite length_take, length_drop. reflexivity. Qed.

Lemma slice_is_byte m off len : Forall is_byte m → Forall is_byte (slice m off len).
Proof. intros. unfold slice. apply Forall_take, Forall_drop. assumption. Qed.

(** *** Writing a little-endian word twice, or writing back what was read *)

Lemma put_le16_eq o v m : put (le16 o) v m = <[o := v mod 256]> (<[S o := v / 256 mod 256]> m).
Proof. reflexivity. Qed.

Lemma put_le16_twice o v w m : put (le16 o) v (put (le16 o) w m) = put (le16 o) v m.
Proof.
  rewrite !put_le16_eq. rewrite (list_insert_insert_ne _ (S o) o) by lia.
  rewrite !list_insert_insert_eq. reflexivity.
Qed.

Lemma insert_byte_at m i : <[i := byte_at m i]> m = m.
Proof.
  unfold byte_at. destruct (m !! i) eqn:E; cbn; [apply list_insert_id; exact E |].
  apply list_insert_ge, lookup_ge_None, E.
Qed.

Lemma put_le16_get o m : Forall is_byte m → put (le16 o) (get (le16 o) m) m = m.
Proof.
  intros H. rewrite put_le16_eq. unfold get, le16, get_bytes.
  pose proof (byte_at_is_byte m o H) as B0. pose proof (byte_at_is_byte m (S o) H) as B1. unfold is_byte in *.
  replace ((byte_at m o + 256 * (byte_at m (S o) + 256 * 0)) / 256 mod 256) with (byte_at m (S o)) by word_lia.
  replace ((byte_at m o + 256 * (byte_at m (S o) + 256 * 0)) mod 256) with (byte_at m o) by word_lia.
  rewrite (insert_byte_at m (S o)). apply insert_byte_at.
Qed.
