(* ===== verification/Inet.v ===== *)
(** * Dotted-quad addresses

    [inet_ntop] and [inet_pton] of <arpa/inet.h> for AF_INET, as the packet
    classes use them: an address is the 32-bit number a.b.c.d with a in the
    most significant byte (the network-order bytes in the header). [inet_pton]
    accepts exactly four decimal numbers up to 255 without leading zeros and
    leaves its destination alone otherwise. *)
From Stdlib Require Import Ascii.
From stdpp Require Import pretty.
From S2P Require Import Prelude.

Local Open Scope string_scope.
Local Open Scope Z_scope.

Definition octet (a : Z) (i : Z) : Z := a / 2 ^ (8 * i) mod 256.

Definition octet_to_string (b : Z) : string := pretty (Z.to_N b).

Definition inet_ntop (a : Z) : string :=
  octet_to_string (octet a 3) +:+ "."%string +:+ octet_to_string (octet a 2) +:+ "."%string
  +:+ octet_to_string (octet a 1) +:+ "."%string +:+ octet_to_string (octet a 0).

(** The scanner: the octets completed so far, and the current one once a digit was seen. *)
Record pton_state := { pton_done : list Z; pton_current : option Z }.

Definition digit_value (c : ascii) : option Z :=
  let n := Z.of_nat (nat_of_ascii c) in
  if (48 <=? n) && (n <=? 57) then Some (n - 48) else None.

Definition pton_step (st : option pton_state) (c : ascii) : option pton_state :=
  st ← st;
  match digit_value c, pton_current st with
  | Some d, None =>
      if Nat.leb 4 (length (pton_done st)) then None
      else Some {| pton_done := pton_done st; pton_current := Some d |}
  | Some d, Some cur =>
      if (cur =? 0) || (255 <? 10 * cur + d) then None
      else Some {| pton_done := pton_done st; pton_current := Some (10 * cur + d) |}
  | None, Some cur =>
      if Ascii.eqb c "."%char && negb (Nat.leb 3 (length (pton_done st)))
      then Some {| pton_done := (pton_done st ++ [cur])%list; pton_current := None |}
      else None
  | None, None => None
  end.

Definition inet_pton (s : string) : option Z :=
  match foldl pton_step (Some {| pton_done := []; pton_current := None |}) (String.list_ascii_of_string s) with
  | Some {| pton_done := [a; b; c]; pton_current := Some d |} => Some (((a * 256 + b) * 256 + c) * 256 + d)
  | _ => None
  end.

Lemma list_ascii_app s t :
  String.list_ascii_of_string (s +:+ t)
  = (String.list_ascii_of_string s ++ String.list_ascii_of_string t)%list.
Proof. induction s as [|c s IH]; [reflexivity |]. simpl. rewrite <- IH. reflexivity. Qed.

(** What the scanner does with a run of digits depends on the completed octets only
    through their number. *)
Definition digit_step (cur : option Z) (c : ascii) : option Z :=
  d ← digit_value c;
  match cur with
  | None => Some d
  | Some cur => if (cur =? 0) || (255 <? 10 * cur + d) then None else Some (10 * cur + d)
  end.

Fixpoint digit_run (cur : option Z) (cs : list ascii) : option (option Z) :=
  match cs with
  | [] => Some cur
  | c :: cs => n ← digit_step cur c; digit_run (Some n) cs
  end.

Lemma pton_digits l cs cur res :
  (length l < 4)%nat → digit_run cur cs = Some res →
  foldl pton_step (Some {| pton_done := l; pton_current := cur |}) cs
  = Some {| pton_done := l; pton_current := res |}.
Proof.
  intros Hl. revert cur. induction cs as [|c cs IH]; intros cur; cbn -[Nat.leb].
  { intros [= ->]. reflexivity. }
  unfold digit_step. destruct (digit_value c) as [d|]; cbn -[Nat.leb]; [| discriminate].
  destruct cur as [cur|].
  - destruct ((cur =? 0) || (255 <? 10 * cur + d)); cbn -[Nat.leb]; [discriminate | apply IH].
  - rewrite (proj2 (Nat.leb_gt 4 (length l))) by lia. apply IH.
Qed.

Lemma digit_run_octet b :
  0 ≤ b < 256 → digit_run None (String.list_ascii_of_string (octet_to_string b)) = Some (Some b).
Proof.
  intros Hb.
  assert (forallb (fun b => bool_decide
    (digit_run None (String.list_ascii_of_string (octet_to_string b)) = Some (Some b)))
    (seqZ 0 256) = true) as H by (vm_compute; reflexivity).
  rewrite forallb_forall in H. specialize (H b).
  apply (bool_decide_eq_true_1 _), H, list_elem_of_In, elem_of_seqZ. lia.
Qed.

(** The scanner consumes the printed form of one octet. *)
Lemma pton_octet b l :
  0 ≤ b < 256 → (length l < 4)%nat →
  foldl pton_step (Some {| pton_done := l; pton_current := None |})
    (String.list_ascii_of_string (octet_to_string b))
  = Some {| pton_done := l; pton_current := Some b |}.
Proof. intros. apply pton_digits; [assumption |]. apply digit_run_octet. assumption. Qed.

Lemma pton_dot l b :
  (length l < 3)%nat →
  pton_step (Some {| pton_done := l; pton_current := Some b |}) "."%char
  = Some {| pton_done := (l ++ [b])%list; pton_current := None |}.
Proof.
  intros H. unfold pton_step. cbn -[Nat.leb]. rewrite (proj2 (Nat.leb_gt 3 (length l))) by lia.
  reflexivity.
Qed.

Lemma octet_range a i : 0 ≤ octet a i < 256.
Proof. apply Z.mod_pos_bound. lia. Qed.

Lemma octets_combine a :
  is_u32 a → ((octet a 3 * 256 + octet a 2) * 256 + octet a 1) * 256 + octet a 0 = a.
Proof.
  intros H. unfold octet. change (8 * 3) with 24. change (8 * 2) with 16.
  change (8 * 1) with 8. change (8 * 0) with 0. word_lia.
Qed.

Lemma inet_pton_ntop a : is_u32 a → inet_pton (inet_ntop a) = Some a.
Proof.
  intros Ha. unfold inet_pton, inet_ntop. rewrite !list_ascii_app, !foldl_app.
  change (String.list_ascii_of_string "."%string) with ["."%char].
  repeat (rewrite pton_octet by (first [apply octet_range | cbn; lia]); cbn [foldl];
          try (rewrite pton_dot by (cbn; lia)); cbn [app]).
  rewrite octets_combine by assumption. reflexivity.
Qed.

(** ** inet_aton (glibc): one to four numbers in decimal, octal or hexadecimal *)

Definition hex_value (c : ascii) : option Z :=
  let n := Z.of_nat (nat_of_ascii c) in
  match digit_value c with
  | Some d => Some d
  | None =>
      if (97 <=? n) && (n <=? 102) then Some (n - 87)
      else if (65 <=? n) && (n <=? 70) then Some (n - 55)
      else None
  end.

Definition value_in (base : Z) (c : ascii) : option Z :=
  d ← hex_value c; if d <? base then Some d else None.

(** The digits of [strtoul]; the rest starts at the first character that is no digit. *)
Fixpoint scan_digits (base acc : Z) (cs : list ascii) : Z * list ascii :=
  match cs with
  | c :: r => match value_in base c with
              | Some d => scan_digits base (base * acc + d) r
              | None => (acc, cs)
              end
  | [] => (acc, [])
  end.

(** [strtoul(cp, &endp, 0)] on a string that starts with a digit. *)
Definition strtoul (cs : list ascii) : Z * list ascii :=
  match cs with
  | "0"%char :: "x"%char :: ((c :: _) as r) | "0"%char :: "X"%char :: ((c :: _) as r) =>
      match hex_value c with Some _ => scan_digits 16 0 r | None => scan_digits 8 0 cs end
  | "0"%char :: _ => scan_digits 8 0 cs
  | _ => scan_digits 10 0 cs
  end.

Definition is_space (c : ascii) : bool :=
  let n := nat_of_ascii c in Nat.eqb n 32 || (Nat.leb 9 n && Nat.leb n 13).

(** The numbers of the address, at most [n] of them. *)
Fixpoint aton_parts (n : nat) (cs : list ascii) : option (list Z) :=
  match n, cs with
  | S n, c :: _ =>
      _ ← digit_value c;
      let '(val, rest) := strtoul cs in
      if 4294967295 <? val then None else
      match rest with
      | "."%char :: rest => if 255 <? val then None else cons val <$> aton_parts n rest
      | c :: _ => if is_space c then Some [val] else None
      | [] => Some [val]
      end
  | _, _ => None
  end.

(** The last number fills the bytes the ones before it left over. *)
Definition inet_aton (s : string) : option Z :=
  match aton_parts 4 (String.list_ascii_of_string s) with
  | Some [a] => Some a
  | Some [a; b] => if 16777215 <? b then None else Some (a * 2 ^ 24 + b)
  | Some [a; b; c] => if 65535 <? c then None else Some (a * 2 ^ 24 + b * 2 ^ 16 + c)
  | Some [a; b; c; d] => if 255 <? d then None else Some (a * 2 ^ 24 + b * 2 ^ 16 + c * 2 ^ 8 + d)
  | _ => None
  end.

Definition stops (rest : list ascii) : Prop := rest = [] ∨ ∃ r, rest = "."%char :: r.

Lemma scan_digits_app base acc cs v rest :
  stops rest → scan_digits base acc cs = (v, []) → scan_digits base acc (cs ++ rest)%list = (v, rest).
Proof.
  intros Hr. revert acc. induction cs as [|c cs IH]; intros acc; cbn [scan_digits app].
  - intros [= ->]. destruct Hr as [-> | [r ->]]; [reflexivity |]. reflexivity.
  - destruct (value_in base c); [apply IH | discriminate].
Qed.

(** The printed form of an octet is "0" or starts with another digit. *)
Definition octet_text_ok (b : Z) : bool :=
  match String.list_ascii_of_string (octet_to_string b) with
  | c :: r => bool_decide (digit_value c ≠ None)
              && (if Ascii.eqb c "0"%char then bool_decide (r = [] ∧ b = 0)
                  else bool_decide (scan_digits 10 0 (c :: r) = (b, [])))
  | [] => false
  end.

Lemma octet_text b : 0 ≤ b < 256 → octet_text_ok b = true.
Proof.
  intros Hb. assert (forallb octet_text_ok (seqZ 0 256) = true) as H by (vm_compute; reflexivity).
  rewrite forallb_forall in H. apply H, list_elem_of_In, elem_of_seqZ. lia.
Qed.

Lemma strtoul_octet b rest :
  0 ≤ b < 256 → stops rest →
  ∃ c r, String.list_ascii_of_string (octet_to_string b) = c :: r ∧ digit_value c ≠ None
         ∧ strtoul (c :: r ++ rest)%list = (b, rest).
Proof.
  intros Hb Hr. pose proof (octet_text b Hb) as H. unfold octet_text_ok in H.
  destruct (String.list_ascii_of_string (octet_to_string b)) as [|c r]; [discriminate |].
  exists c, r. apply andb_true_iff in H as [Hd%bool_decide_eq_true H].
  split; [reflexivity |]. split; [exact Hd |]. destruct (Ascii.eqb_spec c "0"%char) as [->|Hc].
  - apply bool_decide_eq_true in H as [-> ->]. destruct Hr as [-> | [r ->]]; reflexivity.
  - apply bool_decide_eq_true in H.
    pose proof (scan_digits_app 10 0 (c :: r) b rest Hr H) as E. rewrite <- E. cbn [app].
    destruct c as [[] [] [] [] [] [] [] []]; try reflexivity. congruence.
Qed.

Lemma aton_parts_last n b :
  0 ≤ b < 256 → aton_parts (S n) (String.list_ascii_of_string (octet_to_string b)) = Some [b].
Proof.
  intros Hb. destruct (strtoul_octet b [] Hb (or_introl eq_refl)) as (c & r & -> & Hd & E).
  rewrite app_nil_r in E. cbn [aton_parts]. destruct (digit_value c); [| congruence].
  cbn [mbind option_bind]. rewrite E, (proj2 (Z.ltb_ge _ _)) by lia. reflexivity.
Qed.

Lemma aton_parts_dot n b cs :
  0 ≤ b < 256 →
  aton_parts (S n) (String.list_ascii_of_string (octet_to_string b) ++ "."%char :: cs)%list
  = cons b <$> aton_parts n cs.
Proof.
  intros Hb.
  destruct (strtoul_octet b ("."%char :: cs) Hb) as (c & r & -> & Hd & E); [right; eauto |].
  cbn [aton_parts app]. destruct (digit_value c); [| congruence]. cbn [mbind option_bind].
  rewrite E, !(proj2 (Z.ltb_ge _ _)) by lia. reflexivity.
Qed.

Lemma inet_aton_ntop a : is_u32 a → inet_aton (inet_ntop a) = Some a.
Proof.
  intros Ha. unfold inet_aton, inet_ntop. rewrite !list_ascii_app.
  change (String.list_ascii_of_string "."%string) with ["."%char]. cbn [app].
  rewrite !aton_parts_dot, aton_parts_last by apply octet_range. cbn [fmap option_fmap option_map].
  rewrite (proj2 (Z.ltb_ge _ _)) by (pose proof (octet_range a 0); lia).
  rewrite <- (octets_combine a Ha) at 5. f_equal. lia.
Qed.
