(* ===== verification/AddressPort.v ===== *)
(** * class AddressPort (transport/src/AddressPort.cc)

    An address in dotted form, a port, and the [sockaddr_in] built from them. *)
From Stdlib Require Import Ascii String.
From stdpp Require Import pretty strings.
From S2P Require Import Prelude Inet.

Record sockaddr_in := { sin_addr : Z; sin_port : Z }.

Record address_port := { address_ : string; port_ : Z; data_ : sockaddr_in }.

#[export] Instance sockaddr_in_eq_dec : EqDecision sockaddr_in.
Proof. solve_decision. Defined.
#[export] Instance address_port_eq_dec : EqDecision address_port.
Proof. solve_decision. Defined.

(** The constructors; [init] throws InvalidAddressException for an address that
    [inet_aton] rejects. *)
Definition new_AddressPort (address : string) (port : Z) : outcome address_port :=
  match inet_aton address with
  | Some a => Done {| address_ := address; port_ := u16 port; data_ := {| sin_addr := a; sin_port := u16 port |} |}
  | None => Fault InvalidAddressException
  end.

Definition AddressPort_of_sockaddr (obj : sockaddr_in) : address_port :=
  {| address_ := inet_ntop (sin_addr obj); port_ := u16 (sin_port obj); data_ := obj |}.

Definition get_address (a : address_port) : string := address_ a.
Definition get_port (a : address_port) : Z := port_ a.
Definition get_network_struct (a : address_port) : sockaddr_in := data_ a.

(** [operator==]: the texts and the ports. *)
Definition equal (a b : address_port) : bool :=
  String.eqb (address_ a) (address_ b) && (port_ a =? port_ b).

Definition port_text (port : Z) : string := pretty (Z.to_N port).

(** [sprintf(buffer, "%hu %s", port, address)] *)
Definition to_s (a : address_port) : string := (port_text (port_ a) +:+ " " +:+ address_ a)%string.

Definition default_address_port : address_port :=
  {| address_ := "0.0.0.0"; port_ := 0; data_ := {| sin_addr := 0; sin_port := 0 |} |}.

(** AddressPortComparator *)
Definition comparator (ap1 ap2 : address_port) : bool := String.ltb (to_s ap1) (to_s ap2).

(** ** Properties *)

Definition wf (a : address_port) : Prop := is_u16 (port_ a).

Lemma new_AddressPort_default : new_AddressPort "0.0.0.0" 0 = Done default_address_port.
Proof. reflexivity. Qed.

Lemma new_AddressPort_ntop a port :
  is_u32 a → new_AddressPort (inet_ntop a) port = Done (AddressPort_of_sockaddr {| sin_addr := a; sin_port := u16 port |}).
Proof.
  intros. unfold new_AddressPort, AddressPort_of_sockaddr. rewrite inet_aton_ntop by assumption.
  cbn [sin_addr sin_port]. rewrite (u16_small (u16 port)) by apply u16_range. reflexivity.
Qed.

Lemma port_text_inj p q : 0 ≤ p → 0 ≤ q → port_text p = port_text q → p = q.
Proof. unfold port_text. intros ?? E%(inj pretty). lia. Qed.

(** *** The text of an address-port *)

(** A decimal number's text holds digits only. *)
Definition is_digit (c : ascii) : bool := if digit_value c is Some _ then true else false.

Lemma pretty_N_go_digits x s :
  (∃ l, String.list_ascii_of_string s = l ∧ forallb is_digit l = true) →
  forallb is_digit (String.list_ascii_of_string (pretty_N_go x s)) = true.
Proof.
  revert s. induction (N.lt_wf_0 x) as [x _ IH]. intros s (l & Hs & Hl).
  destruct (decide (x = 0)%N) as [->|Hx].
  - rewrite pretty_N_go_0. rewrite Hs. exact Hl.
  - rewrite pretty_N_go_step by lia. apply IH; [apply N.div_lt; lia |].
    eexists. split; [reflexivity |]. cbn [String.list_ascii_of_string forallb]. rewrite Hs, Hl, andb_true_r.
    assert (x mod 10 < 10)%N as Hm by (apply N.mod_lt; lia).
    destruct (x mod 10)%N as [|p]; [reflexivity |].
    do 4 (destruct p as [p|p|]; try reflexivity; try lia).
Qed.

Lemma port_text_digits p : forallb is_digit (String.list_ascii_of_string (port_text p)) = true.
Proof.
  unfold port_text, pretty, pretty_N. case_decide; [reflexivity |]. apply pretty_N_go_digits.
  exists []. split; reflexivity.
Qed.

Lemma digits_space_split (l1 l2 r1 r2 : list ascii) :
  forallb is_digit l1 = true → forallb is_digit l2 = true →
  (l1 ++ " "%char :: r1 = l2 ++ " "%char :: r2)%list → l1 = l2 ∧ r1 = r2.
Proof.
  revert l2. induction l1 as [|c l1 IH]; intros [|c' l2] H1 H2 E; cbn in *.
  - injection E as ->. auto.
  - injection E as <- _. discriminate H2.
  - injection E as -> _. discriminate H1.
  - apply andb_true_iff in H1 as [_ H1]. apply andb_true_iff in H2 as [_ H2].
    injection E as -> E. destruct (IH l2 H1 H2 E) as [-> ->]. auto.
Qed.

Lemma list_ascii_inj s t : String.list_ascii_of_string s = String.list_ascii_of_string t → s = t.
Proof.
  intros E. rewrite <- (String.string_of_list_ascii_of_string s), E.
  apply String.string_of_list_ascii_of_string.
Qed.

Lemma to_s_ascii a :
  String.list_ascii_of_string (to_s a)
  = (String.list_ascii_of_string (port_text (port_ a)) ++ " "%char :: String.list_ascii_of_string (address_ a))%list.
Proof. unfold to_s. rewrite !list_ascii_app. reflexivity. Qed.

(** [to_s] separates exactly the address-ports that [operator==] separates. *)
Lemma to_s_inj a b : wf a → wf b → to_s a = to_s b → equal a b = true.
Proof.
  unfold wf, is_u16. intros Ha Hb E. apply (f_equal String.list_ascii_of_string) in E.
  rewrite !to_s_ascii in E. apply digits_space_split in E as [Ep Ea];
    [| apply port_text_digits | apply port_text_digits].
  apply list_ascii_inj in Ep, Ea. apply port_text_inj in Ep; [| lia | lia].
  unfold equal. rewrite Ea, Ep, String.eqb_refl, Z.eqb_refl. reflexivity.
Qed.

Lemma equal_to_s a b : equal a b = true → to_s a = to_s b.
Proof.
  unfold equal, to_s. intros H. apply andb_true_iff in H as [Ha%String.eqb_eq Hp%Z.eqb_eq].
  rewrite Ha, Hp. reflexivity.
Qed.
