(* ===== verification/Sockets.v ===== *)
(** * class Socket, class SocketCollection and its visitors

    transport/src/Socket.cc, SocketCollection.cc, SocketOptions.cc and
    transport/src/visitors/: sockets live in a heap, the collection maps a
    socket's key (the texts of its two address-ports) to a pointer. A socket is
    observed by the collection once it was pushed: changing one of its
    address-ports runs [SocketCollection::update]. The mutexes only make the
    collection's methods atomic. *)
From Stdlib Require Import String.
From stdpp Require Import gmap strings sorting.
From S2P Require Import Prelude Inet AddressPort.

(** ** SocketOptions: (level, name) to (value, length of value) *)

Abbreviation socket_options := (gmap (Z * Z) (list Z * Z)).

Definition options_insert (key : Z * Z) (value : list Z * Z) (m : socket_options) : socket_options := <[key := value]> m.
Definition options_get (key : Z * Z) (m : socket_options) : list Z * Z := default ([], 0) (m !! key).
Definition options_remove (key : Z * Z) (m : socket_options) : socket_options := delete key m.

(** ** Socket *)

Record socket := {
  socket_ : Z;
  second_socket_ : Z;
  domain_ : Z;
  type_ : Z;
  protocol_ : Z;
  local_ : option address_port;
  remote_ : address_port;
  is_passive_ : bool;
  receive_buffer_ : list Z;
  send_buffer_ : list Z;
  resend_buffer_ : list Z;
  socket_options_ : socket_options;
  observed_ : bool }.

(** [Socket(socket, domain, type, protocol, local, remote)] *)
Definition new_Socket (id domain type protocol : Z) (local remote : address_port) : socket :=
  {| socket_ := id; second_socket_ := 0; domain_ := domain; type_ := type; protocol_ := protocol;
     local_ := Some local; remote_ := remote; is_passive_ := false; receive_buffer_ := []; send_buffer_ := [];
     resend_buffer_ := []; socket_options_ := ∅; observed_ := false |}.

Definition get_socket_id (s : socket) : Z := socket_ s.
Definition get_second_socket_id (s : socket) : Z := second_socket_ s.
Definition get_domain (s : socket) : Z := domain_ s.
Definition get_type (s : socket) : Z := type_ s.
Definition get_protocol (s : socket) : Z := protocol_ s.
Definition is_passive (s : socket) : bool := is_passive_ s.
Definition get_local_address_port (s : socket) : outcome address_port :=
  match local_ s with Some a => Done a | None => Fault AssertionFailure end.
Definition get_remote_address_port (s : socket) : address_port := remote_ s.
Definition get_receive_buffer (s : socket) : list Z := receive_buffer_ s.
Definition get_send_buffer (s : socket) : list Z := send_buffer_ s.
Definition get_resend_buffer (s : socket) : list Z := resend_buffer_ s.
Definition get_socket_options (s : socket) : socket_options := socket_options_ s.

Definition set_second_socket_id (n : Z) (s : socket) : socket :=
  {| socket_ := socket_ s; second_socket_ := n; domain_ := domain_ s; type_ := type_ s; protocol_ := protocol_ s;
     local_ := local_ s; remote_ := remote_ s; is_passive_ := is_passive_ s; receive_buffer_ := receive_buffer_ s;
     send_buffer_ := send_buffer_ s; resend_buffer_ := resend_buffer_ s; socket_options_ := socket_options_ s;
     observed_ := observed_ s |}.
Definition make_passive (s : socket) : socket :=
  {| socket_ := socket_ s; second_socket_ := second_socket_ s; domain_ := domain_ s; type_ := type_ s; protocol_ := protocol_ s;
     local_ := local_ s; remote_ := remote_ s; is_passive_ := true; receive_buffer_ := receive_buffer_ s;
     send_buffer_ := send_buffer_ s; resend_buffer_ := resend_buffer_ s; socket_options_ := socket_options_ s;
     observed_ := observed_ s |}.
Definition with_addresses (local : option address_port) (remote : address_port) (s : socket) : socket :=
  {| socket_ := socket_ s; second_socket_ := second_socket_ s; domain_ := domain_ s; type_ := type_ s; protocol_ := protocol_ s;
     local_ := local; remote_ := remote; is_passive_ := is_passive_ s; receive_buffer_ := receive_buffer_ s;
     send_buffer_ := send_buffer_ s; resend_buffer_ := resend_buffer_ s; socket_options_ := socket_options_ s;
     observed_ := observed_ s |}.
Definition with_buffers (receive send : list Z) (s : socket) : socket :=
  {| socket_ := socket_ s; second_socket_ := second_socket_ s; domain_ := domain_ s; type_ := type_ s; protocol_ := protocol_ s;
     local_ := local_ s; remote_ := remote_ s; is_passive_ := is_passive_ s; receive_buffer_ := receive;
     send_buffer_ := send; resend_buffer_ := resend_buffer_ s; socket_options_ := socket_options_ s;
     observed_ := observed_ s |}.
Definition with_options (o : socket_options) (s : socket) : socket :=
  {| socket_ := socket_ s; second_socket_ := second_socket_ s; domain_ := domain_ s; type_ := type_ s; protocol_ := protocol_ s;
     local_ := local_ s; remote_ := remote_ s; is_passive_ := is_passive_ s; receive_buffer_ := receive_buffer_ s;
     send_buffer_ := send_buffer_ s; resend_buffer_ := resend_buffer_ s; socket_options_ := o;
     observed_ := observed_ s |}.
(** [add_observer(collection)] *)
Definition add_observer (s : socket) : socket :=
  {| socket_ := socket_ s; second_socket_ := second_socket_ s; domain_ := domain_ s; type_ := type_ s; protocol_ := protocol_ s;
     local_ := local_ s; remote_ := remote_ s; is_passive_ := is_passive_ s; receive_buffer_ := receive_buffer_ s;
     send_buffer_ := send_buffer_ s; resend_buffer_ := resend_buffer_ s; socket_options_ := socket_options_ s;
     observed_ := true |}.

Definition make_key (local remote : address_port) : string := (to_s local +:+ to_s remote)%string.
Definition get_key (s : socket) : outcome string :=
  local ← get_local_address_port s; mret (make_key local (get_remote_address_port s)).

(** ** SocketCollection *)

Abbreviation heap := (gmap nat socket).
Abbreviation collection := (gmap string nat).

(** The order in which the std::map is traversed. *)
Definition key_le (a b : string * nat) : Prop := String.leb (fst a) (fst b) = true.
#[export] Instance key_le_dec : RelDecision key_le := fun a b => bool_eq_dec _ _.
Definition traversal (c : collection) : list (string * nat) := merge_sort key_le (map_to_list c).

(** [accept(visitor)] for a visitor that keeps the first socket it likes. *)
Fixpoint visit (likes : socket → outcome bool) (h : heap) (l : list (string * nat)) : outcome (option nat) :=
  match l with
  | [] => mret None
  | (_, p) :: l =>
      s ← deref (h !! p);
      b ← likes s;
      if (b : bool) then mret (Some p) else visit likes h l
  end.

Definition accept (likes : socket → outcome bool) (h : heap) (c : collection) : outcome (option nat) :=
  visit likes h (traversal c).

(** SocketCollectionGetByIdVisitor: the int is compared as unsigned. *)
Definition get_by_id (id : Z) : heap → collection → outcome (option nat) :=
  accept (fun s => mret (get_socket_id s =? u32 id)).

(** SocketCollectionGetByLocalAddressPortVisitor: the same port, and the same address or
    a socket bound to every address. *)
Definition matches_local (local : address_port) (s : socket) : outcome bool :=
  a ← get_local_address_port s;
  mret ((get_port local =? get_port a)
        && (String.eqb (get_address local) (get_address a) || String.eqb (get_address a) "0.0.0.0"%string)).
Definition get_by_local_ap (local : address_port) : heap → collection → outcome (option nat) :=
  accept (matches_local local).

Definition get_by_local_and_remote_ap (local remote : address_port) (c : collection) : option nat :=
  c !! make_key local remote.

(** AlreadyBoundToAddressPortVisitor, AlreadyListeningOnSamePortVisitor *)
Definition is_bound (ap : address_port) (h : heap) (c : collection) : outcome bool :=
  r ← accept (fun s => a ← get_local_address_port s; mret (equal a ap)) h c;
  mret (match r with Some _ => true | None => false end).
Definition is_listening (port : Z) (h : heap) (c : collection) : outcome bool :=
  r ← accept (fun s => if is_passive s then a ← get_local_address_port s; mret (get_port a =? port) else mret false) h c;
  mret (match r with Some _ => true | None => false end).

Definition push (p : nat) (h : heap) (c : collection) : outcome (heap * collection) :=
  s ← deref (h !! p);
  let h := <[p := add_observer s]> h in
  k ← get_key s;
  mret (h, <[k := p]> c).

(** The first entry that holds the pointer. *)
Fixpoint find_pointer (p : nat) (l : list (string * nat)) : option string :=
  match l with
  | [] => None
  | (k, q) :: l => if Nat.eqb p q then Some k else find_pointer p l
  end.

(** [remove(s)]: the entry under the socket's key, else the first that holds the pointer. *)
Definition remove (p : nat) (h : heap) (c : collection) : outcome collection :=
  s ← deref (h !! p);
  k ← get_key s;
  mret (match c !! k with
        | Some _ => delete k c
        | None => match find_pointer p (traversal c) with Some k' => delete k' c | None => c end
        end).

Definition size (c : collection) : nat := base.size c.
Definition clear (c : collection) : collection := ∅.

(** [update(o)], which a change of an observed socket calls. *)
Definition update (p : nat) (h : heap) (c : collection) : outcome (heap * collection) :=
  c ← remove p h c; push p h c.

Definition notify (p : nat) (h : heap) (c : collection) : outcome (heap * collection) :=
  s ← deref (h !! p); if observed_ s then update p h c else mret (h, c).

Definition set_local_address_port (local : address_port) (p : nat) (h : heap) (c : collection)
  : outcome (heap * collection) :=
  s ← deref (h !! p); notify p (<[p := with_addresses (Some local) (remote_ s) s]> h) c.

Definition set_remote_address_port (remote : address_port) (p : nat) (h : heap) (c : collection)
  : outcome (heap * collection) :=
  s ← deref (h !! p); notify p (<[p := with_addresses (local_ s) remote s]> h) c.

(** ** Keys *)

(** For one local address-port, [get_key] separates remote address-ports that
    [operator==] separates, and the other way round. *)
Theorem make_key_remote_inj local remote remote' :
  AddressPort.wf remote → AddressPort.wf remote' →
  make_key local remote = make_key local remote' ↔ equal remote remote' = true.
Proof.
  intros H H'. unfold make_key. split.
  - intros E. apply to_s_inj; [assumption | assumption |].
    apply (f_equal String.list_ascii_of_string) in E. rewrite !list_ascii_app in E.
    apply app_inv_head in E. apply list_ascii_inj, E.
  - intros E. rewrite (equal_to_s _ _ E). reflexivity.
Qed.

(** Different local address-ports can share a key: the last digits of the local address and
    the first of the remote port run together. *)
Definition address_port_of (a : Z) (p : Z) : address_port := AddressPort_of_sockaddr {| sin_addr := a; sin_port := p |}.

Lemma make_key_not_injective :
  make_key (address_port_of 16909060 80) (address_port_of 84281096 56)
  = make_key (address_port_of 16909101 80) (address_port_of 84281096 6).
Proof. vm_compute. reflexivity. Qed.

Lemma make_key_remote_inj_witness :
  AddressPort.wf default_address_port ∧
  (make_key default_address_port default_address_port = make_key default_address_port default_address_port ↔
   equal default_address_port default_address_port = true).
Proof.
  assert (AddressPort.wf default_address_port) as H by (unfold AddressPort.wf, is_u16; cbn; lia).
  split; [exact H |]. apply (make_key_remote_inj default_address_port default_address_port default_address_port H H).
Defined.

(** ** The collection's invariant *)

(** Every entry is a live, observed socket under its own key. *)
Definition coherent (h : heap) (c : collection) : Prop :=
  ∀ k p, c !! k = Some p → ∃ s, h !! p = Some s ∧ get_key s = Done k ∧ observed_ s = true.

Lemma elem_of_traversal c k p : (k, p) ∈ traversal c ↔ c !! k = Some p.
Proof. unfold traversal. rewrite merge_sort_Permutation. apply elem_of_map_to_list. Qed.

Lemma find_pointer_Some p l k : find_pointer p l = Some k → (k, p) ∈ l.
Proof.
  induction l as [|[k' q] l IH]; cbn; [discriminate |].
  destruct (Nat.eqb_spec p q) as [->|]; [intros [= ->]; left | right; auto].
Qed.

Lemma find_pointer_None p l : find_pointer p l = None → ∀ k, (k, p) ∉ l.
Proof.
  induction l as [|[k' q] l IH]; cbn; [intros _ k []%not_elem_of_nil |].
  destruct (Nat.eqb_spec p q); [discriminate |]. intros H k [[= ? ?] | ?]%elem_of_cons; [congruence | eapply IH; eauto].
Qed.

(** A visitor's answer: the socket found is in the collection and liked; without one,
    nothing in the collection is liked. *)
Lemma accept_spec likes (f : socket → bool) h c :
  coherent h c → (∀ k p s, c !! k = Some p → h !! p = Some s → likes s = Done (f s)) →
  ∃ r, accept likes h c = Done r ∧
    match r with
    | Some p => ∃ k s, c !! k = Some p ∧ h !! p = Some s ∧ f s = true
    | None => ∀ k p s, c !! k = Some p → h !! p = Some s → f s = false
    end.
Proof.
  intros Hc Hl. unfold accept.
  assert (∀ k p, (k, p) ∈ traversal c → c !! k = Some p) as Hin by (intros; apply elem_of_traversal; assumption).
  assert (∀ k p, c !! k = Some p → (k, p) ∈ traversal c) as Hout by (intros; apply elem_of_traversal; assumption).
  revert Hin Hout. generalize (traversal c) as l.
  assert (∀ l, (∀ k p, (k, p) ∈ l → c !! k = Some p) → ∃ r, visit likes h l = Done r ∧
    match r with
    | Some p => ∃ k s, c !! k = Some p ∧ h !! p = Some s ∧ f s = true
    | None => ∀ k p s, (k, p) ∈ l → h !! p = Some s → f s = false
    end) as V.
  { induction l as [|[k p] l IH]; intros Hin; cbn [visit].
    { exists None. split; [reflexivity |]. intros k p s []%not_elem_of_nil. }
    assert (c !! k = Some p) as Hk by (apply Hin; left).
    destruct (Hc k p Hk) as (s & Hs & _). rewrite Hs. cbn [deref mbind outcome_bind].
    rewrite (Hl k p s Hk Hs). cbn [mbind outcome_bind]. destruct (f s) eqn:E.
    - exists (Some p). split; [reflexivity | eauto].
    - destruct IH as (r & -> & Hr); [intros; apply Hin; right; assumption |]. exists r. split; [reflexivity |].
      destruct r; [assumption |]. intros k' p' s' [[= -> ->] | Hin']%elem_of_cons Hs'; [congruence | eauto]. }
  intros l Hin Hout. destruct (V l Hin) as (r & E & Hr). exists r. split; [assumption |].
  destruct r; [assumption |]. intros. eapply Hr; eauto.
Qed.

(** The update after a key change, whichever address-port changed. *)
Lemma update_spec h c p s s' k k' :
  coherent h c → h !! p = Some s → get_key s = Done k → c !! k = Some p →
  get_key s' = Done k' → observed_ s' = true → (k' = k ∨ c !! k' = None) →
  ∃ h', notify p (<[p := s']> h) c = Done (h', <[k' := p]> (delete k c)) ∧
        coherent h' (<[k' := p]> (delete k c)) ∧ h' !! p = Some (add_observer s').
Proof.
  intros Hc Hs Hk Hp Hk' Ho Hfresh. unfold notify. rewrite lookup_insert_eq. cbn [deref mbind outcome_bind].
  rewrite Ho. unfold update, remove, push. rewrite lookup_insert_eq. cbn [deref mbind outcome_bind].
  rewrite Hk'. cbn [mbind outcome_bind mret outcome_ret].
  assert (match c !! k' with
          | Some _ => delete k' c
          | None => match find_pointer p (traversal c) with Some k'' => delete k'' c | None => c end
          end = delete k c) as ->.
  { destruct Hfresh as [-> | Hn]; [rewrite Hp; reflexivity |]. rewrite Hn.
    destruct (find_pointer p (traversal c)) as [k''|] eqn:E.
    - apply find_pointer_Some, elem_of_traversal, Hc in E as (t & Ht & Ek & _). congruence.
    - exfalso. apply (find_pointer_None _ _ E k), elem_of_traversal, Hp. }
  rewrite insert_insert_eq. eexists. split; [reflexivity |]. split; [| apply lookup_insert_eq].
  intros k1 p1 Hk1. destruct (decide (k1 = k')) as [->|Hne].
  - rewrite lookup_insert_eq in Hk1. injection Hk1 as <-. exists (add_observer s').
    split; [apply lookup_insert_eq | split; [exact Hk' | reflexivity]].
  - rewrite lookup_insert_ne, lookup_delete_Some in Hk1 by congruence. destruct Hk1 as [Hne' Hk1].
    destruct (Hc k1 p1 Hk1) as (t & Ht & Hkt & Hot). destruct (decide (p1 = p)) as [->|Hnp].
    + exfalso. apply Hne'. congruence.
    + exists t. rewrite lookup_insert_ne by congruence. auto.
Qed.

(** The collection stays an index. When an observed, registered socket changes its
    local address-port to one whose key no other socket has, every entry again is a socket
    under its own key, the socket is found under the new key, and its old entry is gone. *)
Theorem set_local_address_port_coherent h c p s k local k' :
  coherent h c → h !! p = Some s → get_key s = Done k → c !! k = Some p → observed_ s = true →
  k' = make_key local (remote_ s) → (k' = k ∨ c !! k' = None) →
  ∃ h' c', set_local_address_port local p h c = Done (h', c') ∧ coherent h' c' ∧
    get_by_local_and_remote_ap local (remote_ s) c' = Some p ∧
    (k ≠ k' → c' !! k = None) ∧ (∀ j, j ≠ k → j ≠ k' → c' !! j = c !! j).
Proof.
  intros Hc Hs Hk Hp Ho Hk' Hfresh. unfold set_local_address_port. rewrite Hs. cbn [deref mbind outcome_bind].
  destruct (update_spec h c p s (with_addresses (Some local) (remote_ s) s) k k' Hc Hs Hk Hp)
    as (h' & E & Hc' & _); [subst; reflexivity | exact Ho | exact Hfresh |].
  eexists _, _. split; [exact E |]. split; [exact Hc' |]. unfold get_by_local_and_remote_ap. rewrite <- Hk'.
  split; [apply lookup_insert_eq |]. split.
  - intros Hne. rewrite lookup_insert_ne by congruence. apply lookup_delete_eq.
  - intros j Hj Hj'. rewrite lookup_insert_ne, lookup_delete_ne by congruence. reflexivity.
Qed.

Definition sample_socket (id : Z) (local : address_port) : socket :=
  add_observer (new_Socket id 2 1 6 local default_address_port).
Definition sample_heap : heap := {[ 7%nat := sample_socket 1 default_address_port ]}.
Definition sample_collection : collection := {[ make_key default_address_port default_address_port := 7%nat ]}.

Lemma sample_coherent : coherent sample_heap sample_collection.
Proof.
  intros k p H. unfold sample_collection in H. apply lookup_singleton_Some in H as [<- <-]. eexists. split; [apply lookup_singleton_eq |]. split; reflexivity.
Qed.

Lemma set_local_address_port_coherent_witness :
  coherent sample_heap sample_collection ∧
  ∃ h' c', set_local_address_port (address_port_of 16909060 80) 7 sample_heap sample_collection = Done (h', c') ∧
    coherent h' c' ∧ get_by_local_and_remote_ap (address_port_of 16909060 80) default_address_port c' = Some 7%nat.
Proof.
  split; [exact sample_coherent |].
  destruct (set_local_address_port_coherent sample_heap sample_collection 7 (sample_socket 1 default_address_port)
    (make_key default_address_port default_address_port) (address_port_of 16909060 80)
    (make_key (address_port_of 16909060 80) default_address_port) sample_coherent) as (h' & c' & E & Hc & Hg & _).
  - reflexivity.
  - reflexivity.
  - apply lookup_singleton_eq.
  - reflexivity.
  - reflexivity.
  - right. vm_compute. reflexivity.
  - exists h', c'. auto.
Defined.

(** When the new key is another socket's, [remove] takes that socket's entry out and the
    changed socket keeps its old entry next to the new one. *)
Definition two_sockets : outcome (heap * collection) :=
  let h := {[ 1%nat := sample_socket 1 (address_port_of 16909060 80);
              2%nat := sample_socket 2 (address_port_of 16909060 81) ]} in
  '(h, c) ← push 1 h ∅; push 2 h c.

Lemma update_collision :
  ('(h, c) ← two_sockets; '(h, c) ← set_local_address_port (address_port_of 16909060 81) 1 h c;
   mret (snd <$> traversal c)) = Done [1; 1]%nat.
Proof. vm_compute. reflexivity. Qed.
