(* ===== verification/IPPacket.v ===== *)
(** * class IPPacket (transport/src/packet/IPPacket.cc)

    A packet is its payload array (all headers and data) and the flag telling
    whether the total length was set. [ip_] always points at the start of the
    array, so the [struct iphdr] fields are fields at fixed offsets. *)
From S2P Require Import Prelude HeaderMem Inet.

Definition MTU : nat := 1500.
Definition MAX_TTL : Z := 65.
(** [sizeof(struct iphdr)] and [sizeof(struct ip_pseudo_header)]. *)
Definition sizeof_iphdr : nat := 20.
Definition sizeof_ip_pseudo_header : nat := 12.

Definition f_ihl : field := Bits 0 0 4.
Definition f_version : field := Bits 0 4 4.
Definition f_tos : field := byte 1.
Definition f_tot_len : field := be16 2.
Definition f_id : field := be16 4.
Definition f_frag_off : field := be16 6.
Definition f_ttl : field := byte 8.
Definition f_protocol : field := byte 9.
Definition f_check : field := le16 10.
Definition f_saddr : field := be32 12.
Definition f_daddr : field := be32 16.

Record ip_packet := { payload_ : mem; length_set_ : bool }.

Definition with_payload (m : mem) (p : ip_packet) : ip_packet :=
  {| payload_ := m; length_set_ := length_set_ p |}.

Definition get_field (f : field) (p : ip_packet) : Z := get f (payload_ p).
Definition set_field (f : field) (v : Z) (p : ip_packet) : ip_packet :=
  with_payload (put f v (payload_ p)) p.

Definition get_ip_version := get_field f_version.
Definition set_ip_version (version : Z) := set_field f_version version.
Definition get_ip_header_length_words := get_field f_ihl.
Definition set_ip_header_length_words (ihl : Z) := set_field f_ihl ihl.
Definition get_ip_header_length_bytes (p : ip_packet) : Z := u8 (get_ip_header_length_words p * 4).
Definition get_ip_tos := get_field f_tos.
Definition set_ip_tos (tos : Z) := set_field f_tos tos.
Definition get_ip_tot_length := get_field f_tot_len.
Definition set_ip_tot_length (length : Z) (p : ip_packet) : ip_packet :=
  {| payload_ := put f_tot_len length (payload_ p); length_set_ := true |}.
Definition get_ip_identifier := get_field f_id.
Definition set_ip_identifier (identifier : Z) := set_field f_id identifier.
Definition get_ip_fragmentation_offset := get_field f_frag_off.
Definition set_ip_fragmentation_offset (frag_off : Z) := set_field f_frag_off frag_off.
Definition get_ip_ttl := get_field f_ttl.
Definition set_ip_ttl (ttl : Z) := set_field f_ttl ttl.
Definition get_ip_protocol := get_field f_protocol.
Definition set_ip_protocol (protocol : Z) := set_field f_protocol protocol.
Definition get_ip_checksum := get_field f_check.
Definition set_ip_checksum (checksum : Z) := set_field f_check checksum.
Definition get_ip_source_address := get_field f_saddr.
Definition set_ip_source_address (saddr : Z) := set_field f_saddr saddr.
Definition get_ip_destination_address := get_field f_daddr.
Definition set_ip_destination_address (daddr : Z) := set_field f_daddr daddr.

Definition get_ip_source_address_s (p : ip_packet) : string := inet_ntop (get_ip_source_address p).
Definition set_ip_source_address_s (saddr : string) (p : ip_packet) : ip_packet :=
  match inet_pton saddr with Some a => set_ip_source_address a p | None => p end.
Definition get_ip_destination_address_s (p : ip_packet) : string :=
  inet_ntop (get_ip_destination_address p).
Definition set_ip_destination_address_s (daddr : string) (p : ip_packet) : ip_packet :=
  match inet_pton daddr with Some a => set_ip_destination_address a p | None => p end.

(** Offset of the byte after the IP header. *)
Definition get_next_header (p : ip_packet) : nat := Z.to_nat (get_ip_header_length_bytes p).
Definition get_data := get_next_header.
Definition get_data_length_bytes (p : ip_packet) : Z :=
  get_ip_tot_length p - get_ip_header_length_bytes p.

(** Copies [data] after the given header offset. *)
Definition copy_in (off : nat) (data : list Z) (p : ip_packet) : outcome ip_packet :=
  m ← memcpy (payload_ p) off data; mret (with_payload m p).

Definition set_data (data : list Z) (p : ip_packet) : outcome ip_packet :=
  p ← copy_in (get_data p) data p;
  mret (set_ip_tot_length (get_ip_header_length_bytes p + Z.of_nat (length data)) p).

(** [init()], on the raw contents of the new object's array: the header bytes are
    cleared, the rest stays. *)
Definition init (p : ip_packet) : outcome ip_packet :=
  p ← copy_in 0 (replicate sizeof_iphdr 0) p;
  let p := set_ip_version 4 p in
  let p := set_ip_header_length_words (Z.of_nat sizeof_iphdr / 4) p in
  let p := set_ip_tot_length (get_ip_header_length_bytes p) p in
  mret (set_ip_ttl MAX_TTL p).

Definition new_IPPacket (raw : mem) : outcome ip_packet :=
  init {| payload_ := raw; length_set_ := false |}.

Definition length_is_set (p : ip_packet) : bool := length_set_ p.
Definition max_data_length (p : ip_packet) : Z := Z.of_nat MTU - get_ip_header_length_bytes p.

(** ** The Internet checksum *)

(** [sum = (sum & 0xffff) + (sum >> 16)] *)
Definition fold_carry (sum : Z) : Z := Z.land sum 65535 + Z.shiftr sum 16.

(** The [while (len > 1)] loop over 16-bit words in host order, then the odd byte. *)
Fixpoint checksum_sum (bs : list Z) (sum : Z) : Z :=
  match bs with
  | b0 :: b1 :: bs =>
      let sum := sum + (b0 + 256 * b1) in
      checksum_sum bs (if negb (Z.land sum 2147483648 =? 0) then fold_carry sum else sum)
  | [b0] => sum + b0
  | [] => sum
  end.

(** [while (sum >> 16)]; the sums that occur leave the loop within three rounds
    (lemma [fold_carries_done]). *)
Fixpoint fold_carries (fuel : nat) (sum : Z) : Z :=
  match fuel with
  | O => sum
  | S fuel => if Z.shiftr sum 16 =? 0 then sum else fold_carries fuel (fold_carry sum)
  end.

Definition checksum (bs : list Z) : Z := u16 (Z.lnot (fold_carries 3 (checksum_sum bs 0))).

Definition calculate_and_set_ip_checksum (p : ip_packet) : ip_packet :=
  let p := set_ip_checksum 0 p in
  set_ip_checksum (checksum (slice (payload_ p) 0 (Z.to_nat (get_ip_header_length_bytes p)))) p.

(** Returns the verdict and the packet the call leaves behind. *)
Definition is_valid_ip_checksum (p : ip_packet) : bool * ip_packet :=
  let current_checksum := get_ip_checksum p in
  let p := calculate_and_set_ip_checksum p in
  let calculated_checksum := get_ip_checksum p in
  let p := set_ip_checksum current_checksum p in
  (current_checksum =? calculated_checksum, p).

(** The pseudo header's bytes: saddr, daddr, zero, protocol, tot_len. *)
Definition pseudo_header (ip : mem) (tot_len : Z) : list Z :=
  slice ip 12 4 ++ slice ip 16 4 ++ [0; byte_at ip 9; u16 tot_len / 256; u16 tot_len mod 256].

(** The pseudo header is written over the bytes in front of the next header, the
    checksum taken, and the first [sizeof(iphdr)] bytes put back. *)
Definition compute_next_checksum (p : ip_packet) : outcome (Z * ip_packet) :=
  let length_ := get_ip_tot_length p - get_ip_header_length_bytes p in
  let ip := slice (payload_ p) 0 sizeof_iphdr in
  (* a header shorter than the pseudo header would put it in front of the array *)
  _ ← (if decide (sizeof_ip_pseudo_header ≤ get_next_header p)%nat then mret tt else Fault OutOfBounds);
  let packet := (get_next_header p - sizeof_ip_pseudo_header)%nat in
  p ← copy_in packet (pseudo_header ip length_) p;
  let packet_length := Z.to_nat (u16 (Z.of_nat sizeof_ip_pseudo_header + length_)) in
  if decide (packet + packet_length ≤ length (payload_ p))%nat
  then
    let sum := checksum (slice (payload_ p) packet packet_length) in
    p ← copy_in 0 ip p;
    mret (sum, p)
  else Fault OutOfBounds.

(** [operator==]: every header field but the checksum. *)
Definition equal (p other : ip_packet) : bool :=
  (get_field f_daddr p =? get_field f_daddr other)
  && (get_field f_frag_off p =? get_field f_frag_off other)
  && (get_field f_id p =? get_field f_id other)
  && (get_field f_ihl p =? get_field f_ihl other)
  && (get_field f_protocol p =? get_field f_protocol other)
  && (get_field f_saddr p =? get_field f_saddr other)
  && (get_field f_tos p =? get_field f_tos other)
  && (get_field f_tot_len p =? get_field f_tot_len other)
  && (get_field f_ttl p =? get_field f_ttl other)
  && (get_field f_version p =? get_field f_version other).

(** ** Well-formed packets and field laws *)

Definition wf (p : ip_packet) : Prop := length (payload_ p) = MTU ∧ Forall is_byte (payload_ p).

Lemma wf_set_field f v p : field_ok MTU f = true → wf p → wf (set_field f v p).
Proof.
  intros Hf [Hl Hb]. split; cbn.
  - rewrite length_put. exact Hl.
  - apply put_is_byte; [rewrite Hl |]; assumption.
Qed.

Lemma get_set_same f v p :
  wf p → field_ok MTU f = true → get_field f (set_field f v p) = v mod 2 ^ width f.
Proof. intros [Hl _] Hf. apply get_put_same. rewrite Hl. exact Hf. Qed.

Lemma get_set_other f g v p :
  wf p → field_ok MTU g = true → disjoint f g = true →
  get_field f (set_field g v p) = get_field f p.
Proof. intros [Hl _] Hg Hd. apply get_put_other; [rewrite Hl |]; assumption. Qed.

Lemma get_field_bound f p : wf p → 0 ≤ get_field f p < 2 ^ width f.
Proof. intros [_ Hb]. apply get_bound, Hb. Qed.

Lemma set_ip_tot_length_payload l p : payload_ (set_ip_tot_length l p) = payload_ (set_field f_tot_len l p).
Proof. reflexivity. Qed.

Lemma wf_set_ip_tot_length l p : wf p → wf (set_ip_tot_length l p).
Proof. apply (wf_set_field f_tot_len l p). reflexivity. Qed.

Lemma get_set_tot_length_same l p : wf p → get_field f_tot_len (set_ip_tot_length l p) = u16 l.
Proof. intros. exact (get_set_same f_tot_len l p H eq_refl). Qed.

Lemma get_set_tot_length_other f l p :
  wf p → disjoint f f_tot_len = true → get_field f (set_ip_tot_length l p) = get_field f p.
Proof. intros. exact (get_set_other f f_tot_len l p H eq_refl H0). Qed.

Create HintDb packet.
#[export] Hint Resolve wf_set_field wf_set_ip_tot_length : packet.
#[export] Hint Extern 1 (field_ok _ _ = true) => reflexivity : packet.
#[export] Hint Extern 1 (disjoint _ _ = true) => reflexivity : packet.
#[export] Hint Extern 1 (outside _ _ _ = true) => reflexivity : packet.

Create Rewrite HintDb fields.
#[export] Hint Rewrite get_set_same get_set_tot_length_same
  get_set_other get_set_tot_length_other using (solve [auto 30 with packet nocore]) : fields.

(** The named accessors, in terms of fields. *)
Ltac unfold_ip :=
  unfold get_ip_version, set_ip_version, get_ip_header_length_words, set_ip_header_length_words,
    get_ip_tos, set_ip_tos, get_ip_tot_length, get_ip_identifier, set_ip_identifier,
    get_ip_fragmentation_offset, set_ip_fragmentation_offset, get_ip_ttl, set_ip_ttl,
    get_ip_protocol, set_ip_protocol, get_ip_checksum, set_ip_checksum, get_ip_source_address,
    set_ip_source_address, get_ip_destination_address, set_ip_destination_address in *.

(** Writing every field of the IP header and reading them back gives each value at
    the field's width; no setter disturbs a field set before it (the two nibbles of the
    first byte included). *)
Theorem ip_header_roundtrip p version ihl tos tot_len id frag ttl protocol check saddr daddr :
  wf p →
  let q := set_ip_destination_address daddr (set_ip_source_address saddr (set_ip_checksum check
           (set_ip_protocol protocol (set_ip_ttl ttl (set_ip_fragmentation_offset frag
           (set_ip_identifier id (set_ip_tot_length tot_len (set_ip_tos tos
           (set_ip_header_length_words ihl (set_ip_version version p)))))))))) in
  get_ip_version q = version mod 2 ^ 4 ∧ get_ip_header_length_words q = ihl mod 2 ^ 4 ∧
  get_ip_tos q = u8 tos ∧ get_ip_tot_length q = u16 tot_len ∧ get_ip_identifier q = u16 id ∧
  get_ip_fragmentation_offset q = u16 frag ∧ get_ip_ttl q = u8 ttl ∧
  get_ip_protocol q = u8 protocol ∧ get_ip_checksum q = u16 check ∧
  get_ip_source_address q = u32 saddr ∧ get_ip_destination_address q = u32 daddr ∧
  length_is_set q = true.
Proof.
  intros Hwf q. subst q. unfold_ip. repeat split; autorewrite with fields; reflexivity.
Qed.

(** ** The checksum against one's complement arithmetic *)

(** The plain sum of the little-endian 16-bit words; an odd last byte counts as a low byte. *)
Fixpoint word_sum (bs : list Z) : Z :=
  match bs with
  | b0 :: b1 :: bs => b0 + 256 * b1 + word_sum bs
  | [b0] => b0
  | [] => 0
  end.

(** The one's complement representative of [s] in 0 .. 65535: 0 only for 0. *)
Definition ones_complement (s : Z) : Z := if s =? 0 then 0 else (s - 1) mod 65535 + 1.

Lemma ones_complement_range s : 0 ≤ s → 0 ≤ ones_complement s ≤ 65535.
Proof. unfold ones_complement. intros. destruct (s =? 0) eqn:?; word_lia. Qed.

Lemma ones_complement_congr s : 0 ≤ s → ones_complement s mod 65535 = s mod 65535.
Proof. unfold ones_complement. intros. destruct (s =? 0) eqn:E; bool_to_prop; word_lia. Qed.

Lemma ones_complement_eq s t :
  0 ≤ s → 0 ≤ t → s mod 65535 = t mod 65535 → (s = 0 ↔ t = 0) →
  ones_complement s = ones_complement t.
Proof.
  unfold ones_complement. intros.
  destruct (s =? 0) eqn:?, (t =? 0) eqn:?; bool_to_prop; word_lia.
Qed.

Lemma ones_complement_small s : 0 ≤ s ≤ 65535 → ones_complement s = s.
Proof. unfold ones_complement. intros. destruct (s =? 0) eqn:?; bool_to_prop; word_lia. Qed.

Lemma fold_carry_eq s : 0 ≤ s → fold_carry s = s - 65535 * (s / 65536).
Proof.
  intros. unfold fold_carry. change 65535 with (Z.ones 16) at 1.
  rewrite Z.land_ones, Z.shiftr_div_pow2 by lia. word_lia.
Qed.

Lemma fold_carry_spec s :
  0 ≤ s → 0 ≤ fold_carry s ∧ ones_complement (fold_carry s) = ones_complement s.
Proof.
  intros. rewrite fold_carry_eq by assumption. split; [word_lia |].
  apply ones_complement_eq; [word_lia.. |]. split; word_lia.
Qed.

Lemma fold_carries_spec n s :
  0 ≤ s → 0 ≤ fold_carries n s ∧ ones_complement (fold_carries n s) = ones_complement s.
Proof.
  revert s. induction n as [|n IH]; intros s Hs; cbn; [auto |].
  destruct (Z.shiftr s 16 =? 0); [auto |].
  destruct (fold_carry_spec s Hs) as [H0 E]. rewrite <- E. apply IH, H0.
Qed.

(** Three rounds are enough for every sum the word loop can reach. *)
Lemma fold_carries_done s : 0 ≤ s < 2 ^ 32 → 0 ≤ fold_carries 3 s < 65536.
Proof.
  intros H. assert (∀ n t, 0 ≤ t < 65536 → fold_carries n t = t) as Hs.
  { intros [|n] t Ht; cbn; [reflexivity |]. rewrite Z.shiftr_div_pow2 by lia.
    replace (t / 2 ^ 16) with 0 by word_lia. reflexivity. }
  destruct (decide (s < 65536)); [rewrite Hs by lia; lia |].
  assert (∀ n t, 65536 ≤ t → fold_carries (S n) t = fold_carries n (fold_carry t)) as Hb.
  { intros n' t Ht. cbn. rewrite Z.shiftr_div_pow2 by lia.
    destruct (t / 2 ^ 16 =? 0) eqn:E; [| reflexivity]. bool_to_prop. word_lia. }
  rewrite Hb by lia. pose proof (fold_carry_eq s ltac:(lia)).
  destruct (decide (fold_carry s < 65536)); [rewrite Hs by word_lia; word_lia |].
  rewrite Hb by lia. pose proof (fold_carry_eq (fold_carry s) ltac:(word_lia)).
  rewrite Hs by word_lia. word_lia.
Qed.

Lemma test_bit31 s : 0 ≤ s < 2 ^ 32 → negb (Z.land s 2147483648 =? 0) = (2 ^ 31 <=? s).
Proof.
  intros H. change 2147483648 with (2 ^ 31).
  assert (∀ n, 0 ≤ n → Z.testbit (Z.land s (2 ^ 31)) n = Z.testbit s n && (31 =? n)) as B.
  { intros n Hn. rewrite Z.land_spec, Z.pow2_bits_eqb by lia. reflexivity. }
  pose proof (Z.testbit_spec' s 31 ltac:(lia)) as T.
  destruct (Z.testbit s 31) eqn:E; cbn [Z.b2z] in T.
  - rewrite (proj2 (Z.eqb_neq (Z.land s (2 ^ 31)) 0)).
    + apply eq_true_iff_eq. word_lia.
    + intros Z0. specialize (B 31 ltac:(lia)). rewrite Z0, E, Z.bits_0 in B. discriminate B.
  - replace (Z.land s (2 ^ 31)) with 0.
    + apply eq_true_iff_eq. cbn [negb Z.eqb]. word_lia.
    + symmetry. apply Z.bits_inj'. intros n Hn. rewrite B, Z.bits_0 by assumption.
      destruct (Z.eqb_spec 31 n) as [<-|]; [rewrite E |]; [| rewrite andb_false_r]; reflexivity.
Qed.

Lemma checksum_sum_spec bs s :
  Forall is_byte bs → 0 ≤ s < 2 ^ 31 →
  0 ≤ checksum_sum bs s < 2 ^ 32 ∧ ones_complement (checksum_sum bs s) = ones_complement (s + word_sum bs).
Proof.
  revert s. induction bs as [| b0 | b0 b1 bs IH] using list_pair_ind; intros s Hb Hs;
    cbn [checksum_sum word_sum].
  - rewrite Z.add_0_r. split; [lia | reflexivity].
  - apply Forall_cons in Hb as [Hb _]. unfold is_byte in Hb. split; [lia | reflexivity].
  - apply Forall_cons in Hb as [Hb0 Hb]. apply Forall_cons in Hb as [Hb1 Hb].
    unfold is_byte in Hb0, Hb1. rewrite test_bit31 by lia. set (t := s + (b0 + 256 * b1)).
    assert (0 ≤ word_sum bs) as Hw.
    { clear -Hb. induction bs as [| b0 | b0 b1 bs IH] using list_pair_ind; cbn; [lia |..];
        rewrite !Forall_cons in Hb; unfold is_byte in Hb; [lia |]. destruct Hb as (? & ? & Hb).
      specialize (IH Hb). lia. }
    replace (s + (b0 + 256 * b1 + word_sum bs)) with (t + word_sum bs) by lia.
    destruct (2 ^ 31 <=? t) eqn:E; bool_to_prop; [| apply IH; [assumption | lia]].
    destruct (IH (fold_carry t) Hb) as [R1 R2].
    { rewrite fold_carry_eq by lia. word_lia. }
    split; [exact R1 |]. rewrite R2, fold_carry_eq by lia.
    apply ones_complement_eq; try word_lia.
Qed.

Lemma word_sum_nonneg bs : Forall is_byte bs → 0 ≤ word_sum bs.
Proof.
  induction bs as [| b0 | b0 b1 bs IH] using list_pair_ind; intros Hb; cbn; [lia |..];
    rewrite !Forall_cons in Hb; unfold is_byte in Hb; [lia |]. destruct Hb as (? & ? & Hb).
  specialize (IH Hb). lia.
Qed.

Lemma lnot_u16 x : 0 ≤ x < 65536 → u16 (Z.lnot x) = 65535 - x.
Proof. intros. rewrite <- Z.opp_lnot || idtac. unfold Z.lnot. word_lia. Qed.

Lemma checksum_eq bs : Forall is_byte bs → checksum bs = 65535 - ones_complement (word_sum bs).
Proof.
  intros Hb. destruct (checksum_sum_spec bs 0 Hb ltac:(lia)) as [R E].
  pose proof (fold_carries_done _ R) as D. unfold checksum. rewrite lnot_u16 by lia. f_equal.
  rewrite <- (ones_complement_small (fold_carries _ _)) by lia.
  rewrite (proj2 (fold_carries_spec 3 _ (proj1 R))), E. reflexivity.
Qed.

(** C38: on any byte range the word loop (with its early carry fold when bit 31 is set and
    its odd trailing byte) and the final carry loop compute the Internet checksum: the
    complement of the one's complement sum of the 16-bit words. The carry loop always
    finishes, and no intermediate sum leaves 32 bits. *)
Theorem checksum_is_internet_checksum bs :
  Forall is_byte bs →
  checksum bs = 65535 - ones_complement (word_sum bs) ∧
  Z.shiftr (fold_carries 3 (checksum_sum bs 0)) 16 = 0 ∧
  0 ≤ checksum_sum bs 0 < 2 ^ 32.
Proof.
  intros Hb. destruct (checksum_sum_spec bs 0 Hb ltac:(lia)) as [R _]. pose proof (fold_carries_done _ R) as D.
  split; [exact (checksum_eq bs Hb) |]. rewrite Z.shiftr_div_pow2 by lia. split; [word_lia | exact R].
Qed.

Lemma checksum_is_internet_checksum_witness :
  Forall is_byte [69; 0; 0; 40; 7] ∧ checksum [69; 0; 0; 40; 7] = 65535 - ones_complement (word_sum [69; 0; 0; 40; 7]).
Proof.
  split; [repeat constructor; unfold is_byte; lia |].
  exact (proj1 (checksum_is_internet_checksum [69; 0; 0; 40; 7]
    ltac:(repeat constructor; unfold is_byte; lia))).
Defined.

Lemma checksum_range bs : 0 ≤ checksum bs < 2 ^ 16.
Proof. apply u16_range. Qed.

(** ** Word sums of header memory *)

(** The sum of the first [n] 16-bit words as fields. *)
Fixpoint words (n : nat) (m : mem) : Z :=
  match n with O => 0 | S n => words n m + get (le16 (2 * n)) m end.

Lemma word_sum_app xs ys :
  (length xs mod 2 = 0)%nat → word_sum (xs ++ ys) = word_sum xs + word_sum ys.
Proof.
  induction xs as [| x | x x' xs IH] using list_pair_ind; intros H; [cbn; lia | discriminate H |].
  cbn [word_sum app]. rewrite IH; [lia |].
  replace (length (x :: x' :: xs)) with (length xs + 1 * 2)%nat in H by (cbn; lia).
  rewrite Nat.Div0.mod_add in H. exact H.
Qed.

Lemma slice_words n m :
  (2 * n ≤ length m)%nat → word_sum (slice m 0 (2 * n)) = words n m.
Proof.
  induction n as [|n IH]; intros H; cbn [words]; [reflexivity |].
  assert (slice m 0 (2 * S n) = slice m 0 (2 * n) ++ [byte_at m (2 * n); byte_at m (S (2 * n))]) as ->.
  { unfold slice. rewrite !drop_0. replace (2 * S n)%nat with (S (S (2 * n))) by lia.
    unfold byte_at.
    rewrite (take_S_r m (S (2 * n)) (default 0 (m !! S (2 * n)))),
      (take_S_r m (2 * n) (default 0 (m !! (2 * n)%nat))), <- app_assoc; [reflexivity |..];
      destruct (lookup_lt_is_Some_2 m) with (i := (2 * n)%nat) as [? E1]; [lia | | lia |];
      destruct (lookup_lt_is_Some_2 m) with (i := S (2 * n)) as [? E2]; [lia | | lia |];
      rewrite ?E1, ?E2; reflexivity. }
  assert (length (slice m 0 (2 * n)) = n * 2)%nat as L by (rewrite length_slice; lia).
  rewrite word_sum_app, IH by (rewrite ?L, ?Nat.Div0.mod_mul; lia).
  cbn [word_sum]. unfold get, le16. cbn [get_bytes]. lia.
Qed.

Lemma le16_ok n o : (o + 2 ≤ n)%nat → field_ok n (le16 o) = true.
Proof.
  intros H. unfold field_ok, le16, offsets. rewrite andb_true_r. apply andb_true_iff. split.
  - apply forallb_forall. intros x [<-|[<-|[]]]; apply Nat.ltb_lt; lia.
  - apply bool_decide_eq_true, NoDup_cons. split; [| apply NoDup_singleton].
    rewrite list_elem_of_singleton. lia.
Qed.

Lemma get_le16_put_other i j v m :
  i ≠ j → (2 * j + 2 ≤ length m)%nat → get (le16 (2 * i)) (put (le16 (2 * j)) v m) = get (le16 (2 * i)) m.
Proof.
  intros Hij Hj. apply get_ext. intros o Ho. apply byte_at_put; [apply le16_ok; lia |].
  unfold le16 in *. cbn [offsets] in *. rewrite !elem_of_cons, elem_of_nil in *. lia.
Qed.

Lemma words_put_word n j v m :
  (2 * j + 2 ≤ length m)%nat →
  words n (put (le16 (2 * j)) v m)
  = words n m + (if decide (j < n)%nat then u16 v - get (le16 (2 * j)) m else 0).
Proof.
  intros Hj. induction n as [|n IH]; cbn [words].
  { rewrite decide_False by lia. reflexivity. }
  rewrite IH. destruct (decide (n = j)) as [->|Hne].
  - rewrite get_put_same by (apply le16_ok; lia).
    rewrite decide_False, decide_True by lia. change (v mod 2 ^ width _) with (u16 v). lia.
  - rewrite get_le16_put_other by (assumption || lia). repeat case_decide; lia.
Qed.

Lemma words_nonneg n m : Forall is_byte m → 0 ≤ words n m.
Proof.
  intros H. induction n as [|n IH]; cbn [words]; [lia |].
  pose proof (get_bound (le16 (2 * n)) m H). lia.
Qed.

(** ** Header checksum validation *)

Definition header_words (p : ip_packet) : nat := Z.to_nat (2 * get_ip_header_length_words p).

Lemma header_length_bytes p : wf p → get_ip_header_length_bytes p = 4 * get_ip_header_length_words p.
Proof.
  intros H. pose proof (get_field_bound f_ihl p H) as B. change (2 ^ width f_ihl) with 16 in B.
  unfold get_ip_header_length_bytes, get_ip_header_length_words. word_lia.
Qed.

Lemma header_slice_sum p :
  wf p →
  word_sum (slice (payload_ p) 0 (Z.to_nat (get_ip_header_length_bytes p)))
  = words (header_words p) (payload_ p).
Proof.
  intros H. pose proof (get_field_bound f_ihl p H) as B. change (2 ^ width f_ihl) with 16 in B.
  rewrite header_length_bytes by assumption. unfold header_words, get_ip_header_length_words in *.
  destruct H as [Hm _]. rewrite <- slice_words by (rewrite Hm; unfold MTU; lia). f_equal. f_equal. lia.
Qed.

(** The computed checksum is the complement of the sum of the other header words. *)
Lemma calculated_checksum p :
  wf p →
  get_ip_checksum (calculate_and_set_ip_checksum p)
  = 65535 - ones_complement (words (header_words p) (put f_check 0 (payload_ p))).
Proof.
  intros H. assert (wf (set_ip_checksum 0 p)) as H' by (apply wf_set_field; [reflexivity | assumption]).
  unfold calculate_and_set_ip_checksum, get_ip_checksum, set_ip_checksum in *.
  rewrite get_set_same by (reflexivity || assumption). change (2 ^ width f_check) with (2 ^ 16).
  rewrite (checksum_eq _ (slice_is_byte _ _ _ (proj2 H'))).
  rewrite (header_slice_sum _ H').
  replace (header_words (set_field f_check 0 p)) with (header_words p)
    by (unfold header_words, get_ip_header_length_words; autorewrite with fields; reflexivity).
  pose proof (ones_complement_range _ (words_nonneg (header_words p) _ (proj2 H'))) as R.
  apply u16_small. unfold is_u16. change (payload_ (set_field f_check 0 p)) with (put f_check 0 (payload_ p)) in R |- *.
  lia.
Qed.

Lemma is_valid_ip_checksum_eq p :
  wf p →
  fst (is_valid_ip_checksum p)
  = (get_ip_checksum p
     =? 65535 - ones_complement (words (header_words p) (put f_check 0 (payload_ p)))).
Proof. intros H. unfold is_valid_ip_checksum. cbn [fst]. rewrite calculated_checksum by assumption. reflexivity. Qed.

Lemma disjoint_word f j :
  Forall (fun o => o ≠ 2 * j ∧ o ≠ S (2 * j))%nat (offsets f) → disjoint f (le16 (2 * j)) = true.
Proof.
  intros H. apply orb_true_iff. left. apply forallb_forall. intros o Ho.
  rewrite List.Forall_forall in H. destruct (H o Ho) as [H1 H2]. cbn -[Nat.mul].
  rewrite (proj2 (Nat.eqb_neq _ _) H1), (proj2 (Nat.eqb_neq _ _) H2). reflexivity.
Qed.

Lemma le16_in_header j : (j < 30)%nat → field_ok MTU (le16 (2 * j)) = true.
Proof. intros. apply le16_ok. unfold MTU. lia. Qed.

(** The sum that a valid checksum complements, after one word of the header changed. *)
Lemma words_changed p j v n :
  wf p → j ≠ 5%nat → (j < n)%nat → (j < 30)%nat → is_u16 v →
  words n (put f_check 0 (put (le16 (2 * j)) v (payload_ p)))
  = words n (put f_check 0 (payload_ p)) + (v - get_field (le16 (2 * j)) p).
Proof.
  intros [Hl Hb] Hj Hn Hj30 Hv. change f_check with (le16 (2 * 5)).
  rewrite !words_put_word by (rewrite ?length_put, Hl; unfold MTU; lia).
  rewrite (get_le16_put_other 5 j) by (rewrite ?Hl; unfold MTU; lia).
  rewrite (decide_True _ _ (Hn)), (u16_small v) by assumption. unfold get_field.
  case_decide; lia.
Qed.

Lemma header_words_changed p j v :
  wf p → j ≠ 0%nat → (j < 30)%nat → header_words (set_field (le16 (2 * j)) v p) = header_words p.
Proof.
  intros H Hj H30. unfold header_words, get_ip_header_length_words, get_field. do 2 f_equal.
  apply get_put_other; [rewrite (proj1 H); apply le16_in_header, H30 |].
  apply disjoint_word. repeat constructor; lia.
Qed.

(** The header checksum detects every change of one 16-bit word of the header (the
    words after the first, the checksum itself included) to a value that is not congruent
    to the old one modulo 65535: a packet that passed [is_valid_ip_checksum] fails it after
    the change. *)
Theorem checksum_detects_word_error p j v :
  wf p → fst (is_valid_ip_checksum p) = true →
  j ≠ 0%nat → (j < header_words p)%nat → is_u16 v →
  v mod 65535 ≠ get_field (le16 (2 * j)) p mod 65535 →
  fst (is_valid_ip_checksum (set_field (le16 (2 * j)) v p)) = false.
Proof.
  intros Hwf Hvalid Hj0 Hj Hv Hne. pose proof (get_field_bound f_ihl p Hwf) as B.
  change (2 ^ width f_ihl) with 16 in B.
  assert (j < 30)%nat as H30 by (unfold header_words, get_ip_header_length_words in *; lia).
  pose proof (wf_set_field _ v p (le16_in_header j H30) Hwf) as Hwf'.
  rewrite is_valid_ip_checksum_eq in Hvalid |- * by assumption.
  rewrite header_words_changed by assumption. apply Z.eqb_eq in Hvalid. apply Z.eqb_neq.
  pose proof (words_nonneg (header_words p) _ (put_is_byte f_check 0 _ ltac:(rewrite (proj1 Hwf); reflexivity) (proj2 Hwf))) as S0.
  unfold get_ip_checksum in *. cbn [set_field with_payload payload_].
  destruct (decide (j = 5%nat)) as [->|Hj5].
  - change (le16 (2 * 5)) with f_check in *. rewrite get_set_same by (reflexivity || assumption).
    change (v mod 2 ^ width f_check) with (u16 v). rewrite u16_small by assumption.
    intros E. apply Hne. f_equal. rewrite Hvalid, E. do 2 f_equal.
    change f_check with (le16 (2 * 5)). rewrite !words_put_word by (rewrite ?length_put, (proj1 Hwf); unfold MTU; lia).
    rewrite get_put_same by (rewrite (proj1 Hwf); reflexivity).
    change (v mod 2 ^ width (le16 (2 * 5))) with (u16 v). case_decide; lia.
  - rewrite (get_set_other f_check) by
      (assumption || apply le16_in_header, H30 || (apply disjoint_word; repeat constructor; lia)).
    pose proof (words_nonneg (header_words p) _ (put_is_byte f_check 0 _ ltac:(rewrite (proj1 Hwf'); reflexivity) (proj2 Hwf'))) as S1.
    cbn [set_field with_payload payload_] in S1.
    rewrite words_changed in S1 |- * by assumption. rewrite Hvalid. intros E.
    pose proof (ones_complement_congr _ S0) as C0. pose proof (ones_complement_congr _ S1) as C1.
    replace (ones_complement (words (header_words p) (put f_check 0 (payload_ p)) + _))
      with (ones_complement (words (header_words p) (put f_check 0 (payload_ p)))) in C1 by lia.
    apply Hne. revert C0 C1. clear. word_lia.
Qed.

(** ** A concrete packet *)

Definition zero_packet : ip_packet :=
  {| payload_ := replicate MTU 0; length_set_ := false |}.

Lemma wf_zero_packet : wf zero_packet.
Proof.
  split; [apply length_replicate |]. apply Forall_replicate. unfold is_byte. lia.
Qed.

(** A 40-byte TCP segment's IP header with its checksum set. *)
Definition sample_packet : ip_packet :=
  calculate_and_set_ip_checksum
    (set_ip_destination_address 167772162 (set_ip_source_address 167772161
      (set_ip_protocol 6 (set_ip_ttl 64 (set_ip_tot_length 40
        (set_ip_header_length_words 5 (set_ip_version 4 zero_packet))))))).

Lemma wf_sample_packet : wf sample_packet.
Proof.
  assert (wf zero_packet) by apply wf_zero_packet.
  unfold sample_packet, calculate_and_set_ip_checksum. unfold_ip. auto 20 with packet.
Qed.

Lemma ip_header_roundtrip_witness :
  wf zero_packet ∧
  get_ip_protocol (set_ip_destination_address 9 (set_ip_source_address 8 (set_ip_checksum 7
    (set_ip_protocol 6 (set_ip_ttl 5 (set_ip_fragmentation_offset 4 (set_ip_identifier 3
      (set_ip_tot_length 40 (set_ip_tos 1 (set_ip_header_length_words 5
        (set_ip_version 4 zero_packet))))))))))) = 6.
Proof.
  split; [apply wf_zero_packet |].
  destruct (ip_header_roundtrip zero_packet 4 5 1 40 3 4 5 6 7 8 9 wf_zero_packet)
    as (_ & _ & _ & _ & _ & _ & _ & H & _). exact H.
Defined.

Lemma checksum_detects_word_error_witness :
  fst (is_valid_ip_checksum sample_packet) = true ∧
  fst (is_valid_ip_checksum (set_field (le16 (2 * 8)) 12 sample_packet)) = false.
Proof.
  split; [vm_compute; reflexivity |].
  apply checksum_detects_word_error;
    [apply wf_sample_packet | vm_compute; reflexivity | lia | apply Nat.ltb_lt; vm_compute; reflexivity
    | unfold is_u16; lia | vm_compute; discriminate].
Defined.

(** ** The transport checksum *)

Lemma copy_in_Done off data p p' :
  copy_in off data p = Done p' →
  memcpy (payload_ p) off data = Done (payload_ p') ∧ length_set_ p' = length_set_ p.
Proof. unfold copy_in. intros H. outcome_inv. injection H as <-. split; [assumption | reflexivity]. Qed.

Lemma wf_copy_in off data p p' :
  wf p → Forall is_byte data → copy_in off data p = Done p' → wf p'.
Proof.
  intros [Hl Hb] Hd [H _]%copy_in_Done. split.
  - rewrite (length_memcpy _ _ _ _ H). exact Hl.
  - apply memcpy_Done in H as [_ ->].
    apply Forall_app_2; [apply Forall_take, Hb |]. apply Forall_app_2; [assumption | apply Forall_drop, Hb].
Qed.

Lemma new_IPPacket_spec raw :
  length raw = MTU → Forall is_byte raw →
  ∃ q, new_IPPacket raw = Done q ∧ wf q ∧ get_ip_header_length_words q = 5.
Proof.
  intros Hl Hb. unfold new_IPPacket, init.
  destruct (copy_in 0 (replicate sizeof_iphdr 0) {| payload_ := raw; length_set_ := false |}) as [q|] eqn:Hc.
  2: { unfold copy_in in Hc. rewrite memcpy_fits in Hc by (cbn [payload_]; rewrite Hl, length_replicate; unfold sizeof_iphdr, MTU; lia).
       discriminate Hc. }
  assert (wf q) as Hq.
  { refine (wf_copy_in _ _ {| payload_ := raw; length_set_ := false |} _ (conj Hl Hb) _ Hc). apply Forall_replicate. unfold is_byte. lia. }
  cbn [mbind outcome_bind mret outcome_ret]. eexists. split; [reflexivity |]. unfold_ip.
  split; [auto 10 with packet |]. autorewrite with fields. reflexivity.
Qed.

Lemma length_pseudo_header m n : (20 ≤ length m)%nat → length (pseudo_header m n) = 12%nat.
Proof. intros. unfold pseudo_header. rewrite !length_app, !length_slice. cbn [length]. lia. Qed.

Lemma slice_slice_prefix m n off len :
  (off + len ≤ n)%nat → slice (slice m 0 n) off len = slice m off len.
Proof.
  intros. unfold slice. rewrite drop_0, skipn_firstn_comm, take_take. f_equal. lia.
Qed.

Lemma byte_at_slice m n i : (i < n)%nat → byte_at (slice m 0 n) i = byte_at m i.
Proof. intros. unfold byte_at, slice. rewrite drop_0, lookup_take_lt by assumption. reflexivity. Qed.

Lemma pseudo_header_slice m n : pseudo_header (slice m 0 20) n = pseudo_header m n.
Proof. unfold pseudo_header. rewrite !slice_slice_prefix, byte_at_slice by lia. reflexivity. Qed.

(** Writing a range that ends inside [off .. off + n) and writing the old bytes back. *)
Lemma overwrite_restore m off data n :
  (off + length data ≤ n)%nat → (n ≤ length m)%nat →
  take 0 (take off m ++ data ++ drop (off + length data) m) ++ slice m 0 n ++
    drop n (take off m ++ data ++ drop (off + length data) m) = m.
Proof.
  intros H Hn. rewrite take_0, app_nil_l. unfold slice. rewrite drop_0.
  rewrite drop_app_ge, length_take, Nat.min_l by (rewrite ?length_take; lia).
  rewrite drop_app_ge, drop_drop by lia.
  replace (off + length data + (n - off - length data))%nat with n by lia. apply take_drop.
Qed.

(** The bytes the transport checksum covers: pseudo header and segment. *)
Definition checksum_input (p : ip_packet) : list Z :=
  let n := get_data_length_bytes p in
  pseudo_header (payload_ p) n ++ slice (payload_ p) 20 (Z.to_nat n).

Lemma slice_pseudo_packet m ph n :
  length ph = 12%nat → (20 + n ≤ length m)%nat →
  slice (take 8 m ++ ph ++ drop 20 m) 8 (12 + n) = ph ++ slice m 20 n.
Proof.
  intros Hp Hl. unfold slice.
  rewrite drop_app_ge, length_take, Nat.min_l, Nat.sub_diag, drop_0 by (rewrite ?length_take; lia).
  rewrite take_app_ge, Hp by lia. do 2 f_equal. lia.
Qed.

Lemma compute_next_checksum_eq p :
  wf p → get_ip_header_length_words p = 5 → 20 ≤ get_ip_tot_length p ≤ Z.of_nat MTU →
  compute_next_checksum p = Done (checksum (checksum_input p), p).
Proof.
  intros Hwf Hihl Htot. pose proof Hwf as [Hl _].
  assert (get_ip_header_length_bytes p = 20) as Hb by (rewrite header_length_bytes; [lia | assumption]).
  unfold compute_next_checksum, get_next_header. rewrite Hb.
  change (Z.to_nat 20 - sizeof_ip_pseudo_header)%nat with 8%nat. unfold sizeof_iphdr.
  rewrite decide_True by (unfold sizeof_ip_pseudo_header; lia). cbn [mbind outcome_bind mret outcome_ret].
  rewrite pseudo_header_slice. unfold checksum_input, get_data_length_bytes. rewrite Hb.
  set (n := get_ip_tot_length p - 20) in *.
  pose proof (length_pseudo_header (payload_ p) n ltac:(rewrite Hl; unfold MTU; lia)) as Hp.
  unfold copy_in. rewrite memcpy_fits by (rewrite Hp, Hl; unfold MTU; lia).
  cbn [mbind outcome_bind mret outcome_ret with_payload payload_]. rewrite Hp.
  change (8 + 12)%nat with 20%nat.
  replace (Z.to_nat (u16 (Z.of_nat sizeof_ip_pseudo_header + n))) with (12 + Z.to_nat n)%nat
    by (unfold sizeof_ip_pseudo_header; unfold MTU in Htot; rewrite u16_small by word_lia; lia).
  assert (length (take 8 (payload_ p) ++ pseudo_header (payload_ p) n ++ drop 20 (payload_ p)) = MTU) as Hl'
    by (rewrite !length_app, length_take, length_drop, Hp, Hl; unfold MTU; lia).
  rewrite decide_True by (rewrite Hl'; unfold MTU in *; lia).
  rewrite memcpy_fits by (rewrite length_slice, Hl', Hl; unfold MTU; lia).
  rewrite slice_pseudo_packet by (rewrite ?Hl; unfold MTU in *; lia).
  cbn [mbind outcome_bind mret outcome_ret with_payload payload_ length_set_].
  do 2 f_equal. destruct p as [m l]. unfold with_payload. cbn [payload_ length_set_] in *. f_equal.
  rewrite length_slice, Hl. change (0 + Nat.min 20 (MTU - 0))%nat with 20%nat.
  pose proof (overwrite_restore m 8 (pseudo_header m n) 20) as R. rewrite Hp in R.
  apply R; rewrite ?Hl; unfold MTU; lia.
Qed.

Lemma checksum_input_bytes p : wf p → Forall is_byte (checksum_input p).
Proof.
  intros [_ Hb]. unfold checksum_input, pseudo_header. cbv zeta. set (n := get_data_length_bytes p).
  assert (Forall is_byte [0; byte_at (payload_ p) 9; u16 n / 256; u16 n mod 256]) as Hw.
  { apply Forall_cons. split; [unfold is_byte; lia |]. apply Forall_cons. split; [apply byte_at_is_byte, Hb |].
    apply Forall_cons. split; [unfold is_byte; word_lia |]. apply Forall_singleton. unfold is_byte. word_lia. }
  rewrite !Forall_app. auto 10 using slice_is_byte.
Qed.

(** On a packet without IP options whose total length fits the array,
    [compute_next_checksum] returns the Internet checksum (the complement of the one's
    complement sum of the 16-bit words) of pseudo header and segment, and the pseudo header it
    writes over the IP header leaves no trace. *)
Theorem compute_next_checksum_spec p :
  wf p → get_ip_header_length_words p = 5 → 20 ≤ get_ip_tot_length p ≤ Z.of_nat MTU →
  compute_next_checksum p = Done (65535 - ones_complement (word_sum (checksum_input p)), p).
Proof.
  intros Hwf Hihl Htot. rewrite compute_next_checksum_eq by assumption. rewrite checksum_eq by apply checksum_input_bytes, Hwf. reflexivity.
Qed.

Lemma compute_next_checksum_spec_witness :
  get_ip_header_length_words sample_packet = 5 ∧
  compute_next_checksum sample_packet = Done (65535 - ones_complement (word_sum (checksum_input sample_packet)), sample_packet).
Proof.
  split; [vm_compute; reflexivity |].
  apply compute_next_checksum_spec; [apply wf_sample_packet | vm_compute; reflexivity |].
  replace (get_ip_tot_length sample_packet) with 40 by (vm_compute; reflexivity).
  unfold MTU. lia.
Defined.

(** With IP options the restored 20 bytes do not cover the overwritten ones: the last
    option word is lost. *)
Definition packet_with_option : ip_packet :=
  set_field (be32 20) 2483027968 (set_ip_tot_length 44 (set_ip_header_length_words 6 sample_packet)).

Lemma compute_next_checksum_options :
  get_field (be32 20) packet_with_option = 2483027968 ∧
  (r ← compute_next_checksum packet_with_option; mret (get_field (be32 20) (snd r))) = Done 393236.
Proof. split; vm_compute; reflexivity. Qed.
