(* ===== verification/TCPOptions.v ===== *)
(** * TCP header options

    classes TCPHeaderOption, TCPTimestampOption and TCPHeaderOptionCollection
    (transport/src/packet/), with the three visitors over a collection
    (transport/src/visitors/). An option is its 40-byte array; a collection is
    the list of its options, in insertion order. Every option object is created
    for one packet and inserted once, so options are values here. *)
From S2P Require Import Prelude HeaderMem.

Definition TCP_HEADER_OPTION_MAX_SIZE : nat := 40.
Definition TCPOPT_TIMESTAMP : Z := 8.
Definition TCPOLEN_TIMESTAMP : Z := 10.

(** ** TCPHeaderOption *)

Record tcp_header_option := { data_ : mem }.

#[export] Instance tcp_header_option_eq_dec : EqDecision tcp_header_option.
Proof. solve_decision. Defined.

Definition get_kind (o : tcp_header_option) : Z := get (byte 0) (data_ o).
Definition set_kind (kind : Z) (o : tcp_header_option) : tcp_header_option :=
  {| data_ := put (byte 0) kind (data_ o) |}.
Definition get_length (o : tcp_header_option) : Z := get (byte 1) (data_ o).
Definition set_length (length : Z) (o : tcp_header_option) : outcome tcp_header_option :=
  _ ← assert (length <=? Z.of_nat TCP_HEADER_OPTION_MAX_SIZE);
  mret {| data_ := put (byte 1) length (data_ o) |}.

Definition new_TCPHeaderOption (kind length : Z) : outcome tcp_header_option :=
  set_length length (set_kind kind {| data_ := replicate TCP_HEADER_OPTION_MAX_SIZE 0 |}).

Definition get_value (o : tcp_header_option) (len : nat) : list Z := slice (data_ o) 2 len.
Definition set_value (value : list Z) (o : tcp_header_option) : outcome tcp_header_option :=
  _ ← assert (2 + Z.of_nat (length value) <=? Z.of_nat TCP_HEADER_OPTION_MAX_SIZE);
  _ ← assert (2 + Z.of_nat (length value) =? get_length o);
  m ← memcpy (data_ o) 2 value;
  mret {| data_ := m |}.

Definition set_data (data : list Z) (o : tcp_header_option) : outcome tcp_header_option :=
  _ ← assert (Z.of_nat (length data) <=? Z.of_nat TCP_HEADER_OPTION_MAX_SIZE);
  m ← memcpy (data_ o) 0 data;
  mret {| data_ := m |}.

(** ** TCPTimestampOption: the value holds two 32-bit numbers in network order *)

Definition f_timestamp_value : field := be32 2.
Definition f_timestamp_echo_reply : field := be32 6.

Definition new_TCPTimestampOption : outcome tcp_header_option :=
  new_TCPHeaderOption TCPOPT_TIMESTAMP TCPOLEN_TIMESTAMP.
Definition get_timestamp (o : tcp_header_option) : Z := get f_timestamp_value (data_ o).
Definition set_timestamp (timestamp : Z) (o : tcp_header_option) : tcp_header_option :=
  {| data_ := put f_timestamp_value timestamp (data_ o) |}.
Definition get_echo_reply (o : tcp_header_option) : Z := get f_timestamp_echo_reply (data_ o).
Definition set_echo_reply (echo : Z) (o : tcp_header_option) : tcp_header_option :=
  {| data_ := put f_timestamp_echo_reply echo (data_ o) |}.

(** ** TCPHeaderOptionCollection *)

Abbreviation options := (list tcp_header_option).

(** FindTCPHeaderOptionVisitor: the first option of the kind; the visit stops there. *)
Fixpoint find_option (kind : Z) (os : options) : option tcp_header_option :=
  match os with
  | [] => None
  | o :: os => if get_kind o =? kind then Some o else find_option kind os
  end.

(** Changes the option that [find_option] returns, through its pointer. *)
Fixpoint update_option (kind : Z) (f : tcp_header_option → tcp_header_option) (os : options) : options :=
  match os with
  | [] => []
  | o :: os => if get_kind o =? kind then f o :: os else o :: update_option kind f os
  end.

Definition insert (o : tcp_header_option) (os : options) : options := (os ++ [o])%list.

(** Takes the option that [find_option] returns out of the list. *)
Fixpoint erase_option (kind : Z) (os : options) : options :=
  match os with
  | [] => []
  | o :: os => if get_kind o =? kind then os else o :: erase_option kind os
  end.

Definition remove (kind : Z) (os : options) : option tcp_header_option * options :=
  (find_option kind os, erase_option kind os).

Definition contains (kind : Z) (os : options) : bool :=
  match find_option kind os with Some _ => true | None => false end.

(** GetTCPHeaderOptionsLengthVisitor *)
Definition length_bytes (os : options) : Z := foldr (fun o n => get_length o + n) 0 os.
Definition get_padded_length (os : options) : Z := u8 ((length_bytes os + 3) / 4).
Definition get_num_padded_bytes (os : options) : Z := u8 (get_padded_length os * 4 - length_bytes os).

(** GetTCPHeaderOptionsDataVisitor: copies the options one after the other and pads. *)
Fixpoint copy_options (os : options) (off : nat) (m : mem) : outcome (nat * mem) :=
  match os with
  | [] => mret (off, m)
  | o :: os =>
      m ← memcpy m off (slice (data_ o) 0 (Z.to_nat (get_length o)));
      copy_options os (off + Z.to_nat (get_length o)) m
  end.

Definition append_padding (os : options) (off : nat) (m : mem) : outcome mem :=
  memcpy m off (replicate (Z.to_nat (get_num_padded_bytes os)) 0).

Definition write_options (os : options) (off : nat) (m : mem) : outcome mem :=
  '(off, m) ← copy_options os off m; append_padding os off m.

(** Reading [len] bytes through a pointer into the array. *)
Definition read (m : mem) (off len : nat) : outcome (list Z) :=
  if decide (off + len ≤ length m)%nat then Done (slice m off len) else Fault OutOfBounds.

Definition read_byte (m : mem) (off : nat) : outcome Z :=
  match m !! off with Some b => Done b | None => Fault OutOfBounds end.

(** [parse(options, options_length_bytes)]: recursion on the advancing pointer; the
    length is a [u_int8_t]. An option of length 0 does not advance and the recursion
    never ends: [depth] stands for the stack, and a stack of one frame more than the
    packet has bytes is enough for every other input ([parse_deep]). *)
Fixpoint parse (depth : nat) (m : mem) (off : nat) (options_length_bytes : Z) (os : options) : outcome options :=
  match depth with
  | O => Fault StackOverflow
  | S depth =>
      if options_length_bytes <=? 0 then mret os else
      kind ← read_byte m off;
      if kind =? 0 then mret os
      else if kind =? 1 then parse depth m (S off) (u8 (options_length_bytes - 1)) os
      else
        length ← read_byte m (S off);
        option ← new_TCPHeaderOption kind length;
        data ← read m off (Z.to_nat length);
        option ← set_data data option;
        parse depth m (off + Z.to_nat length) (u8 (options_length_bytes - length)) (insert option os)
  end.

(** ** Writing and parsing *)

(** An option as the packet carries it: the length covers kind and length bytes, and the
    array is zero behind it. *)
Record option_ok (o : tcp_header_option) : Prop := {
  ok_size : length (data_ o) = TCP_HEADER_OPTION_MAX_SIZE;
  ok_kind : 2 ≤ get_kind o;
  ok_length : 2 ≤ get_length o ≤ Z.of_nat TCP_HEADER_OPTION_MAX_SIZE;
  ok_tail : drop (Z.to_nat (get_length o)) (data_ o)
            = replicate (TCP_HEADER_OPTION_MAX_SIZE - Z.to_nat (get_length o)) 0 }.

Definition bytes (o : tcp_header_option) : list Z := slice (data_ o) 0 (Z.to_nat (get_length o)).
Definition flat (os : options) : list Z := concat (map bytes os).

Lemma length_bytes_flat os :
  Forall option_ok os → length_bytes os = Z.of_nat (length (flat os)).
Proof.
  induction 1 as [|o os [Hs _ Hl _] _ IH]; [reflexivity |]. change (length_bytes (o :: os)) with (get_length o + length_bytes os).
  change (flat (o :: os)) with (bytes o ++ flat os)%list. rewrite length_app, IH.
  unfold bytes. rewrite length_slice, Hs. unfold TCP_HEADER_OPTION_MAX_SIZE in *. lia.
Qed.

Lemma copy_options_eq os off m :
  Forall option_ok os → (off + length (flat os) ≤ length m)%nat →
  copy_options os off m
  = (m ← memcpy m off (flat os); mret (off + length (flat os), m)%nat).
Proof.
  intros H. revert off m. induction H as [|o os Ho _ IH]; intros off m Hl.
  - cbn [copy_options flat map concat length] in *. rewrite memcpy_fits by (cbn; lia).
    cbn [length mbind outcome_bind mret outcome_ret app]. rewrite Nat.add_0_r, take_drop. reflexivity.
  - change (flat (o :: os)) with (bytes o ++ flat os)%list in *. rewrite length_app in *.
    assert (length (bytes o) = Z.to_nat (get_length o)) as Hb.
    { unfold bytes. rewrite length_slice. destruct Ho as [-> _ ? _]. unfold TCP_HEADER_OPTION_MAX_SIZE in *. lia. }
    cbn [copy_options]. fold (bytes o). rewrite <- Hb. rewrite memcpy_fits by lia.
    cbn [mbind outcome_bind]. rewrite IH.
    2: { rewrite !length_app, length_take, length_drop. lia. }
    rewrite !memcpy_fits by (rewrite ?length_app, ?length_take, ?length_drop; lia).
    cbn [mbind outcome_bind mret outcome_ret]. f_equal. f_equal; [lia |].
    rewrite !app_assoc.
    rewrite (take_app_ge (take off m ++ bytes o)), (drop_app_ge (take off m ++ bytes o))
      by (rewrite length_app, length_take; lia).
    rewrite !length_app, length_take, Nat.min_l by lia.
    rewrite Nat.sub_diag, take_0, app_nil_r, drop_drop, <- !app_assoc. do 3 f_equal. f_equal. lia.
Qed.

Lemma write_options_eq os off m :
  Forall option_ok os → length_bytes os ≤ 40 →
  (off + Z.to_nat (4 * get_padded_length os) ≤ length m)%nat →
  ∃ k, write_options os off m
       = Done (take off m ++ (flat os ++ replicate k 0) ++ drop (off + Z.to_nat (4 * get_padded_length os)) m)%list ∧
    (length (flat os) + k = Z.to_nat (4 * get_padded_length os))%nat.
Proof.
  intros Hok Hl40 Hl. pose proof (length_bytes_flat os Hok) as HL.
  set (k := Z.to_nat (get_num_padded_bytes os)).
  assert (length (flat os) + k = Z.to_nat (4 * get_padded_length os))%nat as Hk.
  { unfold k, get_num_padded_bytes, get_padded_length. rewrite HL in *.
    rewrite (u8_small ((_ + 3) / 4)) by word_lia. rewrite u8_small by word_lia. word_lia. }
  rewrite <- Hk in Hl |- *. exists k. split; [| reflexivity].
  unfold write_options. rewrite copy_options_eq by (assumption || lia).
  rewrite memcpy_fits by lia. cbn [mbind outcome_bind mret outcome_ret]. unfold append_padding. fold k.
  rewrite memcpy_fits by (rewrite length_replicate, !length_app, length_take, length_drop; lia).
  rewrite length_replicate. f_equal.
  assert (length (take off m ++ flat os) = off + length (flat os))%nat as Hh by (rewrite length_app, length_take; lia).
  rewrite (app_assoc (take off m)). rewrite (take_app_ge (take off m ++ flat os)), (drop_app_ge (take off m ++ flat os)) by lia.
  rewrite Hh, Nat.sub_diag, take_0, app_nil_r, drop_drop, <- !app_assoc. do 4 f_equal. lia.
Qed.

Lemma read_head m off n b bs :
  slice m off n = b :: bs → read_byte m off = Done b.
Proof.
  intros H. unfold read_byte. apply (f_equal (.!! 0%nat)) in H. unfold slice in H.
  rewrite lookup_take, lookup_drop, Nat.add_0_r in H. case_decide; [| discriminate].
  rewrite H. reflexivity.
Qed.

Lemma slice_app_l m off n xs ys :
  slice m off n = (xs ++ ys)%list → slice m off (length xs) = xs.
Proof.
  unfold slice. intros H. assert (length xs ≤ n)%nat.
  { apply (f_equal length) in H. rewrite length_take, length_app in H. lia. }
  replace (length xs) with (Nat.min (length xs) n) at 1 by lia.
  rewrite <- take_take, H, take_app_length. reflexivity.
Qed.

Lemma slice_app_r m off n xs ys :
  slice m off n = (xs ++ ys)%list → slice m (off + length xs) (n - length xs) = ys.
Proof.
  unfold slice. intros H. rewrite <- drop_drop, <- skipn_firstn_comm, H, drop_app_length. reflexivity.
Qed.

(** An option's array, in front: kind, length, value. *)
Lemma option_bytes o :
  option_ok o →
  ∃ value, bytes o = get_kind o :: get_length o :: value ∧ length (bytes o) = Z.to_nat (get_length o).
Proof.
  intros [Hs _ Hl _]. unfold bytes. destruct o as [m]. cbn [data_] in *.
  assert (length (slice m 0 (Z.to_nat (get_length {| data_ := m |}))) = Z.to_nat (get_length {| data_ := m |})) as L.
  { rewrite length_slice, Hs. unfold TCP_HEADER_OPTION_MAX_SIZE in *. lia. }
  rewrite L. unfold slice, get_kind, get_length in *. cbn [data_ get byte get_bytes] in *.
  destruct m as [|k [|l m]]; [discriminate.. |]. unfold byte_at in *. cbn [lookup list_lookup default] in *.
  replace (id l + 256 * 0) with l in * by (unfold id; lia).
  replace (id k + 256 * 0) with k by (unfold id; lia).
  exists (take (Z.to_nat l - 2) m). split; [| reflexivity].
  destruct (Z.to_nat l) as [|[|n]] eqn:E; [lia | lia |]. cbn [drop take Nat.sub]. rewrite Nat.sub_0_r. reflexivity.
Qed.

Lemma rebuild_option o :
  option_ok o →
  (option ← new_TCPHeaderOption (get_kind o) (get_length o); set_data (bytes o) option) = Done o.
Proof.
  intros Hok. destruct (option_bytes o Hok) as (value & Hb & Hlen). destruct Hok as [Hs _ Hl Ht].
  unfold new_TCPHeaderOption, set_length. rewrite (proj2 (Z.leb_le _ _)) by lia.
  cbn [assert mbind outcome_bind mret outcome_ret]. unfold set_data.
  rewrite (proj2 (Z.leb_le _ _)) by (rewrite Hlen; unfold TCP_HEADER_OPTION_MAX_SIZE in *; lia).
  cbn [assert mbind outcome_bind]. rewrite memcpy_fits.
  2: { cbn [data_ set_kind]. rewrite !length_put, length_replicate, Hlen.
       unfold TCP_HEADER_OPTION_MAX_SIZE in *. lia. }
  cbn [mbind outcome_bind mret outcome_ret data_ set_kind take app]. rewrite Nat.add_0_l, Hlen.
  destruct o as [m]. cbn [data_] in *. do 2 f_equal. unfold bytes in *. cbn [data_] in *.
  unfold slice in *. rewrite drop_0 in *. remember (Z.to_nat (get_length {| data_ := m |})) as n eqn:En.
  rewrite take_0, app_nil_l. transitivity (take n m ++ drop n m)%list; [| apply take_drop].
  f_equal. rewrite Ht. cbn [put byte put_bytes].
  do 2 (rewrite drop_insert_lt by lia). apply drop_replicate.
Qed.

Lemma parse_flat os : Forall option_ok os → ∀ k m depth off n acc,
  slice m off n = (flat os ++ replicate k 0)%list → n = (length (flat os) + k)%nat →
  (n < 256)%nat → (length os < depth)%nat →
  parse depth m off (Z.of_nat n) acc = Done (acc ++ os)%list.
Proof.
  induction 1 as [|o os Ho _ IH]; intros k m [|depth] off n acc Hm Hn Hn255 Hd;
    [cbn in Hd; lia | | cbn in Hd; lia |]; cbn [parse].
  - cbn [flat map concat app length] in *. rewrite Nat.add_0_l in Hn. subst n. rewrite app_nil_r.
    destruct k as [|k]; [reflexivity |]. rewrite (proj2 (Z.leb_gt _ _)) by lia.
    rewrite (read_head _ _ _ _ _ Hm). reflexivity.
  - change (flat (o :: os)) with (bytes o ++ flat os)%list in *. rewrite <- app_assoc in Hm.
    rewrite length_app in Hn. destruct (option_bytes o Ho) as (value & Hb & Hlen).
    pose proof (ok_kind _ Ho). pose proof (ok_length _ Ho).
    rewrite (proj2 (Z.leb_gt _ _)) by (unfold TCP_HEADER_OPTION_MAX_SIZE in *; lia).
    pose proof Hm as Hm'. rewrite Hb in Hm'. rewrite (read_head _ _ _ _ _ Hm'). cbn [mbind outcome_bind].
    rewrite !(proj2 (Z.eqb_neq _ _)) by lia.
    pose proof (slice_app_r m off n [get_kind o] _ Hm') as Hm1. rewrite Nat.add_comm in Hm1. cbn [length Nat.add] in Hm1.
    rewrite (read_head _ _ _ _ _ Hm1). cbn [mbind outcome_bind].
    assert (read m off (Z.to_nat (get_length o)) = Done (bytes o)) as Hr.
    { rewrite <- Hlen. unfold read. rewrite (slice_app_l _ _ _ _ _ Hm), decide_True; [reflexivity |].
      pose proof (f_equal length (slice_app_l _ _ _ _ _ Hm)) as E. rewrite length_slice in E.
      rewrite Hb in E |- *. cbn [length] in *. lia. }
    pose proof (rebuild_option o Ho) as R.
    destruct (new_TCPHeaderOption (get_kind o) (get_length o)) as [o0|]; [| discriminate R].
    cbn [mbind outcome_bind] in R |- *. rewrite Hr. cbn [mbind outcome_bind]. rewrite R. cbn [mbind outcome_bind].
    pose proof (slice_app_r _ _ _ _ _ Hm) as Hm2. rewrite Hlen in Hm2.
    rewrite u8_small by word_lia.
    replace (Z.of_nat n - get_length o) with (Z.of_nat (n - Z.to_nat (get_length o))) by lia.
    rewrite (IH k) by (try exact Hm2; cbn in Hd; lia).
    unfold insert. rewrite <- app_assoc. reflexivity.
Qed.

(** Every option is at least two bytes of the area, and shorter than 256 bytes in all. *)
Lemma written_area os k :
  Forall option_ok os → length_bytes os ≤ 40 → (length (flat os) + k = Z.to_nat (4 * get_padded_length os))%nat →
  0 ≤ 4 * get_padded_length os ≤ 40.
Proof.
  intros Hok H40 Hk. rewrite length_bytes_flat in H40 by assumption. unfold get_padded_length.
  rewrite (length_bytes_flat os Hok). rewrite u8_small by word_lia. word_lia.
Qed.

Lemma slice_middle (a b c : mem) n : length a = n → slice (a ++ b ++ c) n (length b) = b.
Proof. intros <-. unfold slice. rewrite drop_app_length, take_app_length. reflexivity. Qed.

Lemma parse_written os k off m :
  Forall option_ok os → length_bytes os ≤ 40 → (length (flat os) + k = Z.to_nat (4 * get_padded_length os))%nat →
  (off + Z.to_nat (4 * get_padded_length os) ≤ length m)%nat →
  parse (S (length os)) (take off m ++ (flat os ++ replicate k 0) ++ drop (off + Z.to_nat (4 * get_padded_length os)) m)%list
    off (4 * get_padded_length os) [] = Done os.
Proof.
  intros Hok H40 Hk Hl. pose proof (written_area os k Hok H40 Hk). rewrite <- (Z2Nat.id (4 * get_padded_length os)) at 2 by lia.
  apply (parse_flat os Hok k); [| lia | lia | lia].
  replace (Z.to_nat (4 * get_padded_length os)) with (length (flat os ++ replicate k 0)) at 2
    by (rewrite length_app, length_replicate; exact Hk).
  apply slice_middle. rewrite length_take. lia.
Qed.

(** C37: options round-trip through the packet. Any list of well-formed options that fits
    the 40 bytes a TCP header leaves for them is written without touching anything
    outside, and parsing the padded area gives the same options back, in order. *)
Theorem options_roundtrip os off m :
  Forall option_ok os → length_bytes os ≤ 40 →
  (off + Z.to_nat (4 * get_padded_length os) ≤ length m)%nat →
  ∃ m', write_options os off m = Done m' ∧ length m' = length m ∧
    take off m' = take off m ∧
    drop (off + Z.to_nat (4 * get_padded_length os)) m' = drop (off + Z.to_nat (4 * get_padded_length os)) m ∧
    parse (S (length os)) m' off (4 * get_padded_length os) [] = Done os.
Proof.
  intros Hok H40 Hl. destruct (write_options_eq os off m Hok H40 Hl) as (k & Hw & Hk).
  eexists. split; [exact Hw |].
  assert (length (flat os ++ replicate k 0) = Z.to_nat (4 * get_padded_length os)) as Hn
    by (rewrite length_app, length_replicate; exact Hk).
  assert (length (take off m) = off) as Ht by (rewrite length_take; lia).
  split; [rewrite !length_app, Ht, length_replicate, length_drop; lia |].
  split; [rewrite take_app_le by lia; apply take_ge; lia |].
  split; [| apply parse_written; assumption].
  rewrite (app_assoc (take off m)). apply drop_app_length'. rewrite length_app. lia.
Qed.

(** Two timestamp options and no room to spare. *)
Definition sample_option (n : Z) : tcp_header_option :=
  match new_TCPTimestampOption with Done o => set_timestamp n o | Fault _ => {| data_ := [] |} end.

Lemma sample_option_ok : Forall option_ok [sample_option 7; sample_option 8].
Proof.
  apply Forall_cons. split; [| apply Forall_cons; split; [| constructor]]; split.
  all: first [vm_compute; reflexivity | apply Z.leb_le; vm_compute; reflexivity
    | split; apply Z.leb_le; vm_compute; reflexivity].
Qed.

Lemma options_roundtrip_witness :
  Forall option_ok [sample_option 7; sample_option 8] ∧
  ∃ m', write_options [sample_option 7; sample_option 8] 2 (replicate 22 9) = Done m' ∧ take 2 m' = [9; 9] ∧
    parse 3 m' 2 20 [] = Done [sample_option 7; sample_option 8].
Proof.
  split; [exact sample_option_ok |].
  destruct (options_roundtrip [sample_option 7; sample_option 8] 2 (replicate 22 9) sample_option_ok) as (m' & E & _ & Ht & _ & Hp).
  - apply Z.leb_le. vm_compute. reflexivity.
  - apply Nat.leb_le. vm_compute. reflexivity.
  - exists m'. split; [exact E |]. split; [exact Ht |].
    replace 20 with (4 * get_padded_length [sample_option 7; sample_option 8]) by (vm_compute; reflexivity). exact Hp.
Defined.

(** The stack is exhausted only by an option of length 0. *)
Definition zero_length_option_at (m : mem) (off : nat) : Prop :=
  ∃ kind, m !! off = Some kind ∧ kind ≠ 0 ∧ kind ≠ 1 ∧ m !! S off = Some 0.

Lemma new_option_no_overflow kind len : new_TCPHeaderOption kind len ≠ Fault StackOverflow.
Proof. unfold new_TCPHeaderOption, set_length, assert. destruct (len <=? _); discriminate. Qed.

Lemma set_data_no_overflow data o : set_data data o ≠ Fault StackOverflow.
Proof.
  unfold set_data, assert, memcpy. destruct (_ <=? _); [| discriminate].
  cbn [mbind outcome_bind]. case_decide; discriminate.
Qed.

Lemma parse_deep depth m off n os :
  (length m - off < depth)%nat → Forall is_byte m →
  parse depth m off n os = Fault StackOverflow → ∃ off', (off ≤ off')%nat ∧ zero_length_option_at m off'.
Proof.
  revert off n os. induction depth as [|depth IH]; intros off n os Hd Hb; [lia |]. cbn [parse].
  destruct (n <=? 0); [discriminate |]. unfold read_byte.
  destruct (m !! off) as [kind|] eqn:Hk; cbn [mbind outcome_bind]; [| discriminate].
  pose proof (lookup_lt_Some _ _ _ Hk) as Hoff.
  destruct (kind =? 0) eqn:E0; [discriminate |].
  destruct (kind =? 1) eqn:E1.
  { intros H. destruct (IH (S off) _ _ ltac:(lia) Hb H) as (o' & ? & ?). exists o'. split; [lia | assumption]. }
  destruct (m !! S off) as [len|] eqn:Hl; cbn [mbind outcome_bind]; [| discriminate].
  destruct (decide (len = 0)) as [->|Hne].
  { intros _. exists off. split; [lia |]. exists kind. apply Z.eqb_neq in E0, E1. auto. }
  pose proof (new_option_no_overflow kind len) as N. destruct (new_TCPHeaderOption kind len) as [o|f]; [| cbn; intros [= ->]; congruence].
  cbn [mbind outcome_bind]. unfold read. case_decide; cbn [mbind outcome_bind]; [| discriminate].
  match goal with |- context [set_data ?d o] => pose proof (set_data_no_overflow d o) as N'; destruct (set_data d o) as [o'|f] end;
    [| cbn; intros [= ->]; congruence].
  cbn [mbind outcome_bind]. intros Hp. rewrite Forall_lookup in Hb. pose proof (Hb _ _ Hl) as Hlb.
  unfold is_byte in Hlb. rewrite <- Forall_lookup in Hb.
  apply IH in Hp as (o'' & ? & ?); [exists o''; split; [lia | assumption] | lia | assumption].
Qed.

(** An option of length 0 never advances: no stack is deep enough. *)
Lemma parse_zero_length depth m off n os :
  zero_length_option_at m off → 0 < n < 256 → parse depth m off n os = Fault StackOverflow.
Proof.
  intros (kind & Hk & H0 & H1 & Hl) Hn. revert os. induction depth as [|depth IH]; intros os; cbn [parse]; [reflexivity |].
  rewrite (proj2 (Z.leb_gt _ _)) by lia. unfold read_byte. rewrite Hk, Hl. cbn [mbind outcome_bind].
  rewrite !(proj2 (Z.eqb_neq _ _)) by assumption.
  unfold new_TCPHeaderOption, set_length. cbn [assert Z.leb Z.compare mbind outcome_bind mret outcome_ret].
  unfold read. rewrite decide_True by (apply lookup_lt_Some in Hk; lia).
  cbn [mbind outcome_bind]. unfold set_data. cbn -[parse u8 put].
  rewrite Z.sub_0_r, Nat.add_0_r, u8_small by word_lia. apply IH.
Qed.
