(* ===== verification/WiFuPacket.v ===== *)
(** * class WiFuPacket (transport/src/packet/WiFuPacket.cc)

    An IPPacket with the ports behind the IP header and the two address-ports it
    caches. [ports_] is computed once, when the header has five words, so the
    port fields are at the fixed offsets 20 and 22. *)
From S2P Require Import Prelude HeaderMem Inet AddressPort IPPacket.

Record wifu_packet := {
  ip : ip_packet;
  source_ : option address_port;
  dest_ : option address_port }.

Definition sizeof_wifu_packet_header : Z := 4.
Definition f_sport : field := be16 20.
Definition f_dport : field := be16 22.

Definition with_ip (q : ip_packet) (p : wifu_packet) : wifu_packet :=
  {| ip := q; source_ := source_ p; dest_ := dest_ p |}.

(** The constructor and [init()]. *)
Definition new_WiFuPacket (raw : mem) : outcome wifu_packet :=
  q ← new_IPPacket raw;
  mret {| ip := set_ip_tot_length (get_ip_header_length_bytes q + sizeof_wifu_packet_header) q;
          source_ := None; dest_ := None |}.

Definition get_data (p : wifu_packet) : nat := (get_next_header (ip p) + Z.to_nat sizeof_wifu_packet_header)%nat.
Definition get_data_length_bytes (p : wifu_packet) : Z :=
  get_ip_tot_length (ip p) - get_ip_header_length_bytes (ip p) - sizeof_wifu_packet_header.
Definition set_data (data : list Z) (p : wifu_packet) : outcome wifu_packet :=
  q ← copy_in (get_data p) data (ip p);
  mret (with_ip (set_ip_tot_length (get_ip_header_length_bytes q + sizeof_wifu_packet_header
                                    + Z.of_nat (length data)) q) p).
Definition max_data_length (p : wifu_packet) : Z :=
  IPPacket.max_data_length (ip p) - sizeof_wifu_packet_header.

Definition get_source_port (p : wifu_packet) : Z := get_field f_sport (ip p).
Definition set_source_port (port : Z) (p : wifu_packet) : wifu_packet :=
  with_ip (set_field f_sport port (ip p)) p.
Definition get_destination_port (p : wifu_packet) : Z := get_field f_dport (ip p).
Definition set_destination_port (port : Z) (p : wifu_packet) : wifu_packet :=
  with_ip (set_field f_dport port (ip p)) p.

(** The address-port is built on the first call and kept. *)
Definition get_source_address_port (p : wifu_packet) : outcome (address_port * wifu_packet) :=
  match source_ p with
  | Some a => mret (a, p)
  | None =>
      a ← new_AddressPort (get_ip_source_address_s (ip p)) (get_source_port p);
      mret (a, {| ip := ip p; source_ := Some a; dest_ := dest_ p |})
  end.
Definition get_dest_address_port (p : wifu_packet) : outcome (address_port * wifu_packet) :=
  match dest_ p with
  | Some a => mret (a, p)
  | None =>
      a ← new_AddressPort (get_ip_destination_address_s (ip p)) (get_destination_port p);
      mret (a, {| ip := ip p; source_ := source_ p; dest_ := Some a |})
  end.

Definition equal (p other : wifu_packet) : bool :=
  IPPacket.equal (ip p) (ip other)
  && (get_field f_dport (ip p) =? get_field f_dport (ip other))
  && (get_field f_sport (ip p) =? get_field f_sport (ip other)).

(** ** Laws *)

Definition wf (p : wifu_packet) : Prop := IPPacket.wf (ip p).

Lemma get_source_address_port_Done p :
  wf p → ∃ a p', get_source_address_port p = Done (a, p') ∧ ip p' = ip p ∧ source_ p' = Some a.
Proof.
  intros H. unfold get_source_address_port. destruct (source_ p) eqn:E; [eauto 10 |].
  unfold get_ip_source_address_s. rewrite new_AddressPort_ntop by apply (get_field_bound f_saddr _ H).
  eexists _, _. split; [reflexivity |]. auto.
Qed.

Lemma get_dest_address_port_Done p :
  wf p → ∃ a p', get_dest_address_port p = Done (a, p') ∧ ip p' = ip p ∧ dest_ p' = Some a.
Proof.
  intros H. unfold get_dest_address_port. destruct (dest_ p) eqn:E; [eauto 10 |].
  unfold get_ip_destination_address_s. rewrite new_AddressPort_ntop by apply (get_field_bound f_daddr _ H).
  eexists _, _. split; [reflexivity |]. auto.
Qed.
