(* ===== verification/TCPPacket.v ===== *)
(** * class TCPPacket (transport/src/packet/TCPPacket.cc)

    A WiFuPacket with the fields of [struct tcphdr], the header options it holds
    as objects, and the flag that forbids setting the data twice. [tcp_] is
    computed once, when the IP header has five words, so the header fields are at
    fixed offsets from 20; [get_data] and [get_options_pointer] follow the
    current header length. Flags are one-bit fields with the value 0 or 1. *)
From S2P Require Import Prelude SeqMath HeaderMem IPPacket TCPOptions WiFuPacket.

Definition sizeof_tcphdr : Z := 20.

Definition f_seq : field := be32 24.
Definition f_ack_seq : field := be32 28.
Definition f_res1 : field := Bits 32 0 4.
Definition f_doff : field := Bits 32 4 4.
Definition f_fin : field := Bits 33 0 1.
Definition f_syn : field := Bits 33 1 1.
Definition f_rst : field := Bits 33 2 1.
Definition f_psh : field := Bits 33 3 1.
Definition f_ack : field := Bits 33 4 1.
Definition f_urg : field := Bits 33 5 1.
Definition f_res2 : field := Bits 33 6 2.
Definition f_window : field := be16 34.
Definition f_tcp_check : field := le16 36.
Definition f_urg_ptr : field := be16 38.

Record tcp_packet := {
  wifu : wifu_packet;
  options_ : options;
  data_set_ : bool }.

Definition ip_of (p : tcp_packet) : ip_packet := ip (wifu p).
Definition with_wifu (w : wifu_packet) (p : tcp_packet) : tcp_packet :=
  {| wifu := w; options_ := options_ p; data_set_ := data_set_ p |}.
Definition with_ip_of (q : ip_packet) (p : tcp_packet) : tcp_packet := with_wifu (with_ip q (wifu p)) p.
Definition with_options (os : options) (p : tcp_packet) : tcp_packet :=
  {| wifu := wifu p; options_ := os; data_set_ := data_set_ p |}.

Definition get_tcp (f : field) (p : tcp_packet) : Z := get_field f (ip_of p).
Definition set_tcp (f : field) (v : Z) (p : tcp_packet) : tcp_packet := with_ip_of (set_field f v (ip_of p)) p.
Definition is_tcp (f : field) (p : tcp_packet) : bool := negb (get_tcp f p =? 0).
Definition set_flag (f : field) (b : bool) (p : tcp_packet) : tcp_packet := set_tcp f (if b then 1 else 0) p.

Definition get_tcp_sequence_number := get_tcp f_seq.
Definition set_tcp_sequence_number (seq_num : Z) := set_tcp f_seq seq_num.
Definition get_tcp_ack_number := get_tcp f_ack_seq.
Definition set_tcp_ack_number (ack_num : Z) := set_tcp f_ack_seq ack_num.
Definition get_tcp_data_offset := get_tcp f_doff.
Definition set_tcp_data_offset (length : Z) := set_tcp f_doff length.
Definition get_tcp_header_length_bytes (p : tcp_packet) : Z := get_tcp_data_offset p * 4.
Definition is_tcp_urg := is_tcp f_urg.
Definition set_tcp_urg (urg : bool) := set_flag f_urg urg.
Definition is_tcp_ack := is_tcp f_ack.
Definition set_tcp_ack (ack : bool) := set_flag f_ack ack.
Definition is_tcp_psh := is_tcp f_psh.
Definition set_tcp_psh (psh : bool) := set_flag f_psh psh.
Definition is_tcp_rst := is_tcp f_rst.
Definition set_tcp_rst (rst : bool) := set_flag f_rst rst.
Definition is_tcp_syn := is_tcp f_syn.
Definition set_tcp_syn (syn : bool) := set_flag f_syn syn.
Definition is_tcp_fin := is_tcp f_fin.
Definition set_tcp_fin (fin : bool) := set_flag f_fin fin.
Definition get_tcp_receive_window_size := get_tcp f_window.
Definition set_tcp_receive_window_size (window : Z) := set_tcp f_window window.
Definition get_tcp_checksum := get_tcp f_tcp_check.
Definition set_tcp_checksum (checksum : Z) := set_tcp f_tcp_check checksum.
Definition get_tcp_urgent_pointer := get_tcp f_urg_ptr.
Definition set_tcp_urgent_pointer (urg_ptr : Z) := set_tcp f_urg_ptr urg_ptr.

Definition get_next_header (p : tcp_packet) : nat := IPPacket.get_next_header (ip_of p).

(** Offset of the first data byte. *)
Definition get_data (p : tcp_packet) : nat :=
  (get_next_header p + Z.to_nat (get_tcp_header_length_bytes p))%nat.

Definition get_data_length_bytes (p : tcp_packet) : Z :=
  get_ip_tot_length (ip_of p) - get_ip_header_length_bytes (ip_of p) - get_tcp_header_length_bytes p.

(** The bytes that [get_data] and [get_data_length_bytes] delimit. *)
Definition data_of (p : tcp_packet) : list Z :=
  slice (payload_ (ip_of p)) (get_data p) (Z.to_nat (get_data_length_bytes p)).

Definition set_data (data : list Z) (p : tcp_packet) : outcome tcp_packet :=
  if data_set_ p then Fault IllegalStateException else
  q ← copy_in (get_data p) data (ip_of p);
  let p := {| wifu := with_ip q (wifu p); options_ := options_ p; data_set_ := true |} in
  let tcp_len := u8 (get_tcp_header_length_bytes p) in
  let ip_len := get_ip_header_length_bytes q in
  mret (with_ip_of (set_ip_tot_length (ip_len + tcp_len + Z.of_nat (length data)) q) p).

Definition get_options_pointer (p : tcp_packet) : nat := (get_next_header p + Z.to_nat sizeof_tcphdr)%nat.

(** Writes the option objects and the padding into the packet. *)
Definition pack (p : tcp_packet) : outcome tcp_packet :=
  m ← write_options (options_ p) (get_options_pointer p) (payload_ (ip_of p));
  mret (with_ip_of (with_payload m (ip_of p)) p).

Definition calculate_and_set_tcp_checksum (p : tcp_packet) : outcome tcp_packet :=
  let p := set_tcp_checksum 0 p in
  '(sum, q) ← compute_next_checksum (ip_of p);
  mret (set_tcp_checksum sum (with_ip_of q p)).

Definition is_valid_tcp_checksum (p : tcp_packet) : outcome (bool * tcp_packet) :=
  let current_checksum := get_tcp_checksum p in
  p ← calculate_and_set_tcp_checksum p;
  let calculated_checksum := get_tcp_checksum p in
  let p := set_tcp_checksum current_checksum p in
  mret (current_checksum =? calculated_checksum, p).

(** The constructor and [init()]; the TCP header keeps what the array holds. *)
Definition new_TCPPacket (raw : mem) : outcome tcp_packet :=
  w ← new_WiFuPacket raw;
  let p := set_tcp_data_offset (sizeof_tcphdr / 4) {| wifu := w; options_ := []; data_set_ := false |} in
  mret (with_ip_of (set_ip_tot_length (get_ip_header_length_bytes (ip_of p)
                                       + get_tcp_header_length_bytes p) (ip_of p)) p).

(** [new TCPPacket()]: the collector hands out cleared memory. *)
Definition fresh_TCPPacket : outcome tcp_packet := new_TCPPacket (replicate MTU 0).

Definition is_naked_ack (p : tcp_packet) : bool :=
  is_tcp_ack p && (get_data_length_bytes p =? 0) && negb (is_tcp_fin p) && negb (is_tcp_psh p)
  && negb (is_tcp_rst p) && negb (is_tcp_syn p) && negb (is_tcp_urg p).

Definition max_data_length (p : tcp_packet) : Z :=
  IPPacket.max_data_length (ip_of p) - get_tcp_header_length_bytes p.

(** [operator==]: not the checksum, not the window. *)
Definition equal (p other : tcp_packet) : bool :=
  WiFuPacket.equal (wifu p) (wifu other)
  && forallb (fun f => get_tcp f p =? get_tcp f other)
       [f_ack; f_ack_seq; f_dport; f_doff; f_fin; f_psh; f_res1; f_res2; f_rst; f_seq; f_sport;
        f_syn; f_urg; f_urg_ptr].

Definition insert_tcp_header_option (o : tcp_header_option) (p : tcp_packet) : tcp_packet :=
  let p := with_options (insert o (options_ p)) p in
  set_tcp_data_offset (get_tcp_data_offset p + get_padded_length (options_ p)) p.

Definition remove_tcp_header_option (kind : Z) (p : tcp_packet) : option tcp_header_option * tcp_packet :=
  let '(o, os) := remove kind (options_ p) in
  let p := with_options os p in
  (o, set_tcp_data_offset (get_tcp_data_offset p + get_padded_length (options_ p)) p).

(** Options of a received packet are parsed on the first call. *)
Definition get_option (kind : Z) (p : tcp_packet) : outcome (option tcp_header_option * tcp_packet) :=
  p ← (if match options_ p with [] => true | _ => false end
          && (sizeof_tcphdr / 4 <? get_tcp_data_offset p)
       then
         let length := u8 ((get_tcp_data_offset p - sizeof_tcphdr / 4) * 4) in
         os ← parse (S MTU) (payload_ (ip_of p)) (get_options_pointer p) length (options_ p);
         mret (with_options os p)
       else mret p);
  mret (find_option kind (options_ p), p).

(** TCPSequenceNumberComparator *)
Definition TCPSequenceNumberComparator (p1 p2 : tcp_packet) : bool :=
  less_than (get_tcp_sequence_number p1) (get_tcp_sequence_number p2).

(** ** Laws *)

Definition wf (p : tcp_packet) : Prop := IPPacket.wf (ip_of p).

Lemma ip_of_with_ip_of q p : ip_of (with_ip_of q p) = q.
Proof. reflexivity. Qed.

Lemma wf_set_tcp f v p : field_ok MTU f = true → wf p → wf (set_tcp f v p).
Proof. intros. unfold wf. cbn. apply wf_set_field; assumption. Qed.

Lemma get_tcp_set_same f v p :
  wf p → field_ok MTU f = true → get_tcp f (set_tcp f v p) = v mod 2 ^ width f.
Proof. intros. apply (get_set_same f v (ip_of p)); assumption. Qed.

Lemma get_tcp_set_other f g v p :
  wf p → field_ok MTU g = true → disjoint f g = true → get_tcp f (set_tcp g v p) = get_tcp f p.
Proof. intros. apply (get_set_other f g v (ip_of p)); assumption. Qed.

#[export] Hint Resolve wf_set_tcp : packet.
Create Rewrite HintDb tcp_fields.
#[export] Hint Rewrite get_tcp_set_same get_tcp_set_other using (solve [auto 30 with packet nocore]) : tcp_fields.

Ltac unfold_tcp :=
  unfold get_tcp_sequence_number, set_tcp_sequence_number, get_tcp_ack_number, set_tcp_ack_number,
    get_tcp_data_offset, set_tcp_data_offset, is_tcp_urg, set_tcp_urg, is_tcp_ack, set_tcp_ack,
    is_tcp_psh, set_tcp_psh, is_tcp_rst, set_tcp_rst, is_tcp_syn, set_tcp_syn, is_tcp_fin, set_tcp_fin,
    get_tcp_receive_window_size, set_tcp_receive_window_size, get_tcp_checksum, set_tcp_checksum,
    get_tcp_urgent_pointer, set_tcp_urgent_pointer, set_flag, is_tcp in *.

Lemma flag_value (b : bool) : negb ((if b then 1 else 0) mod 2 ^ 1 =? 0) = b.
Proof. destruct b; reflexivity. Qed.

(** Writing every field of the TCP header and reading them back gives each value at
    the field's width, in any bit of the flag byte too; no setter disturbs another field. *)
Theorem tcp_header_roundtrip p seq ack_num doff urg ack psh rst syn fin window check urg_ptr :
  wf p →
  let q := set_tcp_urgent_pointer urg_ptr (set_tcp_checksum check (set_tcp_receive_window_size window
           (set_tcp_fin fin (set_tcp_syn syn (set_tcp_rst rst (set_tcp_psh psh (set_tcp_ack ack
           (set_tcp_urg urg (set_tcp_data_offset doff (set_tcp_ack_number ack_num
           (set_tcp_sequence_number seq p))))))))))) in
  get_tcp_sequence_number q = u32 seq ∧ get_tcp_ack_number q = u32 ack_num ∧
  get_tcp_data_offset q = doff mod 16 ∧
  is_tcp_urg q = urg ∧ is_tcp_ack q = ack ∧ is_tcp_psh q = psh ∧ is_tcp_rst q = rst ∧
  is_tcp_syn q = syn ∧ is_tcp_fin q = fin ∧
  get_tcp_receive_window_size q = u16 window ∧ get_tcp_checksum q = u16 check ∧
  get_tcp_urgent_pointer q = u16 urg_ptr.
Proof.
  intros Hwf q. subst q. unfold_tcp.
  repeat split; autorewrite with tcp_fields; first [reflexivity | apply flag_value].
Qed.

Definition zero_tcp_packet : tcp_packet :=
  {| wifu := {| ip := zero_packet; source_ := None; dest_ := None |}; options_ := []; data_set_ := false |}.

Lemma tcp_header_roundtrip_witness :
  wf zero_tcp_packet ∧
  is_tcp_syn (set_tcp_urgent_pointer 0 (set_tcp_checksum 1 (set_tcp_receive_window_size 65535
    (set_tcp_fin false (set_tcp_syn true (set_tcp_rst false (set_tcp_psh false (set_tcp_ack true
    (set_tcp_urg false (set_tcp_data_offset 5 (set_tcp_ack_number 7
    (set_tcp_sequence_number 6 zero_tcp_packet)))))))))))) = true.
Proof.
  split; [exact wf_zero_packet |].
  destruct (tcp_header_roundtrip zero_tcp_packet 6 7 5 false true false false true false 65535 1 0 wf_zero_packet)
    as (_ & _ & _ & _ & _ & _ & _ & H & _). exact H.
Defined.

(** ** Data *)

Lemma set_data_twice data p : data_set_ p = true → set_data data p = Fault IllegalStateException.
Proof. intros H. unfold set_data. rewrite H. reflexivity. Qed.

(** The packet has an IP header of five words and a TCP header of five words or more. *)
Record headers_ok (p : tcp_packet) : Prop := {
  headers_wf : wf p;
  headers_ihl : get_ip_header_length_words (ip_of p) = 5;
  headers_doff : 5 ≤ get_tcp_data_offset p }.

Lemma headers_doff_max p : headers_ok p → get_tcp_data_offset p ≤ 15.
Proof.
  intros [Hwf _ _]. pose proof (get_field_bound f_doff _ Hwf). unfold get_tcp_data_offset, get_tcp.
  change (2 ^ width f_doff) with 16 in *. lia.
Qed.

Lemma headers_length p : headers_ok p → get_ip_header_length_bytes (ip_of p) = 20.
Proof. intros [Hwf Hihl _]. rewrite header_length_bytes, Hihl by assumption. reflexivity. Qed.

Lemma headers_next p : headers_ok p → get_next_header p = 20%nat.
Proof. intros H. unfold get_next_header, IPPacket.get_next_header. rewrite headers_length by assumption. reflexivity. Qed.

(** Everything [set_data] promises. *)
Lemma set_data_spec data p :
  headers_ok p → data_set_ p = false → Forall is_byte data →
  (length data ≤ MTU - 20 - Z.to_nat (get_tcp_header_length_bytes p))%nat →
  ∃ p', set_data data p = Done p' ∧ wf p' ∧
    (∀ f, disjoint f f_tot_len = true → outside f (get_data p) (length data) = true →
          get_tcp f p' = get_tcp f p) ∧
    get_ip_tot_length (ip_of p') = 20 + get_tcp_header_length_bytes p + Z.of_nat (length data) ∧
    slice (payload_ (ip_of p')) (get_data p) (length data) = data ∧
    data_set_ p' = true ∧ options_ p' = options_ p ∧ source_ (wifu p') = source_ (wifu p)
    ∧ dest_ (wifu p') = dest_ (wifu p).
Proof.
  intros Hok Hset Hdata Hlen. pose proof (headers_doff_max p Hok). pose proof Hok as [Hwf Hihl Hdoff].
  pose proof (headers_next p Hok) as Hnext. pose proof Hwf as [Hl Hb].
  set (h := get_tcp_header_length_bytes p) in *.
  assert (20 ≤ h ≤ 60) as Hh by (unfold h, get_tcp_header_length_bytes; lia).
  assert (get_data p = 20 + Z.to_nat h)%nat as Hd by (unfold get_data; fold h; lia).
  unfold MTU in *.
  destruct (copy_in (get_data p) data (ip_of p)) as [q|] eqn:Hc.
  2: { unfold copy_in in Hc. rewrite memcpy_fits in Hc by lia. discriminate Hc. }
  assert (IPPacket.wf q) as Hq by exact (wf_copy_in _ _ _ _ Hwf Hdata Hc).
  apply copy_in_Done in Hc as Hm. destruct Hm as [Hm _].
  assert (∀ f, outside f (get_data p) (length data) = true → get_field f q = get_field f (ip_of p)) as Hf.
  { intros f Ho. apply (get_memcpy f _ _ _ _ Hm Ho). }
  assert (∀ f, forallb (fun o => Nat.ltb o 40) (offsets f) = true → outside f (get_data p) (length data) = true) as Hlow.
  { intros f. rewrite Hd. unfold outside. rewrite !forallb_forall. intros H0 o Ho. specialize (H0 o Ho).
    apply orb_true_iff. left. apply Nat.ltb_lt in H0. apply Nat.ltb_lt. lia. }
  unfold set_data. rewrite Hset. rewrite Hc. cbn [mbind outcome_bind mret outcome_ret].
  eexists. split; [reflexivity |]. rewrite ip_of_with_ip_of. split; [| split; [| split; [| split]]].
  - apply wf_set_ip_tot_length, Hq.
  - intros f Hf1 Hf2. unfold get_tcp. rewrite ip_of_with_ip_of, get_set_tot_length_other by assumption. auto.
  - unfold get_ip_tot_length. rewrite get_set_tot_length_same by assumption.
    assert (get_ip_header_length_bytes q = 20) as ->.
    { unfold get_ip_header_length_bytes, get_ip_header_length_words in *. rewrite Hf, Hihl by (apply Hlow; reflexivity).
      reflexivity. }
    unfold get_tcp_header_length_bytes, get_tcp_data_offset, get_tcp, ip_of at 1. cbn [wifu with_ip ip].
    rewrite Hf by (apply Hlow; reflexivity).
    change (get_field f_doff (ip_of p) * 4) with h. rewrite u8_small by word_lia. apply u16_small. word_lia.
  - cbn [payload_ set_ip_tot_length]. rewrite slice_put; [apply (memcpy_slice _ _ _ _ Hm) |].
    apply (Hlow f_tot_len). reflexivity.
  - auto.
Qed.

(** Everything a caller of [set_data] can rely on. *)
Lemma set_data_full data p :
  headers_ok p → data_set_ p = false → Forall is_byte data →
  (length data ≤ MTU - 20 - Z.to_nat (get_tcp_header_length_bytes p))%nat →
  ∃ p', set_data data p = Done p' ∧ headers_ok p' ∧
    data_of p' = data ∧ get_data_length_bytes p' = Z.of_nat (length data) ∧
    (∀ f, f ∈ [f_sport; f_dport; f_seq; f_ack_seq; f_doff; f_fin; f_syn; f_rst; f_psh; f_ack;
               f_urg; f_window; f_tcp_check; f_urg_ptr; f_saddr; f_daddr; f_protocol] →
          get_tcp f p' = get_tcp f p) ∧
    ∀ data', set_data data' p' = Fault IllegalStateException.
Proof.
  intros Hok Hset Hdata Hlen.
  destruct (set_data_spec data p Hok Hset Hdata Hlen) as (p' & E & Hwf & Hf & Htot & Hdat & Hset' & _).
  pose proof (headers_doff_max p Hok). pose proof (headers_next p Hok) as Hn.
  assert (∀ f, disjoint f f_tot_len = true → forallb (fun o => Nat.ltb o 40) (offsets f) = true →
               get_tcp f p' = get_tcp f p) as Hlow.
  { intros f Hd H40. apply Hf; [assumption |]. unfold outside. rewrite !forallb_forall in *.
    intros o Ho. specialize (H40 o Ho). apply orb_true_iff. left. apply Nat.ltb_lt in H40.
    apply Nat.ltb_lt. unfold get_data, get_tcp_header_length_bytes. destruct Hok. lia. }
  assert (headers_ok p') as Hok'.
  { split; [assumption |..]; [change (get_tcp f_ihl p' = 5) | unfold get_tcp_data_offset];
      rewrite Hlow by reflexivity; apply Hok. }
  assert (get_tcp_header_length_bytes p' = get_tcp_header_length_bytes p) as Hh.
  { unfold get_tcp_header_length_bytes, get_tcp_data_offset. rewrite Hlow by reflexivity. reflexivity. }
  assert (get_data_length_bytes p' = Z.of_nat (length data)) as Hdl.
  { unfold get_data_length_bytes. rewrite Htot, (headers_length p' Hok'), Hh. lia. }
  exists p'. split; [exact E |]. split; [exact Hok' |]. split; [| split; [exact Hdl | split]].
  - unfold data_of. rewrite Hdl, Nat2Z.id. unfold get_data. rewrite (headers_next p' Hok'), Hh.
    unfold get_data in Hdat. rewrite Hn in Hdat. exact Hdat.
  - intros f Hin. rewrite !elem_of_cons, elem_of_nil in Hin.
    repeat (destruct Hin as [-> | Hin]; [apply Hlow; reflexivity |]). destruct Hin.
  - intros data'. apply set_data_twice, Hset'.
Qed.

(** [set_data] stores a segment: on a packet without IP options the data comes back
    from [get_data]/[get_data_length_bytes] unchanged, and every header field but the total
    length keeps its value; a second [set_data] throws IllegalStateException. *)
Theorem set_data_get_data data p :
  headers_ok p → data_set_ p = false → Forall is_byte data →
  (length data ≤ MTU - 20 - Z.to_nat (get_tcp_header_length_bytes p))%nat →
  ∃ p', set_data data p = Done p' ∧ headers_ok p' ∧
    data_of p' = data ∧ get_data_length_bytes p' = Z.of_nat (length data) ∧
    (∀ f, f ∈ [f_sport; f_dport; f_seq; f_ack_seq; f_doff; f_fin; f_syn; f_rst; f_psh; f_ack;
               f_urg; f_window; f_tcp_check; f_urg_ptr; f_saddr; f_daddr; f_protocol] →
          get_tcp f p' = get_tcp f p) ∧
    ∀ data', set_data data' p' = Fault IllegalStateException.
Proof. apply set_data_full. Qed.

(** ** Construction *)

Lemma new_TCPPacket_spec raw :
  length raw = MTU → Forall is_byte raw →
  ∃ p, new_TCPPacket raw = Done p ∧ headers_ok p ∧ get_tcp_data_offset p = 5 ∧
       options_ p = [] ∧ data_set_ p = false ∧ get_ip_tot_length (ip_of p) = 40.
Proof.
  intros Hl Hb. destruct (new_IPPacket_spec raw Hl Hb) as (q & E & Hq & Hihl).
  unfold new_TCPPacket, new_WiFuPacket. rewrite E. cbn [mbind outcome_bind mret outcome_ret].
  eexists. split; [reflexivity |].
  match goal with |- context [set_tcp_data_offset ?d ?x] => set (p := set_tcp_data_offset d x) end.
  assert (wf p) as Hp.
  { apply wf_set_tcp; [reflexivity |]. apply (wf_set_ip_tot_length _ q), Hq. }
  assert (get_tcp f_ihl p = 5) as Hp5.
  { unfold p, set_tcp_data_offset. rewrite get_tcp_set_other by (reflexivity || apply (wf_set_ip_tot_length _ q), Hq).
    unfold get_tcp, ip_of. cbn [wifu ip]. rewrite get_set_tot_length_other by (reflexivity || assumption). exact Hihl. }
  assert (get_tcp f_doff p = 5) as Hpd.
  { unfold p, set_tcp_data_offset. rewrite get_tcp_set_same by (reflexivity || apply (wf_set_ip_tot_length _ q), Hq). reflexivity. }
  match goal with |- context [with_ip_of ?x p] => set (r := with_ip_of x p) end.
  assert (wf r) as Hw by (apply wf_set_ip_tot_length, Hp).
  assert (∀ f, disjoint f f_tot_len = true → get_tcp f r = get_tcp f p) as Hf
    by (intros; apply get_set_tot_length_other; assumption).
  assert (get_tcp_data_offset r = 5) as Hrd by (unfold get_tcp_data_offset; rewrite Hf; [exact Hpd | reflexivity]).
  split; [split; [exact Hw | | lia] |].
  { change (get_tcp f_ihl r = 5). rewrite Hf by reflexivity. exact Hp5. }
  split; [exact Hrd |]. split; [reflexivity |]. split; [reflexivity |].
  unfold get_ip_tot_length, r. rewrite ip_of_with_ip_of, get_set_tot_length_same by exact Hp.
  unfold get_ip_header_length_bytes, get_tcp_header_length_bytes, get_tcp_data_offset.
  change (get_ip_header_length_words (ip_of p)) with (get_tcp f_ihl p). rewrite Hp5, Hpd. reflexivity.
Qed.

Lemma fresh_TCPPacket_spec :
  ∃ p, fresh_TCPPacket = Done p ∧ headers_ok p ∧ get_tcp_data_offset p = 5 ∧
       options_ p = [] ∧ data_set_ p = false ∧ get_ip_tot_length (ip_of p) = 40.
Proof.
  apply new_TCPPacket_spec; [apply length_replicate |]. apply Forall_replicate. unfold is_byte. lia.
Qed.

Definition sample_segment : tcp_packet :=
  match fresh_TCPPacket with Done p => p | Fault _ => zero_tcp_packet end.

Lemma sample_segment_ok :
  headers_ok sample_segment ∧ get_tcp_data_offset sample_segment = 5 ∧ data_set_ sample_segment = false
  ∧ get_ip_tot_length (ip_of sample_segment) = 40.
Proof.
  destruct fresh_TCPPacket_spec as (p & E & H & Hd & _ & Hs & Ht). unfold sample_segment. rewrite E. auto.
Qed.

Lemma set_data_get_data_witness :
  headers_ok sample_segment ∧
  ∃ p', set_data [1; 2; 3] sample_segment = Done p' ∧ data_of p' = [1; 2; 3].
Proof.
  destruct sample_segment_ok as (H & Hd & Hs & _). split; [exact H |].
  destruct (set_data_get_data [1; 2; 3] sample_segment H Hs) as (p' & E & _ & Hdat & _).
  - repeat constructor; unfold is_byte; lia.
  - unfold get_tcp_header_length_bytes. rewrite Hd. unfold MTU. cbn. lia.
  - exists p'. auto.
Defined.

(** ** Header fields written after the data *)

(** A field of the fixed headers that moves neither the data nor its length. *)
Definition header_field (f : field) : bool :=
  field_ok 40 f && disjoint f_ihl f && disjoint f_doff f && disjoint f_tot_len f.

Lemma header_field_ok f : header_field f = true → field_ok MTU f = true.
Proof.
  unfold header_field, field_ok. intros H. bool_to_prop. rewrite forallb_forall in *.
  repeat (apply andb_true_iff; split); try assumption. apply forallb_forall. intros o Ho.
  match goal with Hf : ∀ x, In x _ → _ |- _ => specialize (Hf o Ho); apply Nat.ltb_lt in Hf end.
  apply Nat.ltb_lt. unfold MTU. lia.
Qed.

Lemma header_field_outside f off len : header_field f = true → (40 ≤ off)%nat → outside f off len = true.
Proof.
  unfold header_field, field_ok, outside. intros H Hoff. bool_to_prop. rewrite forallb_forall in *. intros o Ho.
  match goal with Hf : ∀ x, In x _ → Nat.ltb x 40 = true |- _ => specialize (Hf o Ho); apply Nat.ltb_lt in Hf end.
  apply orb_true_iff. left. apply Nat.ltb_lt. lia.
Qed.

Lemma set_header_field f v p :
  header_field f = true → headers_ok p →
  headers_ok (set_tcp f v p) ∧ data_of (set_tcp f v p) = data_of p ∧
  get_data_length_bytes (set_tcp f v p) = get_data_length_bytes p.
Proof.
  intros Hf Hp. pose proof Hp as [Hwf Hi Hd]. pose proof (header_field_ok f Hf) as Hok.
  pose proof Hf as Hf'. unfold header_field in Hf'. bool_to_prop.
  assert (∀ g, disjoint g f = true → get_tcp g (set_tcp f v p) = get_tcp g p) as Hg by (intros; apply get_tcp_set_other; assumption).
  assert (headers_ok (set_tcp f v p)) as Hp'.
  { split; [apply wf_set_tcp; assumption | |].
    - change (get_tcp f_ihl (set_tcp f v p) = 5). rewrite Hg by assumption. exact Hi.
    - unfold get_tcp_data_offset. rewrite Hg by assumption. exact Hd. }
  assert (get_data_length_bytes (set_tcp f v p) = get_data_length_bytes p) as Hl.
  { unfold get_data_length_bytes. rewrite !headers_length by assumption. unfold get_tcp_header_length_bytes, get_tcp_data_offset.
    rewrite Hg by assumption. do 2 f_equal. apply (Hg f_tot_len). assumption. }
  split; [exact Hp' |]. split; [| exact Hl]. unfold data_of, get_data. rewrite Hl, !headers_next by assumption.
  unfold get_tcp_header_length_bytes, get_tcp_data_offset in *. rewrite Hg by assumption.
  apply slice_put, header_field_outside; [assumption |]. lia.
Qed.

(** ** Writing the options *)

Lemma slice_drop_ext (m m' : mem) off len n :
  drop n m' = drop n m → (n ≤ off)%nat → slice m' off len = slice m off len.
Proof. intros E Hn. unfold slice. replace off with (n + (off - n))%nat by lia. rewrite <- !drop_drop, E. reflexivity. Qed.

(** [pack] writes the options where a receiver parses them, and nothing else. *)
Lemma pack_spec p :
  headers_ok p → Forall option_ok (options_ p) → Forall (fun o => Forall is_byte (data_ o)) (options_ p) →
  length_bytes (options_ p) ≤ 40 → get_tcp_data_offset p = 5 + get_padded_length (options_ p) →
  ∃ p', pack p = Done p' ∧ headers_ok p' ∧ options_ p' = options_ p ∧
    (∀ f, field_ok 40 f = true → get_tcp f p' = get_tcp f p) ∧
    data_of p' = data_of p ∧ get_data_length_bytes p' = get_data_length_bytes p ∧
    ∃ k, slice (payload_ (ip_of p')) (get_options_pointer p') (Z.to_nat (4 * get_padded_length (options_ p)))
           = (flat (options_ p) ++ replicate k 0)%list ∧
         (length (flat (options_ p)) + k = Z.to_nat (4 * get_padded_length (options_ p)))%nat.
Proof.
  intros Hp Hok Hb H40 Hd. pose proof Hp as [[Hlen Hbytes] Hi H5].
  assert (get_options_pointer p = 40%nat) as Ho by (unfold get_options_pointer; rewrite headers_next by assumption; reflexivity).
  set (m := payload_ (ip_of p)) in *. set (os := options_ p) in *.
  set (area := Z.to_nat (4 * get_padded_length os)).
  pose proof (headers_doff_max p Hp). assert (area ≤ 40)%nat as Ha by (unfold area; lia).
  destruct (write_options_eq os 40 m Hok H40) as (k & Hw & Hk); [fold area; rewrite Hlen; unfold MTU; lia |]. fold area in Hw, Hk.
  set (m' := (take 40 m ++ (flat os ++ replicate k 0) ++ drop (40 + area) m)%list) in *.
  assert (length (take 40 m) = 40%nat) as Ht by (rewrite length_take, Hlen; unfold MTU; lia).
  assert (take 40 m' = take 40 m) as Htake by (unfold m'; rewrite take_app_le by lia; apply take_ge; lia).
  assert (drop (40 + area) m' = drop (40 + area) m) as Hdrop.
  { unfold m'. rewrite (app_assoc (take 40 m)). apply drop_app_length'. rewrite !length_app, length_replicate. lia. }
  exists (with_ip_of (with_payload m' (ip_of p)) p).
  assert (∀ f, field_ok 40 f = true → get_tcp f (with_ip_of (with_payload m' (ip_of p)) p) = get_tcp f p) as Hf.
  { intros f Hf. unfold get_tcp, get_field. rewrite ip_of_with_ip_of. cbn [with_payload payload_]. fold m.
    apply get_ext. intros o Ho'. apply field_ok_spec in Hf as (Hf & _). rewrite Forall_forall in Hf. apply Hf in Ho'.
    unfold byte_at. rewrite <- (lookup_take_lt m' 40), <- (lookup_take_lt m 40), Htake by lia. reflexivity. }
  split; [unfold pack; fold os; fold m; rewrite Ho, Hw; reflexivity |].
  assert (length m' = MTU) as Hlm by (unfold m'; rewrite !length_app, Ht, length_replicate, length_drop, Hlen; unfold MTU; lia).
  assert (headers_ok (with_ip_of (with_payload m' (ip_of p)) p)) as Hp'.
  { split; [split; [exact Hlm |] | |].
    - change (Forall is_byte m'). unfold m'. rewrite !Forall_app.
      split; [apply Forall_take, Hbytes |]. split; [split |].
      + unfold flat. clear -Hb. induction Hb as [|o os Ho _ IH]; cbn; [constructor |]. apply Forall_app. split; [apply slice_is_byte, Ho | exact IH].
      + apply Forall_replicate. unfold is_byte. lia.
      + apply Forall_drop, Hbytes.
    - change (get_tcp f_ihl (with_ip_of (with_payload m' (ip_of p)) p) = 5). rewrite Hf by reflexivity. exact Hi.
    - unfold get_tcp_data_offset. rewrite Hf by reflexivity. exact H5. }
  split; [exact Hp' |]. split; [reflexivity |]. split; [exact Hf |].
  assert (get_tcp_header_length_bytes (with_ip_of (with_payload m' (ip_of p)) p) = get_tcp_header_length_bytes p) as Hh
    by (unfold get_tcp_header_length_bytes, get_tcp_data_offset; rewrite Hf by reflexivity; reflexivity).
  assert (get_data_length_bytes (with_ip_of (with_payload m' (ip_of p)) p) = get_data_length_bytes p) as Hl.
  { unfold get_data_length_bytes. rewrite Hh, !headers_length by assumption. do 2 f_equal. apply (Hf f_tot_len). reflexivity. }
  split; [| split; [exact Hl |]].
  - unfold data_of, get_data. rewrite Hl, Hh, !headers_next by assumption. apply (slice_drop_ext m m' _ _ (40 + area)); [exact Hdrop |].
    unfold get_tcp_header_length_bytes. unfold area. lia.
  - replace (get_options_pointer (with_ip_of (with_payload m' (ip_of p)) p)) with 40%nat
      by (unfold get_options_pointer; rewrite headers_next by assumption; reflexivity).
    exists k. split; [| exact Hk]. fold os area. rewrite <- Hk. replace (length (flat os) + k)%nat with (length (flat os ++ replicate k 0))
      by (rewrite length_app, length_replicate; reflexivity). apply slice_middle, Ht.
Qed.

(** ** Checksum *)

Lemma set_tcp_twice v w p : set_tcp f_tcp_check v (set_tcp f_tcp_check w p) = set_tcp f_tcp_check v p.
Proof.
  destruct p as [[[m l] s d] os b]. unfold set_tcp, with_ip_of, ip_of, with_wifu, with_ip, set_field, with_payload.
  cbn [wifu ip payload_ length_set_ options_ data_set_ source_ dest_]. unfold f_tcp_check. rewrite put_le16_twice.
  reflexivity.
Qed.

Lemma set_tcp_get p : wf p → set_tcp f_tcp_check (get_tcp_checksum p) p = p.
Proof.
  destruct p as [[[m l] s d] os b]. intros [_ Hb]. unfold get_tcp_checksum, get_tcp, set_tcp, with_ip_of, ip_of,
    with_wifu, with_ip, set_field, with_payload, get_field in *.
  cbn [wifu ip payload_ length_set_ options_ data_set_ source_ dest_] in *. unfold f_tcp_check.
  rewrite put_le16_get by assumption. reflexivity.
Qed.

(** What a correct checksum field holds. *)
Definition tcp_checksum_of (p : tcp_packet) : Z := checksum (checksum_input (ip_of (set_tcp_checksum 0 p))).

Record segment_ok (p : tcp_packet) : Prop := {
  segment_wf : wf p;
  segment_ihl : get_ip_header_length_words (ip_of p) = 5;
  segment_length : 20 ≤ get_ip_tot_length (ip_of p) ≤ Z.of_nat MTU }.

Lemma segment_ok_set_checksum v p : segment_ok p → segment_ok (set_tcp_checksum v p).
Proof.
  intros [Hwf Hi Hl]. split; [apply wf_set_tcp; [reflexivity | exact Hwf] |..].
  - change (get_tcp f_ihl (set_tcp f_tcp_check v p) = 5). rewrite get_tcp_set_other by (reflexivity || assumption). exact Hi.
  - change (20 ≤ get_tcp f_tot_len (set_tcp f_tcp_check v p) ≤ Z.of_nat MTU).
    rewrite get_tcp_set_other by (reflexivity || assumption). exact Hl.
Qed.

Lemma calculate_and_set_tcp_checksum_eq p :
  segment_ok p → calculate_and_set_tcp_checksum p = Done (set_tcp_checksum (tcp_checksum_of p) p).
Proof.
  intros H. pose proof (segment_ok_set_checksum 0 p H) as [Hwf Hi Hl].
  unfold calculate_and_set_tcp_checksum. rewrite compute_next_checksum_eq by assumption.
  cbn [mbind outcome_bind mret outcome_ret]. f_equal.
  transitivity (set_tcp f_tcp_check (tcp_checksum_of p) (set_tcp f_tcp_check 0 p)); [reflexivity | apply set_tcp_twice].
Qed.

Lemma is_valid_tcp_checksum_eq p :
  segment_ok p → is_valid_tcp_checksum p = Done (get_tcp_checksum p =? tcp_checksum_of p, p).
Proof.
  intros H. pose proof (segment_wf p H) as Hwf. unfold is_valid_tcp_checksum.
  rewrite calculate_and_set_tcp_checksum_eq by assumption. cbn [mbind outcome_bind mret outcome_ret].
  unfold set_tcp_checksum. rewrite set_tcp_twice, set_tcp_get by assumption.
  unfold get_tcp_checksum at 2. rewrite get_tcp_set_same by (reflexivity || assumption).
  change (tcp_checksum_of p mod 2 ^ width f_tcp_check) with (u16 (tcp_checksum_of p)).
  rewrite u16_small by apply checksum_range. reflexivity.
Qed.

Lemma computed_checksum_accepted p :
  segment_ok p →
  is_valid_tcp_checksum (set_tcp_checksum (tcp_checksum_of p) p) = Done (true, set_tcp_checksum (tcp_checksum_of p) p).
Proof.
  intros H. rewrite is_valid_tcp_checksum_eq by apply segment_ok_set_checksum, H.
  assert (tcp_checksum_of (set_tcp_checksum (tcp_checksum_of p) p) = tcp_checksum_of p) as ->
    by (unfold tcp_checksum_of at 1, set_tcp_checksum; rewrite set_tcp_twice; reflexivity).
  unfold get_tcp_checksum, set_tcp_checksum. rewrite get_tcp_set_same by (reflexivity || apply H).
  change (tcp_checksum_of p mod 2 ^ width f_tcp_check) with (u16 (tcp_checksum_of p)).
  rewrite u16_small, Z.eqb_refl by apply checksum_range. reflexivity.
Qed.

(** C12: the TCP checksum protocol closes. On a segment without IP options,
    [calculate_and_set_tcp_checksum] returns and changes the checksum field only, to the
    Internet checksum of the pseudo header and the segment with that field zero; the
    receiver's [is_valid_tcp_checksum] then accepts, and on any segment it answers whether the
    field holds that value and leaves the segment as it was. *)
Theorem tcp_checksum_valid p :
  segment_ok p →
  calculate_and_set_tcp_checksum p = Done (set_tcp_checksum (tcp_checksum_of p) p) ∧
  is_valid_tcp_checksum (set_tcp_checksum (tcp_checksum_of p) p)
    = Done (true, set_tcp_checksum (tcp_checksum_of p) p) ∧
  is_valid_tcp_checksum p = Done (get_tcp_checksum p =? tcp_checksum_of p, p).
Proof.
  intros H. split; [apply calculate_and_set_tcp_checksum_eq, H |].
  split; [apply computed_checksum_accepted | apply is_valid_tcp_checksum_eq]; exact H.
Qed.

Lemma tcp_checksum_valid_witness :
  segment_ok sample_segment ∧
  is_valid_tcp_checksum (set_tcp_checksum (tcp_checksum_of sample_segment) sample_segment)
  = Done (true, set_tcp_checksum (tcp_checksum_of sample_segment) sample_segment).
Proof.
  destruct sample_segment_ok as ([Hwf Hi _] & _ & _ & Ht).
  assert (segment_ok sample_segment) as H.
  { split; [exact Hwf | exact Hi |]. rewrite Ht. unfold MTU. lia. }
  split; [exact H |]. apply (tcp_checksum_valid sample_segment H).
Defined.

(** ** Options *)

(** Each insertion adds the padded length of all options inserted so far, and removal adds
    the length of those that remain. *)
Lemma insert_option_offset o p :
  wf p →
  get_tcp_data_offset (insert_tcp_header_option o p)
  = (get_tcp_data_offset p + u8 ((length_bytes (options_ p ++ [o]) + 3) / 4)) mod 16.
Proof.
  intros H. unfold insert_tcp_header_option, set_tcp_data_offset, get_tcp_data_offset.
  rewrite get_tcp_set_same by (reflexivity || exact H). reflexivity.
Qed.

(** Two timestamp options: the second insertion counts the first one again, and removing
    one of them makes the header longer. *)
Definition two_timestamps : outcome tcp_packet :=
  p ← fresh_TCPPacket; o ← new_TCPTimestampOption;
  mret (insert_tcp_header_option o (insert_tcp_header_option o p)).

Lemma two_timestamps_offset :
  (p ← two_timestamps; mret (get_tcp_data_offset p, length_bytes (options_ p))) = Done (13, 20) ∧
  (p ← two_timestamps; mret (get_tcp_data_offset (snd (remove_tcp_header_option TCPOPT_TIMESTAMP p)))) = Done 0.
Proof. split; vm_compute; reflexivity. Qed.
