(* ===== verification/UDPPacket.v ===== *)
(** * class UDPPacket (transport/src/packet/UDPPacket.cc)

    A WiFuPacket with the fields of [struct udphdr]; setting the data sets the
    lengths and the checksum. *)
From S2P Require Import Prelude HeaderMem IPPacket WiFuPacket.

Definition UDP_HEADER_LENGTH_BYTES : Z := 8.
Definition f_udp_len : field := be16 24.
Definition f_udp_check : field := le16 26.

Record udp_packet := { wifu : wifu_packet }.

Definition ip_of (p : udp_packet) : ip_packet := ip (wifu p).
Definition with_ip_of (q : ip_packet) (p : udp_packet) : udp_packet := {| wifu := with_ip q (wifu p) |}.

(** The constructor and [init()]. *)
Definition new_UDPPacket (raw : mem) : outcome udp_packet :=
  w ← new_WiFuPacket raw;
  let p := {| wifu := w |} in
  mret (with_ip_of (set_ip_tot_length (get_ip_header_length_bytes (ip_of p) + UDP_HEADER_LENGTH_BYTES) (ip_of p)) p).

Definition get_udp_length_bytes (p : udp_packet) : Z := get_field f_udp_len (ip_of p).
Definition set_udp_length_bytes (newlen : Z) (p : udp_packet) : udp_packet :=
  with_ip_of (set_field f_udp_len newlen (ip_of p)) p.
Definition get_udp_checksum (p : udp_packet) : Z := get_field f_udp_check (ip_of p).
Definition set_udp_checksum (checksum : Z) (p : udp_packet) : udp_packet :=
  with_ip_of (set_field f_udp_check checksum (ip_of p)) p.

Definition get_data (p : udp_packet) : nat := (get_next_header (ip_of p) + Z.to_nat UDP_HEADER_LENGTH_BYTES)%nat.
Definition get_data_length_bytes (p : udp_packet) : Z :=
  get_ip_tot_length (ip_of p) - get_ip_header_length_bytes (ip_of p) - UDP_HEADER_LENGTH_BYTES.
Definition data_of (p : udp_packet) : list Z :=
  slice (payload_ (ip_of p)) (get_data p) (Z.to_nat (get_data_length_bytes p)).

Definition calculate_and_set_udp_checksum (p : udp_packet) : outcome udp_packet :=
  let p := set_udp_checksum 0 p in
  '(sum, q) ← compute_next_checksum (ip_of p);
  mret (set_udp_checksum sum (with_ip_of q p)).

Definition is_valid_udp_checksum (p : udp_packet) : outcome (bool * udp_packet) :=
  let current_checksum := get_udp_checksum p in
  p ← calculate_and_set_udp_checksum p;
  let calculated_checksum := get_udp_checksum p in
  let p := set_udp_checksum current_checksum p in
  mret (current_checksum =? calculated_checksum, p).

Definition set_data (data : list Z) (p : udp_packet) : outcome udp_packet :=
  q ← copy_in (get_data p) data (ip_of p);
  let p := set_udp_length_bytes (UDP_HEADER_LENGTH_BYTES + Z.of_nat (length data)) (with_ip_of q p) in
  let p := with_ip_of (set_ip_tot_length (get_ip_header_length_bytes (ip_of p) + UDP_HEADER_LENGTH_BYTES
                                          + Z.of_nat (length data)) (ip_of p)) p in
  calculate_and_set_udp_checksum p.

Definition max_data_length (p : udp_packet) : Z := IPPacket.max_data_length (ip_of p) - UDP_HEADER_LENGTH_BYTES.

Definition equal (p other : udp_packet) : bool :=
  WiFuPacket.equal (wifu p) (wifu other)
  && forallb (fun f => get_field f (ip_of p) =? get_field f (ip_of other)) [f_udp_check; f_dport; f_sport; f_udp_len].

(** ** Laws *)

Definition wf (p : udp_packet) : Prop := IPPacket.wf (ip_of p).

Record datagram_ok (p : udp_packet) : Prop := {
  datagram_wf : wf p;
  datagram_ihl : get_ip_header_length_words (ip_of p) = 5;
  datagram_length : 20 ≤ get_ip_tot_length (ip_of p) ≤ Z.of_nat MTU }.

Definition udp_checksum_of (p : udp_packet) : Z := checksum (checksum_input (ip_of (set_udp_checksum 0 p))).

Lemma set_checksum_twice v w p : set_udp_checksum v (set_udp_checksum w p) = set_udp_checksum v p.
Proof.
  destruct p as [[[m l] s d]]. unfold set_udp_checksum, with_ip_of, ip_of, with_ip, set_field, with_payload.
  cbn [wifu ip payload_ length_set_ source_ dest_]. unfold f_udp_check. rewrite put_le16_twice. reflexivity.
Qed.

Lemma set_checksum_get p : wf p → set_udp_checksum (get_udp_checksum p) p = p.
Proof.
  destruct p as [[[m l] s d]]. intros [_ Hb].
  unfold set_udp_checksum, get_udp_checksum, with_ip_of, ip_of, with_ip, set_field, with_payload, get_field in *.
  cbn [wifu ip payload_ length_set_ source_ dest_] in *. unfold f_udp_check.
  rewrite put_le16_get by assumption. reflexivity.
Qed.

Lemma get_set_checksum f v p :
  wf p → disjoint f f_udp_check = true → get_field f (ip_of (set_udp_checksum v p)) = get_field f (ip_of p).
Proof. intros H Hd. apply (get_set_other f f_udp_check v (ip_of p)); [exact H | reflexivity | exact Hd]. Qed.

Lemma datagram_set_checksum v p : datagram_ok p → datagram_ok (set_udp_checksum v p).
Proof.
  intros [Hwf Hi Hl]. split; [apply wf_set_field; [reflexivity | exact Hwf] |..];
    unfold get_ip_header_length_words, get_ip_tot_length in *;
    rewrite get_set_checksum by (reflexivity || assumption); assumption.
Qed.

Lemma calculate_and_set_udp_checksum_eq p :
  datagram_ok p → calculate_and_set_udp_checksum p = Done (set_udp_checksum (udp_checksum_of p) p).
Proof.
  intros H. pose proof (datagram_set_checksum 0 p H) as [Hwf Hi Hl].
  unfold calculate_and_set_udp_checksum. rewrite compute_next_checksum_eq by assumption.
  cbn [mbind outcome_bind mret outcome_ret]. f_equal.
  transitivity (set_udp_checksum (udp_checksum_of p) (set_udp_checksum 0 p)); [reflexivity | apply set_checksum_twice].
Qed.

Lemma is_valid_udp_checksum_eq p :
  datagram_ok p → is_valid_udp_checksum p = Done (get_udp_checksum p =? udp_checksum_of p, p).
Proof.
  intros H. pose proof (datagram_wf p H) as Hwf. unfold is_valid_udp_checksum.
  rewrite calculate_and_set_udp_checksum_eq by assumption. cbn [mbind outcome_bind mret outcome_ret].
  rewrite set_checksum_twice, set_checksum_get by assumption. unfold get_udp_checksum at 2, set_udp_checksum at 1.
  change (ip_of (with_ip_of ?q ?x)) with q.
  rewrite (get_set_same f_udp_check _ (ip_of p)) by (reflexivity || exact Hwf).
  change (udp_checksum_of p mod 2 ^ width f_udp_check) with (u16 (udp_checksum_of p)).
  rewrite u16_small by apply checksum_range. reflexivity.
Qed.

Lemma valid_after_calculate p :
  datagram_ok p →
  is_valid_udp_checksum (set_udp_checksum (udp_checksum_of p) p)
  = Done (true, set_udp_checksum (udp_checksum_of p) p).
Proof.
  intros H. pose proof (datagram_wf p H) as Hwf.
  rewrite is_valid_udp_checksum_eq by apply datagram_set_checksum, H.
  assert (udp_checksum_of (set_udp_checksum (udp_checksum_of p) p) = udp_checksum_of p) as ->
    by (unfold udp_checksum_of at 1; rewrite set_checksum_twice; reflexivity).
  unfold get_udp_checksum, set_udp_checksum. change (ip_of (with_ip_of ?q ?x)) with q.
  rewrite (get_set_same f_udp_check _ (ip_of p)) by (reflexivity || exact Hwf).
  change (udp_checksum_of p mod 2 ^ width f_udp_check) with (u16 (udp_checksum_of p)).
  rewrite u16_small, Z.eqb_refl by apply checksum_range. reflexivity.
Qed.

Lemma set_data_datagram data p :
  wf p → get_ip_header_length_words (ip_of p) = 5 → Forall is_byte data →
  (length data ≤ MTU - 28)%nat →
  ∃ p', set_data data p = Done p' ∧ datagram_ok p' ∧ data_of p' = data ∧
    get_data_length_bytes p' = Z.of_nat (length data) ∧
    get_udp_length_bytes p' = 8 + Z.of_nat (length data) ∧
    is_valid_udp_checksum p' = Done (true, p') ∧
    ∀ f, f ∈ [f_saddr; f_daddr; f_sport; f_dport; f_protocol] → get_field f (ip_of p') = get_field f (ip_of p).
Proof.
  intros Hwf Hi Hdata Hlen. unfold MTU in Hlen.
  assert (get_data p = 28%nat) as Hd.
  { unfold get_data, get_next_header. rewrite header_length_bytes, Hi by exact Hwf. reflexivity. }
  destruct (copy_in 28 data (ip_of p)) as [q|] eqn:Hc.
  2: { unfold copy_in in Hc. rewrite memcpy_fits in Hc by (rewrite (proj1 Hwf); unfold MTU; lia). discriminate Hc. }
  pose proof (wf_copy_in _ _ _ _ Hwf Hdata Hc) as Hq.
  apply copy_in_Done in Hc as Hm. destruct Hm as [Hm _].
  assert (get_field f_ihl q = 5) as Hiq.
  { unfold get_field. rewrite (get_memcpy f_ihl _ _ _ _ Hm) by reflexivity. exact Hi. }
  unfold set_data. rewrite Hd, Hc. cbn [mbind outcome_bind mret outcome_ret].
  set (q1 := set_field f_udp_len (UDP_HEADER_LENGTH_BYTES + Z.of_nat (length data)) q).
  assert (IPPacket.wf q1) as Hq1 by (apply wf_set_field; [reflexivity | assumption]).
  assert (get_ip_header_length_bytes q1 = 20) as Hb1.
  { unfold get_ip_header_length_bytes, get_ip_header_length_words, q1.
    rewrite get_set_other, Hiq by (reflexivity || assumption). reflexivity. }
  change (ip_of (set_udp_length_bytes _ _)) with q1. rewrite Hb1.
  set (p2 := with_ip_of (set_ip_tot_length _ q1) _).
  assert (get_field f_tot_len (ip_of p2) = 28 + Z.of_nat (length data)) as Ht.
  { unfold p2. change (ip_of (with_ip_of ?x ?y)) with x. rewrite get_set_tot_length_same by assumption.
    unfold UDP_HEADER_LENGTH_BYTES. rewrite u16_small by word_lia. lia. }
  assert (∀ f, disjoint f f_tot_len = true → get_field f (ip_of p2) = get_field f q1) as Hf
    by (intros; apply get_set_tot_length_other; assumption).
  assert (datagram_ok p2) as Hp2.
  { split; [apply wf_set_ip_tot_length, Hq1 | |].
    - unfold get_ip_header_length_words. rewrite Hf by reflexivity. unfold q1.
      rewrite get_set_other by (reflexivity || assumption). exact Hiq.
    - unfold get_ip_tot_length. rewrite Ht. unfold MTU. lia. }
  rewrite calculate_and_set_udp_checksum_eq by assumption.
  pose proof (valid_after_calculate p2 Hp2) as Hv.
  pose proof (datagram_set_checksum (udp_checksum_of p2) p2 Hp2) as [Hw3 Hi3 _].
  pose proof (datagram_wf p2 Hp2) as Hw2.
  eexists. split; [reflexivity |]. set (p3 := set_udp_checksum (udp_checksum_of p2) p2) in *.
  assert (get_ip_header_length_bytes (ip_of p3) = 20) as Hb3 by (rewrite header_length_bytes, Hi3 by exact Hw3; reflexivity).
  assert (get_data_length_bytes p3 = Z.of_nat (length data)) as Hdl.
  { unfold get_data_length_bytes, get_ip_tot_length. rewrite Hb3. unfold p3.
    rewrite get_set_checksum, Ht by (reflexivity || assumption). unfold UDP_HEADER_LENGTH_BYTES. lia. }
  split; [exact (datagram_set_checksum (udp_checksum_of p2) p2 Hp2) |]. split; [| split; [exact Hdl | split; [| split; [exact Hv |]]]].
  - unfold data_of. rewrite Hdl, Nat2Z.id. unfold get_data, get_next_header. rewrite Hb3.
    change (Z.to_nat 20 + Z.to_nat UDP_HEADER_LENGTH_BYTES)%nat with 28%nat.
    rewrite <- (memcpy_slice _ _ _ _ Hm) at 2.
    change (payload_ (ip_of p3)) with (put f_udp_check (udp_checksum_of p2)
      (put f_tot_len (20 + UDP_HEADER_LENGTH_BYTES + Z.of_nat (length data))
        (put f_udp_len (UDP_HEADER_LENGTH_BYTES + Z.of_nat (length data)) (payload_ q)))).
    rewrite !slice_put by reflexivity. reflexivity.
  - unfold get_udp_length_bytes, p3. rewrite get_set_checksum, Hf by (reflexivity || assumption).
    unfold q1. rewrite get_set_same by (reflexivity || assumption).
    change ((UDP_HEADER_LENGTH_BYTES + Z.of_nat (length data)) mod 2 ^ width f_udp_len)
      with (u16 (UDP_HEADER_LENGTH_BYTES + Z.of_nat (length data))).
    unfold UDP_HEADER_LENGTH_BYTES. rewrite u16_small by word_lia. reflexivity.
  - intros f Hin.
    assert (disjoint f f_udp_check = true ∧ disjoint f f_tot_len = true ∧ disjoint f f_udp_len = true ∧ outside f 28 (length data) = true)
      as (D1 & D2 & D3 & D4) by (rewrite !elem_of_cons, elem_of_nil in Hin; repeat (destruct Hin as [-> | Hin]; [repeat split |]); destruct Hin).
    unfold p3. rewrite get_set_checksum, Hf by assumption. unfold q1. rewrite get_set_other by (reflexivity || assumption).
    apply (get_memcpy f _ _ _ _ Hm), D4.
Qed.

(** [set_data] builds a complete datagram: the data is what [get_data] delimits, both
    length fields count it, [is_valid_udp_checksum] accepts the packet and leaves it as it is,
    and addresses, ports and protocol stay. *)
Theorem udp_set_data_spec data p :
  wf p → get_ip_header_length_words (ip_of p) = 5 → Forall is_byte data →
  (length data ≤ MTU - 28)%nat →
  ∃ p', set_data data p = Done p' ∧ datagram_ok p' ∧ data_of p' = data ∧
    get_data_length_bytes p' = Z.of_nat (length data) ∧
    get_udp_length_bytes p' = 8 + Z.of_nat (length data) ∧
    is_valid_udp_checksum p' = Done (true, p') ∧
    ∀ f, f ∈ [f_saddr; f_daddr; f_sport; f_dport; f_protocol] → get_field f (ip_of p') = get_field f (ip_of p).
Proof. apply set_data_datagram. Qed.

Definition sample_datagram : udp_packet := {| wifu := {| ip := sample_packet; source_ := None; dest_ := None |} |}.

Lemma udp_set_data_spec_witness :
  wf sample_datagram ∧ ∃ p', set_data [104; 105] sample_datagram = Done p' ∧ data_of p' = [104; 105].
Proof.
  split; [exact wf_sample_packet |].
  destruct (udp_set_data_spec [104; 105] sample_datagram wf_sample_packet) as (p' & E & _ & Hd & _).
  - vm_compute. reflexivity.
  - repeat constructor; unfold is_byte; lia.
  - unfold MTU. cbn. lia.
  - exists p'. auto.
Defined.
