(* ===== verification/PacketBuffer.v ===== *)
(** * class TCPPacketBuffer (transport/src/TCPPacketBuffer.cc)

    The receiver's reassembly buffer: the packets in sequence-number order (at
    most one per sequence number), the sequence number expected next, and a
    cached size. The buffer holds pointers: an entry is a packet with the address
    it lives at, which [remove] compares. *)
From Stdlib Require Import Sorting.Sorted.
From S2P Require Import Prelude SeqMath HeaderMem IPPacket TCPOptions WiFuPacket TCPPacket.

Record packet_ref := { address : nat; pkt : tcp_packet }.

Record packet_buffer := {
  buffer_ : list packet_ref;
  first_expected_sequence_number_ : Z;
  started_ : bool;
  size_ : Z }.

Definition with_size (n : Z) (b : packet_buffer) : packet_buffer :=
  {| buffer_ := buffer_ b; first_expected_sequence_number_ := first_expected_sequence_number_ b;
     started_ := started_ b; size_ := n |}.
Definition with_buffer (l : list packet_ref) (b : packet_buffer) : packet_buffer :=
  {| buffer_ := l; first_expected_sequence_number_ := first_expected_sequence_number_ b;
     started_ := started_ b; size_ := size_ b |}.
Definition mark_dirty (b : packet_buffer) : packet_buffer := with_size (-1) b.

Definition new_TCPPacketBuffer : packet_buffer :=
  mark_dirty {| buffer_ := []; first_expected_sequence_number_ := 0; started_ := false; size_ := 0 |}.

Definition get_first_sequence_number (b : packet_buffer) : Z := first_expected_sequence_number_ b.
Definition set_first_sequence_number (seq_num : Z) (b : packet_buffer) : packet_buffer :=
  {| buffer_ := buffer_ b; first_expected_sequence_number_ := seq_num; started_ := true; size_ := size_ b |}.

Definition seq_of (r : packet_ref) : Z := get_tcp_sequence_number (pkt r).
Definition len_of (r : packet_ref) : Z := get_data_length_bytes (pkt r).

(** The walk of [size()] over the packets: bytes at or above [sequence_number]. *)
Fixpoint size_walk (sequence_number size : Z) (l : list packet_ref) : Z :=
  match l with
  | [] => size
  | p :: l =>
      if sequence_number =? seq_of p then
        size_walk (u32 (sequence_number + len_of p)) (size + len_of p) l
      else if between (seq_of p) sequence_number (u32 (seq_of p + len_of p)) then
        let difference := i32 (u32 (sequence_number - seq_of p)) in
        let length := len_of p - difference in
        size_walk (u32 (sequence_number + length)) (size + length) l
      else if less_than (seq_of p) sequence_number then
        size_walk sequence_number size l
      else
        size_walk (u32 (seq_of p + len_of p)) (size + len_of p) l
  end.

Definition size (b : packet_buffer) : outcome (Z * packet_buffer) :=
  _ ← assert (started_ b);
  if 0 <=? size_ b then mret (size_ b, b) else
  let n := size_walk (first_expected_sequence_number_ b) 0 (buffer_ b) in
  mret (n, with_size n b).

(** [std::lower_bound] on [len] elements from [first], for a predicate that holds of a
    prefix; [fuel] bounds the halvings and [len] is always enough. *)
Fixpoint lower_bound (fuel : nat) (before : nat → bool) (first len : nat) : nat :=
  match fuel with
  | O => first
  | S fuel =>
      if Nat.eqb len 0 then first else
      let half := Nat.div2 len in
      let middle := (first + half)%nat in
      if before middle then lower_bound fuel before (S middle) (len - half - 1)
      else lower_bound fuel before first half
  end.

Definition position (p : packet_ref) (l : list packet_ref) : nat :=
  lower_bound (length l)
    (fun i => match l !! i with Some q => TCPSequenceNumberComparator (pkt q) (pkt p) | None => false end)
    0 (length l).

(** [insert]. Reading [*lower_bound(...)] at the end of the list is harmless there: the
    value is used only after the iterator was compared with [end()]. *)
Definition insert (p : packet_ref) (b : packet_buffer) : outcome (Z * packet_buffer) :=
  _ ← assert (started_ b);
  '(before_size, b) ← size b;
  let l := buffer_ b in
  let itr := position p l in
  let '(front, back) := (take itr l, drop itr l) in
  let already_inserted :=
    match back with found_packet :: _ => seq_of found_packet =? seq_of p | [] => false end in
  let b := mark_dirty (with_buffer (front ++ p :: back) b) in
  let b :=
    match already_inserted, back with
    | true, found_packet :: back' =>
        if len_of found_packet <=? len_of p
        then with_buffer (front ++ p :: back') b
        else with_buffer (front ++ back) b
    | _, _ => b
    end in
  '(after_size, b) ← size b;
  let total_inserted := after_size - before_size in
  _ ← assert (0 <=? total_inserted);
  mret (total_inserted,
        if (total_inserted =? 0) && negb already_inserted then with_buffer (front ++ back) b else b).

(** [remove]: the entry at the packet's position, if it is the same object. *)
Definition remove (p : packet_ref) (b : packet_buffer) : outcome (option packet_ref * packet_buffer) :=
  let l := buffer_ b in
  let itr := position p l in
  match drop itr l with
  | [] => Fault OutOfBounds
  | found_packet :: back =>
      if Nat.eqb (address found_packet) (address p)
      then mret (Some found_packet, mark_dirty (with_buffer (take itr l ++ back) b))
      else mret (None, b)
  end.

(** [buffer.append(p->get_data() + difference, count)] *)
Definition bytes_of (p : packet_ref) (difference count : Z) : outcome (list Z) :=
  if count <? 0 then Fault LengthError
  else read (payload_ (ip_of (pkt p))) (get_data (pkt p) + Z.to_nat difference) (Z.to_nat count).

(** The loop of [get_continuous_data]: what it appends, the next sequence number, and the
    packets from the iterator on. *)
Fixpoint continuous_walk (sequence_number : Z) (l : list packet_ref)
  : outcome (list Z * Z * list packet_ref) :=
  match l with
  | [] => mret ([], sequence_number, [])
  | p :: l' =>
      if sequence_number =? seq_of p then
        data ← bytes_of p 0 (len_of p);
        '(rest, s, l'') ← continuous_walk (u32 (sequence_number + len_of p)) l';
        mret (data ++ rest, s, l'')
      else if between (seq_of p) sequence_number (u32 (seq_of p + len_of p)) then
        let difference := i32 (u32 (sequence_number - seq_of p)) in
        let count := len_of p - difference in
        data ← bytes_of p difference count;
        '(rest, s, l'') ← continuous_walk (u32 (sequence_number + count)) l';
        mret (data ++ rest, s, l'')
      else if less_than (seq_of p) sequence_number then continuous_walk sequence_number l'
      else mret ([], sequence_number, l)
  end.

Definition get_continuous_data (sequence_number : Z) (buffer : list Z) (b : packet_buffer)
  : outcome (list Z * packet_buffer) :=
  _ ← assert (started_ b);
  match buffer_ b with
  | [] => mret (buffer, b)
  | _ =>
      _ ← assert (first_expected_sequence_number_ b =? sequence_number);
      '(data, s, l) ← continuous_walk sequence_number (buffer_ b);
      mret ((buffer ++ data)%list,
            mark_dirty {| buffer_ := l; first_expected_sequence_number_ := s;
                          started_ := started_ b; size_ := size_ b |})
  end.

(** ** Finite sets of stream positions *)

Definition interval (a e : Z) : gset Z := list_to_set (seqZ a (e - a)).

Lemma elem_of_interval a e x : x ∈ interval a e ↔ a ≤ x < e.
Proof. unfold interval. rewrite elem_of_list_to_set, elem_of_seqZ. lia. Qed.

Lemma size_interval a e : a ≤ e → Z.of_nat (base.size (interval a e)) = e - a.
Proof.
  intros. unfold interval. rewrite size_list_to_set by apply NoDup_seqZ. rewrite length_seqZ. lia.
Qed.

Lemma interval_empty a e : e ≤ a → interval a e = ∅.
Proof. intros. apply set_eq. intros x. rewrite elem_of_interval, elem_of_empty. lia. Qed.

Lemma size_add_disjoint (X Y : gset Z) :
  X ## Y → Z.of_nat (base.size (X ∪ Y)) = Z.of_nat (base.size X) + Z.of_nat (base.size Y).
Proof. intros. rewrite size_union by assumption. lia. Qed.

Lemma subset_same_size (X Y : gset Z) : X ⊆ Y → base.size X = base.size Y → X = Y.
Proof. intros. apply set_subseteq_size_eq; [assumption | lia]. Qed.

(** ** Binary search *)

Lemma lower_bound_spec before k n first len fuel :
  (∀ i, (i < k)%nat → before i = true) → (∀ i, (k ≤ i < n)%nat → before i = false) →
  (first ≤ k ≤ first + len)%nat → (first + len ≤ n)%nat → (len ≤ fuel)%nat →
  lower_bound fuel before first len = k.
Proof.
  intros Ht Hf. revert first len. induction fuel as [|fuel IH]; intros first len Hk Hn Hl; cbn [lower_bound]; [lia |].
  destruct (Nat.eqb_spec len 0) as [->|Hne]; [lia |].
  assert (Nat.div2 len < len)%nat as Hhalf by (apply Nat.lt_div2; lia).
  set (half := Nat.div2 len) in *. clearbody half.
  destruct (before (first + half)%nat) eqn:E.
  - apply IH; [| lia | lia]. destruct (decide (k ≤ first + half)%nat); [| lia].
    rewrite Hf in E by lia. discriminate.
  - apply IH; [| lia | lia]. destruct (decide (first + half < k)%nat); [| lia].
    rewrite Ht in E by lia. discriminate.
Qed.

(** ** Packets placed on the stream *)

Section Stream.

(** The sequence number of stream position 0, and where in the stream a packet starts. *)
Context (base : Z) (pos : packet_ref → Z).

Definition half_window : Z := 2 ^ 30.

(** The packet's sequence number is that of its position, and the packet lies in the window
    around position [c]. *)
Record placed (c : Z) (r : packet_ref) : Prop := {
  placed_seq : seq_of r = seq_at base (pos r);
  placed_low : c - half_window < pos r;
  placed_high : pos r + len_of r < c + half_window;
  placed_len : 0 ≤ len_of r }.

Definition finish (r : packet_ref) : Z := pos r + len_of r.

(** The stream positions from [f] on that the packets hold. *)
Fixpoint pending (f : Z) (l : list packet_ref) : gset Z :=
  match l with [] => ∅ | r :: l => interval (Z.max f (pos r)) (finish r) ∪ pending f l end.

Definition in_order : list packet_ref → Prop := StronglySorted (fun r r' => pos r < pos r').

Lemma elem_of_pending f l x : x ∈ pending f l ↔ f ≤ x ∧ ∃ r, r ∈ l ∧ pos r ≤ x < finish r.
Proof.
  induction l as [|r l IH]; cbn [pending]; [set_solver |].
  rewrite elem_of_union, IH, elem_of_interval. setoid_rewrite elem_of_cons.
  split; [intros [? | (? & r' & ? & ?)]; (split; [lia |]); [exists r; split; [auto | lia] | eauto] |].
  intros (? & r' & [-> | ?] & ?); [left; lia | right; eauto].
Qed.

Lemma pending_ext f l g l' :
  (∀ x, (f ≤ x ∧ ∃ r, r ∈ l ∧ pos r ≤ x < finish r) ↔ (g ≤ x ∧ ∃ r, r ∈ l' ∧ pos r ≤ x < finish r)) →
  pending f l = pending g l'.
Proof. intros H. apply set_eq. intros x. rewrite !elem_of_pending. apply H. Qed.

Lemma pending_app f l l' : pending f (l ++ l') = pending f l ∪ pending f l'.
Proof. induction l as [|r l IH]; cbn [pending app]; [set_solver |]. rewrite IH. set_solver. Qed.

(** Raising the lower end removes the positions below it. *)
Lemma pending_raise f e l : f ≤ e → pending e l = pending f l ∖ interval f e.
Proof.
  intros. apply set_eq. intros x. rewrite elem_of_difference, !elem_of_pending, elem_of_interval.
  split; [intros (? & r & ? & ?); split; [split; [lia | eauto] | lia] |].
  intros ((? & r & ? & ?) & ?). split; [lia | eauto].
Qed.

Lemma pending_split f e l :
  f ≤ e → interval f e ⊆ pending f l →
  Z.of_nat (base.size (pending f l)) = (e - f) + Z.of_nat (base.size (pending e l)).
Proof.
  intros Hfe Hin. rewrite <- (size_interval f e) by assumption.
  rewrite <- size_add_disjoint by (rewrite (pending_raise f e) by assumption; set_solver).
  f_equal. f_equal. rewrite (pending_raise f e l) by assumption. apply set_eq. intros x.
  destruct (decide (x ∈ interval f e)); set_solver.
Qed.

Lemma pending_interval f l e :
  (∀ r, r ∈ l → e ≤ pos r) → f ≤ e → pending f l = pending e l.
Proof.
  intros Hl Hfe. apply pending_ext. intros x. split.
  - intros (? & r & Hr & ?). specialize (Hl r Hr). split; [lia | eauto].
  - intros (? & r & ? & ?). split; [lia | eauto].
Qed.

(** Bytes a packet adds above [s], and the walk's next position. *)
Lemma pending_cons_at s r l :
  (∀ r', r' ∈ l → pos r < pos r') → 0 ≤ len_of r →
  Z.of_nat (base.size (pending s (r :: l)))
  = let s' := Z.max s (finish r) in
    (s' - Z.max s (pos r)) `max` 0 + Z.of_nat (base.size (pending (if decide (s ≤ pos r) then finish r else s') l)).
Proof.
  intros Hl Hlen. cbn zeta. unfold finish in *. case_decide as Hs.
  - assert (pending s (r :: l) = pending (pos r) (r :: l)) as ->.
    { apply pending_interval; [| assumption]. intros r' [-> | Hr']%elem_of_cons; [lia |]. specialize (Hl r' Hr'). lia. }
    rewrite (pending_split (pos r) (pos r + len_of r)); [| lia |].
    + f_equal; [lia |]. do 2 f_equal. cbn [pending].
      rewrite interval_empty by (unfold finish; lia). set_solver.
    + cbn [pending]. unfold finish. rewrite Z.max_id. set_solver.
  - rewrite (pending_split s (Z.max s (pos r + len_of r))); [| lia |].
    + f_equal; [lia |]. do 2 f_equal. cbn [pending]. rewrite interval_empty by (unfold finish; lia). set_solver.
    + intros x. rewrite elem_of_interval, elem_of_pending. intros. split; [lia |].
      exists r. split; [apply elem_of_cons; auto | unfold finish; lia].
Qed.

(** *** The three-way test of both walks, on positions *)

Definition near (c s : Z) : Prop := c - half_window < s < c + half_window.

Lemma seq_of_end c r : placed c r → u32 (seq_of r + len_of r) = seq_at base (finish r).
Proof. intros [-> _ _ _]. apply seq_at_add. Qed.

Lemma walk_tests c s r :
  placed c r → near c s →
  (seq_at base s =? seq_of r) = (s =? pos r) ∧
  between (seq_of r) (seq_at base s) (u32 (seq_of r + len_of r)) = ((pos r <? s) && (s <? finish r)) ∧
  less_than (seq_of r) (seq_at base s) = (pos r <? s) ∧
  (pos r < s → i32 (u32 (seq_at base s - seq_of r)) = s - pos r).
Proof.
  intros Hp Hs. rewrite (seq_of_end c r Hp). destruct Hp as [Hseq H1 H2 H3]. rewrite Hseq.
  unfold near, half_window, between, finish in *. autorewrite with seqnum. split; [reflexivity |].
  split; [reflexivity |]. split; [reflexivity |].
  intros. rewrite seq_at_sub. rewrite u32_small by word_lia. apply i32_small. lia.
Qed.

Lemma size_walk_spec c l : Forall (placed c) l → in_order l → ∀ s n, near c s →
  size_walk (seq_at base s) n l = n + Z.of_nat (base.size (pending s l)).
Proof.
  induction l as [|r l IH]; intros Hp Hs s n Hn; cbn [size_walk]; [cbn; rewrite size_empty; lia |].
  apply Forall_cons in Hp as [Hr Hp]. apply StronglySorted_inv in Hs as [Hs Hlt].
  rewrite Forall_forall in Hlt.
  destruct (walk_tests c s r Hr Hn) as (-> & -> & -> & Hd).
  rewrite (pending_cons_at s r l Hlt (placed_len _ _ Hr)). rewrite (seq_of_end c r Hr).
  destruct Hr as [Hseq H1 H2 H3]. unfold near, finish in *. cbn zeta.
  destruct (s =? pos r) eqn:E1; bool_to_prop.
  - rewrite seq_at_add, decide_True, IH by (assumption || lia). subst s. lia.
  - destruct ((pos r <? s) && (s <? pos r + len_of r)) eqn:E2; bool_to_prop.
    + rewrite Hd by assumption. rewrite seq_at_add, decide_False by lia.
      replace (s + (len_of r - (s - pos r))) with (Z.max s (pos r + len_of r)) by lia.
      rewrite IH by (assumption || lia). lia.
    + apply andb_false_iff in E2. rewrite Z.ltb_ge, Z.ltb_ge in E2.
      destruct (pos r <? s) eqn:E3; bool_to_prop.
      * rewrite decide_False, (Z.max_l s (pos r + len_of r)), IH by (assumption || lia). lia.
      * rewrite decide_True, IH by (assumption || lia). lia.
Qed.

(** *** The invariant of a started buffer *)

Record inv (f : Z) (b : packet_buffer) : Prop := {
  inv_started : started_ b = true;
  inv_first : first_expected_sequence_number_ b = seq_at base f;
  inv_placed : Forall (placed f) (buffer_ b);
  inv_order : in_order (buffer_ b);
  inv_size : size_ b = -1 ∨ size_ b = Z.of_nat (base.size (pending f (buffer_ b))) }.

Lemma near_self f : near f f.
Proof. unfold near, half_window. lia. Qed.

Lemma size_spec f b :
  inv f b →
  ∃ b', size b = Done (Z.of_nat (base.size (pending f (buffer_ b))), b') ∧ inv f b' ∧
        buffer_ b' = buffer_ b ∧ size_ b' = Z.of_nat (base.size (pending f (buffer_ b))).
Proof.
  intros [Hs Hf Hp Ho Hz]. unfold size. rewrite Hs. cbn [assert mbind outcome_bind].
  destruct (0 <=? size_ b) eqn:E; bool_to_prop.
  - destruct Hz as [Hz|Hz]; [lia |]. exists b. rewrite Hz. split; [reflexivity |]. split; [| auto].
    split; auto.
  - rewrite Hf, (size_walk_spec f _ Hp Ho f 0 (near_self f)). eexists. split; [reflexivity |].
    split; [| auto]. split; auto.
Qed.

Lemma in_order_app l l' :
  in_order (l ++ l') ↔ in_order l ∧ in_order l' ∧ ∀ r r', r ∈ l → r' ∈ l' → pos r < pos r'.
Proof.
  induction l as [|r l IH]; cbn [app].
  - split; [intros H; split; [constructor | split; [exact H | intros ? ? []%not_elem_of_nil]] | tauto].
  - split.
    + intros [H Hf]%StronglySorted_inv. apply IH in H as (Hl & Hl' & Hc). rewrite Forall_app in Hf.
      destruct Hf as [Hf Hf']. split; [constructor; assumption |]. split; [assumption |].
      intros q q' [-> | Hq]%elem_of_cons Hq'; [| auto]. rewrite Forall_forall in Hf'. auto.
    + intros ([Hl Hf]%StronglySorted_inv & Hl' & Hc). constructor.
      * apply IH. split; [assumption |]. split; [assumption |]. intros. apply Hc; [apply elem_of_cons |]; auto.
      * apply Forall_app. split; [assumption |]. apply Forall_forall. intros. apply Hc; [apply elem_of_cons |]; auto.
Qed.

Lemma in_order_cons r l : in_order (r :: l) ↔ in_order l ∧ ∀ r', r' ∈ l → pos r < pos r'.
Proof.
  unfold in_order. split.
  - intros [H Hf]%StronglySorted_inv. rewrite Forall_forall in Hf. auto.
  - intros [H Hf]. constructor; [assumption |]. apply Forall_forall. assumption.
Qed.

(** The insertion point splits the buffer by position. *)
Lemma position_spec f p l :
  Forall (placed f) l → in_order l → placed f p →
  ∃ front back, l = front ++ back ∧ take (position p l) l = front ∧ drop (position p l) l = back ∧
    (∀ r, r ∈ front → pos r < pos p) ∧ (∀ r, r ∈ back → pos p ≤ pos r).
Proof.
  intros Hl Ho Hp.
  assert (∃ front back, l = front ++ back ∧ (∀ r, r ∈ front → pos r < pos p) ∧ (∀ r, r ∈ back → pos p ≤ pos r))
    as (front & back & -> & Hf & Hb).
  { clear Hp Hl. induction l as [|r l IH].
    - exists [], []. split; [reflexivity |]. split; intros r []%not_elem_of_nil.
    - apply in_order_cons in Ho as [Ho Hr]. destruct (decide (pos r < pos p)) as [Hlt|Hge].
      + destruct (IH Ho) as (front & back & -> & Hf & Hb). exists (r :: front), back.
        split; [reflexivity |]. split; [| assumption]. intros r' [-> | ?]%elem_of_cons; auto.
      + exists [], (r :: l). split; [reflexivity |]. split; [intros r' []%not_elem_of_nil |].
        intros r' [-> | Hr']%elem_of_cons; [lia |]. specialize (Hr r' Hr'). lia. }
  assert (position p (front ++ back) = length front) as ->.
  { unfold position. apply lower_bound_spec with (n := length (front ++ back)); try lia;
      [| | rewrite length_app; lia].
    - intros i Hi. rewrite lookup_app_l by assumption.
      destruct (lookup_lt_is_Some_2 front i Hi) as [r Hr]. rewrite Hr.
      rewrite Forall_app in Hl. destruct Hl as [Hl _]. rewrite Forall_lookup in Hl. specialize (Hl i r Hr).
      apply list_elem_of_lookup_2 in Hr. specialize (Hf r Hr).
      unfold TCPSequenceNumberComparator. destruct (walk_tests f (pos p) r Hl) as (_ & _ & T & _).
      { unfold near. destruct Hp. lia. }
      rewrite <- (placed_seq f p Hp) in T. unfold seq_of in T. rewrite T. apply Z.ltb_lt, Hf.
    - intros i Hi. rewrite length_app in Hi. rewrite lookup_app_r by lia.
      destruct (back !! (i - length front)%nat) as [r|] eqn:Hr; [| reflexivity].
      rewrite Forall_app in Hl. destruct Hl as [_ Hl]. rewrite Forall_lookup in Hl. specialize (Hl _ r Hr).
      apply list_elem_of_lookup_2 in Hr. specialize (Hb r Hr).
      unfold TCPSequenceNumberComparator. destruct (walk_tests f (pos p) r Hl) as (_ & _ & T & _).
      { unfold near. destruct Hp. lia. }
      rewrite <- (placed_seq f p Hp) in T. unfold seq_of in T. rewrite T. apply Z.ltb_ge, Hb. }
  exists front, back. rewrite take_app_length, drop_app_length. auto.
Qed.

Abbreviation span f p := (interval (Z.max f (pos p)) (finish p)).

Lemma placed_pos_inj f r r' : placed f r → placed f r' → seq_of r = seq_of r' → pos r = pos r'.
Proof.
  intros [E1 ? ? ?] [E2 ? ? ?]. rewrite E1, E2. intros E. apply Z.eqb_eq in E.
  unfold half_window in *. rewrite seq_at_eqb in E by lia. lia.
Qed.

(** A list that differs from the buffer's in the one place of [p] keeps the invariant. *)
Lemma inv_replace f b front mid back :
  inv f b → Forall (placed f) (front ++ mid ++ back) → in_order (front ++ mid ++ back) →
  inv f (mark_dirty (with_buffer (front ++ mid ++ back) b)).
Proof. intros [Hs Hf _ _ _] Hp Ho. split; auto. Qed.

Ltac list_mem := intros ?; rewrite ?elem_of_app, ?elem_of_cons, ?elem_of_nil; tauto.

(** What [insert] leaves in the buffer, before the sizes are compared. *)
Lemma insert_buffer f p front back (l := front ++ back) :
  Forall (placed f) l → in_order l → placed f p →
  (∀ r, r ∈ front → pos r < pos p) → (∀ r, r ∈ back → pos p ≤ pos r) →
  let already := match back with r :: _ => seq_of r =? seq_of p | [] => false end in
  ∃ l', (match already, back with
         | true, r :: back' => if len_of r <=? len_of p then front ++ p :: back' else front ++ back
         | _, _ => front ++ p :: back
         end = l') ∧
    Forall (placed f) l' ∧ in_order l' ∧ pending f l' = pending f l ∪ span f p ∧
    (∀ r, r ∈ l' → r = p ∨ r ∈ l).
Proof.
  intros Hl Ho Hp Hf Hb already. subst already l.
  apply Forall_app in Hl as [Hlf Hlb]. apply in_order_app in Ho as (Hof & Hob & Hfb).
  destruct back as [|r back].
  { eexists. split; [reflexivity |]. split; [apply Forall_app; auto |].
    split; [apply in_order_app; split; [assumption |]; split; [constructor; constructor |] |].
    - intros q q' Hq Hq'. apply list_elem_of_singleton in Hq'. subst. auto.
    - split; [rewrite !pending_app; cbn [pending]; clear; set_solver |]. list_mem. }
  apply Forall_cons in Hlb as [Hr Hlb]. apply in_order_cons in Hob as [Hob Hrb].
  assert (pos p ≤ pos r) as Hpr by (apply Hb, elem_of_cons; auto).
  destruct (seq_of r =? seq_of p) eqn:E; bool_to_prop.
  - apply (placed_pos_inj f r p Hr Hp) in E. destruct (len_of r <=? len_of p) eqn:El; bool_to_prop.
    + eexists. split; [reflexivity |]. split; [apply Forall_app; auto |].
      split; [apply in_order_app; split; [assumption |]; split |].
      * apply in_order_cons. split; [assumption |]. intros q Hq. specialize (Hrb q Hq). lia.
      * intros q q' Hq [-> | Hq']%elem_of_cons; [auto |]. apply Hfb; [assumption |]. apply elem_of_cons. auto.
      * split; [| list_mem]. rewrite !pending_app. cbn [pending].
        assert (span f r ⊆ span f p); [| revert H; clear; set_solver].
        intros x. rewrite !elem_of_interval. unfold finish. lia.
    + eexists. split; [reflexivity |]. split; [apply Forall_app; auto |].
      split; [apply in_order_app; split; [assumption |]; split; [apply in_order_cons; auto | assumption] |].
      split; [| list_mem]. rewrite !pending_app. cbn [pending].
      assert (span f p ⊆ span f r) as H; [| revert H; clear; set_solver].
      intros x. rewrite !elem_of_interval. unfold finish. lia.
  - assert (pos p < pos r) as Hlt.
    { destruct (decide (pos p = pos r)) as [Epos|]; [| lia]. exfalso. apply E.
      rewrite (placed_seq f r Hr), (placed_seq f p Hp), Epos. reflexivity. }
    eexists. split; [reflexivity |]. split; [apply Forall_app; auto |].
    split; [apply in_order_app; split; [assumption |]; split |].
    + apply in_order_cons. split; [apply in_order_cons; auto |].
      intros q [-> | Hq]%elem_of_cons; [assumption |]. specialize (Hrb q Hq). lia.
    + intros q q' Hq [-> | Hq']%elem_of_cons; [auto |]. apply Hfb; assumption.
    + split; [rewrite !pending_app; cbn [pending]; clear; set_solver |]. list_mem.
Qed.

Lemma insert_spec f p b :
  inv f b → placed f p →
  ∃ n b', insert p b = Done (n, b') ∧ inv f b' ∧
    pending f (buffer_ b') = pending f (buffer_ b) ∪ span f p ∧
    n = Z.of_nat (base.size (pending f (buffer_ b'))) - Z.of_nat (base.size (pending f (buffer_ b))) ∧
    (∀ r, r ∈ buffer_ b' → r = p ∨ r ∈ buffer_ b).
Proof.
  intros Hinv Hp. unfold insert. rewrite (inv_started _ _ Hinv). cbn [assert mbind outcome_bind].
  destruct (size_spec f b Hinv) as (b1 & -> & Hinv1 & Hb1 & Hz1). cbn [mbind outcome_bind].
  destruct (position_spec f p (buffer_ b1) (inv_placed _ _ Hinv1) (inv_order _ _ Hinv1) Hp)
    as (front & back & El & -> & -> & Hf & Hb). cbn zeta.
  pose proof (inv_placed _ _ Hinv1) as Hpl. pose proof (inv_order _ _ Hinv1) as Hor. rewrite El in Hpl, Hor.
  destruct (insert_buffer f p front back Hpl Hor Hp Hf Hb) as (l' & Hl' & Hpl' & Hor' & Hpend & Hsub).
  match goal with |- context [size ?x] =>
    assert (x = mark_dirty (with_buffer l' b1)) as -> end.
  { rewrite <- Hl'. destruct back as [|r back]; [reflexivity |].
    destruct (seq_of r =? seq_of p); [destruct (len_of r <=? len_of p); reflexivity | reflexivity]. }
  assert (inv f (mark_dirty (with_buffer l' b1))) as Hinv2.
  { destruct Hinv1 as [? ? _ _ _]. split; auto. }
  destruct (size_spec f _ Hinv2) as (b3 & -> & Hinv3 & Hb3 & Hz3). cbn [mbind outcome_bind].
  cbn [mark_dirty with_buffer with_size buffer_] in *. rewrite <- Hb1, El.
  assert (base.size (pending f (front ++ back)) ≤ base.size (pending f l'))%nat as Hle
    by (apply subseteq_size; set_solver).
  rewrite (proj2 (Z.leb_le _ _)) by lia. cbn [assert mbind outcome_bind mret outcome_ret].
  set (already := match back with r :: _ => seq_of r =? seq_of p | [] => false end) in *.
  destruct ((_ =? 0) && negb already) eqn:E.
  - apply andb_true_iff in E as [E _]. apply Z.eqb_eq in E.
    assert (pending f (front ++ back) = pending f l') as Heq by (apply subset_same_size; [set_solver | lia]).
    eexists _, _. split; [reflexivity |]. cbn [with_buffer buffer_]. rewrite <- El in *.
    split; [| split; [| split]].
    + destruct Hinv3 as [? ? _ _ _]. destruct Hinv1 as [_ _ ? ? _]. split; auto.
      right. cbn [with_buffer buffer_ size_]. rewrite Hz3, Heq. reflexivity.
    + congruence.
    + lia.
    + intros r Hr. right. assumption.
  - eexists _, _. split; [reflexivity |]. rewrite Hb3. split; [assumption |]. split; [assumption |].
    split; [reflexivity | assumption].
Qed.

Lemma inv_fresh f : inv f (set_first_sequence_number (seq_at base f) new_TCPPacketBuffer).
Proof. split; auto; constructor. Qed.

(** [insert] never trips its assertions on a packet inside the window, keeps the buffer
    in order without a second packet for a sequence number, adds exactly the packet's
    stream positions to those the buffer holds, and returns how many of them are new, by
    which [size()] grows: duplicates and overlaps count once. *)
Theorem insert_counts_new_bytes f p b :
  inv f b → placed f p →
  ∃ n b', insert p b = Done (n, b') ∧ inv f b' ∧
    pending f (buffer_ b') = pending f (buffer_ b) ∪ span f p ∧
    n = Z.of_nat (base.size ((span f p) ∖ pending f (buffer_ b))) ∧
    ∃ m b1 b2, size b = Done (m, b1) ∧ size b' = Done (m + n, b2).
Proof.
  intros Hinv Hp. destruct (insert_spec f p b Hinv Hp) as (n & b' & E & Hinv' & Hpend & Hn & _).
  exists n, b'. split; [assumption |]. split; [assumption |]. split; [assumption |].
  assert (pending f (buffer_ b') = pending f (buffer_ b) ∪ ((span f p) ∖ pending f (buffer_ b))) as Hd.
  { rewrite Hpend. apply set_eq. intros x. destruct (decide (x ∈ pending f (buffer_ b))); set_solver. }
  split; [rewrite Hn, Hd, size_add_disjoint by set_solver; lia |].
  destruct (size_spec f b Hinv) as (b1 & E1 & _). destruct (size_spec f b' Hinv') as (b2 & E2 & _).
  exists (Z.of_nat (base.size (pending f (buffer_ b)))), b1, b2. split; [assumption |]. rewrite E2. do 2 f_equal. lia.
Qed.

(** *** Contents *)

Context (stream : Z → Z).

(** The stream's bytes at positions [a .. e). *)
Definition stretch (a e : Z) : list Z := map stream (seqZ a (e - a)).

Lemma stretch_app a m e : a ≤ m ≤ e → stretch a e = stretch a m ++ stretch m e.
Proof.
  intros. unfold stretch. rewrite <- map_app. f_equal.
  replace (e - a) with ((m - a) + (e - m)) by lia. rewrite seqZ_app by lia. do 2 f_equal. lia.
Qed.

Lemma stretch_nil a : stretch a a = [].
Proof. unfold stretch. rewrite Z.sub_diag. reflexivity. Qed.

(** The packet's memory holds its stretch of the stream. *)
Definition carries (r : packet_ref) : Prop :=
  ∀ k count, 0 ≤ k → 0 ≤ count → k + count ≤ len_of r →
  bytes_of r k count = Done (stretch (pos r + k) (pos r + k + count)).

Lemma carries_data r :
  wf (pkt r) → (get_data (pkt r) + Z.to_nat (len_of r) ≤ MTU)%nat → 0 ≤ len_of r →
  data_of (pkt r) = stretch (pos r) (finish r) → carries r.
Proof.
  intros [Hl _] Hfit Hlen Hd k count Hk Hc Hkc. unfold bytes_of. rewrite (proj2 (Z.ltb_ge _ _)) by assumption.
  unfold read. rewrite decide_True by (unfold payload_ in *; lia). f_equal.
  unfold data_of in Hd. fold (len_of r) in Hd. apply (f_equal (fun l => take (Z.to_nat count) (drop (Z.to_nat k) l))) in Hd.
  rewrite (stretch_app (pos r) (pos r + k)) in Hd by (unfold finish; lia).
  rewrite (stretch_app (pos r + k) (pos r + k + count)) in Hd by (unfold finish; lia).
  rewrite drop_app_length', take_app_length' in Hd by (unfold stretch; rewrite ?length_map, ?length_seqZ; lia).
  rewrite <- Hd. unfold slice. rewrite skipn_firstn_comm, drop_drop, take_take. f_equal. lia.
Qed.

(** What the walk returns: the stretch up to a position [e] where the buffered data ends. *)
Definition walk_result (s e : Z) (l l' : list packet_ref) : Prop :=
  s ≤ e ∧ interval s e ⊆ pending s l ∧
  (∃ consumed, l = consumed ++ l' ∧ ∀ r, r ∈ consumed → finish r ≤ e) ∧ (∀ r, r ∈ l' → e < pos r).

Lemma walk_result_step s s' e r l l' :
  walk_result s' e l l' → s ≤ s' → interval s s' ⊆ span s r → finish r ≤ s' → walk_result s e (r :: l) l'.
Proof.
  intros (H1 & H2 & (consumed & -> & Hc) & H4) Hs Hi Hr. split; [lia |]. split; [| split; [| assumption]].
  - intros x Hx. cbn [pending]. apply elem_of_union. destruct (decide (x < s')).
    + left. apply Hi. rewrite elem_of_interval in *. lia.
    + right. rewrite elem_of_interval in Hx. specialize (H2 x). rewrite elem_of_interval, !elem_of_pending in H2.
      rewrite elem_of_pending. split; [lia |]. apply H2. lia.
  - exists (r :: consumed). split; [reflexivity |]. intros r' [-> | Hr']%elem_of_cons; [lia | auto].
Qed.

Lemma continuous_walk_spec c l :
  Forall (placed c) l → in_order l → Forall carries l → ∀ s, near c s →
  ∃ e l', continuous_walk (seq_at base s) l = Done (stretch s e, seq_at base e, l') ∧ walk_result s e l l'.
Proof.
  induction l as [|r l IH]; intros Hp Ho Hc s Hs; cbn [continuous_walk].
  { exists s, []. rewrite stretch_nil. split; [reflexivity |]. split; [lia |].
    split; [rewrite interval_empty by lia; set_solver |].
    split; [exists []; split; [reflexivity |] |]; intros r []%not_elem_of_nil. }
  apply Forall_cons in Hp as [Hr Hp]. apply in_order_cons in Ho as [Ho Hrl]. apply Forall_cons in Hc as [Hcr Hc].
  destruct (walk_tests c s r Hr Hs) as (-> & -> & -> & Hd).
  assert (near c (finish r)) as Hfin by (destruct Hr; unfold near, finish, half_window in *; lia).
  pose proof (placed_len _ _ Hr) as Hlen.
  assert (∀ k, 0 ≤ k ≤ len_of r → s = pos r + k →
    ∃ e l', (data ← bytes_of r k (len_of r - k);
             '(rest, q, l'') ← continuous_walk (u32 (seq_at base s + (len_of r - k))) l;
             mret (data ++ rest, q, l'')) = Done (stretch s e, seq_at base e, l') ∧ walk_result s e (r :: l) l') as Step.
  { intros k Hk ->. rewrite (Hcr k (len_of r - k)) by lia. rewrite seq_at_add. cbn [mbind outcome_bind].
    replace (pos r + k + (len_of r - k)) with (finish r) by (unfold finish; lia).
    destruct (IH Hp Ho Hc (finish r) Hfin) as (e & l' & -> & Hw). cbn [mbind outcome_bind mret outcome_ret].
    exists e, l'. split.
    - rewrite (stretch_app (pos r + k) (finish r) e) by (unfold finish in *; destruct Hw; lia). reflexivity.
    - apply (walk_result_step _ (finish r)); [assumption | unfold finish; lia | | lia].
      intros x. rewrite !elem_of_interval. lia. }
  destruct (s =? pos r) eqn:E1; bool_to_prop.
  { specialize (Step 0 ltac:(lia) ltac:(lia)). rewrite Z.sub_0_r in Step. exact Step. }
  destruct ((pos r <? s) && (s <? finish r)) eqn:E2; bool_to_prop.
  { rewrite Hd by assumption. apply (Step (s - pos r)); unfold finish in *; lia. }
  apply andb_false_iff in E2. rewrite !Z.ltb_ge in E2.
  destruct (pos r <? s) eqn:E3; bool_to_prop.
  - destruct (IH Hp Ho Hc s Hs) as (e & l' & -> & Hw). exists e, l'. split; [reflexivity |].
    apply (walk_result_step _ s); [assumption | lia | | lia]. intros x. rewrite !elem_of_interval. lia.
  - exists s, (r :: l). rewrite stretch_nil. split; [reflexivity |]. split; [lia |].
    split; [rewrite interval_empty by lia; set_solver |]. split.
    + exists []. split; [reflexivity |]. intros r' []%not_elem_of_nil.
    + intros r' [-> | Hr']%elem_of_cons; [lia |]. specialize (Hrl r' Hr'). lia.
Qed.

Lemma get_continuous_data_spec f b buf :
  inv f b → Forall carries (buffer_ b) →
  ∃ e b', get_continuous_data (seq_at base f) buf b = Done ((buf ++ stretch f e)%list, b') ∧ f ≤ e ∧
    interval f e ⊆ pending f (buffer_ b) ∧ (e ∉ pending f (buffer_ b)) ∧ inv e b' ∧
    pending e (buffer_ b') = pending e (buffer_ b) ∧ (∀ r, r ∈ buffer_ b' → r ∈ buffer_ b).
Proof.
  intros Hinv Hc. unfold get_continuous_data. rewrite (inv_started _ _ Hinv). cbn [assert mbind outcome_bind].
  destruct (buffer_ b) as [|r0 l0] eqn:El.
  { exists f, b. rewrite stretch_nil, app_nil_r. split; [reflexivity |]. split; [lia |].
    rewrite interval_empty by lia. cbn [pending]. split; [set_solver |]. split; [set_solver |].
    split; [assumption |]. rewrite El. auto. }
  rewrite <- El in *. clear El r0 l0. rewrite (inv_first _ _ Hinv), Z.eqb_refl. cbn [assert mbind outcome_bind].
  pose proof (inv_placed _ _ Hinv) as Hp.
  destruct (continuous_walk_spec f _ Hp (inv_order _ _ Hinv) Hc f (near_self f))
    as (e & l' & -> & Hfe & Hin & (consumed & El & Hcons) & Hrest).
  cbn [mbind outcome_bind mret outcome_ret]. exists e. eexists. split; [reflexivity |]. split; [assumption |].
  split; [assumption |].
  assert (pending e l' = pending e (buffer_ b)) as Hpend.
  { rewrite El. apply pending_ext. intros x. split.
    - intros (? & r & ? & ?). split; [assumption |]. exists r. rewrite elem_of_app. auto.
    - intros (? & r & [Hr | Hr]%elem_of_app & ?); [specialize (Hcons r Hr); lia |]. split; [assumption | eauto]. }
  split; [| split; [| split; [exact Hpend |]]].
  - rewrite elem_of_pending. intros (_ & r & Hr & ?). rewrite El in Hr.
    apply elem_of_app in Hr as [Hr | Hr]; [specialize (Hcons r Hr); lia | specialize (Hrest r Hr); lia].
  - rewrite El in Hp. apply Forall_app in Hp as [_ Hp]. pose proof (inv_order _ _ Hinv) as Ho.
    rewrite El in Ho. apply in_order_app in Ho as (_ & Ho & _).
    split; cbn [mark_dirty with_size buffer_ first_expected_sequence_number_ started_ size_]; auto.
    rewrite Forall_forall in Hp |- *. intros r Hr. specialize (Hp r Hr). specialize (Hrest r Hr).
      destruct Hp as [? ? ? ?]. split; [assumption | unfold half_window in *; lia | lia | assumption].
  - cbn [mark_dirty with_size buffer_]. intros r Hr. rewrite El. apply elem_of_app. auto.
Qed.


(** [get_continuous_data] appends exactly the stream's bytes from the expected position
    up to the first position no buffered packet holds, moves the expected sequence number
    there, keeps every byte beyond it, and [size()] shrinks by the number of bytes
    delivered. It never trips its assertions. *)
Theorem get_continuous_data_delivers f b buf :
  inv f b → Forall carries (buffer_ b) →
  ∃ e b', get_continuous_data (seq_at base f) buf b = Done ((buf ++ stretch f e)%list, b') ∧ f ≤ e ∧
    (∀ x, f ≤ x < e → x ∈ pending f (buffer_ b)) ∧ (e ∉ pending f (buffer_ b)) ∧
    inv e b' ∧ get_first_sequence_number b' = seq_at base e ∧
    pending e (buffer_ b') = pending f (buffer_ b) ∖ interval f e ∧
    ∃ m b1 b2, size b = Done (m, b1) ∧ size b' = Done (m - (e - f), b2).
Proof.
  intros Hinv Hc. destruct (get_continuous_data_spec f b buf Hinv Hc) as (e & b' & E & Hfe & Hin & He & Hinv' & Hpend & _).
  exists e, b'. split; [assumption |]. split; [assumption |].
  split; [intros x Hx; apply Hin, elem_of_interval, Hx |]. split; [assumption |]. split; [assumption |].
  split; [apply (inv_first _ _ Hinv') |]. split; [rewrite Hpend; apply pending_raise, Hfe |].
  destruct (size_spec f b Hinv) as (b1 & E1 & _). destruct (size_spec e b' Hinv') as (b2 & E2 & _).
  eexists _, b1, b2. split; [exact E1 |]. rewrite E2, Hpend. do 2 f_equal.
  rewrite (pending_split f e) by assumption. lia.
Qed.

(** Inserting one packet after the other. *)
Fixpoint insert_all (ps : list packet_ref) (b : packet_buffer) : outcome packet_buffer :=
  match ps with [] => mret b | p :: ps => '(_, b) ← insert p b; insert_all ps b end.

Lemma insert_all_spec f ps b :
  inv f b → Forall (placed f) ps → Forall carries ps → Forall carries (buffer_ b) →
  ∃ b', insert_all ps b = Done b' ∧ inv f b' ∧ Forall carries (buffer_ b') ∧
    pending f (buffer_ b') = pending f (buffer_ b) ∪ pending f ps.
Proof.
  intros Hinv Hp Hc Hcb. revert b Hinv Hcb. induction Hp as [|p ps Hp _ IH]; intros b Hinv Hcb; cbn [insert_all pending].
  { exists b. split; [reflexivity |]. split; [assumption |]. split; [assumption |]. clear. set_solver. }
  apply Forall_cons in Hc as [Hcp Hc].
  destruct (insert_spec f p b Hinv Hp) as (n & b1 & -> & Hinv1 & Hpend & _ & Hsub). cbn [mbind outcome_bind].
  destruct (IH Hc b1 Hinv1) as (b' & E & Hinv' & Hcb' & Hpend').
  { apply Forall_forall. intros r [-> | Hr]%Hsub; [assumption |]. rewrite Forall_forall in Hcb. auto. }
  exists b'. split; [exact E |]. split; [assumption |]. split; [assumption |].
  rewrite Hpend', Hpend. clear. set_solver.
Qed.


(** C2: reassembly. Whatever order segments arrive in, and however they repeat and overlap,
    a buffer started at position [f] that received them delivers exactly the stream's bytes
    from [f] up to the first byte no segment carried. *)
Theorem reassembly f e ps :
  Forall (placed f) ps → Forall carries ps →
  f ≤ e → (∀ x, f ≤ x < e → ∃ r, r ∈ ps ∧ pos r ≤ x < finish r) → (∀ r, r ∈ ps → ¬ pos r ≤ e < finish r) →
  ∃ b b', insert_all ps (set_first_sequence_number (seq_at base f) new_TCPPacketBuffer) = Done b ∧
    get_continuous_data (seq_at base f) [] b = Done (stretch f e, b') ∧
    get_first_sequence_number b' = seq_at base e.
Proof.
  intros Hp Hc Hfe Hcover Hgap.
  destruct (insert_all_spec f ps _ (inv_fresh f) Hp Hc) as (b & E & Hinv & Hcb & Hpend); [constructor |].
  destruct (get_continuous_data_spec f b [] Hinv Hcb) as (e' & b' & E' & Hfe' & Hin & He' & Hinv' & _).
  assert (e' = e) as ->.
  { cbn [pending] in Hpend. rewrite Hpend in Hin, He'.
    destruct (Z.lt_trichotomy e' e) as [Hlt | [Heq | Hlt]]; [exfalso | assumption | exfalso].
    - apply He', elem_of_union. right. apply elem_of_pending. split; [lia |]. apply Hcover. lia.
    - assert (e ∈ interval f e') as H%Hin by (apply elem_of_interval; lia).
      apply elem_of_union in H as [H | H]; [set_solver |]. apply elem_of_pending in H as (_ & r & Hr & ?).
      specialize (Hgap r Hr). lia. }
  exists b, b'. split; [exact E |]. split; [exact E' | apply (inv_first _ _ Hinv')].
Qed.

End Stream.

(** ** A concrete stream that crosses the sequence-number wrap *)

Definition sample_base : Z := 2 ^ 32 - 2.
Definition sample_pos (r : packet_ref) : Z := i32 (u32 (seq_of r - sample_base)).
Definition sample_stream (i : Z) : Z := i.

Definition sample_ref (address : nat) (i : Z) (data : list Z) : packet_ref :=
  {| address := address;
     pkt := match (p ← fresh_TCPPacket; set_data data (set_tcp_sequence_number (seq_at sample_base i) p)) with
            | Done p => p | Fault _ => zero_tcp_packet end |}.

(** Positions 0..2 and 2..3 in two segments that arrive in reverse order. *)
Definition sample_segments : list packet_ref := [sample_ref 1 2 [2; 3]; sample_ref 0 0 [0; 1; 2]].

Definition wf_check (p : tcp_packet) : bool :=
  Nat.eqb (length (payload_ (ip_of p))) MTU && forallb (fun b => (0 <=? b) && (b <? 256)) (payload_ (ip_of p)).

Lemma wf_check_ok p : wf_check p = true → wf p.
Proof.
  intros [Hl%Nat.eqb_eq Hb]%andb_true_iff. split; [exact Hl |]. apply List.Forall_forall. intros b Hin.
  rewrite forallb_forall in Hb. specialize (Hb b Hin). unfold is_byte. lia.
Qed.

Lemma sample_placed : Forall (placed sample_base sample_pos 0) sample_segments.
Proof.
  repeat constructor; try (vm_compute; reflexivity); apply Z.leb_le; vm_compute; reflexivity.
Qed.

Lemma sample_carries : Forall (carries sample_pos sample_stream) sample_segments.
Proof.
  repeat constructor; (apply carries_data;
    [apply wf_check_ok; vm_compute; reflexivity | apply Nat.leb_le; vm_compute; reflexivity
    | apply Z.leb_le; vm_compute; reflexivity | vm_compute; reflexivity]).
Qed.

Lemma reassembly_witness :
  ∃ b b', insert_all sample_segments (set_first_sequence_number (seq_at sample_base 0) new_TCPPacketBuffer) = Done b ∧
    get_continuous_data (seq_at sample_base 0) [] b = Done ([0; 1; 2; 3], b') ∧
    get_first_sequence_number b' = seq_at sample_base 4.
Proof.
  apply (reassembly sample_base sample_pos sample_stream 0 4 sample_segments sample_placed sample_carries); [lia |..].
  - intros x Hx. destruct (decide (x < 2)).
    + exists (sample_ref 0 0 [0; 1; 2]). split; [set_solver |].
      replace (sample_pos _) with 0 by (vm_compute; reflexivity).
      replace (finish sample_pos _) with 3 by (vm_compute; reflexivity). lia.
    + exists (sample_ref 1 2 [2; 3]). split; [set_solver |].
      replace (sample_pos _) with 2 by (vm_compute; reflexivity).
      replace (finish sample_pos _) with 4 by (vm_compute; reflexivity). lia.
  - intros r [-> | [-> | []%not_elem_of_nil]%elem_of_cons]%elem_of_cons.
    + replace (finish sample_pos _) with 4 by (vm_compute; reflexivity). lia.
    + replace (finish sample_pos _) with 3 by (vm_compute; reflexivity). lia.
Defined.

Definition sample_buffer : packet_buffer := set_first_sequence_number (seq_at sample_base 0) new_TCPPacketBuffer.

Lemma insert_counts_new_bytes_witness :
  inv sample_base sample_pos 0 sample_buffer ∧
  ∃ n b', insert (sample_ref 1 2 [2; 3]) sample_buffer = Done (n, b') ∧ inv sample_base sample_pos 0 b'.
Proof.
  split; [apply inv_fresh |].
  destruct (insert_counts_new_bytes sample_base sample_pos 0 (sample_ref 1 2 [2; 3]) sample_buffer
    (inv_fresh sample_base sample_pos 0)) as (n & b' & E & Hinv & _).
  - pose proof sample_placed as H. apply Forall_cons in H as [H _]. exact H.
  - exists n, b'. auto.
Defined.

Lemma get_continuous_data_delivers_witness :
  inv sample_base sample_pos 0 sample_buffer ∧
  ∃ e b', get_continuous_data (seq_at sample_base 0) [7] sample_buffer
          = Done (([7] ++ stretch sample_stream 0 e)%list, b') ∧ inv sample_base sample_pos e b'.
Proof.
  split; [apply inv_fresh |].
  destruct (get_continuous_data_delivers sample_base sample_pos sample_stream 0 sample_buffer [7]
    (inv_fresh sample_base sample_pos 0)) as (e & b' & E & _ & _ & _ & Hinv & _).
  - constructor.
  - exists e, b'. auto.
Defined.

(** [set_first_sequence_number] keeps a cached size that the new start makes wrong. *)
Lemma restart_keeps_stale_size :
  (b ← insert_all sample_segments sample_buffer;
   '(_, b) ← size b;
   '(n, _) ← size (set_first_sequence_number (seq_at sample_base 3) b);
   '(n', _) ← size (mark_dirty (set_first_sequence_number (seq_at sample_base 3) b));
   mret (n, n')) = Done (4, 1).
Proof. vm_compute. reflexivity. Qed.
