(* ===== verification/Events.v ===== *)
(** * Events, and the handlers of a context

    The events of transport/headers/events/ as one type; an event refers to a
    socket, a timeout event or a received packet by its pointer, a number. A
    context's handler runs on its own context, the event's socket and the I/O
    state: the pointers handed out so far, the clock (a handler reads it at most
    once) and the events it enqueued on the protocol's queue ([Enqueue]) or gave
    to the dispatcher ([Dispatch]), in order. *)
From stdpp Require Import gmap.
From S2P Require UDPPacket.
From S2P Require Import Prelude HeaderMem Inet AddressPort Sockets IPPacket TCPOptions WiFuPacket TCPPacket PacketBuffer.

(** ** Messages from the front end *)

(** LibraryEvent: the socket and the common header of the message it holds. *)
Record library_event := { le_socket : nat; le_message_type : Z; le_fd : Z; le_source : string }.
Record connect_event := { ce_event : library_event; ce_address : address_port }.
Record listen_event := { lse_event : library_event; lse_back_log : Z }.
(** SendToMessage, whose address only sendto uses. *)
Record send_event := { se_event : library_event; se_addr : sockaddr_in; se_data : list Z }.
Record receive_event := { re_event : library_event; re_data_length : Z }.
Abbreviation accept_event := library_event.
Abbreviation close_event := library_event.

(** ResponseEvent and its subclasses: the message for the front end. *)
Record response := {
  res_socket : nat;
  res_message_type : Z;
  res_fd : Z;
  res_return_value : Z;
  res_errno : Z;
  res_length : Z;
  res_destination : string;
  res_addr : option sockaddr_in;
  res_buffer : list Z }.

Definition sizeof_GenericResponseMessage : Z := 20.
Definition sizeof_AddressResponseMessage : Z := 40.
Definition sizeof_GetSockOptResponseMessage : Z := 24.

(** The response to [e] with [set_default_length()]. *)
Definition default_response (s : nat) (e : library_event) (return_value errno : Z) : response :=
  {| res_socket := s; res_message_type := le_message_type e; res_fd := le_fd e; res_return_value := return_value;
     res_errno := errno; res_length := sizeof_GenericResponseMessage; res_destination := le_source e;
     res_addr := None; res_buffer := [] |}.

Inductive resend_reason := TIMEOUT | THREE_DUPLICATE_ACKS.

(** A NetworkSendPacketEvent holds a TCP segment or a UDP datagram. *)
Inductive event :=
| SendPacketEvent (s : nat) (p : tcp_packet)
| ResendPacketEvent (s : nat) (reason : resend_reason)
| ConnectionInitiatedEvent (s new_socket : nat) (listen : option listen_event)
| ConnectionEstablishedEvent (s new_socket : nat)
| DeleteSocketEvent (s : nat)
| ReceiveBufferNotEmptyEvent (s : nat)
| ReceiveBufferNotFullEvent (s : nat)
| SendBufferNotEmptyEvent (s : nat)
| SendBufferNotFullEvent (s : nat)
| TimeoutEvent (timer s : nat) (seconds nanoseconds : Z)
| CancelTimerEvent (timer : option nat)
| ResponseEvent (r : response)
| NetworkReceivePacketEvent (s : nat) (p : packet_ref)
| NetworkSendPacketEvent (s : nat) (p : tcp_packet)
| NetworkSendDatagramEvent (s : nat) (p : UDPPacket.udp_packet).

(** [PushSocket]: [SocketCollection::instance().push(new Socket(...))]; [NotifyObservers]:
    the socket changed an address, its value now is [sk], and [SocketCollection::update]
    runs on it. *)
Inductive effect :=
| Enqueue (e : event)
| Dispatch (e : event)
| PushSocket (s : nat) (new_socket : socket)
| NotifyObservers (s : nat) (sk : socket).

(** ** Handlers *)

Record io_state := { next_pointer : nat; now : Z; trace : list effect }.

Record env (C : Type) := { ctx : C; sock : socket; io : io_state }.
Arguments ctx {C} _.
Arguments sock {C} _.
Arguments io {C} _.

Definition handler (C A : Type) : Type := env C → outcome (A * env C).

#[export] Instance handler_ret C : MRet (handler C) := fun A a w => Done (a, w).
#[export] Instance handler_bind C : MBind (handler C) :=
  fun A B f m w => match m w with Done (a, w) => f a w | Fault e => Fault e end.

Section Handlers.
Context {C : Type}.

Definition lift {A} (m : outcome A) : handler C A := fun w => a ← m; mret (a, w).
Definition h_assert (b : bool) : handler C unit := lift (assert b).
Definition gets {A} (f : C → A) : handler C A := fun w => Done (f (ctx w), w).
Definition modify (f : C → C) : handler C unit :=
  fun w => Done (tt, {| ctx := f (ctx w); sock := sock w; io := io w |}).
Definition get_socket : handler C socket := fun w => Done (sock w, w).
Definition modify_socket (f : socket → socket) : handler C unit :=
  fun w => Done (tt, {| ctx := ctx w; sock := f (sock w); io := io w |}).
Definition current_time : handler C Z := fun w => Done (now (io w), w).
Definition emit (x : effect) : handler C unit :=
  fun w => Done (tt, {| ctx := ctx w; sock := sock w;
                        io := {| next_pointer := next_pointer (io w); now := now (io w);
                                 trace := trace (io w) ++ [x] |} |}).
(** [q->enqueue(e)] *)
Definition enqueue (e : event) : handler C unit := emit (Enqueue e).
(** [Dispatcher::instance().enqueue(e)] *)
Definition dispatch (e : event) : handler C unit := emit (Dispatch e).
(** The pointer of a new object. *)
Definition allocate : handler C nat :=
  fun w => Done (next_pointer (io w),
                 {| ctx := ctx w; sock := sock w;
                    io := {| next_pointer := S (next_pointer (io w)); now := now (io w); trace := trace (io w) |} |}).

(** [new TimeoutEvent(s, seconds, nanoseconds)], handed to the dispatcher. *)
Definition new_timeout (s : nat) (seconds nanoseconds : Z) : handler C nat :=
  _ ← h_assert (0 <=? seconds);
  _ ← h_assert (0 <=? nanoseconds);
  t ← allocate;
  _ ← dispatch (TimeoutEvent t s seconds nanoseconds);
  mret t.

End Handlers.

(** ** New segments *)

Definition on_ip (f : ip_packet → ip_packet) (p : tcp_packet) : tcp_packet := with_ip_of (f (ip_of p)) p.
Definition on_wifu (f : wifu_packet → wifu_packet) (p : tcp_packet) : tcp_packet := with_wifu (f (wifu p)) p.

(** The code every state uses: a new packet with a timestamp option, from [source] to
    [destination]. *)
Definition addressed_packet (destination source : address_port) : outcome tcp_packet :=
  p ← fresh_TCPPacket;
  o ← new_TCPTimestampOption;
  let p := insert_tcp_header_option o p in
  let p := on_ip (set_ip_destination_address_s (get_address destination)) p in
  let p := on_ip (set_ip_source_address_s (get_address source)) p in
  let p := on_wifu (set_destination_port (get_port destination)) p in
  mret (on_wifu (set_source_port (get_port source)) p).

(** The same, between the addresses of the handler's socket, without data. *)
Definition socket_packet {C} : handler C tcp_packet :=
  s ← get_socket;
  source ← lift (get_local_address_port s);
  lift (addressed_packet (get_remote_address_port s) source).

(** ** Laws of new segments *)

Definition timestamp_option : tcp_header_option :=
  match new_TCPTimestampOption with Done o => o | Fault _ => {| data_ := [] |} end.

Lemma new_TCPTimestampOption_eq : new_TCPTimestampOption = Done timestamp_option.
Proof. vm_compute. reflexivity. Qed.

(** The fields an address or a port setter can change. *)
Definition address_fields : list field := [f_saddr; f_daddr; f_sport; f_dport].

Lemma set_address_spec (f : field) (g : string → ip_packet → ip_packet) a p :
  (∀ a p, g a p = match inet_pton a with Some n => set_field f n p | None => p end) →
  field_ok MTU f = true → wf p →
  wf (on_ip (g a) p) ∧ (∀ f', disjoint f' f = true → get_tcp f' (on_ip (g a) p) = get_tcp f' p).
Proof.
  intros Hg Hf Hwf. unfold on_ip. rewrite Hg. destruct (inet_pton a) as [n|].
  - split; [apply wf_set_tcp; assumption |]. intros. apply get_tcp_set_other; assumption.
  - split; [exact Hwf | reflexivity].
Qed.

Lemma set_port_spec f v p :
  field_ok MTU f = true → wf p →
  wf (on_wifu (with_ip (set_field f v (ip_of p))) p) ∧
  ∀ f', disjoint f' f = true → get_tcp f' (on_wifu (with_ip (set_field f v (ip_of p))) p) = get_tcp f' p.
Proof. intros Hf Hwf. split; [apply wf_set_tcp; assumption |]. intros. apply get_tcp_set_other; assumption. Qed.

(** A new segment: 20 bytes of IP header, 32 of TCP header with the timestamp option, no
    flag set, ready for data. *)
Record new_segment (p : tcp_packet) : Prop := {
  ns_headers : headers_ok p;
  ns_doff : get_tcp_data_offset p = 8;
  ns_data : data_set_ p = false;
  ns_options : options_ p = [timestamp_option];
  ns_total : get_ip_tot_length (ip_of p) = 40;
  ns_flags : is_tcp_syn p = false ∧ is_tcp_fin p = false ∧ is_tcp_ack p = false;
  ns_cache : source_ (wifu p) = None ∧ dest_ (wifu p) = None }.

Lemma new_segment_equiv p q :
  new_segment p → wf q → (∀ f, f ∈ [f_ihl; f_doff; f_tot_len; f_syn; f_fin; f_ack] → get_tcp f q = get_tcp f p) →
  data_set_ q = data_set_ p → options_ q = options_ p → source_ (wifu q) = source_ (wifu p) →
  dest_ (wifu q) = dest_ (wifu p) → new_segment q.
Proof.
  intros [[Hwf Hi Hd] H8 Hdat Ho Ht Hfl Hc] Hq Hf E1 E2 E3 E4.
  assert (get_tcp f_ihl q = get_tcp f_ihl p) as Fi by (apply Hf; set_solver).
  assert (get_tcp f_doff q = get_tcp f_doff p) as Fd by (apply Hf; set_solver).
  assert (get_tcp f_tot_len q = get_tcp f_tot_len p) as Ft by (apply Hf; set_solver).
  assert (get_tcp f_syn q = get_tcp f_syn p) as Fs by (apply Hf; set_solver).
  assert (get_tcp f_fin q = get_tcp f_fin p) as Ff by (apply Hf; set_solver).
  assert (get_tcp f_ack q = get_tcp f_ack p) as Fa by (apply Hf; set_solver).
  split; [split; [exact Hq | |] | | | | | |].
  - change (get_tcp f_ihl q = 5). rewrite Fi. exact Hi.
  - unfold get_tcp_data_offset in *. lia.
  - unfold get_tcp_data_offset in *. lia.
  - congruence.
  - congruence.
  - change (get_tcp f_tot_len q = 40). rewrite Ft. exact Ht.
  - unfold is_tcp_syn, is_tcp_fin, is_tcp_ack, is_tcp in *. rewrite Fs, Ff, Fa. exact Hfl.
  - rewrite E3, E4. exact Hc.
Qed.

Definition base_segment : tcp_packet :=
  match fresh_TCPPacket with Done p => insert_tcp_header_option timestamp_option p | Fault _ => zero_tcp_packet end.

Lemma base_segment_ok : fresh_TCPPacket ≫= (fun p => Done (insert_tcp_header_option timestamp_option p)) = Done base_segment
  ∧ new_segment base_segment.
Proof.
  destruct fresh_TCPPacket_spec as (p & E & [Hwf Hi Hd] & Hd5 & Ho & Hs & Ht). unfold base_segment. rewrite E.
  split; [reflexivity |].
  assert (wf (insert_tcp_header_option timestamp_option p)) as Hq by (apply wf_set_tcp; [reflexivity | exact Hwf]).
  assert (options_ (insert_tcp_header_option timestamp_option p) = [timestamp_option]) as Ho'
    by (unfold insert_tcp_header_option; cbn; rewrite Ho; reflexivity).
  assert (∀ f, disjoint f f_doff = true → get_tcp f (insert_tcp_header_option timestamp_option p) = get_tcp f p) as Hf.
  { intros f H. unfold insert_tcp_header_option, set_tcp_data_offset.
    rewrite get_tcp_set_other by (reflexivity || assumption). reflexivity. }
  assert (get_tcp_data_offset (insert_tcp_header_option timestamp_option p) = 8) as H8.
  { rewrite insert_option_offset, Hd5, Ho by assumption. vm_compute. reflexivity. }
  split; [split; [exact Hq | | lia] | exact H8 | exact Hs | exact Ho' | | |].
  - change (get_tcp f_ihl (insert_tcp_header_option timestamp_option p) = 5). rewrite Hf by reflexivity. exact Hi.
  - change (get_tcp f_tot_len (insert_tcp_header_option timestamp_option p) = 40). rewrite Hf by reflexivity. exact Ht.
  - unfold is_tcp_syn, is_tcp_fin, is_tcp_ack, is_tcp. rewrite !Hf by reflexivity.
    assert (fresh_TCPPacket = Done p) as E' by exact E. revert E'. vm_compute. intros [= <-]. vm_compute. auto.
  - assert (fresh_TCPPacket = Done p) as E' by exact E. revert E'. vm_compute. intros [= <-]. vm_compute. auto.
Qed.

Lemma addressed_packet_spec destination source :
  ∃ p, addressed_packet destination source = Done p ∧ new_segment p.
Proof.
  destruct base_segment_ok as [E H]. unfold addressed_packet. rewrite new_TCPTimestampOption_eq.
  destruct fresh_TCPPacket as [p0|]; [| discriminate E]. cbn [mbind outcome_bind mret outcome_ret] in E |- *.
  assert (insert_tcp_header_option timestamp_option p0 = base_segment) as -> by congruence. clear E. pose proof (headers_wf _ (ns_headers _ H)) as Hwf.
  eexists. split; [reflexivity |].
  set (p1 := on_ip (set_ip_destination_address_s _) base_segment).
  destruct (set_address_spec f_daddr set_ip_destination_address_s (get_address destination) base_segment
    (fun _ _ => eq_refl) eq_refl Hwf) as [Hw1 Hf1]. fold p1 in Hw1, Hf1.
  set (p2 := on_ip (set_ip_source_address_s _) p1).
  destruct (set_address_spec f_saddr set_ip_source_address_s (get_address source) p1
    (fun _ _ => eq_refl) eq_refl Hw1) as [Hw2 Hf2]. fold p2 in Hw2, Hf2.
  set (p3 := on_wifu (set_destination_port _) p2).
  destruct (set_port_spec f_dport (get_port destination) p2 eq_refl Hw2) as [Hw3 Hf3].
  set (p4 := on_wifu (set_source_port _) p3).
  destruct (set_port_spec f_sport (get_port source) p3 eq_refl Hw3) as [Hw4 Hf4].
  apply (new_segment_equiv base_segment); [exact H | exact Hw4 | | reflexivity..].
  intros f Hin. transitivity (get_tcp f p3); [| transitivity (get_tcp f p2); [| transitivity (get_tcp f p1)]];
    [apply Hf4 | apply Hf3 | apply Hf2 | apply Hf1];
    rewrite !elem_of_cons, elem_of_nil in Hin; repeat (destruct Hin as [-> | Hin]; [reflexivity |]); destruct Hin.
Qed.

(** [set_data] on a new segment: the data arrives, and flags, options and header length stay. *)
Lemma set_data_new_segment data p :
  new_segment p → Forall is_byte data → (length data ≤ 1448)%nat →
  ∃ p', set_data data p = Done p' ∧ data_of p' = data ∧ get_data_length_bytes p' = Z.of_nat (length data) ∧
    headers_ok p' ∧ options_ p' = [timestamp_option] ∧
    is_tcp_syn p' = is_tcp_syn p ∧ is_tcp_fin p' = is_tcp_fin p ∧ is_tcp_ack p' = is_tcp_ack p ∧
    get_tcp_data_offset p' = 8 ∧ source_ (wifu p') = None ∧ dest_ (wifu p') = None.
Proof.
  intros [Hh H8 Hd Ho _ _ Hcache] Hb Hl.
  assert (Z.to_nat (get_tcp_header_length_bytes p) = 32%nat) as H32 by (unfold get_tcp_header_length_bytes; rewrite H8; reflexivity).
  destruct (set_data_full data p Hh Hd Hb) as (p' & E & Hh' & Hdat & Hlen & Hf & _); [rewrite H32; unfold MTU; lia |].
  exists p'. split; [exact E |]. split; [exact Hdat |]. split; [exact Hlen |]. split; [exact Hh' |].
  assert (options_ p' = options_ p ∧ source_ (wifu p') = None ∧ dest_ (wifu p') = None) as (Ho' & Hs' & Hd').
  { destruct (set_data_spec data p Hh Hd Hb) as (p'' & E' & _ & _ & _ & _ & _ & Ho' & Hs' & Hd'); [rewrite H32; unfold MTU; lia |].
    assert (p'' = p') as -> by congruence. destruct Hcache. split; [exact Ho' | split; congruence]. }
  split; [congruence |]. unfold is_tcp_syn, is_tcp_fin, is_tcp_ack, is_tcp.
  unfold get_tcp_data_offset in *. rewrite !Hf by set_solver. auto 10.
Qed.

(** Runs the monadic operations of a handler on a given state. *)
Ltac run :=
  cbv beta iota zeta delta [mbind handler_bind mret handler_ret lift h_assert assert gets modify get_socket modify_socket
    emit enqueue dispatch allocate current_time outcome_bind outcome_ret id negb];
  cbn [ctx sock io next_pointer now trace].

Definition add_trace (x : list effect) (i : io_state) : io_state :=
  {| next_pointer := next_pointer i; now := now i; trace := trace i ++ x |}.

(** An effect that answers no call and leaves the socket collection alone. *)
Definition silent (x : effect) : bool :=
  match x with PushSocket _ _ | NotifyObservers _ _ | Dispatch (ResponseEvent _) => false | _ => true end.

Lemma add_trace_nil i : add_trace [] i = i.
Proof. destruct i. unfold add_trace. cbn. rewrite app_nil_r. reflexivity. Qed.

Lemma add_trace_add x y i : add_trace y (add_trace x i) = add_trace (x ++ y) i.
Proof. unfold add_trace. cbn. rewrite app_assoc. reflexivity. Qed.

Lemma socket_packet_spec {C} (w : env C) a :
  local_ (sock w) = Some a → ∃ p, socket_packet w = Done (p, w) ∧ new_segment p.
Proof.
  intros Ha. destruct (addressed_packet_spec (get_remote_address_port (sock w)) a) as (p & E & Hp).
  exists p. split; [| exact Hp]. unfold socket_packet. run. unfold get_local_address_port. rewrite Ha. run.
  rewrite E. reflexivity.
Qed.
