(* ===== verification/Outstanding.v ===== *)
(** * class OutstandingDataContext (transport/src/contexts/OutstandingDataContext.cc)

    The send sequence variables of RFC 793 that the congestion control and the
    reliability context each keep. *)
From S2P Require Import Prelude SeqMath IPPacket TCPOptions TCPPacket Events.

Record outstanding := {
  iss_ : Z;
  mss_ : Z;
  snd_nxt_ : Z;
  snd_una_ : Z;
  snd_max_ : Z }.

Definition get_iss (o : outstanding) : Z := iss_ o.
Definition get_mss (o : outstanding) : Z := mss_ o.
Definition get_snd_nxt (o : outstanding) : Z := snd_nxt_ o.
Definition get_snd_una (o : outstanding) : Z := snd_una_ o.
Definition get_snd_max (o : outstanding) : Z := snd_max_ o.
Definition get_num_outstanding (o : outstanding) : Z := u32 (get_snd_nxt o - get_snd_una o).

Definition set_iss (iss : Z) (o : outstanding) : outstanding :=
  {| iss_ := iss; mss_ := mss_ o; snd_nxt_ := snd_nxt_ o; snd_una_ := snd_una_ o; snd_max_ := snd_max_ o |}.
Definition set_mss (mss : Z) (o : outstanding) : outstanding :=
  {| iss_ := iss_ o; mss_ := u16 mss; snd_nxt_ := snd_nxt_ o; snd_una_ := snd_una_ o; snd_max_ := snd_max_ o |}.
Definition set_snd_una (snd_una : Z) (o : outstanding) : outstanding :=
  {| iss_ := iss_ o; mss_ := mss_ o; snd_nxt_ := snd_nxt_ o; snd_una_ := snd_una; snd_max_ := snd_max_ o |}.
(** Keeps the largest SND.NXT ever seen in SND.MAX. *)
Definition set_snd_nxt (snd_nxt : Z) (o : outstanding) : outstanding :=
  {| iss_ := iss_ o; mss_ := mss_ o; snd_nxt_ := snd_nxt; snd_una_ := snd_una_ o;
     snd_max_ := if less_than (snd_max_ o) snd_nxt then snd_nxt else snd_max_ o |}.

(** The constructor: the segment size is what a packet with a timestamp option can hold. *)
Definition new_OutstandingDataContext (iss : Z) : outcome outstanding :=
  p ← fresh_TCPPacket;
  o ← new_TCPTimestampOption;
  let p := insert_tcp_header_option o p in
  mret (set_mss (max_data_length p) {| iss_ := iss; mss_ := 0; snd_nxt_ := 0; snd_una_ := 0; snd_max_ := 0 |}).

Definition initial (iss : Z) : outstanding :=
  {| iss_ := iss; mss_ := 1448; snd_nxt_ := 0; snd_una_ := 0; snd_max_ := 0 |}.

Lemma new_OutstandingDataContext_eq iss : new_OutstandingDataContext iss = Done (initial iss).
Proof.
  destruct base_segment_ok as [E H]. unfold new_OutstandingDataContext. rewrite new_TCPTimestampOption_eq.
  destruct fresh_TCPPacket as [p0|]; [| discriminate E]. cbn [mbind outcome_bind mret outcome_ret] in E |- *.
  assert (insert_tcp_header_option timestamp_option p0 = base_segment) as -> by congruence. clear E.
  unfold max_data_length, IPPacket.max_data_length. rewrite (headers_length _ (ns_headers _ H)).
  unfold get_tcp_header_length_bytes. rewrite (ns_doff _ H). reflexivity.
Qed.

(** ** The send window invariant *)

(** SND.UNA, SND.NXT and SND.MAX in stream order, from position [u]: [n] bytes outstanding,
    the largest SND.NXT at [m]. *)
Record window (base u n m : Z) (o : outstanding) : Prop := {
  window_una : snd_una_ o = seq_at base u;
  window_nxt : snd_nxt_ o = seq_at base (u + n);
  window_max : snd_max_ o = seq_at base m;
  window_order : 0 ≤ n ∧ u + n ≤ m < u + 2 ^ 31 }.

Lemma window_outstanding base u n m o : window base u n m o → get_num_outstanding o = n.
Proof.
  intros [Hu Hn _ H]. unfold get_num_outstanding, get_snd_nxt, get_snd_una. rewrite Hu, Hn, seq_at_sub.
  rewrite u32_small; [lia |]. unfold is_u32. lia.
Qed.

Lemma window_set_snd_nxt base u n m o n' :
  window base u n m o → 0 ≤ n' → u + n' < u + 2 ^ 31 →
  window base u n' (Z.max m (u + n')) (set_snd_nxt (seq_at base (u + n')) o).
Proof.
  intros [Hu Hn Hm H] H0 H1. split; cbn [set_snd_nxt snd_una_ snd_nxt_ snd_max_]; [assumption | reflexivity | |].
  - rewrite Hm, seq_at_less_than by lia. destruct (m <? u + n') eqn:E; bool_to_prop; f_equal; lia.
  - lia.
Qed.

Lemma window_set_snd_una base u n m o a :
  window base u n m o → u ≤ a ≤ u + n → window base a (u + n - a) m (set_snd_una (seq_at base a) o).
Proof.
  intros [Hu Hn Hm H] Ha. split; cbn [set_snd_una snd_una_ snd_nxt_ snd_max_]; [reflexivity | | assumption | lia].
  rewrite Hn. f_equal. lia.
Qed.
