(* ===== verification/Congestion.v ===== *)
(** * Tahoe congestion control

    TCPTahoeCongestionControlContext and its states TCPTahoeBaseCongestionControl,
    SlowStart and CongestionAvoidance (transport/src/contexts/, transport/src/states/):
    the context's [current_] state is one of two classes, which differ in
    [state_enter], [set_cwnd] and [resend]. Each handler takes the event's socket
    pointer [s], for the events it creates, and runs on the context and the
    socket itself. *)
From S2P Require Import Prelude SeqMath HeaderMem IPPacket TCPOptions WiFuPacket TCPPacket Sockets Events Outstanding.

Definition INITIAL_PROBE_TIMEOUT_DURATION : Z := 120.
Definition MAX_TCP_RECEIVE_WINDOW_SIZE : Z := USHRT_MAX.
Definition SYN_BYTE : Z := 22.
Definition FIN_BYTE : Z := 23.

Inductive cc_state := SlowStart | CongestionAvoidance.

Record cc_context := {
  odc : outstanding;
  current_ : cc_state;
  snd_wnd_ : Z;
  snd_wnd1_ : Z;
  snd_wnd2_ : Z;
  cwnd_ : Z;
  ssthreshold_ : Z;
  probe_timer_ : option nat;
  probe_timer_duration_ : Z;
  data_sent_ : bool }.

Definition with_odc (f : outstanding → outstanding) (c : cc_context) : cc_context :=
  {| odc := f (odc c); current_ := current_ c; snd_wnd_ := snd_wnd_ c; snd_wnd1_ := snd_wnd1_ c; snd_wnd2_ := snd_wnd2_ c;
     cwnd_ := cwnd_ c; ssthreshold_ := ssthreshold_ c; probe_timer_ := probe_timer_ c;
     probe_timer_duration_ := probe_timer_duration_ c; data_sent_ := data_sent_ c |}.
(** [set_snd_wnd(w)], [set_snd_wnd1(w1)], [set_snd_wnd2(w2)] *)
Definition set_send_window (w w1 w2 : Z) (c : cc_context) : cc_context :=
  {| odc := odc c; current_ := current_ c; snd_wnd_ := u16 w; snd_wnd1_ := w1; snd_wnd2_ := w2;
     cwnd_ := cwnd_ c; ssthreshold_ := ssthreshold_ c; probe_timer_ := probe_timer_ c;
     probe_timer_duration_ := probe_timer_duration_ c; data_sent_ := data_sent_ c |}.
Definition set_cwnd (cwnd : Z) (c : cc_context) : cc_context :=
  {| odc := odc c; current_ := current_ c; snd_wnd_ := snd_wnd_ c; snd_wnd1_ := snd_wnd1_ c; snd_wnd2_ := snd_wnd2_ c;
     cwnd_ := u32 cwnd; ssthreshold_ := ssthreshold_ c; probe_timer_ := probe_timer_ c;
     probe_timer_duration_ := probe_timer_duration_ c; data_sent_ := data_sent_ c |}.
Definition set_ssthreshold (ssthreshold : Z) (c : cc_context) : cc_context :=
  {| odc := odc c; current_ := current_ c; snd_wnd_ := snd_wnd_ c; snd_wnd1_ := snd_wnd1_ c; snd_wnd2_ := snd_wnd2_ c;
     cwnd_ := cwnd_ c; ssthreshold_ := u16 ssthreshold; probe_timer_ := probe_timer_ c;
     probe_timer_duration_ := probe_timer_duration_ c; data_sent_ := data_sent_ c |}.
Definition set_probe (timer : option nat) (duration : Z) (c : cc_context) : cc_context :=
  {| odc := odc c; current_ := current_ c; snd_wnd_ := snd_wnd_ c; snd_wnd1_ := snd_wnd1_ c; snd_wnd2_ := snd_wnd2_ c;
     cwnd_ := cwnd_ c; ssthreshold_ := ssthreshold_ c; probe_timer_ := timer;
     probe_timer_duration_ := duration; data_sent_ := data_sent_ c |}.
Definition set_probe_timer (timer : option nat) (c : cc_context) : cc_context :=
  set_probe timer (probe_timer_duration_ c) c.
Definition set_probe_timer_duration (duration : Z) (c : cc_context) : cc_context :=
  set_probe (probe_timer_ c) duration c.
Definition set_data_sent (b : bool) (c : cc_context) : cc_context :=
  {| odc := odc c; current_ := current_ c; snd_wnd_ := snd_wnd_ c; snd_wnd1_ := snd_wnd1_ c; snd_wnd2_ := snd_wnd2_ c;
     cwnd_ := cwnd_ c; ssthreshold_ := ssthreshold_ c; probe_timer_ := probe_timer_ c;
     probe_timer_duration_ := probe_timer_duration_ c; data_sent_ := b |}.
Definition with_current (st : cc_state) (c : cc_context) : cc_context :=
  {| odc := odc c; current_ := st; snd_wnd_ := snd_wnd_ c; snd_wnd1_ := snd_wnd1_ c; snd_wnd2_ := snd_wnd2_ c;
     cwnd_ := cwnd_ c; ssthreshold_ := ssthreshold_ c; probe_timer_ := probe_timer_ c;
     probe_timer_duration_ := probe_timer_duration_ c; data_sent_ := data_sent_ c |}.

Definition get_mss (c : cc_context) : Z := Outstanding.get_mss (odc c).
Definition get_num_outstanding (c : cc_context) : Z := Outstanding.get_num_outstanding (odc c).
Definition set_snd_nxt (n : Z) : cc_context → cc_context := with_odc (Outstanding.set_snd_nxt (u32 n)).
Definition set_snd_una (n : Z) : cc_context → cc_context := with_odc (Outstanding.set_snd_una n).

(** Whole segments only; [mss] zero would divide by zero. *)
Definition get_max_allowed_to_send (c : cc_context) : Z :=
  let space := Z.min (snd_wnd_ c) (cwnd_ c) in space - space mod get_mss c.

(** ** SlowStart, CongestionAvoidance *)

(** [SlowStart::state_enter] (RFC 3390); CongestionAvoidance has none. *)
Definition state_enter (st : cc_state) (c : cc_context) : cc_context :=
  match st with
  | SlowStart => set_cwnd (Z.min (4 * get_mss c) (Z.max (2 * get_mss c) 4380)) c
  | CongestionAvoidance => c
  end.

(** [Context::set_state] *)
Definition set_state (st : cc_state) (c : cc_context) : cc_context := state_enter st (with_current st c).

(** The virtual method [set_cwnd(c, q, e)] *)
Definition update_cwnd (c : cc_context) : cc_context :=
  match current_ c with
  | SlowStart =>
      let c := set_cwnd (cwnd_ c + get_mss c) c in
      if ssthreshold_ c <? cwnd_ c then set_state CongestionAvoidance c else c
  | CongestionAvoidance =>
      set_cwnd (cwnd_ c + u32 (get_mss c * get_mss c) / cwnd_ c) c
  end.

(** The virtual method [resend(c, q, e)] *)
Definition resend (c : cc_context) : cc_context :=
  let threshold := Z.max (get_num_outstanding c / 2) (get_mss c * 2) in
  match current_ c with
  | SlowStart => set_cwnd (get_mss c) (set_ssthreshold threshold c)
  | CongestionAvoidance =>
      let c := set_state SlowStart (set_ssthreshold threshold c) in
      set_cwnd (get_mss c) c
  end.

Definition new_TCPTahoeCongestionControlContext (iss : Z) : outcome cc_context :=
  o ← new_OutstandingDataContext iss;
  mret (set_state SlowStart
    {| odc := o; current_ := SlowStart; snd_wnd_ := 0; snd_wnd1_ := 0; snd_wnd2_ := 0; cwnd_ := USHRT_MAX;
       ssthreshold_ := USHRT_MAX; probe_timer_ := None; probe_timer_duration_ := INITIAL_PROBE_TIMEOUT_DURATION;
       data_sent_ := false |}).

(** ** TCPTahoeBaseCongestionControl *)

Definition cc_handler := handler cc_context unit.

Definition send_buffer_size {C} : handler C Z := s ← get_socket; mret (Z.of_nat (length (get_send_buffer s))).

(** [send_buffer.data() + index], [len] bytes of it. *)
Definition buffer_bytes (b : list Z) (index len : Z) : outcome (list Z) :=
  if (0 <=? index) && (0 <=? len) && (index + len <=? Z.of_nat (length b))
  then Done (slice b (Z.to_nat index) (Z.to_nat len)) else Fault OutOfBounds.

Definition get_send_data_length (p : tcp_packet) (ignore_window : bool) : handler cc_context Z :=
  size ← send_buffer_size;
  outstanding ← gets get_num_outstanding;
  let num_unsent := size - i32 outstanding in
  let data_length := Z.min (Z.min num_unsent (max_data_length p)) MAX_TCP_RECEIVE_WINDOW_SIZE in
  max_allowed ← gets get_max_allowed_to_send;
  let data_length := if ignore_window then data_length else Z.min data_length (i32 max_allowed - i32 outstanding) in
  _ ← h_assert (0 <? data_length);
  mret data_length.

Definition get_resend_data_length (p : tcp_packet) : handler cc_context Z :=
  size ← send_buffer_size;
  outstanding ← gets get_num_outstanding;
  max_allowed ← gets get_max_allowed_to_send;
  let num_unsent := size - i32 outstanding in
  let data_length := Z.min (Z.min num_unsent (max_data_length p)) (Z.min (i32 max_allowed) MAX_TCP_RECEIVE_WINDOW_SIZE) in
  _ ← h_assert (0 <? data_length);
  mret data_length.

Definition send_one_packet (s : nat) (ignore_window : bool) : cc_handler :=
  outstanding ← gets get_num_outstanding;
  let index := i32 outstanding in
  p ← socket_packet;
  data_length ← get_send_data_length p ignore_window;
  size ← send_buffer_size;
  _ ← h_assert (0 <? size);
  sk ← get_socket;
  data ← lift (buffer_bytes (get_send_buffer sk) index data_length);
  _ ← modify (fun c => set_snd_nxt (Outstanding.get_snd_nxt (odc c) + data_length) c);
  p ← lift (set_data data p);
  _ ← h_assert (0 <? get_data_length_bytes p);
  enqueue (SendPacketEvent s p).

(** The loop condition of [send_packets]. *)
Definition can_send_more : handler cc_context bool :=
  size ← send_buffer_size;
  outstanding ← gets get_num_outstanding;
  max_allowed ← gets get_max_allowed_to_send;
  mret ((0 <? size - i32 outstanding) && (outstanding <? max_allowed)).

(** Every round sends at least one byte of the buffer (lemma [send_packets_spec]), so the
    buffer's size bounds the rounds. *)
Fixpoint send_packets_loop (fuel : nat) (s : nat) : cc_handler :=
  match fuel with
  | O => lift (Fault StackOverflow)
  | S fuel =>
      more ← can_send_more;
      if (more : bool) then _ ← send_one_packet s false; send_packets_loop fuel s else mret tt
  end.

Definition send_packets (s : nat) : cc_handler :=
  sk ← get_socket; send_packets_loop (S (length (get_send_buffer sk))) s.

(** [!buffer.compare(pos, 1, BYTE)] *)
Definition byte_is (b : list Z) (i : nat) (x : Z) : bool :=
  match b !! i with Some y => y =? x | None => false end.

Definition resend_data (s : nat) : cc_handler :=
  p ← socket_packet;
  sk ← get_socket;
  let send_buffer := get_send_buffer sk in
  _ ← h_assert (negb (Nat.eqb (length send_buffer) 0));
  p ← (if byte_is send_buffer 0 SYN_BYTE then lift (set_data [] (set_tcp_syn true p))
       else if byte_is send_buffer 0 FIN_BYTE then lift (set_data [] (set_tcp_fin true p))
       else
         length_ ← get_resend_data_length p;
         let length_ := if byte_is send_buffer (length send_buffer - 1) FIN_BYTE then length_ - 1 else length_ in
         data ← lift (buffer_bytes send_buffer 0 length_);
         p ← lift (set_data data p);
         _ ← h_assert (0 <? get_data_length_bytes p);
         mret p);
  let length_ := if is_tcp_syn p || is_tcp_fin p then 1 else get_data_length_bytes p in
  _ ← modify (fun c => set_snd_nxt (Outstanding.get_snd_una (odc c) + length_) c);
  enqueue (SendPacketEvent s p).

(** The product of two [int]s. *)
Definition int_times (a b : Z) : outcome Z :=
  if (- 2 ^ 31 <=? a * b) && (a * b <? 2 ^ 31) then Done (a * b) else Fault SignedOverflow.

Definition state_timer_fired (s timeout_event : nat) : cc_handler :=
  probe ← gets probe_timer_;
  match probe with
  | Some timer =>
      if Nat.eqb timeout_event timer then
        duration ← gets probe_timer_duration_;
        duration ← lift (int_times duration 2);
        _ ← modify (set_probe_timer_duration duration);
        timer ← new_timeout s duration 0;
        _ ← modify (set_probe_timer (Some timer));
        send_one_packet s true
      else mret tt
  | None => mret tt
  end.

Definition state_send_packet (p : tcp_packet) : cc_handler :=
  _ ← modify (fun c =>
        if is_tcp_syn p then
          set_snd_nxt (get_iss (odc c) + 1) (set_snd_una (get_iss (odc c)) c)
        else if is_tcp_fin p then set_snd_nxt (Outstanding.get_snd_nxt (odc c) + 1) c
        else c);
  modify (fun c => if negb (data_sent_ c) && (0 <? get_data_length_bytes p) then set_data_sent true c else c).

Definition state_resend_packet (s : nat) : cc_handler :=
  _ ← modify resend;
  _ ← modify (fun c => set_snd_nxt (Outstanding.get_snd_una (odc c)) c);
  resend_data s.

(** The send window update of RFC 793 p. 72. *)
Definition update_send_window (p : tcp_packet) (c : cc_context) : cc_context :=
  let seq := get_tcp_sequence_number p in
  let ack := get_tcp_ack_number p in
  if less_than (snd_wnd1_ c) seq || ((snd_wnd1_ c =? seq) && less_than_or_equal (snd_wnd2_ c) ack)
  then set_send_window (get_tcp_receive_window_size p) seq ack c else c.

Definition state_receive_packet (s : nat) (p : tcp_packet) : cc_handler :=
  c ← gets id;
  let una := Outstanding.get_snd_una (odc c) in
  let max_ := Outstanding.get_snd_max (odc c) in
  let between_and_equal := between_equal una (get_tcp_ack_number p) max_ in
  let between_and_equal_right := between_equal_right una (get_tcp_ack_number p) max_ in
  if is_tcp_ack p && between_and_equal then
    _ ← modify (set_snd_una (get_tcp_ack_number p));
    _ ← modify (fun c => if less_than (Outstanding.get_snd_nxt (odc c)) (Outstanding.get_snd_una (odc c))
                         then set_snd_nxt (Outstanding.get_snd_una (odc c)) c else c);
    _ ← modify (update_send_window p);
    _ ← modify (fun c => if between_and_equal_right && data_sent_ c then update_cwnd c else c);
    c ← gets id;
    if get_max_allowed_to_send c <=? get_num_outstanding c then
      match probe_timer_ c with
      | None =>
          timer ← new_timeout s (probe_timer_duration_ c) 0;
          modify (set_probe_timer (Some timer))
      | Some _ => mret tt
      end
    else
      _ ← match probe_timer_ c with
          | Some timer =>
              _ ← modify (set_probe None INITIAL_PROBE_TIMEOUT_DURATION);
              dispatch (CancelTimerEvent (Some timer))
          | None => mret tt
          end;
      send_packets s
  else mret tt.

Definition state_send_buffer_not_empty (s : nat) : cc_handler := send_packets s.

(** ** Sending *)

Definition MSS : Z := 1448.
(** The socket buffers never hold more (TCPTahoe's [get_available_room_in_send_buffer]). *)
Definition TCP_SOCKET_MAX_BUFFER_SIZE : Z := 131071.

(** The handler's world while connected: an address, a send buffer of bytes within its
    limit, the fixed segment size, and [n] bytes outstanding from position [u]. *)
Record sending (base u n m : Z) (w : env cc_context) : Prop := {
  sending_local : is_Some (local_ (sock w));
  sending_bytes : Forall is_byte (send_buffer_ (sock w));
  sending_size : Z.of_nat (length (send_buffer_ (sock w))) ≤ TCP_SOCKET_MAX_BUFFER_SIZE;
  sending_mss : get_mss (ctx w) = MSS;
  sending_window : window base u n m (odc (ctx w)) }.

Definition size_of (w : env cc_context) : Z := Z.of_nat (length (send_buffer_ (sock w))).

Lemma max_data_length_new p : new_segment p → max_data_length p = MSS.
Proof.
  intros H. unfold max_data_length, IPPacket.max_data_length. rewrite (headers_length _ (ns_headers _ H)).
  unfold get_tcp_header_length_bytes. rewrite (ns_doff _ H). reflexivity.
Qed.

Lemma buffer_bytes_Done b i n :
  0 ≤ i → 0 ≤ n → i + n ≤ Z.of_nat (length b) → buffer_bytes b i n = Done (slice b (Z.to_nat i) (Z.to_nat n)).
Proof.
  intros. unfold buffer_bytes.
  rewrite !(proj2 (Z.leb_le _ _)) by assumption. reflexivity.
Qed.

(** The size of the next segment. *)
Definition segment_size (ignore_window : bool) (n : Z) (w : env cc_context) : Z :=
  let unsent := Z.min (size_of w - n) MSS in
  if ignore_window then unsent else Z.min unsent (get_max_allowed_to_send (ctx w) - n).

(** The state after [len] bytes were sent in segment [p]. *)
Definition after_send (s : nat) (len : Z) (p : tcp_packet) (w : env cc_context) : env cc_context :=
  {| ctx := set_snd_nxt (Outstanding.get_snd_nxt (odc (ctx w)) + len) (ctx w); sock := sock w;
     io := add_trace [Enqueue (SendPacketEvent s p)] (io w) |}.

Lemma max_allowed_bound c : get_mss c = MSS → 0 ≤ snd_wnd_ c < 2 ^ 16 → 0 ≤ cwnd_ c → 0 ≤ get_max_allowed_to_send c < 2 ^ 16.
Proof.
  intros Hm ? ?. unfold get_max_allowed_to_send. rewrite Hm. unfold MSS.
  pose proof (Z.mod_pos_bound (Z.min (snd_wnd_ c) (cwnd_ c)) 1448 ltac:(lia)).
  pose proof (Z.mod_le (Z.min (snd_wnd_ c) (cwnd_ c)) 1448 ltac:(lia) ltac:(lia)). lia.
Qed.

(** A data segment as the loop queues it: headers, one timestamp option, data, no SYN or FIN;
    its addresses were not asked for yet. *)
Record data_segment (p : tcp_packet) : Prop := {
  ds_headers : headers_ok p;
  ds_options : options_ p = [timestamp_option];
  ds_offset : get_tcp_data_offset p = 8;
  ds_flags : is_tcp_syn p = false ∧ is_tcp_fin p = false;
  ds_length : 0 < get_data_length_bytes p ≤ MSS;
  ds_data : Z.of_nat (length (data_of p)) = get_data_length_bytes p;
  ds_cache : source_ (wifu p) = None ∧ dest_ (wifu p) = None }.

Definition windows_ok (c : cc_context) : Prop := 0 ≤ snd_wnd_ c < 2 ^ 16 ∧ 0 ≤ cwnd_ c.

Lemma send_one_packet_spec base u n m s ignore w :
  sending base u n m w → windows_ok (ctx w) → 0 < segment_size ignore n w →
  ∃ p, send_one_packet s ignore w = Done (tt, after_send s (segment_size ignore n w) p w) ∧
    data_of p = slice (send_buffer_ (sock w)) (Z.to_nat n) (Z.to_nat (segment_size ignore n w)) ∧
    get_data_length_bytes p = segment_size ignore n w ∧ data_segment p.
Proof.
  intros [[a Ha] Hbytes Hsize Hmss Hw] [Hwnd Hcwnd] Hpos. pose proof (window_outstanding _ _ _ _ _ Hw) as Hn.
  pose proof (window_order _ _ _ _ _ Hw) as Hord. pose proof (max_allowed_bound _ Hmss Hwnd Hcwnd) as Hmax.
  destruct (socket_packet_spec w a Ha) as (p & Ep & Hp).
  pose proof (max_data_length_new p Hp) as Hmdl.
  assert (n < size_of w) as Hns by (unfold segment_size, size_of, TCP_SOCKET_MAX_BUFFER_SIZE in *; destruct ignore; lia).
  assert (i32 n = n) as Hi by (apply i32_small; unfold size_of, TCP_SOCKET_MAX_BUFFER_SIZE in *; lia).
  assert (get_send_data_length p ignore w = Done (segment_size ignore n w, w)) as El.
  { unfold get_send_data_length, send_buffer_size. run. unfold get_num_outstanding. rewrite Hn, Hi, Hmdl.
    rewrite (i32_small (get_max_allowed_to_send (ctx w))) by lia.
    assert ((if ignore then Z.min (Z.min (Z.of_nat (length (get_send_buffer (sock w))) - n) MSS) MAX_TCP_RECEIVE_WINDOW_SIZE
             else Z.min (Z.min (Z.min (Z.of_nat (length (get_send_buffer (sock w))) - n) MSS) MAX_TCP_RECEIVE_WINDOW_SIZE)
                        (get_max_allowed_to_send (ctx w) - n)) = segment_size ignore n w) as ->.
    { unfold segment_size, size_of, get_send_buffer, MSS, MAX_TCP_RECEIVE_WINDOW_SIZE, USHRT_MAX. destruct ignore; lia. }
    rewrite (proj2 (Z.ltb_lt _ _)) by assumption. reflexivity. }
  set (len := segment_size ignore n w) in *.
  assert (len ≤ MSS ∧ n + len ≤ size_of w) as [Hl1 Hl2] by (unfold len, segment_size; destruct ignore; lia).
  set (data := slice (send_buffer_ (sock w)) (Z.to_nat n) (Z.to_nat len)).
  assert (Z.of_nat (length data) = len) as Hlen.
  { unfold data. rewrite length_slice. unfold size_of in *. lia. }
  destruct (set_data_new_segment data p Hp) as (p' & Ed & Hdat & Hdl & Hh & Ho & Hsyn & Hfin & _ & H8 & Hcache).
  { apply slice_is_byte, Hbytes. }
  { unfold MSS in *. lia. }
  exists p'. split; [| split; [exact Hdat | split; [lia |]]; destruct (ns_flags _ Hp) as (Fs & Ff & _); split; try assumption;
                       [split; congruence | lia | rewrite Hdat; lia]].
  unfold send_one_packet. run. rewrite Ep. run. rewrite El. run. unfold send_buffer_size. run.
  rewrite (proj2 (Z.ltb_lt 0 _)) by (unfold size_of, get_send_buffer in *; lia). run.
  unfold get_num_outstanding. rewrite Hn, Hi. unfold get_send_buffer.
  rewrite buffer_bytes_Done by (unfold size_of in *; lia). run. fold data. rewrite Ed. run.
  rewrite Hdl, (proj2 (Z.ltb_lt 0 _)) by lia. reflexivity.
Qed.

(** Contexts that agree on everything but the sequence variables. *)
Definition same_control (c c' : cc_context) : Prop := c' = with_odc (fun _ => odc c') c.

Lemma same_control_refl c : same_control c c.
Proof. destruct c; reflexivity. Qed.

Lemma same_control_trans c c' c'' : same_control c c' → same_control c' c'' → same_control c c''.
Proof. unfold same_control. intros E E'. rewrite E', E. reflexivity. Qed.

Lemma same_control_max c c' :
  same_control c c' → get_mss c' = get_mss c → get_max_allowed_to_send c' = get_max_allowed_to_send c.
Proof. unfold get_max_allowed_to_send. intros E Hm. rewrite Hm, E. reflexivity. Qed.

Lemma sending_after_send base u n m s len p w :
  sending base u n m w → 0 ≤ len → n + len < 2 ^ 31 →
  sending base u (n + len) (Z.max m (u + (n + len))) (after_send s len p w).
Proof.
  intros [Ha Hb Hs Hm Hw] H0 H1. split; [exact Ha | exact Hb | exact Hs | exact Hm |].
  cbn [after_send ctx set_snd_nxt with_odc odc]. pose proof (window_order _ _ _ _ _ Hw).
  replace (u32 (Outstanding.get_snd_nxt (odc (ctx w)) + len)) with (seq_at base (u + (n + len))).
  - apply (window_set_snd_nxt base u n m); [exact Hw | lia | lia].
  - unfold Outstanding.get_snd_nxt. rewrite (window_nxt _ _ _ _ _ Hw), seq_at_add. f_equal. lia.
Qed.

Lemma can_send_more_eq base u n m w :
  sending base u n m w → windows_ok (ctx w) →
  can_send_more w = Done ((n <? size_of w) && (n <? get_max_allowed_to_send (ctx w)), w).
Proof.
  intros [_ _ _ _ Hw] _. unfold can_send_more, send_buffer_size. run. unfold get_num_outstanding.
  rewrite (window_outstanding _ _ _ _ _ Hw). pose proof (window_order _ _ _ _ _ Hw).
  rewrite i32_small by lia. do 2 f_equal. unfold size_of, get_send_buffer. f_equal.
  apply eq_true_iff_eq. lia.
Qed.

Lemma slice_app_slice (b : list Z) i j k :
  slice b i j ++ slice b (i + j) k = slice b i (j + k).
Proof.
  unfold slice. rewrite <- drop_drop, <- (take_drop j (take (j + k) (drop i b))).
  rewrite take_take, Nat.min_l by lia. f_equal. rewrite skipn_firstn_comm. f_equal. lia.
Qed.

(** What [send_packets] may send up to. *)
Definition send_limit (n : Z) (w : env cc_context) : Z :=
  Z.max n (Z.min (size_of w) (get_max_allowed_to_send (ctx w))).

Lemma send_packets_loop_spec base u s fuel : ∀ n m w,
  sending base u n m w → windows_ok (ctx w) → Z.max 0 (size_of w - n) < Z.of_nat fuel →
  ∃ ps w', send_packets_loop fuel s w = Done (tt, w') ∧
    sending base u (send_limit n w) (Z.max m (u + send_limit n w)) w' ∧
    sock w' = sock w ∧ same_control (ctx w) (ctx w') ∧
    io w' = add_trace (map (fun p => Enqueue (SendPacketEvent s p)) ps) (io w) ∧
    concat (map data_of ps) = slice (send_buffer_ (sock w)) (Z.to_nat n) (Z.to_nat (send_limit n w - n)) ∧
    Forall data_segment ps.
Proof.
  induction fuel as [|fuel IH]; intros n m w Hs Hok Hfuel; [lia |].
  pose proof (window_order _ _ _ _ _ (sending_window _ _ _ _ _ Hs)) as Hord.
  cbn [send_packets_loop]. run. rewrite (can_send_more_eq base u n m w Hs Hok).
  destruct ((n <? size_of w) && (n <? get_max_allowed_to_send (ctx w))) eqn:E.
  2: { exists [], w. assert (send_limit n w = n) as Hlim.
       { apply andb_false_iff in E. rewrite !Z.ltb_ge in E. unfold send_limit. lia. }
       rewrite Hlim, Z.sub_diag. split; [reflexivity |].
       split; [rewrite Z.max_l by lia; exact Hs |]. split; [reflexivity |]. split; [apply same_control_refl |].
       split; [rewrite add_trace_nil; reflexivity |]. split; [reflexivity | constructor]. }
  bool_to_prop. set (len := segment_size false n w) in *.
  assert (0 < len ∧ len ≤ MSS ∧ n + len ≤ send_limit n w) as (Hpos & Hmss & Hlim)
    by (unfold len, segment_size, send_limit, MSS; lia).
  destruct (send_one_packet_spec base u n m s false w Hs Hok Hpos) as (p & Ep & Hdat & Hlen & Hseg). fold len in Ep, Hdat, Hlen.
  run. rewrite Ep.
  assert (n + len < 2 ^ 31) as H31.
  { pose proof (sending_size _ _ _ _ _ Hs). unfold send_limit, size_of, TCP_SOCKET_MAX_BUFFER_SIZE in *. lia. }
  pose proof (sending_after_send base u n m s len p w Hs ltac:(lia) H31) as Hs1.
  assert (same_control (ctx w) (ctx (after_send s len p w))) as Hc1 by reflexivity.
  assert (get_max_allowed_to_send (ctx (after_send s len p w)) = get_max_allowed_to_send (ctx w)) as Hmax
    by (apply same_control_max; [exact Hc1 | reflexivity]).
  assert (send_limit (n + len) (after_send s len p w) = send_limit n w) as Hlimit.
  { revert Hlim. unfold send_limit. rewrite Hmax. unfold size_of. cbn [after_send sock]. lia. }
  destruct (IH (n + len) _ _ Hs1 Hok) as (ps & w' & E' & Hs' & Hsock & Hctl & Hio & Hcat & Hall).
  { unfold size_of in *. cbn [after_send sock] in *. lia. }
  rewrite Hlimit in *. exists (p :: ps), w'. split; [exact E' |].
  split; [replace (Z.max m (u + send_limit n w))
            with (Z.max (Z.max m (u + (n + len))) (u + send_limit n w)) by lia; exact Hs' |].
  split; [exact Hsock |]. split; [exact (same_control_trans _ _ _ Hc1 Hctl) |].
  split; [rewrite Hio; apply add_trace_add |]. split; [| constructor; [exact Hseg | exact Hall]].
  cbn [map concat]. rewrite Hdat, Hcat. cbn [after_send sock].
  rewrite (Z2Nat.inj_add n len) by lia. rewrite slice_app_slice. f_equal. lia.
Qed.

Lemma send_packets_ok base u n m s w :
  sending base u n m w → windows_ok (ctx w) →
  ∃ ps w', send_packets s w = Done (tt, w') ∧
    sending base u (send_limit n w) (Z.max m (u + send_limit n w)) w' ∧
    sock w' = sock w ∧ same_control (ctx w) (ctx w') ∧
    io w' = add_trace (map (fun p => Enqueue (SendPacketEvent s p)) ps) (io w) ∧
    concat (map data_of ps) = slice (send_buffer_ (sock w)) (Z.to_nat n) (Z.to_nat (send_limit n w - n)) ∧
    Forall data_segment ps.
Proof.
  intros Hs Hok. unfold send_packets. run. apply send_packets_loop_spec; [exact Hs | exact Hok |].
  pose proof (window_order _ _ _ _ _ (sending_window _ _ _ _ _ Hs)). unfold size_of, get_send_buffer. lia.
Qed.

(** C5: [send_packets] sends the window. It returns; the segments it queues carry,
    in order and without gap or overlap, exactly the send buffer's bytes from the first
    unsent one up to the smaller of the buffer's end and what the windows allow, each of one
    to 1448 bytes; SND.NXT moves over exactly those bytes and nothing else changes. *)
Theorem send_packets_spec base u n m s w :
  sending base u n m w → windows_ok (ctx w) →
  ∃ ps w', send_packets s w = Done (tt, w') ∧
    concat (map data_of ps) = slice (send_buffer_ (sock w)) (Z.to_nat n) (Z.to_nat (send_limit n w - n)) ∧
    Forall (fun p => 0 < get_data_length_bytes p ≤ MSS) ps ∧
    trace (io w') = trace (io w) ++ map (fun p => Enqueue (SendPacketEvent s p)) ps ∧
    window base u (send_limit n w) (Z.max m (u + send_limit n w)) (odc (ctx w')) ∧
    get_num_outstanding (ctx w') = send_limit n w ∧ same_control (ctx w) (ctx w') ∧ sock w' = sock w.
Proof.
  intros Hs Hok. destruct (send_packets_ok base u n m s w Hs Hok) as (ps & w' & E & Hs' & Hsock & Hctl & Hio & Hcat & Hall).
  exists ps, w'. split; [exact E |]. split; [exact Hcat |].
  split; [eapply Forall_impl; [exact Hall | exact ds_length] |]. split; [rewrite Hio; reflexivity |].
  pose proof (sending_window _ _ _ _ _ Hs') as Hw'. split; [exact Hw' |].
  split; [apply (window_outstanding _ _ _ _ _ Hw') | split; assumption].
Qed.

(** ** The congestion window *)

(** At least one segment and far from 32 bits; at most 65535 in slow start. *)
Record cc_inv (c : cc_context) : Prop := {
  inv_mss : get_mss c = MSS;
  inv_cwnd : MSS ≤ cwnd_ c ≤ MSS * MSS + MSS;
  inv_ssthreshold : 0 ≤ ssthreshold_ c ≤ USHRT_MAX;
  inv_slow_start : current_ c = SlowStart → cwnd_ c ≤ USHRT_MAX }.

Lemma resend_fields c :
  current_ (resend c) = SlowStart ∧ cwnd_ (resend c) = u32 (get_mss c) ∧ get_mss (resend c) = get_mss c ∧
  ssthreshold_ (resend c) = u16 (Z.max (get_num_outstanding c / 2) (get_mss c * 2)).
Proof. unfold resend. destruct (current_ c) eqn:E; repeat split; try reflexivity. exact E. Qed.

Lemma cc_inv_resend c : cc_inv c → cc_inv (resend c).
Proof.
  intros [Hm _ _ _]. destruct (resend_fields c) as (E1 & E2 & E3 & E4). rewrite Hm in E2, E3. unfold MSS in *.
  split; rewrite ?E1, ?E2, ?E3, ?E4; unfold MSS; [reflexivity | word_lia | word_lia | intros _; word_lia].
Qed.

Lemma cc_inv_update_cwnd c : cc_inv c → cc_inv (update_cwnd c).
Proof.
  intros [Hm Hc Ht Hs]. unfold update_cwnd, MSS in *. destruct (current_ c) eqn:E.
  - specialize (Hs eq_refl). unfold USHRT_MAX in *.
    assert (cwnd_ (set_cwnd (cwnd_ c + get_mss c) c) = cwnd_ c + 1448) as Hw.
    { cbn [set_cwnd cwnd_]. rewrite Hm. apply u32_small. word_lia. }
    destruct (_ <? _) eqn:Eth; bool_to_prop.
    + split; cbn [set_state state_enter with_current get_mss odc cwnd_ ssthreshold_ current_]; unfold MSS;
        [exact Hm | rewrite Hw; word_lia | exact Ht | discriminate].
    + split; unfold MSS; [exact Hm | rewrite Hw; word_lia | exact Ht | intros _].
      cbn [set_cwnd ssthreshold_] in Eth. unfold USHRT_MAX. lia.
  - assert (0 ≤ 2096704 / cwnd_ c ≤ 1448) as Hd.
    { split; [apply Z.div_pos; lia |]. apply Z.div_le_upper_bound; lia. }
    assert (cwnd_ c > 2096704 → 2096704 / cwnd_ c = 0) as Hz by (intros; apply Z.div_small; lia).
    split; unfold MSS; cbn [set_cwnd get_mss odc cwnd_ ssthreshold_ current_]; [exact Hm | | exact Ht | rewrite E; discriminate].
    change (Outstanding.get_mss (odc c)) with (get_mss c). rewrite Hm.
    replace (u32 (1448 * 1448)) with 2096704 by reflexivity.
    rewrite u32_small by word_lia. word_lia.
Qed.

Lemma cc_inv_ext c c' :
  cc_inv c → get_mss c' = get_mss c → cwnd_ c' = cwnd_ c → ssthreshold_ c' = ssthreshold_ c → current_ c' = current_ c → cc_inv c'.
Proof. intros [Hm Hc Ht Hs] E1 E2 E3 E4. split; [congruence | rewrite E2; exact Hc | rewrite E3; exact Ht | rewrite E2, E4; exact Hs]. Qed.

Lemma new_cc_inv iss :
  ∃ c, new_TCPTahoeCongestionControlContext iss = Done c ∧ cc_inv c ∧ current_ c = SlowStart ∧ cwnd_ c = 4380.
Proof.
  unfold new_TCPTahoeCongestionControlContext. rewrite new_OutstandingDataContext_eq.
  cbn [mbind outcome_bind mret outcome_ret]. eexists. split; [reflexivity |]. split; [| split; reflexivity].
  split; vm_compute; [reflexivity | split; discriminate | split; discriminate | intros _; discriminate].
Qed.

(** A step of the congestion window: an acknowledgement of new data, or a loss. *)
Inductive cwnd_step : cc_context → cc_context → Prop :=
| step_ack c : cwnd_step c (update_cwnd c)
| step_loss c : cwnd_step c (resend c).

Inductive cwnd_reachable : cc_context → Prop :=
| reach_new iss c : new_TCPTahoeCongestionControlContext iss = Done c → cwnd_reachable c
| reach_step c c' : cwnd_reachable c → cwnd_step c c' → cwnd_reachable c'
| reach_other c c' : cwnd_reachable c → get_mss c' = get_mss c → cwnd_ c' = cwnd_ c → ssthreshold_ c' = ssthreshold_ c →
    current_ c' = current_ c → cwnd_reachable c'.

(** C16: through any sequence of acknowledgements and losses the congestion window stays
    between one segment and 1448 * 1449 bytes, so the 32-bit addition never wraps and the
    division of congestion avoidance never divides by zero; in slow start it never exceeds
    65535, and slow start hands over exactly when the window passes the threshold. *)
Theorem congestion_window_bounds c :
  cwnd_reachable c →
  cc_inv c ∧
  (current_ c = SlowStart →
     let c' := update_cwnd c in
     cwnd_ c' = cwnd_ c + MSS ∧ (current_ c' = CongestionAvoidance ↔ ssthreshold_ c < cwnd_ c + MSS)) ∧
  (current_ c = CongestionAvoidance →
     let c' := update_cwnd c in
     cwnd_ c' = cwnd_ c + MSS * MSS / cwnd_ c ∧ current_ c' = CongestionAvoidance) ∧
  (let c' := resend c in current_ c' = SlowStart ∧ cwnd_ c' = MSS).
Proof.
  intros Hr. assert (cc_inv c) as Hinv.
  { induction Hr as [iss c E | c c' _ IH Hstep | c c' _ IH E1 E2 E3 E4].
    - destruct (new_cc_inv iss) as (c0 & E' & H & _). congruence.
    - destruct Hstep; [apply cc_inv_update_cwnd | apply cc_inv_resend]; exact IH.
    - eapply cc_inv_ext; eauto. }
  split; [exact Hinv |]. destruct Hinv as [Hm Hc Ht Hs]. unfold MSS, USHRT_MAX in *.
  split; [| split].
  - intros E. specialize (Hs E). unfold update_cwnd. rewrite E. cbn zeta.
    assert (cwnd_ (set_cwnd (cwnd_ c + get_mss c) c) = cwnd_ c + 1448) as Hw.
    { cbn [set_cwnd cwnd_]. rewrite Hm. apply u32_small. word_lia. }
    rewrite Hw. change (ssthreshold_ (set_cwnd (cwnd_ c + get_mss c) c)) with (ssthreshold_ c).
    destruct (_ <? _) eqn:Eth; bool_to_prop.
    + split; [exact Hw |]. split; [lia | reflexivity].
    + split; [exact Hw |]. split; [intros H; change (current_ c = CongestionAvoidance) in H; congruence | lia].
  - intros E. unfold update_cwnd. rewrite E. cbn zeta. cbn [set_cwnd cwnd_ current_]. split; [| exact E].
    rewrite Hm. replace (u32 (1448 * 1448)) with 2096704 by reflexivity.
    assert (0 ≤ 2096704 / cwnd_ c ≤ 1448) as Hd.
    { split; [apply Z.div_pos; lia |]. apply Z.div_le_upper_bound; lia. }
    change (1448 * 1448) with 2096704. apply u32_small. word_lia.
  - destruct (resend_fields c) as (E1 & E2 & _ & _). cbn zeta. rewrite E1, E2, Hm. split; reflexivity.
Qed.

(** ** Acknowledgements *)

Lemma new_timeout_Done {C} s secs (w : env C) :
  0 ≤ secs →
  new_timeout s secs 0 w
  = Done (next_pointer (io w),
          {| ctx := ctx w; sock := sock w;
             io := add_trace [Dispatch (TimeoutEvent (next_pointer (io w)) s secs 0)]
                     {| next_pointer := S (next_pointer (io w)); now := now (io w); trace := trace (io w) |} |}).
Proof. intros H. unfold new_timeout. run. rewrite (proj2 (Z.leb_le 0 secs)) by assumption. reflexivity. Qed.

(** The context after the acknowledgement was taken in, before anything is sent. *)
Definition take_ack (p : tcp_packet) (c : cc_context) : cc_context :=
  let right := between_equal_right (Outstanding.get_snd_una (odc c)) (get_tcp_ack_number p) (Outstanding.get_snd_max (odc c)) in
  let c := set_snd_una (get_tcp_ack_number p) c in
  let c := if less_than (Outstanding.get_snd_nxt (odc c)) (Outstanding.get_snd_una (odc c))
           then set_snd_nxt (Outstanding.get_snd_una (odc c)) c else c in
  let c := update_send_window p c in
  if right && data_sent_ c then update_cwnd c else c.

Lemma update_send_window_odc p c : odc (update_send_window p c) = odc c.
Proof. unfold update_send_window. destruct (_ || _); reflexivity. Qed.

Lemma update_cwnd_odc c : odc (update_cwnd c) = odc c.
Proof. unfold update_cwnd. destruct (current_ c); [destruct (_ <? _) |]; reflexivity. Qed.

Lemma take_ack_odc base u n m p c a :
  window base u n m (odc c) → get_tcp_ack_number p = seq_at base a → u ≤ a ≤ m → m < u + 2 ^ 30 →
  window base a (Z.max (u + n) a - a) m (odc (take_ack p c)).
Proof.
  intros Hw Ha Hr Hm. unfold take_ack. rewrite Ha.
  assert (∀ b c, odc (if (b : bool) then update_cwnd c else c) = odc c) as E1 by (intros [] ?; [apply update_cwnd_odc | reflexivity]).
  rewrite E1, update_send_window_odc. pose proof (window_order _ _ _ _ _ Hw).
  cbn [set_snd_una with_odc odc]. unfold Outstanding.get_snd_nxt, Outstanding.get_snd_una.
  cbn [Outstanding.set_snd_una snd_nxt_ snd_una_].
  rewrite (window_nxt _ _ _ _ _ Hw), seq_at_less_than by lia.
  destruct (u + n <? a) eqn:E; bool_to_prop.
  - cbn [set_snd_nxt with_odc odc]. split; cbn [Outstanding.set_snd_nxt Outstanding.set_snd_una snd_una_ snd_nxt_ snd_max_].
    + reflexivity.
    + rewrite u32_small by apply seq_at_range. f_equal. lia.
    + change (snd_max_ (odc (set_snd_una (seq_at base a) c))) with (snd_max_ (odc c)).
      rewrite (window_max _ _ _ _ _ Hw), u32_small, seq_at_less_than by (apply seq_at_range || lia).
      destruct (m <? a) eqn:E2; bool_to_prop; [lia | reflexivity].
    + lia.
  - replace (Z.max (u + n) a - a) with (u + n - a) by lia. apply (window_set_snd_una base u n m); [exact Hw | lia].
Qed.

Lemma take_ack_mss p c : get_mss (take_ack p c) = get_mss c.
Proof.
  unfold take_ack, get_mss.
  assert (∀ b c, odc (if (b : bool) then update_cwnd c else c) = odc c) as E1 by (intros [] ?; [apply update_cwnd_odc | reflexivity]).
  rewrite E1, update_send_window_odc. destruct (less_than _ _); reflexivity.
Qed.

Lemma take_ack_windows p c : windows_ok c → windows_ok (take_ack p c).
Proof.
  intros [Hw Hc]. unfold take_ack.
  assert (∀ c, windows_ok c → windows_ok (update_cwnd c)) as U.
  { intros c' [? ?]. unfold update_cwnd. destruct (current_ c'); [destruct (_ <? _) |]; split; cbn; try assumption; apply u32_range. }
  assert (∀ p c, windows_ok c → windows_ok (update_send_window p c)) as S.
  { intros p' c' [? ?]. unfold update_send_window. destruct (_ || _); split; cbn; try assumption; apply u16_range. }
  destruct (_ && _); [apply U |]; apply S; destruct (less_than _ _); split; assumption.
Qed.

Lemma take_ack_duration p c :
  probe_timer_duration_ (take_ack p c) = probe_timer_duration_ c ∧ probe_timer_ (take_ack p c) = probe_timer_ c.
Proof.
  unfold take_ack.
  assert (∀ c, probe_timer_duration_ (update_cwnd c) = probe_timer_duration_ c ∧ probe_timer_ (update_cwnd c) = probe_timer_ c) as U.
  { intros c'. unfold update_cwnd. destruct (current_ c'); [destruct (_ <? _) |]; split; reflexivity. }
  assert (∀ p c, probe_timer_duration_ (update_send_window p c) = probe_timer_duration_ c
                 ∧ probe_timer_ (update_send_window p c) = probe_timer_ c) as S.
  { intros p' c'. unfold update_send_window. destruct (_ || _); split; reflexivity. }
  destruct (_ && _); rewrite ?(proj1 (U _)), ?(proj2 (U _)), (proj1 (S _ _)), (proj2 (S _ _));
    destruct (less_than _ _); split; reflexivity.
Qed.

(** An acknowledgement moves the send window and nothing else can. An ACK for position
    [a] between SND.UNA and SND.MAX makes SND.UNA [a], never takes SND.NXT back, and leaves
    the handler, whichever timer and sending branch it takes, with a consistent window; any
    other segment leaves context, socket and queue untouched. *)
Theorem receive_packet_window base u n m s p w a :
  sending base u n m w → windows_ok (ctx w) → 0 ≤ probe_timer_duration_ (ctx w) →
  get_tcp_ack_number p = seq_at base a → u - 2 ^ 30 < a < u + 2 ^ 30 → m < u + 2 ^ 30 →
  ∃ w', state_receive_packet s p w = Done (tt, w') ∧ sock w' = sock w ∧
    if is_tcp_ack p && (u <=? a) && (a <=? m)
    then ∃ n' m', window base a n' m' (odc (ctx w')) ∧ u + n ≤ a + n' ∧ m ≤ m'
    else w' = w.
Proof.
  intros Hs Hok Hdur Ha Hr Hm. pose proof (sending_window _ _ _ _ _ Hs) as Hw.
  pose proof (window_order _ _ _ _ _ Hw) as Hord.
  unfold state_receive_packet. run. unfold Outstanding.get_snd_una at 1, Outstanding.get_snd_max at 1.
  unfold between_equal at 1.
  rewrite (window_una _ _ _ _ _ Hw), (window_max _ _ _ _ _ Hw), Ha. autorewrite with seqnum.
  rewrite <- andb_assoc. destruct (is_tcp_ack p && ((u <=? a) && (a <=? m))) eqn:E.
  2: { exists w. auto. }
  bool_to_prop. run.
  set (wa := {| ctx := take_ack p (ctx w); sock := sock w; io := io w |}).
  pose proof (take_ack_odc base u n m p (ctx w) a Hw Ha ltac:(lia) Hm) as Hwa.
  set (n1 := Z.max (u + n) a - a) in *.
  assert (sending base a n1 m wa) as Hsa.
  { destruct Hs. split; [assumption.. | |]; cbn [ctx wa]; [rewrite take_ack_mss; assumption | exact Hwa]. }
  pose proof (take_ack_windows p _ Hok) as Hoka. destruct (take_ack_duration p (ctx w)) as [Ed Ep].
  match goal with |- context [get_max_allowed_to_send ?x <=? _] =>
    assert (x = take_ack p (ctx w)) as -> end.
  { unfold take_ack, Outstanding.get_snd_una, Outstanding.get_snd_max.
    rewrite (window_una _ _ _ _ _ Hw), (window_max _ _ _ _ _ Hw), Ha. reflexivity. }
  fold wa. destruct (_ <=? _).
  - rewrite Ep. destruct (probe_timer_ (ctx w)).
    + run. exists wa. split; [reflexivity |]. split; [reflexivity |]. exists n1, m. split; [exact Hwa | lia].
    + run. rewrite new_timeout_Done by (rewrite Ed; exact Hdur). run. eexists. split; [reflexivity |].
      split; [reflexivity |]. exists n1, m. split; [exact Hwa | lia].
  - rewrite Ep.
    assert (∀ w1, sending base a n1 m w1 → windows_ok (ctx w1) → sock w1 = sock w →
      ∃ w', send_packets s w1 = Done (tt, w') ∧ sock w' = sock w ∧
            ∃ n' m', window base a n' m' (odc (ctx w')) ∧ u + n ≤ a + n' ∧ m ≤ m') as Send.
    { intros w1 Hs1 Hok1 Hsk1. destruct (send_packets_ok base a n1 m s w1 Hs1 Hok1) as (ps & w' & E' & Hs' & Hsk & _).
      exists w'. split; [exact E' |]. split; [congruence |]. eexists _, _. split; [apply (sending_window _ _ _ _ _ Hs') |].
      unfold send_limit. lia. }
    destruct (probe_timer_ (ctx w)); run.
    + apply Send; [destruct Hsa; split; assumption | exact Hoka | reflexivity].
    + apply Send; [exact Hsa | exact Hoka | reflexivity].
Qed.

(** ** Retransmission *)

Lemma set_flag_new_segment f b p :
  new_segment p → field_ok MTU f = true →
  forallb (fun g => disjoint g f) [f_ihl; f_doff; f_tot_len] = true →
  headers_ok (set_flag f b p) ∧ get_tcp_data_offset (set_flag f b p) = 8 ∧ data_set_ (set_flag f b p) = false ∧
  options_ (set_flag f b p) = [timestamp_option].
Proof.
  intros [[Hwf Hi Hd] H8 Hdat Ho Ht _ _] Hf Hdis. cbn [forallb] in Hdis.
  apply andb_true_iff in Hdis as [D1 Hdis]. apply andb_true_iff in Hdis as [D2 _].
  assert (get_tcp f_doff (set_flag f b p) = 8) as Hd8 by (unfold set_flag; rewrite get_tcp_set_other by assumption; exact H8).
  split; [split; [apply wf_set_tcp; assumption | | unfold get_tcp_data_offset; lia] | auto].
  change (get_tcp f_ihl (set_flag f b p) = 5). unfold set_flag. rewrite get_tcp_set_other by assumption. exact Hi.
Qed.

(** A SYN or FIN without data. *)
Lemma control_packet f p :
  new_segment p → f = f_syn ∨ f = f_fin →
  ∃ p', set_data [] (set_flag f true p) = Done p' ∧ get_data_length_bytes p' = 0 ∧ data_of p' = [] ∧
        is_tcp_syn p' = bool_decide (f = f_syn) ∧ is_tcp_fin p' = bool_decide (f = f_fin).
Proof.
  intros Hp Hf.
  assert (field_ok MTU f = true ∧ forallb (fun g => disjoint g f) [f_ihl; f_doff; f_tot_len] = true) as [Hok Hdis]
    by (destruct Hf as [-> | ->]; split; reflexivity).
  destruct (set_flag_new_segment f true p Hp Hok Hdis) as (Hh & H8 & Hd & _).
  destruct (set_data_full [] _ Hh Hd (Forall_nil_2 _)) as (p' & E & _ & Hdat & Hlen & Hfields & _); [apply Nat.le_0_l |].
  exists p'. split; [exact E |]. split; [exact Hlen |]. split; [exact Hdat |].
  destruct (ns_flags _ Hp) as (Hsyn & Hfin & _). unfold is_tcp_syn, is_tcp_fin, is_tcp in *.
  rewrite !Hfields by set_solver. pose proof (headers_wf _ (ns_headers _ Hp)) as Hwf. unfold set_flag.
  destruct Hf as [-> | ->].
  - rewrite get_tcp_set_same, get_tcp_set_other by (reflexivity || assumption). split; [reflexivity | exact Hfin].
  - rewrite get_tcp_set_same, get_tcp_set_other by (reflexivity || assumption). split; [exact Hsyn | reflexivity].
Qed.

(** What a retransmission takes from the send buffer. *)
Inductive retransmission := Syn | Fin | Data (len : Z).

Definition retransmission_of (b : list Z) : retransmission :=
  if byte_is b 0 SYN_BYTE then Syn
  else if byte_is b 0 FIN_BYTE then Fin
  else Data (Z.min (Z.of_nat (length b)) MSS - (if byte_is b (length b - 1) FIN_BYTE then 1 else 0)).

Definition sequence_length (r : retransmission) : Z := match r with Data len => len | _ => 1 end.

Definition carries_retransmission (b : list Z) (r : retransmission) (p : tcp_packet) : Prop :=
  match r with
  | Syn => is_tcp_syn p = true ∧ is_tcp_fin p = false ∧ data_of p = []
  | Fin => is_tcp_syn p = false ∧ is_tcp_fin p = true ∧ data_of p = []
  | Data len => is_tcp_syn p = false ∧ is_tcp_fin p = false ∧ data_of p = slice b 0 (Z.to_nat len)
  end.

Lemma data_retransmission_pos b len : b ≠ [] → retransmission_of b = Data len → 0 < len ≤ Z.min (Z.of_nat (length b)) MSS.
Proof.
  unfold retransmission_of. intros Hb. destruct (byte_is b 0 SYN_BYTE); [discriminate |].
  destruct (byte_is b 0 FIN_BYTE) eqn:E0; [discriminate |]. intros [= <-]. unfold MSS.
  destruct b as [|x b]; [congruence |]. destruct b as [|y b].
  - cbn [length Nat.sub]. rewrite E0. lia.
  - assert (Z.of_nat (length (x :: y :: b)) = 2 + Z.of_nat (length b)) as -> by (cbn [length]; lia).
    clear E0. destruct (byte_is _ _ FIN_BYTE); lia.
Qed.

(** The context after a loss: SND.NXT is back at SND.UNA. *)
Definition rewound (c : cc_context) : cc_context :=
  set_snd_nxt (Outstanding.get_snd_una (odc (resend c))) (resend c).

Lemma resend_odc c : odc (resend c) = odc c ∧ snd_wnd_ (resend c) = snd_wnd_ c.
Proof. unfold resend. destruct (current_ c); split; reflexivity. Qed.

Lemma rewound_window base u n m c :
  window base u n m (odc c) → m < u + 2 ^ 30 → window base u 0 m (odc (rewound c)).
Proof.
  intros Hw Hm. unfold rewound. cbn [set_snd_nxt with_odc odc]. rewrite (proj1 (resend_odc c)).
  pose proof (window_order _ _ _ _ _ Hw). unfold Outstanding.get_snd_una. rewrite (window_una _ _ _ _ _ Hw).
  rewrite u32_small by apply seq_at_range. replace m with (Z.max m (u + 0)) by lia.
  replace (seq_at base u) with (seq_at base (u + 0)) by (f_equal; lia).
  apply (window_set_snd_nxt base u n m); [exact Hw | lia | lia].
Qed.

Lemma rewound_max_allowed c :
  get_mss c = MSS → 0 ≤ snd_wnd_ c → get_max_allowed_to_send (rewound c) = (if MSS <=? snd_wnd_ c then MSS else 0).
Proof.
  intros Hm Hw. unfold get_max_allowed_to_send, rewound.
  change (snd_wnd_ (set_snd_nxt (Outstanding.get_snd_una (odc (resend c))) (resend c))) with (snd_wnd_ (resend c)).
  change (cwnd_ (set_snd_nxt (Outstanding.get_snd_una (odc (resend c))) (resend c))) with (cwnd_ (resend c)).
  change (get_mss (set_snd_nxt (Outstanding.get_snd_una (odc (resend c))) (resend c))) with (get_mss (resend c)).
  destruct (resend_fields c) as (_ & -> & -> & _). rewrite (proj2 (resend_odc c)), Hm. unfold MSS.
  replace (u32 1448) with 1448 by reflexivity. destruct (1448 <=? snd_wnd_ c) eqn:E; bool_to_prop.
  - rewrite Z.min_r by lia. reflexivity.
  - rewrite Z.min_l, Z.mod_small by lia. lia.
Qed.

(** C17: a retransmission goes back to SND.UNA: it queues one segment that carries the
    start of the send buffer - the control bit a leading SYN or FIN byte stands for, else up
    to one full segment of data without a trailing FIN byte - moves SND.NXT right behind it,
    and leaves slow start with a window of one segment. When data must be resent while the
    peer's window is below one segment, the assertion in [get_resend_data_length] stops the
    program instead. *)
Theorem resend_packet_spec base u n m s w :
  sending base u n m w → windows_ok (ctx w) → m < u + 2 ^ 30 → send_buffer_ (sock w) ≠ [] →
  let b := send_buffer_ (sock w) in let r := retransmission_of b in
  match r with
  | Data _ => snd_wnd_ (ctx w) < MSS → state_resend_packet s w = Fault AssertionFailure
  | _ => True
  end ∧
  (match r with Data _ => MSS ≤ snd_wnd_ (ctx w) | _ => True end →
   ∃ p w', state_resend_packet s w = Done (tt, w') ∧ carries_retransmission b r p ∧
     io w' = add_trace [Enqueue (SendPacketEvent s p)] (io w) ∧ sock w' = sock w ∧
     window base u (sequence_length r) (Z.max m (u + sequence_length r)) (odc (ctx w')) ∧
     current_ (ctx w') = SlowStart ∧ cwnd_ (ctx w') = MSS).
Proof.
  intros [[a Ha] Hbytes Hsize Hmss Hw] [Hwnd Hcwnd] Hm Hne b r. fold b in Hbytes, Hsize, Hne.
  pose proof (rewound_window base u n m (ctx w) Hw Hm) as Hw0.
  pose proof (rewound_max_allowed (ctx w) Hmss (proj1 Hwnd)) as Hmax.
  set (w0 := {| ctx := rewound (ctx w); sock := sock w; io := io w |}).
  assert (state_resend_packet s w = resend_data s w0) as E0 by reflexivity. rewrite E0.
  destruct (socket_packet_spec w0 a Ha) as (p & Ep & Hp). pose proof (max_data_length_new p Hp) as Hmdl.
  pose proof (window_outstanding _ _ _ _ _ Hw0) as Hn0.
  assert (Nat.eqb (length b) 0 = false) as Hlen0 by (destruct b; [congruence | reflexivity]).
  assert (0 < Z.of_nat (length b)) as Hlenb by (destruct b; [congruence | cbn; lia]).
  destruct (resend_fields (ctx w)) as (Hcur & Hcw & _ & _). rewrite Hmss in Hcw.
  assert (∀ k, 0 < k ≤ MSS →
    window base u k (Z.max m (u + k)) (odc (set_snd_nxt (Outstanding.get_snd_una (odc (rewound (ctx w))) + k) (rewound (ctx w))))) as Hwin.
  { intros k Hk. cbn [set_snd_nxt with_odc odc]. unfold Outstanding.get_snd_una at 1. unfold MSS in Hk.
    pose proof (window_order _ _ _ _ _ Hw).
    replace (u32 (snd_una_ (odc (rewound (ctx w))) + k)) with (seq_at base (u + k))
      by (rewrite (window_una _ _ _ _ _ Hw0), seq_at_add; reflexivity).
    apply (window_set_snd_nxt base u 0 m); [exact Hw0 | lia | lia]. }
  unfold resend_data. run. rewrite Ep. run. unfold get_send_buffer. change (send_buffer_ (sock w0)) with b. rewrite Hlen0. run.
  subst r. unfold retransmission_of, carries_retransmission. destruct (byte_is b 0 SYN_BYTE) eqn:Esyn; [| destruct (byte_is b 0 FIN_BYTE) eqn:Efin].
  - split; [exact I |]. intros _. destruct (control_packet f_syn p Hp (or_introl eq_refl)) as (p' & Ed & Hl & Hdat & Hs & Hf).
    change (set_tcp_syn true p) with (set_flag f_syn true p). run. rewrite Ed. run. rewrite Hs. cbn [bool_decide decide_rel orb].
    exists p'. eexists. split; [reflexivity |]. split; [auto |]. split; [reflexivity |]. split; [reflexivity |].
    split; [apply (Hwin 1); unfold MSS; lia | split; [exact Hcur | exact Hcw]].
  - split; [exact I |]. intros _. destruct (control_packet f_fin p Hp (or_intror eq_refl)) as (p' & Ed & Hl & Hdat & Hs & Hf).
    change (set_tcp_fin true p) with (set_flag f_fin true p). run. rewrite Ed. run. rewrite Hs, Hf. cbn [bool_decide decide_rel orb].
    exists p'. eexists. split; [reflexivity |]. split; [auto |]. split; [reflexivity |]. split; [reflexivity |].
    split; [apply (Hwin 1); unfold MSS; lia | split; [exact Hcur | exact Hcw]].
  - unfold get_resend_data_length, send_buffer_size. run. unfold get_send_buffer. change (send_buffer_ (sock w0)) with b.
    unfold get_num_outstanding. change (ctx w0) with (rewound (ctx w)). rewrite Hn0, Hmax, Hmdl.
    change (i32 0) with 0. unfold TCP_SOCKET_MAX_BUFFER_SIZE in Hsize. split.
    + intros Hsmall. rewrite (proj2 (Z.leb_gt _ _)) by assumption.
      rewrite (proj2 (Z.ltb_ge _ _)); [reflexivity |]. change (i32 0) with 0.
      unfold MSS, MAX_TCP_RECEIVE_WINDOW_SIZE, USHRT_MAX. lia.
    + intros Hbig. rewrite (proj2 (Z.leb_le _ _)) by assumption.
      replace (Z.min (Z.min (Z.of_nat (length b) - 0) MSS) (Z.min (i32 MSS) MAX_TCP_RECEIVE_WINDOW_SIZE))
        with (Z.min (Z.of_nat (length b)) MSS) by (change (i32 MSS) with 1448; unfold MSS, MAX_TCP_RECEIVE_WINDOW_SIZE, USHRT_MAX; lia).
      rewrite (proj2 (Z.ltb_lt _ _)) by (unfold MSS; lia). run.
      set (len := Z.min (Z.of_nat (length b)) MSS - (if byte_is b (length b - 1) FIN_BYTE then 1 else 0)).
      replace (if byte_is b (length b - 1) FIN_BYTE then Z.min (Z.of_nat (length b)) MSS - 1 else Z.min (Z.of_nat (length b)) MSS)
        with len by (unfold len; destruct (byte_is b (length b - 1) FIN_BYTE); lia).
      assert (0 < len ≤ Z.min (Z.of_nat (length b)) MSS) as Hpos.
      { apply (data_retransmission_pos b len Hne). unfold retransmission_of. rewrite Esyn, Efin. reflexivity. }
      rewrite buffer_bytes_Done by lia. run. change (Z.to_nat 0) with 0%nat.
      destruct (set_data_new_segment (slice b 0 (Z.to_nat len)) p Hp) as (p' & Ed & Hdat & Hl & _ & _ & Hs & Hf & _).
      { apply slice_is_byte, Hbytes. }
      { rewrite length_slice. unfold MSS in Hpos. lia. }
      assert (get_data_length_bytes p' = len) as Hl' by (rewrite Hl, length_slice; lia).
      rewrite Ed. run. rewrite Hl', (proj2 (Z.ltb_lt 0 _)) by lia. run.
      destruct (ns_flags _ Hp) as (Hns & Hnf & _). rewrite Hs, Hf, Hns, Hnf. cbn [orb]. rewrite Hl'.
      exists p'. eexists. split; [reflexivity |]. split; [rewrite Hs, Hf; auto |]. split; [reflexivity |]. split; [reflexivity |].
      split; [apply (Hwin len); lia | split; [exact Hcur | exact Hcw]].
Qed.

(** ** A concrete sender *)

Definition sample_context (snd_wnd : Z) : cc_context :=
  {| odc := {| iss_ := 1; mss_ := 1448; snd_nxt_ := 10; snd_una_ := 10; snd_max_ := 10 |}; current_ := SlowStart;
     snd_wnd_ := snd_wnd; snd_wnd1_ := 0; snd_wnd2_ := 0; cwnd_ := 4380; ssthreshold_ := USHRT_MAX;
     probe_timer_ := None; probe_timer_duration_ := 120; data_sent_ := true |}.

Definition sample_env (snd_wnd : Z) (buffer : list Z) : env cc_context :=
  {| ctx := sample_context snd_wnd;
     sock := with_buffers [] buffer (new_Socket 3 2 1 6 (address_port_of 16909060 80) (address_port_of 84281096 56));
     io := {| next_pointer := 100; now := 0; trace := [] |} |}.

Lemma sample_sending snd_wnd : sending 0 10 0 10 (sample_env snd_wnd [1; 2; 3]).
Proof.
  split.
  - eexists. reflexivity.
  - repeat constructor; unfold is_byte; lia.
  - vm_compute. discriminate.
  - reflexivity.
  - split; try reflexivity. lia.
Qed.

Lemma sample_windows_ok snd_wnd : 0 ≤ snd_wnd < 2 ^ 16 → windows_ok (ctx (sample_env snd_wnd [1; 2; 3])).
Proof. intros. split; [assumption | cbn; lia]. Qed.

Lemma send_packets_spec_witness :
  sending 0 10 0 10 (sample_env 65535 [1; 2; 3]) ∧
  ∃ ps w', send_packets 5 (sample_env 65535 [1; 2; 3]) = Done (tt, w') ∧ concat (map data_of ps) = [1; 2; 3].
Proof.
  split; [apply sample_sending |].
  destruct (send_packets_spec 0 10 0 10 5 (sample_env 65535 [1; 2; 3]) (sample_sending 65535)
    (sample_windows_ok 65535 ltac:(lia))) as (ps & w' & E & Hcat & _).
  exists ps, w'. split; [exact E |]. rewrite Hcat. vm_compute. reflexivity.
Defined.

Lemma congestion_window_bounds_witness :
  ∃ c, cwnd_reachable c ∧ cwnd_ c = 4380 + 1448 ∧ cwnd_ (resend c) = MSS.
Proof.
  destruct (new_cc_inv 1) as (c0 & E & H0 & H1 & H2).
  assert (cwnd_reachable c0) as R0 by exact (reach_new 1 c0 E).
  assert (cwnd_reachable (update_cwnd c0)) as R1 by exact (reach_step _ _ R0 (step_ack c0)).
  destruct (congestion_window_bounds c0 R0) as (_ & Hss & _). destruct (Hss H1) as (Hc & _).
  exists (update_cwnd c0). split; [exact R1 |]. split; [rewrite Hc, H2; reflexivity |].
  destruct (congestion_window_bounds (update_cwnd c0) R1) as (_ & _ & _ & _ & Hr). exact Hr.
Defined.

Definition sample_ack : tcp_packet := set_tcp_ack true (set_tcp_ack_number 10 zero_tcp_packet).

Lemma receive_packet_window_witness :
  sending 0 10 0 10 (sample_env 65535 [1; 2; 3]) ∧ is_tcp_ack sample_ack = true ∧
  ∃ w', state_receive_packet 5 sample_ack (sample_env 65535 [1; 2; 3]) = Done (tt, w') ∧
    ∃ n' m', window 0 10 n' m' (odc (ctx w')).
Proof.
  split; [apply sample_sending |]. split; [vm_compute; reflexivity |].
  destruct (receive_packet_window 0 10 0 10 5 sample_ack (sample_env 65535 [1; 2; 3]) 10 (sample_sending 65535)
    (sample_windows_ok 65535 ltac:(lia))) as (w' & E & _ & H).
  - cbn. lia.
  - vm_compute. reflexivity.
  - lia.
  - lia.
  - exists w'. split; [exact E |].
    assert (is_tcp_ack sample_ack && (10 <=? 10) && (10 <=? 10) = true) as A by (vm_compute; reflexivity).
    rewrite A in H. destruct H as (n' & m' & H & _). exists n', m'. exact H.
Defined.

Lemma resend_packet_spec_witness :
  ∃ p w', state_resend_packet 5 (sample_env 65535 [1; 2; 3]) = Done (tt, w') ∧ data_of p = [1; 2; 3] ∧
    trace (io w') = [Enqueue (SendPacketEvent 5 p)].
Proof.
  destruct (resend_packet_spec 0 10 0 10 5 (sample_env 65535 [1; 2; 3]) (sample_sending 65535)
    (sample_windows_ok 65535 ltac:(lia))) as [_ H]; [lia | discriminate |].
  destruct H as (p & w' & E & (_ & _ & Hd) & Hio & _); [vm_compute; discriminate |].
  exists p, w'. split; [exact E |]. split; [rewrite Hd; reflexivity | rewrite Hio; reflexivity].
Defined.

(** ** Behaviour the code does not intend *)

(** User data that starts with byte 22 is resent as a SYN without data. *)
Lemma resend_data_as_syn :
  retransmission_of [22; 1; 2] = Syn ∧ retransmission_of [23; 1; 2] = Fin ∧ retransmission_of [1; 2; 23] = Data 2.
Proof. repeat split; vm_compute; reflexivity. Qed.

(** A probe timer that fires with nothing left to send stops the program. *)
Lemma probe_without_data base u n m s t w :
  sending base u n m w → windows_ok (ctx w) → probe_timer_ (ctx w) = Some t → size_of w ≤ n →
  0 ≤ probe_timer_duration_ (ctx w) < 2 ^ 30 →
  state_timer_fired s t w = Fault AssertionFailure.
Proof.
  intros Hs Hok Ht Hn Hd. pose proof (sending_window _ _ _ _ _ Hs) as Hw. pose proof (window_order _ _ _ _ _ Hw).
  unfold state_timer_fired. run. rewrite Ht, Nat.eqb_refl. run.
  unfold int_times. rewrite (proj2 (Z.leb_le _ _)), (proj2 (Z.ltb_lt _ _)) by lia. cbn [andb]. run.
  rewrite new_timeout_Done by lia. run.
  set (w1 := {| ctx := _; sock := _; io := _ |}).
  destruct (sending_local _ _ _ _ _ Hs) as [a Ha].
  destruct (socket_packet_spec w1 a Ha) as (p & Ep & Hp).
  unfold send_one_packet. run. rewrite Ep. run. unfold get_send_data_length, send_buffer_size. run.
  change (get_num_outstanding (ctx w1)) with (get_num_outstanding (ctx w)).
  unfold get_num_outstanding. rewrite (window_outstanding _ _ _ _ _ Hw), i32_small by lia.
  change (get_send_buffer (sock w1)) with (send_buffer_ (sock w)). unfold size_of in Hn.
  rewrite (proj2 (Z.ltb_ge 0 _)); [reflexivity |].
  pose proof (max_data_length_new p Hp). lia.
Qed.
