(* ===== verification/Reliability.v ===== *)
(** * Tahoe reliability

    TCPTahoeReliabilityContext and TCPTahoeReliabilityState
    (transport/src/contexts/TCPTahoeReliabilityContext.cc,
    transport/src/states/TCPTahoeReliabilityState.cc): sequence and
    acknowledgement numbers, the retransmission timer, the receive window. The
    class is extended by TCPDelayedACKReliabilityState, which overrides two of its
    virtual methods: the handlers here are written against the interface
    [Reliability], a context that contains a reliability context, and take the
    virtual methods as arguments. The event's socket pointer is [s]. *)
From S2P Require Import Prelude SeqMath Double HeaderMem IPPacket TCPOptions WiFuPacket TCPPacket PacketBuffer AddressPort Sockets Events.
From S2P Require Import Outstanding Congestion.

Definition INITIAL_RTO : double := of_Z 3.
Definition MIN_RTO : double := of_Z 1.
Definition ALPHA : double := literal 1 8.
Definition BETA : double := literal 1 4.
Definition G : double := literal 1 1000.
Definition K : Z := 4.
Definition UNIX_SOCKET_MAX_BUFFER_SIZE : Z := 131071.

Record rc_context := {
  odc : outstanding;
  initialized_ : bool;
  rcv_nxt_ : Z;
  rcv_wnd_ : Z;
  timer_ : option nat;
  duplicate_ack_number_ : Z;
  duplicates_ : Z;
  receive_window_ : packet_buffer;
  receive_event_ : option receive_event;
  echo_reply_ : Z;
  rto_ : double;
  srtt_ : double;
  rttvar_ : double;
  receive_index_ : Z }.

Definition with_odc (f : outstanding → outstanding) (c : rc_context) : rc_context :=
  {| odc := f (odc c); initialized_ := initialized_ c; rcv_nxt_ := rcv_nxt_ c; rcv_wnd_ := rcv_wnd_ c; timer_ :=
     timer_ c; duplicate_ack_number_ := duplicate_ack_number_ c; duplicates_ := duplicates_ c; receive_window_
     := receive_window_ c; receive_event_ := receive_event_ c; echo_reply_ := echo_reply_ c; rto_ := rto_ c;
     srtt_ := srtt_ c; rttvar_ := rttvar_ c; receive_index_ := receive_index_ c |}.
Definition set_initialized  (c : rc_context) : rc_context :=
  {| odc := odc c; initialized_ := true; rcv_nxt_ := rcv_nxt_ c; rcv_wnd_ := rcv_wnd_ c; timer_ := timer_ c;
     duplicate_ack_number_ := duplicate_ack_number_ c; duplicates_ := duplicates_ c; receive_window_ :=
     receive_window_ c; receive_event_ := receive_event_ c; echo_reply_ := echo_reply_ c; rto_ := rto_ c; srtt_
     := srtt_ c; rttvar_ := rttvar_ c; receive_index_ := receive_index_ c |}.
Definition set_rcv_nxt (rcv_nxt : Z) (c : rc_context) : rc_context :=
  {| odc := odc c; initialized_ := initialized_ c; rcv_nxt_ := u32 rcv_nxt; rcv_wnd_ := rcv_wnd_ c; timer_ :=
     timer_ c; duplicate_ack_number_ := duplicate_ack_number_ c; duplicates_ := duplicates_ c; receive_window_
     := receive_window_ c; receive_event_ := receive_event_ c; echo_reply_ := echo_reply_ c; rto_ := rto_ c;
     srtt_ := srtt_ c; rttvar_ := rttvar_ c; receive_index_ := receive_index_ c |}.
Definition set_rcv_wnd (rcv_wnd : Z) (c : rc_context) : rc_context :=
  {| odc := odc c; initialized_ := initialized_ c; rcv_nxt_ := rcv_nxt_ c; rcv_wnd_ := u16 rcv_wnd; timer_ :=
     timer_ c; duplicate_ack_number_ := duplicate_ack_number_ c; duplicates_ := duplicates_ c; receive_window_
     := receive_window_ c; receive_event_ := receive_event_ c; echo_reply_ := echo_reply_ c; rto_ := rto_ c;
     srtt_ := srtt_ c; rttvar_ := rttvar_ c; receive_index_ := receive_index_ c |}.
Definition set_timeout_event (e : option nat) (c : rc_context) : rc_context :=
  {| odc := odc c; initialized_ := initialized_ c; rcv_nxt_ := rcv_nxt_ c; rcv_wnd_ := rcv_wnd_ c; timer_ := e;
     duplicate_ack_number_ := duplicate_ack_number_ c; duplicates_ := duplicates_ c; receive_window_ :=
     receive_window_ c; receive_event_ := receive_event_ c; echo_reply_ := echo_reply_ c; rto_ := rto_ c; srtt_
     := srtt_ c; rttvar_ := rttvar_ c; receive_index_ := receive_index_ c |}.
Definition set_duplicate_ack_number (num : Z) (c : rc_context) : rc_context :=
  {| odc := odc c; initialized_ := initialized_ c; rcv_nxt_ := rcv_nxt_ c; rcv_wnd_ := rcv_wnd_ c; timer_ :=
     timer_ c; duplicate_ack_number_ := num; duplicates_ := duplicates_ c; receive_window_ := receive_window_ c;
     receive_event_ := receive_event_ c; echo_reply_ := echo_reply_ c; rto_ := rto_ c; srtt_ := srtt_ c; rttvar_
     := rttvar_ c; receive_index_ := receive_index_ c |}.
Definition set_duplicates (duplicates : Z) (c : rc_context) : rc_context :=
  {| odc := odc c; initialized_ := initialized_ c; rcv_nxt_ := rcv_nxt_ c; rcv_wnd_ := rcv_wnd_ c; timer_ :=
     timer_ c; duplicate_ack_number_ := duplicate_ack_number_ c; duplicates_ := duplicates; receive_window_ :=
     receive_window_ c; receive_event_ := receive_event_ c; echo_reply_ := echo_reply_ c; rto_ := rto_ c; srtt_
     := srtt_ c; rttvar_ := rttvar_ c; receive_index_ := receive_index_ c |}.
Definition set_receive_window (b : packet_buffer) (c : rc_context) : rc_context :=
  {| odc := odc c; initialized_ := initialized_ c; rcv_nxt_ := rcv_nxt_ c; rcv_wnd_ := rcv_wnd_ c; timer_ :=
     timer_ c; duplicate_ack_number_ := duplicate_ack_number_ c; duplicates_ := duplicates_ c; receive_window_
     := b; receive_event_ := receive_event_ c; echo_reply_ := echo_reply_ c; rto_ := rto_ c; srtt_ := srtt_ c;
     rttvar_ := rttvar_ c; receive_index_ := receive_index_ c |}.
Definition set_receive_event (e : option receive_event) (c : rc_context) : rc_context :=
  {| odc := odc c; initialized_ := initialized_ c; rcv_nxt_ := rcv_nxt_ c; rcv_wnd_ := rcv_wnd_ c; timer_ :=
     timer_ c; duplicate_ack_number_ := duplicate_ack_number_ c; duplicates_ := duplicates_ c; receive_window_
     := receive_window_ c; receive_event_ := e; echo_reply_ := echo_reply_ c; rto_ := rto_ c; srtt_ := srtt_ c;
     rttvar_ := rttvar_ c; receive_index_ := receive_index_ c |}.
Definition set_echo_reply (echo_reply : Z) (c : rc_context) : rc_context :=
  {| odc := odc c; initialized_ := initialized_ c; rcv_nxt_ := rcv_nxt_ c; rcv_wnd_ := rcv_wnd_ c; timer_ :=
     timer_ c; duplicate_ack_number_ := duplicate_ack_number_ c; duplicates_ := duplicates_ c; receive_window_
     := receive_window_ c; receive_event_ := receive_event_ c; echo_reply_ := echo_reply; rto_ := rto_ c; srtt_
     := srtt_ c; rttvar_ := rttvar_ c; receive_index_ := receive_index_ c |}.
Definition set_rto (rto : double) (c : rc_context) : rc_context :=
  {| odc := odc c; initialized_ := initialized_ c; rcv_nxt_ := rcv_nxt_ c; rcv_wnd_ := rcv_wnd_ c; timer_ :=
     timer_ c; duplicate_ack_number_ := duplicate_ack_number_ c; duplicates_ := duplicates_ c; receive_window_
     := receive_window_ c; receive_event_ := receive_event_ c; echo_reply_ := echo_reply_ c; rto_ := rto; srtt_
     := srtt_ c; rttvar_ := rttvar_ c; receive_index_ := receive_index_ c |}.
Definition set_srtt (srtt : double) (c : rc_context) : rc_context :=
  {| odc := odc c; initialized_ := initialized_ c; rcv_nxt_ := rcv_nxt_ c; rcv_wnd_ := rcv_wnd_ c; timer_ :=
     timer_ c; duplicate_ack_number_ := duplicate_ack_number_ c; duplicates_ := duplicates_ c; receive_window_
     := receive_window_ c; receive_event_ := receive_event_ c; echo_reply_ := echo_reply_ c; rto_ := rto_ c;
     srtt_ := srtt; rttvar_ := rttvar_ c; receive_index_ := receive_index_ c |}.
Definition set_rttvar (rttvar : double) (c : rc_context) : rc_context :=
  {| odc := odc c; initialized_ := initialized_ c; rcv_nxt_ := rcv_nxt_ c; rcv_wnd_ := rcv_wnd_ c; timer_ :=
     timer_ c; duplicate_ack_number_ := duplicate_ack_number_ c; duplicates_ := duplicates_ c; receive_window_
     := receive_window_ c; receive_event_ := receive_event_ c; echo_reply_ := echo_reply_ c; rto_ := rto_ c;
     srtt_ := srtt_ c; rttvar_ := rttvar; receive_index_ := receive_index_ c |}.
Definition set_receive_index (receive_index : Z) (c : rc_context) : rc_context :=
  {| odc := odc c; initialized_ := initialized_ c; rcv_nxt_ := rcv_nxt_ c; rcv_wnd_ := rcv_wnd_ c; timer_ :=
     timer_ c; duplicate_ack_number_ := duplicate_ack_number_ c; duplicates_ := duplicates_ c; receive_window_
     := receive_window_ c; receive_event_ := receive_event_ c; echo_reply_ := echo_reply_ c; rto_ := rto_ c;
     srtt_ := srtt_ c; rttvar_ := rttvar_ c; receive_index_ := i32 receive_index |}.

Definition get_snd_una (c : rc_context) : Z := Outstanding.get_snd_una (odc c).
Definition get_snd_nxt (c : rc_context) : Z := Outstanding.get_snd_nxt (odc c).
Definition get_snd_max (c : rc_context) : Z := Outstanding.get_snd_max (odc c).
Definition set_snd_nxt (n : Z) : rc_context → rc_context := with_odc (Outstanding.set_snd_nxt (u32 n)).
Definition set_snd_una (n : Z) : rc_context → rc_context := with_odc (Outstanding.set_snd_una n).

(** The constructor leaves [echo_reply_] uninitialised: [memory] is what its memory held. *)
Definition new_TCPTahoeReliabilityContext (memory iss : Z) : outcome rc_context :=
  o ← new_OutstandingDataContext iss;
  mret {| odc := o; initialized_ := false; rcv_nxt_ := 0; rcv_wnd_ := MAX_TCP_RECEIVE_WINDOW_SIZE; timer_ := None;
          duplicate_ack_number_ := 0; duplicates_ := 0; receive_window_ := new_TCPPacketBuffer; receive_event_ := None;
          echo_reply_ := memory; rto_ := INITIAL_RTO; srtt_ := of_Z (-1); rttvar_ := of_Z (-1); receive_index_ := 0 |}.

(** A context class derived from TCPTahoeReliabilityContext. *)
Class Reliability (C : Type) := {
  rc : C → rc_context;
  update_rc : (rc_context → rc_context) → C → C;
  rc_update : ∀ f c, rc (update_rc f c) = f (rc c);
  rc_compose : ∀ f g c, update_rc g (update_rc f c) = update_rc (fun b => g (f b)) c }.

#[export] Instance base_reliability : Reliability rc_context :=
  {| rc := id; update_rc := fun f => f; rc_update := fun _ _ => eq_refl; rc_compose := fun _ _ _ => eq_refl |}.

(** [Utils::get_current_time_microseconds_32()] *)
Definition get_current_time_microseconds_32 {C} : handler C Z := t ← current_time; mret (u32 t).

Section Handlers.
Context {C : Type} `{Reliability C}.

Abbreviation rc_handler := (handler C unit).
Definition gets_rc {A} (f : rc_context → A) : handler C A := gets (fun c => f (rc c)).
Definition modify_rc (f : rc_context → rc_context) : rc_handler := modify (update_rc f).

(** ** The timer *)

(** The delay of a timer, in whole seconds and nanoseconds. *)
Definition split_seconds (x : double) : outcome (Z * Z) :=
  let '(fraction, seconds) := modf x in
  nanoseconds ← to_long (dmul fraction (of_Z NANOSECONDS_IN_SECONDS));
  seconds ← to_int seconds;
  mret (seconds, nanoseconds).

Definition start_timer (s : nat) : rc_handler :=
  timer ← gets_rc timer_;
  match timer with
  | None =>
      rto ← gets_rc rto_;
      '(seconds, nanoseconds) ← lift (split_seconds rto);
      timer ← new_timeout s seconds nanoseconds;
      modify_rc (set_timeout_event (Some timer))
  | Some _ => mret tt
  end.

Definition cancel_timer : rc_handler :=
  timer ← gets_rc timer_;
  match timer with
  | None => mret tt
  | Some timer =>
      _ ← dispatch (CancelTimerEvent (Some timer));
      modify_rc (set_timeout_event None)
  end.

Definition reset_timer (s : nat) : rc_handler := _ ← cancel_timer; start_timer s.

Definition resend_data (s : nat) (reason : resend_reason) : rc_handler :=
  _ ← modify_rc (fun c => set_snd_nxt (get_snd_una c) c);
  enqueue (ResendPacketEvent s reason).

Definition state_timer_fired (s timeout_event : nat) : rc_handler :=
  timer ← gets_rc timer_;
  match timer with
  | Some timer =>
      if Nat.eqb timer timeout_event then
        _ ← modify_rc (set_timeout_event None);
        _ ← modify_rc (fun c => set_rto (dmul (rto_ c) (of_Z 2)) c);
        resend_data s TIMEOUT
      else mret tt
  | None => mret tt
  end.

(** A round-trip time, in seconds. *)
Definition rtt_of (time : Z) (ts : tcp_header_option) : double :=
  ddiv (of_Z (u32 (time - get_echo_reply ts))) (of_Z MICROSECONDS_IN_SECONDS).

(** RFC 2988. *)
Definition estimate (rtt : double) (c : rc_context) : rc_context :=
  let c :=
    if dltb (srtt_ c) (of_Z 0) then set_rttvar (ddiv rtt (of_Z 2)) (set_srtt rtt c)
    else
      let c := set_rttvar (dadd (dmul (dsub (of_Z 1) BETA) (rttvar_ c)) (dmul BETA (dabs (dsub (srtt_ c) rtt)))) c in
      set_srtt (dadd (dmul (dsub (of_Z 1) ALPHA) (srtt_ c)) (dmul ALPHA rtt)) c in
  set_rto (dmax MIN_RTO (dadd (srtt_ c) (dmax G (dmul (of_Z K) (rttvar_ c))))) c.

Definition update_rto (ts : option tcp_header_option) : rc_handler :=
  ts ← lift (deref ts);
  time ← get_current_time_microseconds_32;
  modify_rc (estimate (rtt_of time ts)).

(** ** Sending *)

(** TCPTahoeReliabilityState's own [create_and_dispatch_ack]. *)
Definition base_create_and_dispatch_ack (s : nat) : rc_handler :=
  response ← socket_packet;
  response ← lift (set_data [] response);
  enqueue (SendPacketEvent s response).

Definition set_sequence_number_and_update_window_variables (p : tcp_packet) : handler C tcp_packet :=
  c ← gets_rc id;
  if negb (initialized_ c) then
    let iss := get_iss (odc c) in
    _ ← modify_rc (fun c => set_initialized (set_snd_nxt (iss + 1) (set_snd_una iss c)));
    mret (set_tcp_sequence_number iss p)
  else
    let p := set_tcp_sequence_number (get_snd_nxt c) p in
    let len := if is_tcp_syn p || is_tcp_fin p then 1 else get_data_length_bytes p in
    _ ← modify_rc (fun c => set_snd_nxt (get_snd_nxt c + len) c);
    mret p.

Definition set_ack_number_and_bit (p : tcp_packet) : handler C tcp_packet :=
  rcv_nxt ← gets_rc rcv_nxt_;
  let p := set_tcp_ack_number rcv_nxt p in
  mret (if negb (get_tcp_ack_number p =? 0) then set_tcp_ack true p else p).

Definition check_and_start_timer (s : nat) (p : tcp_packet) : rc_handler :=
  if (0 <? get_data_length_bytes p) || is_tcp_syn p || is_tcp_fin p then start_timer s else mret tt.

Definition append_to_send_buffer (x : Z) : rc_handler :=
  modify_socket (fun s => with_buffers (get_receive_buffer s) (get_send_buffer s ++ [x])%list s).

Definition append_control_bytes_to_send_buffer (p : tcp_packet) : rc_handler :=
  sk ← get_socket;
  let send_buffer := get_send_buffer sk in
  if is_tcp_syn p && negb (byte_is send_buffer 0 SYN_BYTE) then
    _ ← h_assert (Nat.eqb (length send_buffer) 0);
    append_to_send_buffer SYN_BYTE
  else if is_tcp_fin p && (Nat.eqb (length send_buffer) 0 || negb (byte_is send_buffer (length send_buffer - 1) FIN_BYTE)) then
    append_to_send_buffer FIN_BYTE
  else mret tt.

Definition insert_timestamp (p : tcp_packet) : handler C tcp_packet :=
  '(option, p) ← lift (get_option TCPOPT_TIMESTAMP p);
  _ ← h_assert (match option with Some _ => true | None => false end);
  time ← get_current_time_microseconds_32;
  echo_reply ← gets_rc echo_reply_;
  mret (TCPPacket.with_options
    (update_option TCPOPT_TIMESTAMP
       (fun o => let o := set_timestamp time o in
                 if negb (echo_reply =? 0) then TCPOptions.set_echo_reply echo_reply o else o) (options_ p)) p).

Definition set_and_save_receive_window_size (p : tcp_packet) : handler C tcp_packet :=
  rcv_wnd ← gets_rc rcv_wnd_;
  mret (set_tcp_receive_window_size rcv_wnd p).

(** The handler changes the event's packet: here it returns the changed one. *)
Definition state_send_packet (s : nat) (p : tcp_packet) : handler C tcp_packet :=
  p ← set_sequence_number_and_update_window_variables p;
  p ← set_ack_number_and_bit p;
  _ ← check_and_start_timer s p;
  _ ← append_control_bytes_to_send_buffer p;
  p ← insert_timestamp p;
  set_and_save_receive_window_size p.

(** ** Receiving

    [create_and_dispatch_ack] and [handle_data] are the virtual methods the class
    of the context's state provides. *)

Section Virtual.
Context (create_and_dispatch_ack : nat → rc_handler).

Definition update_echo_reply (ts : option tcp_header_option) : rc_handler :=
  match ts with
  | Some ts => modify_rc (set_echo_reply (get_timestamp ts))
  | None => mret tt
  end.

Definition handle_valid_ack (s : nat) (p : tcp_packet) : rc_handler :=
  una ← gets_rc get_snd_una;
  let num_acked := u32 (get_tcp_ack_number p - una) in
  _ ← modify_rc (set_snd_una (get_tcp_ack_number p));
  _ ← modify_rc (fun c => if less_than (get_snd_nxt c) (get_snd_una c) then set_snd_nxt (get_snd_una c) c else c);
  _ ← modify_socket (fun s => with_buffers (get_receive_buffer s) (drop (Z.to_nat num_acked) (get_send_buffer s)) s);
  _ ← enqueue (SendBufferNotFullEvent s);
  '(ts, _) ← lift (get_option TCPOPT_TIMESTAMP p);
  _ ← update_rto ts;
  c ← gets_rc id;
  if get_snd_nxt c =? get_snd_una c then cancel_timer
  else if 0 <? num_acked then reset_timer s
  else mret tt.

Definition handle_duplicate_ack (s : nat) (p : tcp_packet) : rc_handler :=
  _ ← modify_rc (fun c =>
        if duplicate_ack_number_ c =? get_tcp_ack_number p then set_duplicates (i32 (duplicates_ c + 1)) c
        else set_duplicates 0 (set_duplicate_ack_number (get_tcp_ack_number p) c));
  duplicates ← gets_rc duplicates_;
  if duplicates =? 3 then resend_data s THREE_DUPLICATE_ACKS else mret tt.

Definition handle_ack (s : nat) (p : tcp_packet) : handler C bool :=
  if negb (is_tcp_ack p) then mret true else
  c ← gets_rc id;
  if between_equal_right (get_snd_una c) (get_tcp_ack_number p) (get_snd_max c) then
    _ ← handle_valid_ack s p; mret true
  else if less_than (get_snd_max c) (get_tcp_ack_number p) then
    _ ← create_and_dispatch_ack s; mret false
  else if between_equal_left (get_tcp_ack_number p) (get_snd_una c) (get_snd_nxt c) then
    _ ← handle_duplicate_ack s p; mret true
  else mret true.

Definition handle_control_bits (p : tcp_packet) : rc_handler :=
  _ ← modify_rc (set_rcv_nxt (get_tcp_sequence_number p + 1));
  if is_tcp_syn p
  then modify_rc (fun c => set_receive_window (set_first_sequence_number (rcv_nxt_ c) (receive_window_ c)) c)
  else mret tt.

(** TCPTahoeReliabilityState's own [handle_data]. The branch after the failed assertion is
    never reached. *)
Definition base_handle_data (s : nat) (r : packet_ref) : rc_handler :=
  window ← gets_rc receive_window_;
  '(num_inserted, window) ← lift (insert r window);
  _ ← modify_rc (set_receive_window window);
  rcv_wnd ← gets_rc rcv_wnd_;
  _ ← h_assert (0 <=? rcv_wnd - num_inserted);
  _ ← modify_rc (fun c => set_rcv_wnd (rcv_wnd_ c - num_inserted) c);
  sk ← get_socket;
  c ← gets_rc id;
  '(receive_buffer, window) ← lift (get_continuous_data (rcv_nxt_ c) (get_receive_buffer sk) (receive_window_ c));
  _ ← modify_rc (set_receive_window window);
  _ ← modify_socket (fun s => with_buffers receive_buffer (get_send_buffer s) s);
  let amount := u32 (Z.of_nat (length receive_buffer) - Z.of_nat (length (get_receive_buffer sk))) in
  _ ← (if 0 <? amount then
         _ ← modify_rc (fun c => set_rcv_nxt (rcv_nxt_ c + amount) c);
         enqueue (ReceiveBufferNotEmptyEvent s)
       else mret tt);
  create_and_dispatch_ack s.

Section Receive.
Context (handle_data : nat → packet_ref → rc_handler).

Definition handle_control_bits_and_data (s : nat) (r : packet_ref) : rc_handler :=
  if is_tcp_syn (pkt r) || is_tcp_fin (pkt r) then handle_control_bits (pkt r)
  else if 0 <? get_data_length_bytes (pkt r) then handle_data s r
  else mret tt.

(** [get_option] parses the options of a received packet on its first call and keeps them in
    the packet. *)
Definition state_receive_packet (s : nat) (r : packet_ref) : rc_handler :=
  '(ts, p) ← lift (get_option TCPOPT_TIMESTAMP (pkt r));
  _ ← update_echo_reply ts;
  continue ← handle_ack s p;
  if (continue : bool) then handle_control_bits_and_data s {| address := address r; pkt := p |} else mret tt.

End Receive.

(** The response to a receive call, the bytes from [receive_index_] on. *)
Definition receive_response (e : receive_event) (sk : socket) (index length : Z) : outcome response :=
  _ ← assert (sizeof_AddressResponseMessage + length <=? UNIX_SOCKET_MAX_BUFFER_SIZE);
  buffer ← buffer_bytes (get_receive_buffer sk) index length;
  mret {| res_socket := le_socket (re_event e); res_message_type := le_message_type (re_event e);
          res_fd := le_fd (re_event e); res_return_value := length; res_errno := 0;
          res_length := sizeof_AddressResponseMessage + length; res_destination := le_source (re_event e);
          res_addr := Some (get_network_struct (get_remote_address_port sk)); res_buffer := buffer |}.

Definition create_and_dispatch_received_data (e : receive_event) : rc_handler :=
  let s := le_socket (re_event e) in
  let buffer_size := re_data_length e in
  sk ← get_socket;
  c ← gets_rc id;
  let length := i32 (Z.min (u64 (Z.of_nat (List.length (get_receive_buffer sk)) - receive_index_ c)) buffer_size) in
  response ← lift (receive_response e sk (receive_index_ c) length);
  _ ← h_assert (u64 (res_return_value response) <=? buffer_size);
  _ ← modify_rc (fun c => set_receive_index (receive_index_ c + length) c);
  _ ← (if 2 * rcv_wnd_ c <=? rcv_wnd_ c + length then create_and_dispatch_ack s else mret tt);
  _ ← modify_rc (fun c => set_rcv_wnd (rcv_wnd_ c + length) c);
  index ← gets_rc receive_index_;
  _ ← (if Z.of_nat (List.length (get_receive_buffer sk)) <=? u64 index then
         _ ← modify_socket (fun s => with_buffers [] (get_send_buffer s) s);
         modify_rc (set_receive_index 0)
       else mret tt);
  _ ← dispatch (ResponseEvent response);
  enqueue (ReceiveBufferNotFullEvent s).

Definition state_receive_buffer_not_empty : rc_handler :=
  e ← gets_rc receive_event_;
  sk ← get_socket;
  match e with
  | Some e =>
      if negb (Nat.eqb (length (get_receive_buffer sk)) 0) then
        _ ← create_and_dispatch_received_data e;
        modify_rc (set_receive_event None)
      else mret tt
  | None => mret tt
  end.

Definition state_receive (e : receive_event) : rc_handler :=
  sk ← get_socket;
  if negb (Nat.eqb (length (get_receive_buffer sk)) 0) then create_and_dispatch_received_data e
  else
    pending ← gets_rc receive_event_;
    _ ← h_assert (match pending with None => true | Some _ => false end);
    modify_rc (set_receive_event (Some e)).

End Virtual.
End Handlers.

(** Runs a handler of a reliability context. *)
Ltac rc_simpl :=
  cbn [ctx sock io]; repeat rewrite rc_update;
  cbn [ctx sock io next_pointer now trace with_odc set_initialized set_rcv_nxt set_rcv_wnd set_timeout_event
    set_duplicate_ack_number set_duplicates set_receive_window set_receive_event set_echo_reply set_rto set_srtt set_rttvar
    set_receive_index odc initialized_ rcv_nxt_ rcv_wnd_ timer_ duplicate_ack_number_ duplicates_ receive_window_
    receive_event_ echo_reply_ rto_ srtt_ rttvar_ receive_index_ with_buffers receive_buffer_ send_buffer_ local_ remote_].
Ltac run_rc :=
  unfold gets_rc, modify_rc, get_current_time_microseconds_32; run; rc_simpl.

(** ** The acknowledgement interface *)

(** What [handle_data] and the receive calls rely on: the virtual [create_and_dispatch_ack]
    may change the derived context and emit events, but neither the reliability context, nor
    the socket, nor the clock; [ok] is the derived context's own invariant, which does not
    depend on the base context except for its timer. *)
Class Acknowledger {C} `{Reliability C} (ack : nat → handler C unit) := {
  ack_ok : C → Prop;
  ack_ok_stable : ∀ f c, timer_ (f (rc c)) = timer_ (rc c) → ack_ok c → ack_ok (update_rc f c);
  ack_spec : ∀ s w, is_Some (local_ (sock w)) → ack_ok (ctx w) →
    ∃ w' t, ack s w = Done (tt, w') ∧ ack_ok (ctx w') ∧ rc (ctx w') = rc (ctx w) ∧ sock w' = sock w ∧
      now (io w') = now (io w) ∧ trace (io w') = (trace (io w) ++ t)%list ∧ Forall (fun x => silent x = true) t }.

(** A segment that only acknowledges. *)
Definition pure_ack (p : tcp_packet) : Prop :=
  get_data_length_bytes p = 0 ∧ data_of p = [] ∧ is_tcp_syn p = false ∧ is_tcp_fin p = false ∧ options_ p = [timestamp_option].

Section Proofs.
Context {C : Type} `{Reliability C}.

Lemma base_ack_spec s (w : env C) :
  is_Some (local_ (sock w)) →
  ∃ p, base_create_and_dispatch_ack s w =
    Done (tt, {| ctx := ctx w; sock := sock w; io := add_trace [Enqueue (SendPacketEvent s p)] (io w) |}) ∧ pure_ack p.
Proof.
  intros [a Ha]. destruct (socket_packet_spec w a Ha) as (p & Ep & Hp).
  destruct (set_data_new_segment [] p Hp) as (p' & Ed & Hdat & Hlen & _ & Ho & Hs & Hf & _); [constructor | cbn; lia |].
  exists p'. destruct (ns_flags _ Hp) as (Fs & Ff & _). split; [| unfold pure_ack; rewrite Hs, Hf; auto].
  unfold base_create_and_dispatch_ack. run. rewrite Ep. run. rewrite Ed. reflexivity.
Qed.

End Proofs.

#[export] Program Instance base_acknowledger {C} `{Reliability C} : Acknowledger base_create_and_dispatch_ack :=
  {| ack_ok := fun _ => True |}.
Next Obligation. trivial. Qed.
Next Obligation.
  intros C ? s w Ha _. destruct (base_ack_spec s w Ha) as (p & E & _). eexists _, [_]. split; [exact E |]. do 5 (split; [trivial |]). constructor; [reflexivity | constructor].
Qed.

(** ** Flow control and in-order delivery *)

(** What is appended does not depend on what the buffer held. *)
Lemma get_continuous_data_buf x buf buf' b data b' :
  get_continuous_data x buf b = Done ((buf ++ data)%list, b') → get_continuous_data x buf' b = Done ((buf' ++ data)%list, b').
Proof.
  unfold get_continuous_data. destruct (assert (started_ b)) as [[]|]; [| discriminate]. cbn [mbind outcome_bind].
  destruct (buffer_ b) as [|q l].
  { intros [= E ->]. rewrite <- (app_nil_r buf) in E at 1. apply app_inv_head in E as <-. rewrite app_nil_r. reflexivity. }
  destruct (assert _) as [[]|]; [| discriminate]. cbn [mbind outcome_bind].
  destruct (continuous_walk x (q :: l)) as [[[d s] l']|]; [| discriminate]. cbn [mbind outcome_bind].
  intros [= E%app_inv_head <-]. rewrite E. reflexivity.
Qed.

Section Receiving.
Context {C : Type} `{Reliability C} (ack : nat → handler C unit) `{!Acknowledger ack}.
(** The peer's byte stream: where its packets start, and its bytes. *)
Context (base : Z) (pos : packet_ref → Z) (stream : Z → Z).

Abbreviation span f r := (interval (Z.max f (pos r)) (finish pos r)).
Definition held (f : Z) (c : rc_context) : gset Z := pending pos f (buffer_ (receive_window_ c)).

(** The receiver's state when the application has taken the stream up to position [a] and
    RCV.NXT stands at [f]. *)
Record receiving (a f : Z) (w : env C) : Prop := {
  rcv_local : is_Some (local_ (sock w));
  rcv_ack : ack_ok (ctx w);
  rcv_next : rcv_nxt_ (rc (ctx w)) = seq_at base f;
  rcv_inv : inv base pos f (receive_window_ (rc (ctx w)));
  rcv_carries : Forall (carries pos stream) (buffer_ (receive_window_ (rc (ctx w))));
  rcv_edge : Forall (fun r => finish pos r ≤ a + MAX_TCP_RECEIVE_WINDOW_SIZE) (buffer_ (receive_window_ (rc (ctx w))));
  rcv_index : 0 ≤ receive_index_ (rc (ctx w));
  rcv_order : a ≤ f;
  rcv_unread : ∃ read, receive_buffer_ (sock w) = (read ++ stretch stream a f)%list ∧
               receive_index_ (rc (ctx w)) = Z.of_nat (length read);
  rcv_wnd : rcv_wnd_ (rc (ctx w)) + (f - a) + Z.of_nat (base.size (held f (rc (ctx w)))) = MAX_TCP_RECEIVE_WINDOW_SIZE;
  rcv_wnd_nonneg : 0 ≤ rcv_wnd_ (rc (ctx w));
  rcv_drained : a = f → receive_buffer_ (sock w) = [] }.

Lemma length_stretch a f : a ≤ f → Z.of_nat (length (stretch stream a f)) = f - a.
Proof. intros. unfold stretch. rewrite length_map, length_seqZ. lia. Qed.

(** Bytes within the right edge never exceed what the window leaves. *)
Lemma held_within a f (X : gset Z) l :
  Forall (fun r => finish pos r ≤ a) l → X = pending pos f l → f ≤ a → Z.of_nat (base.size X) ≤ a - f.
Proof.
  intros Hl -> Hfa. rewrite <- (size_interval f a) by assumption.
  apply inj_le, subseteq_size. intros x (? & r & Hr & ?)%elem_of_pending. rewrite Forall_forall in Hl.
  specialize (Hl r Hr). apply elem_of_interval. lia.
Qed.

Lemma receiving_ext a f w w' :
  receiving a f w → rc (ctx w') = rc (ctx w) → sock w' = sock w → ack_ok (ctx w') → receiving a f w'.
Proof. intros [] Hr Hs Hk. split; rewrite ?Hr, ?Hs; assumption. Qed.

(** What [base_handle_data] does before it acknowledges. *)
Record delivered (a f e : Z) (s : nat) (r : packet_ref) (w w' : env C) : Prop := {
  del_receiving : receiving a e w';
  del_order : f ≤ e;
  del_buffer : receive_buffer_ (sock w') = (receive_buffer_ (sock w) ++ stretch stream f e)%list;
  del_all : interval f e ⊆ held f (rc (ctx w)) ∪ span f r;
  del_gap : e ∉ held f (rc (ctx w)) ∪ span f r;
  del_held : held e (rc (ctx w')) = (held f (rc (ctx w)) ∪ span f r) ∖ interval f e;
  del_send : send_buffer_ (sock w') = send_buffer_ (sock w);
  del_sock : sock w' = with_buffers (receive_buffer_ (sock w')) (send_buffer_ (sock w)) (sock w);
  del_ctx : ∃ g, ctx w' = update_rc g (ctx w);
  del_odc : odc (rc (ctx w')) = odc (rc (ctx w)) ∧ timer_ (rc (ctx w')) = timer_ (rc (ctx w)) ∧
            receive_event_ (rc (ctx w')) = receive_event_ (rc (ctx w));
  del_trace : trace (io w') = (trace (io w) ++ (if decide (f < e) then [Enqueue (ReceiveBufferNotEmptyEvent s)] else []))%list }.

(** The receive window's part of it: insert, then take what is continuous. *)
Lemma window_step a f r b wnd :
  inv base pos f b → Forall (carries pos stream) (buffer_ b) →
  Forall (fun r => finish pos r ≤ a + MAX_TCP_RECEIVE_WINDOW_SIZE) (buffer_ b) → a ≤ f →
  wnd + (f - a) + Z.of_nat (base.size (pending pos f (buffer_ b))) = MAX_TCP_RECEIVE_WINDOW_SIZE → 0 ≤ wnd →
  placed base pos f r → carries pos stream r → finish pos r ≤ a + MAX_TCP_RECEIVE_WINDOW_SIZE →
  ∃ n b1 e b2, insert r b = Done (n, b1) ∧ 0 ≤ n ≤ wnd ∧ f ≤ e ∧ e - f ≤ MAX_TCP_RECEIVE_WINDOW_SIZE ∧
    (∀ buf, get_continuous_data (seq_at base f) buf b1 = Done ((buf ++ stretch stream f e)%list, b2)) ∧
    inv base pos e b2 ∧ Forall (carries pos stream) (buffer_ b2) ∧
    Forall (fun r => finish pos r ≤ a + MAX_TCP_RECEIVE_WINDOW_SIZE) (buffer_ b2) ∧
    interval f e ⊆ pending pos f (buffer_ b) ∪ span f r ∧ (e ∉ pending pos f (buffer_ b) ∪ span f r) ∧
    pending pos e (buffer_ b2) = (pending pos f (buffer_ b) ∪ span f r) ∖ interval f e ∧
    wnd - n + (e - a) + Z.of_nat (base.size (pending pos e (buffer_ b2))) = MAX_TCP_RECEIVE_WINDOW_SIZE.
Proof.
  intros Hinv Hc He Ho Hw Hw0 Hp Hcr Her.
  destruct (insert_spec base pos f r _ Hinv Hp) as (n & b1 & E1 & Hinv1 & Hpend1 & Hn1 & Hsub1).
  assert (∀ P, Forall P (buffer_ b) → P r → Forall P (buffer_ b1)) as Hall1.
  { intros P HP Hr. rewrite Forall_forall in HP |- *. intros q [-> | Hq]%Hsub1; auto. }
  pose proof (Hall1 _ Hc Hcr) as Hc1. pose proof (Hall1 _ He Her) as He1.
  destruct (get_continuous_data_spec base pos stream f b1 [] Hinv1 Hc1)
    as (e & b2 & E2 & Hfe & Hin & Hout & Hinv2 & Hpend2 & Hsub2).
  assert (∀ P, Forall P (buffer_ b1) → Forall P (buffer_ b2)) as Hall2.
  { intros P HP. rewrite Forall_forall in HP |- *. auto. }
  pose proof (held_within (a + MAX_TCP_RECEIVE_WINDOW_SIZE) f _ _ He1 eq_refl ltac:(lia)) as Hsz.
  pose proof (pending_split pos f e (buffer_ b1) Hfe Hin) as Hsplit.
  assert (pending pos f (buffer_ b) ⊆ pending pos f (buffer_ b1)) as Hle%subseteq_size by (rewrite Hpend1; clear; set_solver).
  exists n, b1, e, b2. split; [exact E1 |]. split; [lia |]. split; [exact Hfe |]. split; [lia |].
  split; [intros buf; apply (get_continuous_data_buf _ [] buf), E2 |].
  split; [exact Hinv2 |]. split; [auto |]. split; [auto |].
  rewrite Hpend1 in Hin, Hout. split; [exact Hin |]. split; [exact Hout |].
  rewrite <- Hpend1, Hpend2. split; [apply pending_raise, Hfe | lia].
Qed.

Lemma handle_data_core a f r s w :
  receiving a f w → Z.of_nat (length (receive_buffer_ (sock w))) < 2 ^ 30 →
  placed base pos f r → carries pos stream r → finish pos r ≤ a + MAX_TCP_RECEIVE_WINDOW_SIZE →
  ∃ e w', base_handle_data ack s r w = ack s w' ∧ delivered a f e s r w w'.
Proof.
  intros [Hl Hack Hn Hinv Hc He Hi Ho (read & Hu & Hri) Hw Hw0 Hdr] Hbuf Hp Hcr Her.
  destruct (window_step a f r _ _ Hinv Hc He Ho Hw Hw0 Hp Hcr Her)
    as (n & b1 & e & b2 & E1 & Hnw & Hfe & Hmax & E2 & Hinv2 & Hc2 & He2 & Hin & Hout & Hpend & Hw2).
  unfold base_handle_data. run_rc. rewrite E1. run_rc.
  rewrite (proj2 (Z.leb_le _ _)) by lia. run_rc. rewrite Hn. unfold get_receive_buffer. rewrite E2. run_rc.
  rewrite length_app, Nat2Z.inj_add, length_stretch by assumption.
  unfold MAX_TCP_RECEIVE_WINDOW_SIZE, USHRT_MAX in *.
  replace (u32 _) with (e - f) by word_lia.
  set (c1 := update_rc (set_receive_window b2) _).
  set (sk1 := with_buffers _ _ _).
  assert (∀ c i, rc c = set_rcv_nxt (seq_at base e) (rc c1) → ack_ok c → receiving a e {| ctx := c; sock := sk1; io := i |}) as Hrcv.
  { intros c i Hrc Hk. split; cbn [ctx sock]; rewrite ?Hrc; unfold held, c1, sk1; rc_simpl; auto.
    - apply u32_idemp.
    - lia.
    - exists read. rewrite Hu, <- app_assoc, <- stretch_app by lia. auto.
    - rewrite u16_small by word_lia. unfold held in Hw. exact Hw2.
    - rewrite u16_small by word_lia. lia.
    - intros Hae. rewrite Hdr by lia. replace e with f by lia. apply stretch_nil. }
  assert (ack_ok c1) as Hk1 by (repeat (apply ack_ok_stable; [reflexivity |]); assumption).
  assert (rcv_nxt_ (rc c1) = seq_at base f) as Hn1 by (unfold c1; rc_simpl; exact Hn).
  assert (receive_window_ (rc c1) = b2) as Hb1 by (unfold c1; rc_simpl; reflexivity).
  assert (odc (rc c1) = odc (rc (ctx w)) ∧ timer_ (rc c1) = timer_ (rc (ctx w)) ∧ receive_event_ (rc c1) = receive_event_ (rc (ctx w))) as Ho1
    by (unfold c1; rc_simpl; auto).
  assert (set_rcv_nxt (rcv_nxt_ (rc c1) + (e - f)) (rc c1) = set_rcv_nxt (seq_at base e) (rc c1)) as He1.
  { unfold set_rcv_nxt. f_equal. rewrite Hn1, seq_at_add. replace (f + (e - f)) with e by lia. symmetry. apply u32_idemp. }
  assert (∃ g, c1 = update_rc g (ctx w)) as [g Hg] by (eexists; unfold c1; rewrite !rc_compose; reflexivity).
  assert (∀ h, ∃ g, update_rc h c1 = update_rc g (ctx w)) as Hg' by (intros h; eexists; rewrite Hg, rc_compose; reflexivity).
  exists e. destruct (Z.ltb_spec 0 (e - f)) as [Hlt | Hlt]; run_rc; eexists; (split; [reflexivity |]).
  - split; rc_simpl; rewrite ?decide_True by lia; auto; [| unfold held; rc_simpl; rewrite Hb1; exact Hpend].
    apply Hrcv; [rewrite rc_update; exact He1 | apply ack_ok_stable; [reflexivity | exact Hk1]].
  - split; rc_simpl; rewrite ?decide_False, ?app_nil_r by lia; eauto; [| unfold held; rewrite Hb1; exact Hpend].
    apply Hrcv; [| exact Hk1]. rewrite <- He1. replace (e - f) with 0 by lia. rewrite Z.add_0_r.
    unfold set_rcv_nxt. rewrite Hn1. unfold seq_at at 1. rewrite u32_idemp. fold (seq_at base f). rewrite <- Hn1.
    destruct (rc c1); reflexivity.
Qed.

(** C3: flow control and in-order delivery. A data segment within the advertised window,
    in whatever order, never trips the assertion on the receive window: the bytes up to the
    first gap are appended to the receive buffer, RCV.NXT moves to the gap, the rest stays
    held, the window shrinks by the bytes buffered, and the application is told, once, when
    new bytes are readable. Then the handler ends in one call of the virtual
    [create_and_dispatch_ack], made on that state [w1]; all that follows in the trace is that
    call's own [t], and with the base class's method [t] is one pure acknowledgement. *)
Theorem handle_data_delivers a f r s w :
  receiving a f w → Z.of_nat (length (receive_buffer_ (sock w))) < 2 ^ 30 →
  placed base pos f r → carries pos stream r → finish pos r ≤ a + MAX_TCP_RECEIVE_WINDOW_SIZE →
  ∃ e w1 w' t, base_handle_data ack s r w = ack s w1 ∧ ack s w1 = Done (tt, w') ∧ receiving a e w' ∧
    (∀ x, f ≤ x < e → x ∈ held f (rc (ctx w)) ∪ span f r) ∧ (e ∉ held f (rc (ctx w)) ∪ span f r) ∧
    receive_buffer_ (sock w') = (receive_buffer_ (sock w) ++ stretch stream f e)%list ∧
    held e (rc (ctx w')) = (held f (rc (ctx w)) ∪ span f r) ∖ interval f e ∧
    send_buffer_ (sock w') = send_buffer_ (sock w) ∧
    trace (io w1) = (trace (io w) ++ (if decide (f < e) then [Enqueue (ReceiveBufferNotEmptyEvent s)] else []))%list ∧
    trace (io w') = (trace (io w1) ++ t)%list ∧ Forall (fun x => silent x = true) t ∧
    ((∀ s w, ack s w = base_create_and_dispatch_ack s w) → ∃ q, pure_ack q ∧ t = [Enqueue (SendPacketEvent s q)]).
Proof.
  intros Hr Hbuf Hp Hc He. destruct (handle_data_core a f r s w Hr Hbuf Hp Hc He) as (e & w1 & -> & Hd).
  pose proof (del_receiving _ _ _ _ _ _ _ Hd) as Hr1.
  destruct (ack_spec s w1 (rcv_local _ _ _ Hr1) (rcv_ack _ _ _ Hr1)) as (w' & t & E & Hk & Hrc & Hsk & _ & Ht & Hsil).
  exists e, w1, w', t. split; [reflexivity |]. split; [exact E |]. split; [apply (receiving_ext a e w1); assumption |].
  destruct Hd as [_ Hfe Hb Hall Hgap Hheld Hsend _ _ _ Htr]. rewrite Hsk, Hrc.
  split; [intros x Hx; apply Hall, elem_of_interval; exact Hx |]. do 7 (split; [assumption |]).
  intros Hown. rewrite Hown in E. destruct (base_ack_spec s w1 (rcv_local _ _ _ Hr1)) as (q & Eq & Hq).
  exists q. split; [exact Hq |]. rewrite Eq in E. injection E as <-. cbn [io trace add_trace] in Ht.
  apply app_inv_head in Ht. symmetry. exact Ht.
Qed.

(** The response carries the next bytes of the stream. *)
Record received (a k : Z) (e : receive_event) (resp : response) : Prop := {
  resp_buffer : res_buffer resp = stretch stream a (a + k);
  resp_value : res_return_value resp = k;
  resp_errno : res_errno resp = 0;
  resp_length : res_length resp = sizeof_AddressResponseMessage + k;
  resp_fd : res_fd resp = le_fd (re_event e);
  resp_destination : res_destination resp = le_source (re_event e) }.

Lemma receive_response_spec a f e w k :
  receiving a f w → 0 ≤ k ≤ f - a →
  ∃ resp, receive_response e (sock w) (receive_index_ (rc (ctx w))) k = Done resp ∧ received a k e resp.
Proof.
  intros [_ _ _ _ _ _ _ Ho (read & Hu & Hri) Hw Hw0 Hdr] Hk.
  unfold MAX_TCP_RECEIVE_WINDOW_SIZE, USHRT_MAX in Hw.
  unfold receive_response, sizeof_AddressResponseMessage, UNIX_SOCKET_MAX_BUFFER_SIZE.
  rewrite (proj2 (Z.leb_le _ _)) by lia. cbn [assert mbind outcome_bind]. unfold get_receive_buffer.
  assert (Z.of_nat (length (receive_buffer_ (sock w))) = Z.of_nat (length read) + (f - a)) as Hlen
    by (rewrite Hu, length_app, Nat2Z.inj_add, length_stretch; lia).
  rewrite buffer_bytes_Done by lia. cbn [mbind outcome_bind mret outcome_ret]. eexists. split; [reflexivity |].
  split; try reflexivity. cbn [res_buffer]. unfold slice. rewrite Hu, Hri, Nat2Z.id, drop_app_length.
  rewrite (stretch_app stream a (a + k) f) by lia. apply take_app_length'.
  pose proof (length_stretch a (a + k)). lia.
Qed.

(** The state after the application took [k] bytes. *)
Definition taken (k : Z) (c : rc_context) (sk : socket) : rc_context :=
  let c := set_rcv_wnd (rcv_wnd_ c + k) (set_receive_index (receive_index_ c + k) c) in
  if Z.of_nat (length (receive_buffer_ sk)) <=? receive_index_ c then set_receive_index 0 c else c.

Definition left_over (k : Z) (c : rc_context) (sk : socket) : socket :=
  if Z.of_nat (length (receive_buffer_ sk)) <=? receive_index_ c + k then with_buffers [] (send_buffer_ sk) sk else sk.

Lemma receiving_taken a f w w' k :
  receiving a f w → Z.of_nat (length (receive_buffer_ (sock w))) < 2 ^ 30 → 0 ≤ k ≤ f - a →
  rc (ctx w') = taken k (rc (ctx w)) (sock w) → sock w' = left_over k (rc (ctx w)) (sock w) → ack_ok (ctx w') →
  receiving (a + k) f w'.
Proof.
  intros [Hl _ Hn Hinv Hc He Hi Ho (read & Hu & Hri) Hw Hw0 Hdr] Hbuf Hk Hrc Hsk Hack.
  assert (Z.of_nat (length (receive_buffer_ (sock w))) = Z.of_nat (length read) + (f - a)) as Hlen
    by (rewrite Hu, length_app, Nat2Z.inj_add, length_stretch; lia).
  assert (Forall (fun r => finish pos r ≤ a + k + MAX_TCP_RECEIVE_WINDOW_SIZE) (buffer_ (receive_window_ (rc (ctx w))))) as He'
    by (eapply Forall_impl; [exact He | cbn; lia]).
  assert (i32 (receive_index_ (rc (ctx w)) + k) = receive_index_ (rc (ctx w)) + k) as Hi' by (apply i32_small; lia).
  assert (u16 (rcv_wnd_ (rc (ctx w)) + k) = rcv_wnd_ (rc (ctx w)) + k) as Hw'
    by (unfold MAX_TCP_RECEIVE_WINDOW_SIZE, USHRT_MAX in Hw; apply u16_small; unfold is_u16; lia).
  assert (i32 0 = 0) as Hi0 by reflexivity.
  unfold taken, left_over in Hrc, Hsk. revert Hrc Hsk. rc_simpl. rewrite Hi'.
  destruct (Z.leb_spec (Z.of_nat (length (receive_buffer_ (sock w)))) (receive_index_ (rc (ctx w)) + k)) as [Hle | Hle];
    intros Hrc Hsk; split; rewrite ?Hrc, ?Hsk; unfold held in *; rc_simpl; rewrite ?Hi', ?Hw', ?Hi0; auto; try lia.
  - exists []. replace (a + k) with f by lia. rewrite stretch_nil. auto.
  - exists (read ++ stretch stream a (a + k))%list. rewrite <- app_assoc, <- stretch_app by lia.
    split; [exact Hu |]. rewrite length_app, Nat2Z.inj_add, length_stretch by lia. lia.
Qed.

Lemma maybe_ack (b : bool) s w :
  is_Some (local_ (sock w)) → ack_ok (ctx w) →
  ∃ w' t, (if b then ack s else fun w => Done (tt, w)) w = Done (tt, w') ∧ ack_ok (ctx w') ∧ rc (ctx w') = rc (ctx w) ∧
    sock w' = sock w ∧ trace (io w') = (trace (io w) ++ t)%list ∧ Forall (fun x => silent x = true) t.
Proof.
  intros Hl Hk. destruct b.
  - destruct (ack_spec s w Hl Hk) as (w' & t & ? & ? & ? & ? & _ & ? & ?). eauto 10.
  - exists w, []. rewrite app_nil_r. auto 10.
Qed.

Lemma received_data_spec a f e w :
  receiving a f w → Z.of_nat (length (receive_buffer_ (sock w))) < 2 ^ 30 → 0 ≤ re_data_length e < 2 ^ 63 →
  let k := Z.min (f - a) (re_data_length e) in
  ∃ resp t w', create_and_dispatch_received_data ack e w = Done (tt, w') ∧ received a k e resp ∧ Forall (fun x => silent x = true) t ∧
    receiving (a + k) f w' ∧ rc (ctx w') = taken k (rc (ctx w)) (sock w) ∧ sock w' = left_over k (rc (ctx w)) (sock w) ∧
    trace (io w') = (trace (io w) ++ t ++ [Dispatch (ResponseEvent resp); Enqueue (ReceiveBufferNotFullEvent (le_socket (re_event e)))])%list.
Proof.
  intros Hr Hbuf HL k. pose proof Hr as [Hl Hack _ _ _ _ Hi Ho (read & Hu & Hri) Hw Hw0 Hdr].
  assert (Z.of_nat (length (receive_buffer_ (sock w))) = Z.of_nat (length read) + (f - a)) as Hlen
    by (rewrite Hu, length_app, Nat2Z.inj_add, length_stretch; lia).
  unfold MAX_TCP_RECEIVE_WINDOW_SIZE, USHRT_MAX in Hw.
  assert (0 ≤ k ≤ f - a) as Hk by lia. destruct (receive_response_spec a f e w k Hr Hk) as (resp & Er & Hresp).
  exists resp. unfold create_and_dispatch_received_data. run_rc. unfold get_receive_buffer.
  assert (i32 (Z.min (u64 (Z.of_nat (length (receive_buffer_ (sock w))) - receive_index_ (rc (ctx w)))) (re_data_length e)) = k)
    as -> by (unfold k; word_lia).
  rewrite Er. run_rc. rewrite (resp_value _ _ _ _ Hresp).
  replace (u64 k <=? re_data_length e) with true by (symmetry; apply Z.leb_le; unfold k; word_lia). run_rc.
  set (c1 := update_rc _ (ctx w)).
  assert (ack_ok c1) as Hk1 by (apply ack_ok_stable; [reflexivity | exact Hack]).
  destruct (maybe_ack (2 * rcv_wnd_ (rc (ctx w)) <=? rcv_wnd_ (rc (ctx w)) + k) (le_socket (re_event e))
    {| ctx := c1; sock := sock w; io := io w |} Hl Hk1) as (w2 & t & E2 & Hk2 & Hrc2 & Hsk2 & Ht2 & Hsil).
  match type of E2 with ?l = _ => match goal with |- context [match ?x with Done _ => _ | Fault _ => _ end] => change x with l end end.
  rewrite E2. cbn [ctx sock io] in Hrc2, Hsk2, Ht2. rewrite rc_update, Hrc2. unfold c1. rewrite rc_update. rc_simpl.
  assert (i32 (receive_index_ (rc (ctx w)) + k) = receive_index_ (rc (ctx w)) + k) as Hi' by (apply i32_small; lia).
  assert (u64 (receive_index_ (rc (ctx w)) + k) = receive_index_ (rc (ctx w)) + k) as Hi'' by (apply Z.mod_small; lia).
  rewrite Hi', Hi''. exists t.
  assert (∀ c sk i, rc c = taken k (rc (ctx w)) (sock w) → sk = left_over k (rc (ctx w)) (sock w) → ack_ok c →
    receiving (a + k) f {| ctx := c; sock := sk; io := i |}) as Hrcv by (intros; apply (receiving_taken a f w); auto).
  unfold taken, left_over in *. revert Hrcv. rc_simpl. rewrite Hi'.
  destruct (Z.leb_spec (Z.of_nat (length (receive_buffer_ (sock w)))) (receive_index_ (rc (ctx w)) + k)) as [Hle | Hle];
    intros Hrcv; run_rc; eexists; (split; [reflexivity |]); (split; [exact Hresp |]); (split; [exact Hsil |]); rc_simpl; rewrite Hsk2, Hrc2, Ht2;
    unfold c1; rc_simpl; rewrite <- !app_assoc;
    (split; [apply Hrcv; rc_simpl; rewrite ?Hrc2; unfold c1; rc_simpl; auto; repeat (apply ack_ok_stable; [reflexivity |]); exact Hk2 | auto]).
Qed.

(** With nothing to read the call waits. *)
Lemma receive_waits a f e w :
  receiving a f w → a = f → receive_event_ (rc (ctx w)) = None →
  ∃ w', state_receive ack e w = Done (tt, w') ∧ receive_event_ (rc (ctx w')) = Some e ∧ receiving a f w' ∧
    io w' = io w ∧ sock w' = sock w ∧ odc (rc (ctx w')) = odc (rc (ctx w)) ∧ held f (rc (ctx w')) = held f (rc (ctx w)).
Proof.
  intros Hr Haf He. unfold state_receive. run_rc. unfold get_receive_buffer. rewrite (rcv_drained _ _ _ Hr Haf). cbn [length Nat.eqb]. run_rc.
  rewrite He. eexists. split; [reflexivity |]. rc_simpl. split; [reflexivity |]. split; [| unfold held; rc_simpl; auto].
  destruct Hr. split; unfold held in *; rc_simpl; auto. apply ack_ok_stable; [reflexivity | assumption].
Qed.

(** There is something to read. *)
Lemma unread_nonempty a f w : receiving a f w → a < f → Nat.eqb (length (get_receive_buffer (sock w))) 0 = false.
Proof.
  intros Hr Haf. destruct (rcv_unread _ _ _ Hr) as (read & Hu & _). apply Nat.eqb_neq. unfold get_receive_buffer.
  rewrite Hu, length_app. pose proof (length_stretch a f). lia.
Qed.

(** A waiting call answered. *)
Lemma receiving_answered a f w :
  receiving a f w → receiving a f {| ctx := update_rc (set_receive_event None) (ctx w); sock := sock w; io := io w |}.
Proof. intros []. split; unfold held in *; rc_simpl; auto. apply ack_ok_stable; [reflexivity | assumption]. Qed.

(** C10: a receive call. With unread bytes it is answered at once with the next of them, at
    most as many as the caller has room for; the window reopens by that many and the emptied
    buffer is released. With none, the call waits, and [state_receive_buffer_not_empty]
    answers it the same way when bytes arrive. *)
Theorem state_receive_spec a f e w :
  receiving a f w → Z.of_nat (length (receive_buffer_ (sock w))) < 2 ^ 30 → 0 ≤ re_data_length e < 2 ^ 63 →
  let k := Z.min (f - a) (re_data_length e) in
  (a = f → receive_event_ (rc (ctx w)) = None →
     ∃ w', state_receive ack e w = Done (tt, w') ∧ receive_event_ (rc (ctx w')) = Some e ∧ receiving a f w' ∧ io w' = io w) ∧
  (a < f →
     ∃ resp t w', state_receive ack e w = Done (tt, w') ∧ received a k e resp ∧ receiving (a + k) f w' ∧
       rcv_wnd_ (rc (ctx w')) = rcv_wnd_ (rc (ctx w)) + k ∧
       trace (io w') = (trace (io w) ++ t ++ [Dispatch (ResponseEvent resp); Enqueue (ReceiveBufferNotFullEvent (le_socket (re_event e)))])%list) ∧
  (a < f → receive_event_ (rc (ctx w)) = Some e →
     ∃ resp t w', state_receive_buffer_not_empty ack w = Done (tt, w') ∧ received a k e resp ∧ receiving (a + k) f w' ∧
       receive_event_ (rc (ctx w')) = None ∧
       trace (io w') = (trace (io w) ++ t ++ [Dispatch (ResponseEvent resp); Enqueue (ReceiveBufferNotFullEvent (le_socket (re_event e)))])%list).
Proof.
  intros Hr Hbuf HL k. destruct (received_data_spec a f e w Hr Hbuf HL) as (resp & t & w' & E & Hresp & _ & Hr' & Hrc & Hsk & Ht).
  fold k in Hresp, Hr', Hrc. pose proof Hr as [Hl Hack _ _ _ _ Hi Ho (read & Hu & Hri) Hw Hw0 Hdr].
  pose proof (unread_nonempty a f w Hr) as Hne. split; [| split].
  - intros Haf He. destruct (receive_waits a f e w Hr Haf He) as (w1 & E1 & He1 & Hr1 & Hio & _). eauto 10.
  - intros Haf. exists resp, t, w'. split; [| split; [exact Hresp |]; split; [exact Hr' |]; split; [| exact Ht]].
    + unfold state_receive. run_rc. rewrite (Hne Haf). exact E.
    + pose proof (rcv_wnd _ _ _ Hr') as Hw'. assert (held f (rc (ctx w')) = held f (rc (ctx w))) as Hh.
      { unfold held. rewrite Hrc. unfold taken. rc_simpl. destruct (_ <=? _); reflexivity. }
      rewrite Hh in Hw'. lia.
  - intros Haf He. eexists resp, t, _. split; [| split; [exact Hresp |]].
    + unfold state_receive_buffer_not_empty. run_rc. rewrite He, (Hne Haf). run_rc. rewrite E. reflexivity.
    + split; [exact (receiving_answered _ _ _ Hr') |]. rc_simpl. auto.
Qed.

End Receiving.

(** ** Sequence numbers, acknowledgements and the retransmission timer *)

Lemma estimate_rto rtt c : dleb MIN_RTO (rto_ (estimate rtt c)) = true.
Proof. unfold estimate. destruct (dltb _ _); apply dmax_ge; reflexivity. Qed.

Lemma estimate_other rtt c :
  odc (estimate rtt c) = odc c ∧ timer_ (estimate rtt c) = timer_ c ∧ receive_window_ (estimate rtt c) = receive_window_ c ∧
  rcv_nxt_ (estimate rtt c) = rcv_nxt_ c ∧ rcv_wnd_ (estimate rtt c) = rcv_wnd_ c.
Proof. unfold estimate. destruct (dltb _ _); auto. Qed.

(** A delay the operating system accepts. *)
Definition delay_ok (x : double) (sec ns : Z) : Prop := split_seconds x = Done (sec, ns) ∧ 0 ≤ sec ∧ 0 ≤ ns.

Lemma INITIAL_RTO_delay : delay_ok INITIAL_RTO 3 0.
Proof. split; [vm_compute; reflexivity | lia]. Qed.

(** *** Sending *)

(** The octets of sequence space a segment takes. *)
Definition sequence_length (p : tcp_packet) : Z := if is_tcp_syn p || is_tcp_fin p then 1 else get_data_length_bytes p.

Record outgoing (p : tcp_packet) : Prop := {
  out_headers : headers_ok p;
  out_options : options_ p = [timestamp_option] }.

Definition stamped_option (time echo : Z) : tcp_header_option :=
  let o := set_timestamp time timestamp_option in if negb (echo =? 0) then TCPOptions.set_echo_reply echo o else o.

Lemma stamped_option_spec time echo :
  is_u32 time → is_u32 echo → get_timestamp (stamped_option time echo) = time ∧ TCPOptions.get_echo_reply (stamped_option time echo) = echo.
Proof.
  intros Ht He. unfold stamped_option, get_timestamp, TCPOptions.get_echo_reply, set_timestamp, TCPOptions.set_echo_reply.
  assert (length (TCPOptions.data_ timestamp_option) = 40%nat) as Hl by (vm_compute; reflexivity).
  destruct (Z.eqb_spec echo 0) as [-> | Hne]; cbn [negb TCPOptions.data_].
  - split; [rewrite get_put_same by (rewrite Hl; reflexivity); apply u32_small, Ht |].
    rewrite get_put_other by (rewrite ?Hl; reflexivity). vm_compute. reflexivity.
  - split; [rewrite get_put_other by (rewrite ?length_put, ?Hl; reflexivity); rewrite get_put_same by (rewrite Hl; reflexivity); apply u32_small, Ht |].
    rewrite get_put_same by (rewrite ?length_put, ?Hl; reflexivity). apply u32_small, He.
Qed.

Lemma put_option_ok f v o :
  option_ok o → Forall is_byte (TCPOptions.data_ o) → get_length o = 10 → forallb (fun i => Nat.leb 2 i && Nat.ltb i 10) (offsets f) = true →
  field_ok 40 f = true →
  let o' := {| TCPOptions.data_ := put f v (TCPOptions.data_ o) |} in
  option_ok o' ∧ Forall is_byte (TCPOptions.data_ o') ∧ get_length o' = 10 ∧ get_kind o' = get_kind o.
Proof.
  intros [Hs Hk Hl Ht] Hb H10 Hf Hok o'. rewrite forallb_forall in Hf.
  assert (∀ i, i ∈ offsets f → (2 ≤ i < 10)%nat) as Hi.
  { intros i Hi%list_elem_of_In. apply Hf in Hi. apply andb_true_iff in Hi as [?%Nat.leb_le ?%Nat.ltb_lt]. lia. }
  assert (∀ i, (i < 2)%nat → get (byte i) (TCPOptions.data_ o') = get (byte i) (TCPOptions.data_ o)) as Hg.
  { intros i Hlt. apply get_ext. intros j Hj. unfold byte_at, o'. cbn [TCPOptions.data_]. rewrite lookup_put; [reflexivity |].
    intros Hj'%Hi. cbn in Hj. apply list_elem_of_singleton in Hj as ->. lia. }
  assert (get_kind o' = get_kind o) as Ek by (apply (Hg 0%nat); lia).
  assert (get_length o' = get_length o) as El by (apply (Hg 1%nat); lia).
  split; [split | split; [| split; congruence]].
  - unfold o'. cbn [TCPOptions.data_]. rewrite length_put. exact Hs.
  - rewrite Ek. exact Hk.
  - rewrite El. exact Hl.
  - rewrite El, <- Ht. unfold o'. cbn [TCPOptions.data_]. rewrite H10. apply list_eq. intros i. rewrite !lookup_drop.
    apply lookup_put. intros Hin%Hi. lia.
  - unfold o'. cbn [TCPOptions.data_]. apply put_is_byte; [rewrite Hs; exact Hok | exact Hb].
Qed.

Lemma stamped_option_ok time echo :
  option_ok (stamped_option time echo) ∧ Forall is_byte (TCPOptions.data_ (stamped_option time echo)) ∧
  get_length (stamped_option time echo) = 10.
Proof.
  assert (option_ok timestamp_option) as H0.
  { split; [vm_compute; reflexivity | apply Z.leb_le; vm_compute; reflexivity | | vm_compute; reflexivity].
    split; apply Z.leb_le; vm_compute; reflexivity. }
  destruct (put_option_ok f_timestamp_value time timestamp_option H0) as (H1 & B1 & L1 & _); [| vm_compute; reflexivity.. |].
  { apply Forall_forall. intros b Hb. assert (forallb (fun b => (0 <=? b) && (b <? 256)) (TCPOptions.data_ timestamp_option) = true) as F
      by (vm_compute; reflexivity). rewrite forallb_forall in F. apply list_elem_of_In, F in Hb. unfold is_byte. lia. }
  unfold stamped_option. destruct (negb _); [| auto].
  destruct (put_option_ok f_timestamp_echo_reply echo _ H1 B1 L1) as (H2 & B2 & L2 & _); [vm_compute; reflexivity.. |]. auto.
Qed.

(** The segment with its sequence number, acknowledgement, timestamp and window filled in. *)
Definition numbered (nxt rcv_nxt : Z) (p : tcp_packet) : tcp_packet :=
  let p := set_tcp_ack_number rcv_nxt (set_tcp_sequence_number nxt p) in if rcv_nxt =? 0 then p else set_tcp_ack true p.

Definition stamped (nxt rcv_nxt wnd time echo : Z) (p : tcp_packet) : tcp_packet :=
  set_tcp_receive_window_size wnd (TCPPacket.with_options [stamped_option time echo] (numbered nxt rcv_nxt p)).

Lemma numbered_spec nxt rcv_nxt p :
  headers_ok p → is_u32 nxt → is_u32 rcv_nxt →
  let q := numbered nxt rcv_nxt p in
  headers_ok q ∧ options_ q = options_ p ∧ data_of q = data_of p ∧ get_data_length_bytes q = get_data_length_bytes p ∧
  get_tcp_sequence_number q = nxt ∧ get_tcp_ack_number q = rcv_nxt ∧
  is_tcp_ack q = (is_tcp_ack p || negb (rcv_nxt =? 0)) ∧ is_tcp_syn q = is_tcp_syn p ∧ is_tcp_fin q = is_tcp_fin p.
Proof.
  intros Hp Hn Hr q.
  destruct (set_header_field f_seq nxt p eq_refl Hp) as (H1 & D1 & L1).
  destruct (set_header_field f_ack_seq rcv_nxt _ eq_refl H1) as (H2 & D2 & L2).
  destruct (set_header_field f_ack 1 _ eq_refl H2) as (H3 & D3 & L3).
  unfold q, numbered, get_tcp_ack_number. pose proof (headers_wf _ Hp). pose proof (headers_wf _ H1). pose proof (headers_wf _ H2).
  assert (∀ v, is_u32 v → v mod 2 ^ width f_seq = v) as Hs by (intros; apply u32_small; assumption).
  assert (∀ v, is_u32 v → v mod 2 ^ width f_ack_seq = v) as Ha by (intros; apply u32_small; assumption).
  destruct (Z.eqb_spec rcv_nxt 0) as [E | E].
  - split; [exact H2 |]. split; [reflexivity |]. split; [exact (eq_trans D2 D1) |]. split; [exact (eq_trans L2 L1) |].
    unfold_tcp. rewrite !get_tcp_set_same, !get_tcp_set_other by (reflexivity || assumption).
    rewrite !get_tcp_set_same, ?get_tcp_set_other by (reflexivity || assumption). rewrite orb_false_r. auto.
  - split; [exact H3 |]. split; [reflexivity |]. split; [exact (eq_trans D3 (eq_trans D2 D1)) |].
    split; [exact (eq_trans L3 (eq_trans L2 L1)) |]. unfold_tcp.
    repeat first [rewrite get_tcp_set_same by (reflexivity || assumption) | rewrite get_tcp_set_other by (reflexivity || assumption)].
    rewrite Hs, Ha, orb_true_r by assumption. auto.
Qed.

Lemma stamped_spec nxt rcv_nxt wnd time echo p :
  headers_ok p → is_u32 nxt → is_u32 rcv_nxt → is_u16 wnd →
  let q := stamped nxt rcv_nxt wnd time echo p in
  headers_ok q ∧ options_ q = [stamped_option time echo] ∧ data_of q = data_of p ∧ get_data_length_bytes q = get_data_length_bytes p ∧
  get_tcp_sequence_number q = nxt ∧ get_tcp_ack_number q = rcv_nxt ∧ get_tcp_receive_window_size q = wnd ∧
  is_tcp_ack q = (is_tcp_ack p || negb (rcv_nxt =? 0)) ∧ is_tcp_syn q = is_tcp_syn p ∧ is_tcp_fin q = is_tcp_fin p.
Proof.
  intros Hp Hn Hr Hw q. destruct (numbered_spec nxt rcv_nxt p Hp Hn Hr) as (H1 & _ & D1 & L1 & Es & Ea & Ek & Ey & Ef).
  set (q1 := TCPPacket.with_options [stamped_option time echo] (numbered nxt rcv_nxt p)).
  assert (headers_ok q1) as H1' by (destruct H1; split; assumption).
  destruct (set_header_field f_window wnd q1 eq_refl H1') as (H2 & D2 & L2). pose proof (headers_wf _ H1').
  split; [exact H2 |]. split; [reflexivity |]. split; [exact (eq_trans D2 D1) |]. split; [exact (eq_trans L2 L1) |].
  change q with (set_tcp f_window wnd q1). clear q. unfold_tcp.
  rewrite get_tcp_set_same by (reflexivity || assumption). rewrite !get_tcp_set_other by (reflexivity || assumption).
  change (wnd mod 2 ^ width f_window) with (u16 wnd). rewrite u16_small by assumption. auto 10.
Qed.

(** What [append_control_bytes_to_send_buffer] appends. *)
Definition control_bytes (p : tcp_packet) (send_buffer : list Z) : list Z :=
  if is_tcp_syn p && negb (byte_is send_buffer 0 SYN_BYTE) then [SYN_BYTE]
  else if is_tcp_fin p && (Nat.eqb (length send_buffer) 0 || negb (byte_is send_buffer (length send_buffer - 1) FIN_BYTE)) then [FIN_BYTE]
  else [].

Section SendingProofs.
Context {C : Type} `{Reliability C}.

(** The timer as [start_timer] leaves it. *)
Definition started (s : nat) (sec ns : Z) (w : env C) : env C :=
  match timer_ (rc (ctx w)) with
  | Some _ => w
  | None => {| ctx := update_rc (set_timeout_event (Some (next_pointer (io w)))) (ctx w); sock := sock w;
               io := {| next_pointer := S (next_pointer (io w)); now := now (io w);
                        trace := (trace (io w) ++ [Dispatch (TimeoutEvent (next_pointer (io w)) s sec ns)])%list |} |}
  end.

Lemma start_timer_spec s sec ns (w : env C) :
  delay_ok (rto_ (rc (ctx w))) sec ns → start_timer s w = Done (tt, started s sec ns w).
Proof.
  intros (E & Hs & Hn). unfold start_timer, started. run_rc. destruct (timer_ (rc (ctx w))) eqn:Et; [reflexivity |].
  run_rc. rewrite E. run_rc. unfold new_timeout. run_rc. rewrite !(proj2 (Z.leb_le _ _)) by assumption. reflexivity.
Qed.

(** The timer as [cancel_timer] leaves it. *)
Definition cancelled (w : env C) : env C :=
  match timer_ (rc (ctx w)) with
  | None => w
  | Some t => {| ctx := update_rc (set_timeout_event None) (ctx w); sock := sock w;
                 io := add_trace [Dispatch (CancelTimerEvent (Some t))] (io w) |}
  end.

Lemma cancel_timer_spec (w : env C) : cancel_timer w = Done (tt, cancelled w).
Proof. unfold cancel_timer, cancelled. run_rc. destruct (timer_ (rc (ctx w))); reflexivity. Qed.

(** The state after an acknowledgement of position [a], before the timer is dealt with. *)
Record acked (base u n m a : Z) (s : nat) (ts : tcp_header_option) (w w' : env C) : Prop := {
  acked_window : window base a (Z.max (u + n) a - a) m (odc (rc (ctx w')));
  acked_rc : ∃ o, rc (ctx w') = estimate (rtt_of (u32 (now (io w))) ts) (with_odc (fun _ => o) (rc (ctx w)));
  acked_sock : sock w' = with_buffers (receive_buffer_ (sock w)) (drop (Z.to_nat (a - u)) (send_buffer_ (sock w))) (sock w);
  acked_io : io w' = add_trace [Enqueue (SendBufferNotFullEvent s)] (io w) }.

Lemma window_ack base u n m a o :
  window base u n m o → u < a ≤ m →
  window base a (Z.max (u + n) a - a) m
    (let o := Outstanding.set_snd_una (seq_at base a) o in
     if less_than (Outstanding.get_snd_nxt o) (Outstanding.get_snd_una o)
     then Outstanding.set_snd_nxt (u32 (Outstanding.get_snd_una o)) o else o).
Proof.
  intros [Hu Hn Hm Ho] Ha. cbn [Outstanding.set_snd_una Outstanding.get_snd_nxt Outstanding.get_snd_una snd_una_ snd_nxt_].
  rewrite Hn, seq_at_less_than by lia. destruct (Z.ltb_spec (u + n) a) as [Hlt | Hlt].
  - split; cbn [Outstanding.set_snd_nxt Outstanding.set_snd_una snd_una_ snd_nxt_ snd_max_]; [reflexivity | | | lia].
    + rewrite Z.max_r, Zplus_minus by lia. apply u32_idemp.
    + rewrite Hm. unfold seq_at at 2. rewrite u32_idemp. fold (seq_at base a).
      rewrite seq_at_less_than by lia. rewrite (proj2 (Z.ltb_ge _ _)) by lia. reflexivity.
  - split; cbn [Outstanding.set_snd_una snd_una_ snd_nxt_ snd_max_]; [reflexivity | | exact Hm | lia]. rewrite Hn. f_equal. lia.
Qed.

Lemma handle_valid_ack_spec base u n m a s p ts p' (w : env C) :
  window base u n m (odc (rc (ctx w))) → get_tcp_ack_number p = seq_at base a → u < a ≤ m →
  get_option TCPOPT_TIMESTAMP p = Done (Some ts, p') →
  ∃ w', acked base u n m a s ts w w' ∧
    handle_valid_ack s p w = (if decide (u + n ≤ a) then cancel_timer else reset_timer s) w'.
Proof.
  intros Hw Ea Ha Eo. pose proof Hw as [Hu Hn Hm Hord]. pose proof (window_ack base u n m a _ Hw Ha) as Hw'. cbn zeta in Hw'.
  set (o := if less_than _ _ then _ else _) in Hw'.
  assert (u32 (seq_at base a - get_snd_una (rc (ctx w))) = a - u) as Hna.
  { unfold get_snd_una, Outstanding.get_snd_una. rewrite Hu, seq_at_sub. apply u32_small. unfold is_u32. lia. }
  unfold handle_valid_ack. run_rc. rewrite Ea, Hna, Eo. unfold update_rto. run_rc. cbn [deref]. run_rc.
  set (w' := {| ctx := _; sock := _; io := _ |} : env C).
  match goal with |- context [get_snd_nxt ?c =? _] => assert (rc (ctx w') = c) as Erc
    by (unfold w'; rc_simpl; reflexivity) end.
  assert (rc (ctx w') = estimate (rtt_of (u32 (now (io w))) ts) (with_odc (fun _ => o) (rc (ctx w)))) as Hrc.
  { rewrite Erc. f_equal. unfold o, get_snd_nxt, get_snd_una, set_snd_una, set_snd_nxt. rc_simpl.
    destruct (less_than _ _); reflexivity. }
  exists w'. destruct (estimate_other (rtt_of (u32 (now (io w))) ts) (with_odc (fun _ => o) (rc (ctx w)))) as (Eodc & _).
  assert (odc (rc (ctx w')) = o) as Hodc by (rewrite Hrc; exact Eodc).
  assert (window base a (Z.max (u + n) a - a) m (odc (rc (ctx w')))) as Hwin by (rewrite Hodc; exact Hw').
  split; [split; [exact Hwin | eauto | reflexivity | reflexivity] |].
  rewrite <- Erc. unfold get_snd_nxt, get_snd_una, Outstanding.get_snd_nxt, Outstanding.get_snd_una.
  rewrite (window_nxt _ _ _ _ _ Hwin), (window_una _ _ _ _ _ Hwin), seq_at_eqb by lia.
  replace (a + (Z.max (u + n) a - a) =? a) with (u + n <=? a) by (apply eq_true_iff_eq; lia).
  rewrite (proj2 (Z.ltb_lt 0 (a - u))) by lia.
  destruct (Z.leb_spec (u + n) a); [rewrite decide_True by lia | rewrite decide_False by lia]; reflexivity.
Qed.

(** The two ways the timer ends: nothing outstanding, or a fresh one for what is left. *)
Lemma acked_timer base u n m a s ts w w' sec ns :
  acked base u n m a s ts w w' → delay_ok (rto_ (estimate (rtt_of (u32 (now (io w))) ts) (rc (ctx w)))) sec ns →
  ∃ w2, (if decide (u + n ≤ a) then cancel_timer else reset_timer s) w' = Done (tt, w2) ∧
    odc (rc (ctx w2)) = odc (rc (ctx w')) ∧ rto_ (rc (ctx w2)) = rto_ (rc (ctx w')) ∧ sock w2 = sock w' ∧
    timer_ (rc (ctx w2)) = (if decide (u + n ≤ a) then None else Some (next_pointer (io w))) ∧
    trace (io w2) = (trace (io w) ++ [Enqueue (SendBufferNotFullEvent s)]
      ++ match timer_ (rc (ctx w)) with Some t => [Dispatch (CancelTimerEvent (Some t))] | None => [] end
      ++ if decide (u + n ≤ a) then [] else [Dispatch (TimeoutEvent (next_pointer (io w)) s sec ns)])%list.
Proof.
  intros [_ [o Hrc] _ Hio] Hd.
  assert (rto_ (rc (ctx w')) = rto_ (estimate (rtt_of (u32 (now (io w))) ts) (rc (ctx w)))) as Hrto
    by (rewrite Hrc; unfold estimate; rc_simpl; destruct (dltb _ _); reflexivity).
  assert (timer_ (rc (ctx w')) = timer_ (rc (ctx w))) as Ht
    by (rewrite Hrc; destruct (estimate_other (rtt_of (u32 (now (io w))) ts) (with_odc (fun _ => o) (rc (ctx w)))) as (_ & E & _); exact E).
  assert (cancelled w' = {| ctx := ctx (cancelled w'); sock := sock w'; io := io (cancelled w') |} ∧
    timer_ (rc (ctx (cancelled w'))) = None ∧ odc (rc (ctx (cancelled w'))) = odc (rc (ctx w')) ∧
    rto_ (rc (ctx (cancelled w'))) = rto_ (rc (ctx w')) ∧ next_pointer (io (cancelled w')) = next_pointer (io w) ∧
    trace (io (cancelled w')) = (trace (io w) ++ [Enqueue (SendBufferNotFullEvent s)]
      ++ match timer_ (rc (ctx w)) with Some t => [Dispatch (CancelTimerEvent (Some t))] | None => [] end)%list)
    as (Hsk & Htc & Hoc & Hrc' & Hpc & Htr).
  { unfold cancelled. rewrite Ht, Hio. destruct (timer_ (rc (ctx w))) eqn:Et; rc_simpl; unfold add_trace; cbn [next_pointer trace];
      rewrite ?Hio, ?app_nil_r, <- ?app_assoc; auto 10. destruct w'; cbn in *; subst; auto 10. }
  case_decide as Hle.
  - rewrite cancel_timer_spec. eexists. split; [reflexivity |]. rewrite Hsk at 3. rewrite app_nil_r. auto 10.
  - unfold reset_timer. run. rewrite cancel_timer_spec. rewrite (start_timer_spec s sec ns) by (rewrite Hrc', Hrto; exact Hd).
    eexists. split; [reflexivity |]. unfold started. rewrite Htc. rc_simpl. rewrite Hpc, Htr, Hsk, <- !app_assoc. auto 10.
Qed.

Context (ack : nat → handler C unit) `{!Acknowledger ack}.

(** One more acknowledgement that advances nothing: counted when it repeats the last one,
    else the count starts afresh; the third repetition asks for a retransmission. *)
Definition repeats (a : Z) (c : rc_context) : Z := if duplicate_ack_number_ c =? a then i32 (duplicates_ c + 1) else 0.

Lemma handle_duplicate_ack_spec s p w :
  let a := get_tcp_ack_number p in let d := repeats a (rc (ctx w)) in
  let c := set_duplicates d (set_duplicate_ack_number a (rc (ctx w))) in
  ∃ w', handle_duplicate_ack s p w = Done (tt, w') ∧ sock w' = sock w ∧
    rc (ctx w') = (if decide (d = 3) then set_snd_nxt (get_snd_una c) c else c) ∧
    io w' = add_trace (if decide (d = 3) then [Enqueue (ResendPacketEvent s THREE_DUPLICATE_ACKS)] else []) (io w).
Proof.
  intros a d c. unfold handle_duplicate_ack. run_rc. fold a.
  match goal with |- context [update_rc ?f (ctx w)] =>
    assert (f (rc (ctx w)) = c) as Hc by (unfold c, d, repeats; destruct (Z.eqb_spec (duplicate_ack_number_ (rc (ctx w))) a) as [E|];
      [rewrite <- E; unfold set_duplicates, set_duplicate_ack_number; reflexivity | reflexivity]) end.
  rewrite Hc. change (duplicates_ c) with d. destruct (Z.eqb_spec d 3) as [Hd | Hd].
  - rewrite !decide_True by exact Hd. unfold resend_data. run_rc. eexists. split; [reflexivity |]. rc_simpl. rewrite Hc. auto.
  - rewrite !decide_False by exact Hd. eexists. split; [reflexivity |]. rc_simpl. rewrite add_trace_nil. auto.
Qed.

(** C4: acknowledgement processing (RFC 793 p. 72). With [n] bytes outstanding from position
    [u] and the highest sent at [m], an acknowledgement of position [a] that is new takes
    exactly the acknowledged bytes off the send buffer, moves SND.UNA to it (and SND.NXT, if
    that lags behind), keeps RTO at or above the minimum, stops the timer when nothing is
    left outstanding and restarts it otherwise. One beyond SND.MAX does nothing but one call of
    the virtual [create_and_dispatch_ack] and ends processing: with the base class's method
    one pure acknowledgement is queued and nothing else changes. An old one counts as a
    duplicate when data is outstanding, the third repetition taking SND.NXT back to SND.UNA
    and asking for one retransmission, and is ignored when none is. *)
Theorem handle_ack_spec base u n m a s p ts p' w sec ns :
  window base u n m (odc (rc (ctx w))) → is_tcp_ack p = true → get_tcp_ack_number p = seq_at base a →
  m - 2 ^ 31 < a < u + 2 ^ 31 → get_option TCPOPT_TIMESTAMP p = Done (Some ts, p') →
  delay_ok (rto_ (estimate (rtt_of (u32 (now (io w))) ts) (rc (ctx w)))) sec ns →
  (u < a ≤ m → ∃ w', handle_ack ack s p w = Done (true, w') ∧
     window base a (Z.max (u + n) a - a) m (odc (rc (ctx w'))) ∧
     send_buffer_ (sock w') = drop (Z.to_nat (a - u)) (send_buffer_ (sock w)) ∧
     dleb MIN_RTO (rto_ (rc (ctx w'))) = true ∧
     timer_ (rc (ctx w')) = (if decide (u + n ≤ a) then None else Some (next_pointer (io w))) ∧
     trace (io w') = (trace (io w) ++ [Enqueue (SendBufferNotFullEvent s)]
       ++ match timer_ (rc (ctx w)) with Some t => [Dispatch (CancelTimerEvent (Some t))] | None => [] end
       ++ if decide (u + n ≤ a) then [] else [Dispatch (TimeoutEvent (next_pointer (io w)) s sec ns)])%list) ∧
  (m < a →
     handle_ack ack s p w = match ack s w with Done (_, w') => Done (false, w') | Fault e => Fault e end ∧
     ((∀ s w, ack s w = base_create_and_dispatch_ack s w) → is_Some (local_ (sock w)) →
      ∃ q, pure_ack q ∧ handle_ack ack s p w =
        Done (false, {| ctx := ctx w; sock := sock w; io := add_trace [Enqueue (SendPacketEvent s q)] (io w) |}))) ∧
  (a ≤ u → 0 < n →
     let d := repeats (seq_at base a) (rc (ctx w)) in
     let c := set_duplicates d (set_duplicate_ack_number (seq_at base a) (rc (ctx w))) in
     ∃ w', handle_ack ack s p w = Done (true, w') ∧ sock w' = sock w ∧
       rc (ctx w') = (if decide (d = 3) then set_snd_nxt (get_snd_una c) c else c) ∧
       io w' = add_trace (if decide (d = 3) then [Enqueue (ResendPacketEvent s THREE_DUPLICATE_ACKS)] else []) (io w)) ∧
  (a ≤ u → n = 0 → handle_ack ack s p w = Done (true, w)).
Proof.
  intros Hw Hack Ea Ha Eo Hd. pose proof (window_order _ _ _ _ _ Hw) as Hord.
  assert (between_equal_right (get_snd_una (rc (ctx w))) (seq_at base a) (get_snd_max (rc (ctx w))) = ((u <? a) && (a <=? m)) ∧
    less_than (get_snd_max (rc (ctx w))) (seq_at base a) = (m <? a) ∧
    between_equal_left (seq_at base a) (get_snd_una (rc (ctx w))) (get_snd_nxt (rc (ctx w))) = ((a <=? u) && (u <? u + n)))
    as (Tr & Tl & Td).
  { unfold get_snd_una, get_snd_max, get_snd_nxt, Outstanding.get_snd_una, Outstanding.get_snd_max, Outstanding.get_snd_nxt.
    rewrite (window_una _ _ _ _ _ Hw), (window_nxt _ _ _ _ _ Hw), (window_max _ _ _ _ _ Hw).
    unfold between_equal_right, between_equal_left. autorewrite with seqnum. auto. }
  unfold handle_ack. rewrite Hack. cbn [negb]. run_rc. rewrite Ea, Tr, Tl, Td.
  split; [| split; [| split]]; intros Hc.
  - rewrite !(proj2 (Z.ltb_lt _ _)), (proj2 (Z.leb_le _ _)) by lia. cbn [andb]. run.
    destruct (handle_valid_ack_spec base u n m a s p ts p' w Hw Ea Hc Eo) as (w1 & Hacked & ->).
    destruct (acked_timer base u n m a s ts w w1 sec ns Hacked Hd) as (w2 & -> & Ho & Hr & Hs & Ht & Htr).
    exists w2. split; [reflexivity |]. rewrite Ho, Hs. split; [apply Hacked |].
    split; [rewrite (acked_sock _ _ _ _ _ _ _ _ _ Hacked); reflexivity |].
    split; [| auto]. rewrite Hr. destruct (acked_rc _ _ _ _ _ _ _ _ _ Hacked) as [o ->]. apply estimate_rto.
  - rewrite (proj2 (Z.leb_gt a m)), (proj2 (Z.ltb_lt m a)) by lia. rewrite andb_false_r. run. split.
    + destruct (ack s w) as [[[] w']|]; reflexivity.
    + intros Hown Hl. destruct (base_ack_spec s w Hl) as (q & Eq & Hq). exists q. split; [exact Hq |]. rewrite Hown, Eq. reflexivity.
  - intros Hn. rewrite (proj2 (Z.ltb_ge u a)), (proj2 (Z.ltb_ge m a)), (proj2 (Z.leb_le a u)), (proj2 (Z.ltb_lt u _)) by lia. cbn [andb]. run.
    destruct (handle_duplicate_ack_spec s p w) as (w' & -> & Hs & Hc' & Hio). rewrite Ea in Hc', Hio. exists w'. auto.
  - intros ->. rewrite (proj2 (Z.ltb_ge u a)), (proj2 (Z.ltb_ge m a)), (proj2 (Z.ltb_ge u _)) by lia. rewrite andb_false_r. reflexivity.
Qed.

(** Handling [k] duplicates of the same acknowledgement, one after the other. *)
Fixpoint duplicates_of (k : nat) (s : nat) (p : tcp_packet) : handler C unit :=
  match k with O => mret tt | S k => _ ← duplicates_of k s p; handle_duplicate_ack s p end.

(** Fast retransmit. However often an acknowledgement is repeated, exactly one
    retransmission is requested: at the third repetition after the first, when SND.NXT falls
    back to SND.UNA. *)
Theorem triple_duplicate k s p w :
  duplicate_ack_number_ (rc (ctx w)) ≠ get_tcp_ack_number p → Z.of_nat k < 2 ^ 31 →
  ∃ w', duplicates_of (S k) s p w = Done (tt, w') ∧ duplicates_ (rc (ctx w')) = Z.of_nat k ∧
    duplicate_ack_number_ (rc (ctx w')) = get_tcp_ack_number p ∧ sock w' = sock w ∧
    odc (rc (ctx w')) = (if decide (3 ≤ k)%nat then Outstanding.set_snd_nxt (u32 (get_snd_una (rc (ctx w)))) (odc (rc (ctx w)))
                         else odc (rc (ctx w))) ∧
    io w' = add_trace (if decide (3 ≤ k)%nat then [Enqueue (ResendPacketEvent s THREE_DUPLICATE_ACKS)] else []) (io w).
Proof.
  intros Hne. pose proof (proj2 (Z.eqb_neq _ _) Hne) as Hneb. induction k as [|k IH]; intros Hk.
  - eexists. split.
    { cbn [duplicates_of]. unfold handle_duplicate_ack. run_rc. rewrite Hneb. rc_simpl. reflexivity. }
    rc_simpl. rewrite Hneb. rewrite add_trace_nil. rc_simpl. auto 10.
  - destruct IH as (w1 & E & Hd & Hn & Hs & Ho & Hio); [lia |].
    change (duplicates_of (S (S k)) s p w) with ((_ ← duplicates_of (S k) s p; handle_duplicate_ack s p : handler C unit) w).
    run. rewrite E. unfold handle_duplicate_ack. run_rc. rewrite Hn, Z.eqb_refl. rc_simpl. rewrite Hd, i32_small by lia.
    replace (Z.of_nat k + 1) with (Z.of_nat (S k)) by lia.
    destruct (Z.eqb_spec (Z.of_nat (S k)) 3) as [Hk3 | Hk3].
    + unfold resend_data. run_rc. rewrite decide_False, add_trace_nil in * by lia. eexists. split; [reflexivity |].
      rewrite decide_True by lia. rc_simpl. rewrite Hn, Z.eqb_refl.
      unfold set_snd_nxt, get_snd_una. rc_simpl. rewrite Hio, Hd, Hn, Hs, Ho, i32_small by lia.
      rewrite !(decide_False (P := (3 ≤ k)%nat)), (decide_True (P := (3 ≤ S k)%nat)) by lia.
      split; [lia | auto].
    + eexists. split; [reflexivity |]. rc_simpl. rewrite Hn, Z.eqb_refl. rc_simpl. rewrite Hd, Hn, Hs, Hio, Ho, i32_small by lia.
      destruct (decide (3 ≤ k)%nat); [rewrite !(decide_True (P := (3 ≤ S k)%nat)) by lia | rewrite !(decide_False (P := (3 ≤ S k)%nat)) by lia];
        (split; [lia | auto]).
Qed.

(** The retransmission timer. Its expiry doubles RTO, takes SND.NXT back to SND.UNA and
    requests a retransmission; the timer is then off, so that the retransmission starts a new
    one. Any other timer changes nothing. *)
Theorem state_timer_fired_spec s t w :
  (timer_ (rc (ctx w)) = Some t →
     ∃ w', state_timer_fired s t w = Done (tt, w') ∧ timer_ (rc (ctx w')) = None ∧
       rto_ (rc (ctx w')) = dmul (rto_ (rc (ctx w))) (of_Z 2) ∧
       odc (rc (ctx w')) = Outstanding.set_snd_nxt (u32 (get_snd_una (rc (ctx w)))) (odc (rc (ctx w))) ∧
       sock w' = sock w ∧ io w' = add_trace [Enqueue (ResendPacketEvent s TIMEOUT)] (io w)) ∧
  (timer_ (rc (ctx w)) ≠ Some t → state_timer_fired s t w = Done (tt, w)).
Proof.
  split; intros Ht; unfold state_timer_fired; run_rc.
  - rewrite Ht, Nat.eqb_refl. unfold resend_data. run_rc. eexists. split; [reflexivity |]. rc_simpl. auto 10.
  - destruct (timer_ (rc (ctx w))) as [t'|]; [| reflexivity]. run.
    rewrite (proj2 (Nat.eqb_neq t' t)) by congruence. reflexivity.
Qed.

Lemma find_timestamp : find_option TCPOPT_TIMESTAMP [timestamp_option] = Some timestamp_option.
Proof. vm_compute. reflexivity. Qed.

Lemma update_timestamp f : update_option TCPOPT_TIMESTAMP f [timestamp_option] = [f timestamp_option].
Proof. cbn [update_option]. replace (get_kind timestamp_option =? TCPOPT_TIMESTAMP) with true by (vm_compute; reflexivity). reflexivity. Qed.

(** What sending [p] does to the context and the socket: SND.NXT advances, then the timer
    starts and the byte of a SYN or FIN is kept. *)
Definition numbered_env (p : tcp_packet) (w : env C) : env C :=
  {| ctx := update_rc (fun c => set_snd_nxt (get_snd_nxt c + sequence_length p) c) (ctx w); sock := sock w; io := io w |}.
Definition stamped_env (s : nat) (sec ns : Z) (p : tcp_packet) (w : env C) : env C :=
  let w1 := if 0 <? sequence_length p then started s sec ns w else w in
  {| ctx := ctx w1; sock := with_buffers (receive_buffer_ (sock w)) (send_buffer_ (sock w) ++ control_bytes p (send_buffer_ (sock w)))%list (sock w);
     io := io w1 |}.

(** The second half of [state_send_packet]. *)
Lemma stamp_segment s sec ns nxt rcv_nxt p (w : env C) (q := numbered nxt rcv_nxt p) :
  outgoing p → is_u32 nxt → is_u32 rcv_nxt → 0 ≤ get_data_length_bytes p → delay_ok (rto_ (rc (ctx w))) sec ns →
  (is_tcp_syn p = true → send_buffer_ (sock w) = [] ∨ byte_is (send_buffer_ (sock w)) 0 SYN_BYTE = true) →
  (_ ← check_and_start_timer s q; _ ← append_control_bytes_to_send_buffer q; q ← insert_timestamp q;
   set_and_save_receive_window_size q : handler C tcp_packet) w
  = Done (stamped nxt rcv_nxt (rcv_wnd_ (rc (ctx w))) (u32 (now (io w))) (echo_reply_ (rc (ctx w))) p, stamped_env s sec ns p w).
Proof.
  intros [Hp Ho] Hn Hr Hlen Hd Hsyn. destruct (numbered_spec nxt rcv_nxt p Hp Hn Hr) as (H1 & O1 & D1 & L1 & _ & _ & _ & Ey & Ef).
  fold q in H1, O1, D1, L1, Ey, Ef. rewrite Ho in O1.
  set (w1 := if 0 <? sequence_length p then started s sec ns w else w).
  assert (check_and_start_timer s q w = Done (tt, w1)) as E1.
  { unfold check_and_start_timer, w1, sequence_length. rewrite L1, Ey, Ef.
    destruct (is_tcp_syn p), (is_tcp_fin p); cbn [orb]; rewrite ?orb_true_r, ?orb_false_r; try (apply start_timer_spec, Hd).
    destruct (0 <? get_data_length_bytes p); [apply start_timer_spec, Hd | reflexivity]. }
  assert (sock w1 = sock w ∧ now (io w1) = now (io w) ∧ rcv_wnd_ (rc (ctx w1)) = rcv_wnd_ (rc (ctx w)) ∧
    echo_reply_ (rc (ctx w1)) = echo_reply_ (rc (ctx w))) as (Hs & Hnow & Hw & He).
  { unfold w1, started. destruct (0 <? _); [| auto]. destruct (timer_ (rc (ctx w))); rc_simpl; auto. }
  set (w2 := stamped_env s sec ns p w).
  assert (append_control_bytes_to_send_buffer q w1 = Done (tt, w2)) as E2.
  { unfold append_control_bytes_to_send_buffer, w2, stamped_env, control_bytes, append_to_send_buffer. fold w1. run. rewrite Hs, Ey, Ef. unfold get_send_buffer.
    destruct (is_tcp_syn p && _) eqn:Es.
    - destruct (is_tcp_syn p); [| discriminate Es]. destruct Hsyn as [Hb | Hb]; [reflexivity | | rewrite Hb in Es; discriminate Es].
      rewrite Hb. cbn [length Nat.eqb]. run. rewrite ?Hs, ?Hb. reflexivity.
    - destruct (is_tcp_fin p && _); run; rewrite ?Hs; [reflexivity |]. rewrite app_nil_r, <- Hs. destruct w1 as [? [] ?]; reflexivity. }
  run. rewrite E1. run. rewrite E2. unfold insert_timestamp. run.
  assert (get_option TCPOPT_TIMESTAMP q = Done (Some timestamp_option, q)) as ->.
  { unfold get_option. rewrite O1. cbn [mbind outcome_bind mret outcome_ret andb].
    rewrite O1, find_timestamp. reflexivity. }
  run. unfold set_and_save_receive_window_size. run_rc. unfold w2, stamped_env. fold w1. cbn [ctx io]. rewrite Hnow, Hw, He, O1, update_timestamp. reflexivity.
Qed.

(** The first half of [state_send_packet], once initialised. *)
Lemma number_segment base u n m p (w : env C) (nxt := seq_at base (u + n)) :
  initialized_ (rc (ctx w)) = true → window base u n m (odc (rc (ctx w))) → outgoing p → is_u32 (rcv_nxt_ (rc (ctx w))) →
  set_sequence_number_and_update_window_variables p w = Done (set_tcp_sequence_number nxt p, numbered_env p w) ∧
  set_ack_number_and_bit (set_tcp_sequence_number nxt p) (numbered_env p w) = Done (numbered nxt (rcv_nxt_ (rc (ctx w))) p, numbered_env p w) ∧
  rc (ctx (numbered_env p w)) = set_snd_nxt (nxt + sequence_length p) (rc (ctx w)).
Proof.
  intros Hi Hw Hp Hr. pose proof (out_headers p Hp) as Hh. pose proof (headers_wf p Hh) as Hwf.
  destruct (set_header_field f_seq nxt p eq_refl Hh) as (H1 & _ & Ls). pose proof (headers_wf _ H1) as Hwf1.
  unfold numbered_env. assert (get_snd_nxt (rc (ctx w)) = nxt) as Hnxt by apply (window_nxt _ _ _ _ _ Hw).
  split; [| split].
  - unfold set_sequence_number_and_update_window_variables. run_rc. rewrite Hi. run_rc. rewrite Hnxt. unfold sequence_length.
    change (get_data_length_bytes (set_tcp_sequence_number nxt p)) with (get_data_length_bytes (set_tcp f_seq nxt p)).
    rewrite Ls. unfold_tcp. rewrite !get_tcp_set_other by (reflexivity || assumption). reflexivity.
  - unfold set_ack_number_and_bit. run_rc. unfold numbered.
    change (rcv_nxt_ (set_snd_nxt _ _)) with (rcv_nxt_ (rc (ctx w))).
    replace (get_tcp_ack_number _) with (rcv_nxt_ (rc (ctx w))).
    + destruct (_ =? _); reflexivity.
    + unfold_tcp. rewrite get_tcp_set_same by (reflexivity || assumption). symmetry. apply u32_small, Hr.
  - rc_simpl. rewrite Hnxt. reflexivity.
Qed.

(** The segment [state_send_packet] returns, and the state it leaves. *)
Lemma state_send_packet_eq base u n m s p w sec ns :
  initialized_ (rc (ctx w)) = true → window base u n m (odc (rc (ctx w))) → outgoing p → 0 ≤ get_data_length_bytes p →
  is_u32 (rcv_nxt_ (rc (ctx w))) → delay_ok (rto_ (rc (ctx w))) sec ns →
  (is_tcp_syn p = true → send_buffer_ (sock w) = [] ∨ byte_is (send_buffer_ (sock w)) 0 SYN_BYTE = true) →
  state_send_packet s p w =
    Done (stamped (seq_at base (u + n)) (rcv_nxt_ (rc (ctx w))) (rcv_wnd_ (rc (ctx w))) (u32 (now (io w))) (echo_reply_ (rc (ctx w))) p,
          stamped_env s sec ns p (numbered_env p w)).
Proof.
  intros Hi Hw Hp Hlen Hr Hd Hsyn. destruct (number_segment base u n m p w Hi Hw Hp Hr) as (E1 & E2 & Hrc).
  pose proof (stamp_segment s sec ns (seq_at base (u + n)) (rcv_nxt_ (rc (ctx w))) p (numbered_env p w) Hp (seq_at_range _ _) Hr Hlen) as E3.
  rewrite Hrc in E3. unfold state_send_packet. run. rewrite E1. run. rewrite E2. exact (E3 Hd Hsyn).
Qed.

(** What arming the retransmission timer emits: one timeout, unless the timer runs already. *)
Definition timer_effects (s : nat) (sec ns : Z) (armed : bool) (w : env C) : list effect :=
  if armed then match timer_ (rc (ctx w)) with Some _ => [] | None => [Dispatch (TimeoutEvent (next_pointer (io w)) s sec ns)] end else [].

Lemma state_send_packet_stamps base u n m s p w sec ns (w' := stamped_env s sec ns p (numbered_env p w)) :
  window base u n m (odc (rc (ctx w))) → 0 ≤ get_data_length_bytes p → n + sequence_length p < 2 ^ 31 →
  window base u (n + sequence_length p) (Z.max m (u + (n + sequence_length p))) (odc (rc (ctx w'))) ∧
  timer_ (rc (ctx w')) = (if decide (0 < sequence_length p) then Some (default (next_pointer (io w)) (timer_ (rc (ctx w))))
                          else timer_ (rc (ctx w))) ∧
  trace (io w') = (trace (io w) ++ timer_effects s sec ns (0 <? sequence_length p) w)%list.
Proof.
  intros Hw Hlen Hn. pose proof (window_order _ _ _ _ _ Hw) as Hord.
  assert (0 ≤ sequence_length p) as Hsl by (unfold sequence_length; destruct (_ || _); lia).
  assert (get_snd_nxt (rc (ctx w)) = seq_at base (u + n)) as Hnxt by apply (window_nxt _ _ _ _ _ Hw).
  assert (rc (ctx (numbered_env p w)) = set_snd_nxt (seq_at base (u + n) + sequence_length p) (rc (ctx w))) as Hrc
    by (unfold numbered_env; rc_simpl; rewrite Hnxt; reflexivity).
  unfold w', stamped_env. set (w1 := numbered_env p w) in *. cbn [ctx io]. split; [| split].
  - assert (odc (rc (ctx (if 0 <? sequence_length p then started s sec ns w1 else w1))) = odc (rc (ctx w1))) as ->
      by (destruct (0 <? _); [unfold started; destruct (timer_ _) |]; rc_simpl; reflexivity).
    rewrite Hrc. cbn [set_snd_nxt with_odc odc]. rewrite seq_at_add, <- Z.add_assoc.
    replace (u32 (seq_at base (u + (n + sequence_length p)))) with (seq_at base (u + (n + sequence_length p)))
      by (symmetry; apply u32_idemp).
    apply (window_set_snd_nxt base u n m); [exact Hw | lia | lia].
  - replace (timer_ (rc (ctx w))) with (timer_ (rc (ctx w1))) by (rewrite Hrc; reflexivity). change (io w) with (io w1).
    destruct (Z.ltb_spec 0 (sequence_length p)); [rewrite decide_True by lia | rewrite decide_False by lia; reflexivity].
    unfold started. destruct (timer_ (rc (ctx w1))) eqn:Et; rc_simpl; [exact Et | reflexivity].
  - unfold timer_effects. replace (timer_ (rc (ctx w))) with (timer_ (rc (ctx w1))) by (rewrite Hrc; reflexivity). change (io w) with (io w1).
    destruct (0 <? _); [unfold started; destruct (timer_ _) |]; [symmetry; apply app_nil_r | reflexivity | symmetry; apply app_nil_r].
Qed.

(** C9: what leaves is numbered consecutively. Once the connection is initialised, every
    segment takes the next position of the stream; it acknowledges RCV.NXT, advertises the
    receive window, carries the clock and echoes the peer's; its data and flags stay as they
    were. SND.NXT advances by the sequence space it takes, a timer runs if it takes any, and a
    SYN or FIN leaves its byte in the send buffer once. *)
Theorem state_send_packet_spec base u n m s p w sec ns :
  initialized_ (rc (ctx w)) = true → window base u n m (odc (rc (ctx w))) → outgoing p → 0 ≤ get_data_length_bytes p →
  n + sequence_length p < 2 ^ 31 → is_u32 (rcv_nxt_ (rc (ctx w))) → is_u16 (rcv_wnd_ (rc (ctx w))) →
  is_u32 (echo_reply_ (rc (ctx w))) → delay_ok (rto_ (rc (ctx w))) sec ns →
  (is_tcp_syn p = true → send_buffer_ (sock w) = [] ∨ byte_is (send_buffer_ (sock w)) 0 SYN_BYTE = true) →
  ∃ q w' o, state_send_packet s p w = Done (q, w') ∧
    get_tcp_sequence_number q = seq_at base (u + n) ∧ get_tcp_ack_number q = rcv_nxt_ (rc (ctx w)) ∧
    is_tcp_ack q = (is_tcp_ack p || negb (rcv_nxt_ (rc (ctx w)) =? 0)) ∧ get_tcp_receive_window_size q = rcv_wnd_ (rc (ctx w)) ∧
    options_ q = [o] ∧ get_timestamp o = u32 (now (io w)) ∧ TCPOptions.get_echo_reply o = echo_reply_ (rc (ctx w)) ∧
    data_of q = data_of p ∧ is_tcp_syn q = is_tcp_syn p ∧ is_tcp_fin q = is_tcp_fin p ∧
    window base u (n + sequence_length p) (Z.max m (u + (n + sequence_length p))) (odc (rc (ctx w'))) ∧
    timer_ (rc (ctx w')) = (if decide (0 < sequence_length p) then Some (default (next_pointer (io w)) (timer_ (rc (ctx w))))
                            else timer_ (rc (ctx w))) ∧
    send_buffer_ (sock w') = (send_buffer_ (sock w) ++ control_bytes p (send_buffer_ (sock w)))%list.
Proof.
  intros Hi Hw Hp Hlen Hn Hr Hwnd He Hd Hsyn.
  pose proof (state_send_packet_eq base u n m s p w sec ns Hi Hw Hp Hlen Hr Hd Hsyn) as E.
  destruct (state_send_packet_stamps base u n m s p w sec ns Hw Hlen Hn) as (Hw2 & Ht & _).
  destruct (stamped_spec (seq_at base (u + n)) (rcv_nxt_ (rc (ctx w))) (rcv_wnd_ (rc (ctx w))) (u32 (now (io w))) (echo_reply_ (rc (ctx w))) p
    (out_headers p Hp) (seq_at_range _ _) Hr Hwnd) as (_ & O & D & _ & Es & Ea & Ew & Ek & Ey & Ef).
  destruct (stamped_option_spec (u32 (now (io w))) (echo_reply_ (rc (ctx w))) (u32_range _) He) as [Eo1 Eo2].
  eexists _, _, _. split; [exact E |]. do 8 (split; [eassumption |]). split; [exact Ey |]. split; [exact Ef |].
  split; [exact Hw2 |]. split; [exact Ht |]. reflexivity.
Qed.

End SendingProofs.

(** ** Concrete runs *)

(** A connection whose peer starts at sequence number [sample_base]; what it sends from 0. *)
Definition sample_rc (n : Z) (timer : option nat) (index : Z) : rc_context :=
  {| odc := {| iss_ := 0; mss_ := 1448; snd_nxt_ := n; snd_una_ := 0; snd_max_ := n |}; initialized_ := true;
     rcv_nxt_ := seq_at sample_base index; rcv_wnd_ := MAX_TCP_RECEIVE_WINDOW_SIZE - index; timer_ := timer;
     duplicate_ack_number_ := 0; duplicates_ := 0;
     receive_window_ := set_first_sequence_number (seq_at sample_base index) new_TCPPacketBuffer;
     receive_event_ := None; echo_reply_ := 5; rto_ := INITIAL_RTO; srtt_ := of_Z (-1); rttvar_ := of_Z (-1); receive_index_ := 0 |}.

Definition sample_rc_env (n : Z) (timer : option nat) (received sent : list Z) : env rc_context :=
  {| ctx := sample_rc n timer (Z.of_nat (length received)); sock := with_buffers received sent (sample_socket 1 default_address_port);
     io := {| next_pointer := 9; now := 2000000; trace := [] |} |}.

Lemma sample_receiving f n timer sent :
  0 ≤ f ≤ MAX_TCP_RECEIVE_WINDOW_SIZE →
  receiving base_create_and_dispatch_ack sample_base sample_pos sample_stream 0 f
    (sample_rc_env n timer (stretch sample_stream 0 f) sent).
Proof.
  intros Hf. unfold MAX_TCP_RECEIVE_WINDOW_SIZE, USHRT_MAX in Hf.
  split; cbn [ctx sock sample_rc_env with_buffers receive_buffer_]; try rewrite (length_stretch _ 0 f), Z.sub_0_r by lia.
  - eexists. reflexivity.
  - exact I.
  - reflexivity.
  - apply inv_fresh.
  - constructor.
  - constructor.
  - reflexivity.
  - lia.
  - exists []. auto.
  - unfold held. cbn. rewrite size_empty. unfold MAX_TCP_RECEIVE_WINDOW_SIZE. lia.
  - cbn. unfold MAX_TCP_RECEIVE_WINDOW_SIZE, USHRT_MAX. lia.
  - intros <-. apply stretch_nil.
Qed.

(** Positions 2 and 3 arrive, then 0 to 2: the second segment makes both readable. *)
Lemma handle_data_delivers_witness :
  ∃ e w', base_handle_data base_create_and_dispatch_ack 5 (sample_ref 0 0 [0; 1; 2]) (sample_rc_env 0 None [] []) = Done (tt, w') ∧
    receiving base_create_and_dispatch_ack sample_base sample_pos sample_stream 0 e w' ∧
    receive_buffer_ (sock w') = stretch sample_stream 0 e.
Proof.
  pose proof sample_placed as Hp. pose proof sample_carries as Hc. unfold sample_segments in Hp, Hc. rewrite !Forall_cons in Hp, Hc.
  destruct (handle_data_delivers base_create_and_dispatch_ack sample_base sample_pos sample_stream 0 0 (sample_ref 0 0 [0; 1; 2]) 5
    (sample_rc_env 0 None [] []) (sample_receiving 0 0 None [] ltac:(split; discriminate))) as (e & w1 & w' & t & E1 & E & Hr & _ & _ & Hb & _).
  - cbn. lia.
  - apply Hp.
  - apply Hc.
  - apply Z.leb_le. vm_compute. reflexivity.
  - exists e, w'. rewrite E1. auto.
Defined.

Definition sample_receive_call (n : Z) : receive_event :=
  {| re_event := {| le_socket := 5; le_message_type := 9; le_fd := 3; le_source := "app" |}; re_data_length := n |}.

Lemma state_receive_spec_witness :
  ∃ resp w', state_receive base_create_and_dispatch_ack (sample_receive_call 2) (sample_rc_env 0 None [0; 1; 2] []) = Done (tt, w') ∧
    res_buffer resp = [0; 1] ∧ receive_index_ (rc (ctx w')) = 2.
Proof.
  destruct (state_receive_spec base_create_and_dispatch_ack sample_base sample_pos sample_stream 0 3 (sample_receive_call 2)
    (sample_rc_env 0 None [0; 1; 2] []) (sample_receiving 3 0 None [] ltac:(split; discriminate))) as (_ & H & _).
  - cbn. lia.
  - cbn. lia.
  - destruct H as (resp & t & w' & E & Hresp & _); [lia |]. exists resp, w'. split; [exact E |].
    split; [rewrite (resp_buffer _ _ _ _ _ Hresp); vm_compute; reflexivity |].
    assert (is_Some (match state_receive base_create_and_dispatch_ack (sample_receive_call 2) (sample_rc_env 0 None [0; 1; 2] []) with
      Done (_, w) => if receive_index_ (rc (ctx w)) =? 2 then Some tt else None | Fault _ => None end)) as [u Hu]
      by (vm_compute; eexists; reflexivity).
    rewrite E in Hu. destruct (Z.eqb_spec (receive_index_ (rc (ctx w'))) 2); [assumption | discriminate].
Defined.

Lemma sample_window n timer received sent : 0 ≤ n < 2 ^ 31 → window 0 0 n n (odc (rc (ctx (sample_rc_env n timer received sent)))).
Proof. intros. split; [reflexivity | | | lia]; unfold seq_at; rewrite ?Z.add_0_l; symmetry; apply (u32_small n); unfold is_u32; lia. Qed.

Definition sample_acknowledgement (a : Z) : tcp_packet :=
  TCPPacket.with_options [stamped_option 1 1999000] (set_tcp_ack true (set_tcp_ack_number a zero_tcp_packet)).

Lemma handle_ack_spec_witness :
  ∃ w', handle_ack base_create_and_dispatch_ack 5 (sample_acknowledgement 2) (sample_rc_env 3 (Some 4%nat) [] [7; 8; 9]) = Done (true, w') ∧
    send_buffer_ (sock w') = [9] ∧ timer_ (rc (ctx w')) = Some 9%nat.
Proof.
  destruct (handle_ack_spec base_create_and_dispatch_ack 0 0 3 3 2 5 (sample_acknowledgement 2) (stamped_option 1 1999000)
    (sample_acknowledgement 2) (sample_rc_env 3 (Some 4%nat) [] [7; 8; 9]) 1 0 (sample_window 3 _ _ _ ltac:(lia))) as (H & _).
  - vm_compute. reflexivity.
  - vm_compute. reflexivity.
  - lia.
  - vm_compute. reflexivity.
  - split; [vm_compute; reflexivity | lia].
  - destruct H as (w' & E & _ & Hs & _ & Ht & _); [lia |]. exists w'. split; [exact E |]. rewrite Hs, Ht. split; reflexivity.
Defined.

Lemma triple_duplicate_witness :
  ∃ w', duplicates_of 4 5 (sample_acknowledgement 2) (sample_rc_env 3 None [] []) = Done (tt, w') ∧
    trace (io w') = [Enqueue (ResendPacketEvent 5 THREE_DUPLICATE_ACKS)].
Proof.
  destruct (triple_duplicate 3 5 (sample_acknowledgement 2) (sample_rc_env 3 None [] [])) as (w' & E & _ & _ & _ & _ & Hio).
  - vm_compute. discriminate.
  - lia.
  - exists w'. split; [exact E |]. rewrite Hio. reflexivity.
Defined.

Lemma state_timer_fired_spec_witness :
  ∃ w', state_timer_fired 5 4 (sample_rc_env 3 (Some 4%nat) [] []) = Done (tt, w') ∧ rto_ (rc (ctx w')) = of_Z 6 ∧
    state_timer_fired 5 8 (sample_rc_env 3 (Some 4%nat) [] []) = Done (tt, sample_rc_env 3 (Some 4%nat) [] []).
Proof.
  destruct (state_timer_fired_spec 5 4 (sample_rc_env 3 (Some 4%nat) [] [])) as [H _].
  destruct H as (w' & E & _ & Hr & _); [reflexivity |].
  exists w'. split; [exact E |]. split; [rewrite Hr; vm_compute; reflexivity |].
  apply (state_timer_fired_spec 5 8 (sample_rc_env 3 (Some 4%nat) [] [])). discriminate.
Defined.

Definition sample_outgoing : tcp_packet :=
  match (p ← addressed_packet default_address_port default_address_port; set_data [7; 8] p) with Done p => p | Fault _ => zero_tcp_packet end.

Lemma sample_outgoing_ok : outgoing sample_outgoing ∧ get_data_length_bytes sample_outgoing = 2.
Proof.
  destruct (addressed_packet_spec default_address_port default_address_port) as (p & E & Hp).
  destruct (set_data_new_segment [7; 8] p Hp) as (p' & E' & _ & Hl & Hh & Ho & _); [repeat constructor; unfold is_byte; lia | cbn; lia |].
  unfold sample_outgoing. rewrite E. cbn [mbind outcome_bind]. rewrite E'. split; [split; assumption | exact Hl].
Qed.

Lemma state_send_packet_spec_witness :
  outgoing sample_outgoing ∧
  ∃ q w', state_send_packet 5 sample_outgoing (sample_rc_env 3 None [] [1; 2; 3; 7; 8]) = Done (q, w') ∧
    get_tcp_sequence_number q = 3 ∧ timer_ (rc (ctx w')) = Some 9%nat.
Proof.
  destruct sample_outgoing_ok as [Ho Hl]. split; [exact Ho |].
  assert (is_tcp_syn sample_outgoing = false ∧ is_tcp_fin sample_outgoing = false) as [Hs Hf] by (vm_compute; auto).
  assert (sequence_length sample_outgoing = 2) as Hn by (unfold sequence_length; rewrite Hs, Hf; exact Hl).
  destruct (state_send_packet_spec 0 0 3 3 5 sample_outgoing (sample_rc_env 3 None [] [1; 2; 3; 7; 8]) 3 0) as (q & w' & o & E & Hseq & _ & _ & _ & _ & _ & _ & _ & _ & _ & _ & Ht & _).
  - reflexivity.
  - apply (sample_window 3). lia.
  - exact Ho.
  - lia.
  - lia.
  - split; [discriminate | reflexivity].
  - split; [discriminate | reflexivity].
  - split; [discriminate | reflexivity].
  - exact INITIAL_RTO_delay.
  - rewrite Hs. discriminate.
  - exists q, w'. split; [exact E |]. split; [exact Hseq |]. rewrite Ht, Hn. reflexivity.
Defined.
