(* ===== verification/Stamps.v ===== *)
(** * Segments that leave: one timestamp option, packed and with a checksum

    What becomes of a segment between the reliability context, which stamps it, and the
    network: TCPPacket's [pack] and [calculate_and_set_tcp_checksum] on segments whose only
    option is the timestamp (TCPTahoe::icontext_send_packet and
    TCPAPSendRateLimiter::protocol_specific_stuff end with these two calls). *)
From S2P Require Import Prelude HeaderMem IPPacket TCPOptions WiFuPacket TCPPacket Events Outstanding Congestion Reliability.

Record timestamped (o : tcp_header_option) (q : tcp_packet) : Prop := {
  ts_headers : headers_ok q;
  ts_options : options_ q = [o];
  ts_ok : option_ok o;
  ts_bytes : Forall is_byte (TCPOptions.data_ o);
  ts_kind : get_kind o = TCPOPT_TIMESTAMP;
  ts_length : get_length o = 10;
  ts_offset : get_tcp_data_offset q = 8;
  ts_data : 0 ≤ get_data_length_bytes q ≤ MSS }.

(** The option area of the packet's bytes: the option and two bytes of padding. *)
Definition carries (o : tcp_header_option) (q : tcp_packet) : Prop :=
  slice (payload_ (ip_of q)) (get_options_pointer q) 12 = (bytes o ++ replicate 2 0)%list.

(** That is what a receiver parses, however large its stack. *)
Lemma carries_parse o q depth :
  carries o q → option_ok o → get_length o = 10 → (1 < depth)%nat →
  parse depth (payload_ (ip_of q)) (get_options_pointer q) 12 [] = Done [o].
Proof.
  intros Hc Ho Hl Hd. destruct (option_bytes o Ho) as (_ & _ & Hb). rewrite Hl in Hb.
  assert (flat [o] = bytes o) as Hf by (unfold flat; cbn [map concat]; apply app_nil_r).
  change 12 with (Z.of_nat 12). change [o] with ([] ++ [o])%list. apply (parse_flat [o] ltac:(constructor; [exact Ho | constructor]) 2);
    rewrite ?Hf; [exact Hc | rewrite Hb; reflexivity | lia | exact Hd].
Qed.

Lemma set_offset f v p :
  header_field f = true → headers_ok p → get_tcp_data_offset (set_tcp f v p) = get_tcp_data_offset p.
Proof.
  intros Hf Hp. pose proof (header_field_ok f Hf). unfold header_field in Hf. bool_to_prop.
  apply get_tcp_set_other; first [assumption | apply Hp].
Qed.

(** Header fields other than lengths do not matter. *)
Lemma timestamped_set o f v q : header_field f = true → timestamped o q → timestamped o (set_tcp f v q).
Proof.
  intros Hf [Hh Ho Hok Hb Hk Hl Hd Hdat]. destruct (set_header_field f v q Hf Hh) as (H1 & _ & L1).
  split; try assumption; [rewrite set_offset by assumption; exact Hd | rewrite L1; exact Hdat].
Qed.

(** Another timestamp. *)
Lemma timestamped_option o o' q :
  timestamped o q → option_ok o' → Forall is_byte (TCPOptions.data_ o') → get_kind o' = TCPOPT_TIMESTAMP → get_length o' = 10 →
  timestamped o' (TCPPacket.with_options [o'] q).
Proof. intros [Hh Ho Hok Hb Hk Hl Hd Hdat] ? ? ? ?. split; try assumption; [destruct Hh; split; assumption | reflexivity]. Qed.

Lemma get_timestamp_option o q : timestamped o q → get_option TCPOPT_TIMESTAMP q = Done (Some o, q).
Proof.
  intros H. unfold get_option. rewrite (ts_options _ _ H). cbn [mbind outcome_bind mret outcome_ret andb].
  rewrite (ts_options _ _ H). cbn [find_option]. rewrite (ts_kind _ _ H), Z.eqb_refl. reflexivity.
Qed.

Lemma pack_timestamped o q :
  timestamped o q →
  ∃ q', pack q = Done q' ∧ timestamped o q' ∧ segment_ok q' ∧ (∀ f, field_ok 40 f = true → get_tcp f q' = get_tcp f q) ∧
    data_of q' = data_of q ∧ carries o q'.
Proof.
  intros [Hh Ho Hok Hb Hk Hl Hd Hdat].
  assert (length_bytes (options_ q) = 10) as Hlb by (rewrite Ho; unfold length_bytes; cbn [foldr]; lia).
  assert (get_padded_length (options_ q) = 3) as Hpad by (unfold get_padded_length; rewrite Hlb; reflexivity).
  destruct (pack_spec q) as (q' & E & Hq' & Hoq & Hf & Dq & Lq & n & Hparse & Hn);
    [exact Hh | rewrite Ho; constructor; [assumption | constructor] | rewrite Ho; constructor; [assumption | constructor] | lia | lia |].
  rewrite Hpad, Ho in Hparse, Hn. rewrite Ho in Hoq.
  assert (flat [o] = bytes o) as Hflat by (unfold flat; cbn [map concat]; apply app_nil_r).
  destruct (option_bytes o Hok) as (_ & _ & Hbl). rewrite Hflat in Hparse, Hn. rewrite Hbl, Hl in Hn.
  change (Z.to_nat (4 * 3)) with 12%nat in Hparse, Hn. assert (n = 2%nat) as -> by lia.
  assert (get_tcp_data_offset q' = 8) as Hd' by (unfold get_tcp_data_offset in *; rewrite Hf by reflexivity; exact Hd).
  exists q'. split; [exact E |]. split; [split; try assumption; rewrite Lq; exact Hdat |]. split; [| split; [exact Hf | split; [exact Dq | exact Hparse]]].
  split; [apply Hq' | apply Hq' |]. rewrite <- Lq in Hdat. unfold get_data_length_bytes in Hdat. rewrite headers_length in Hdat by assumption.
  unfold get_tcp_header_length_bytes in Hdat. rewrite Hd' in Hdat. unfold MSS in Hdat. unfold MTU. lia.
Qed.

(** The two calls. *)
Definition seal (q : tcp_packet) : outcome tcp_packet := q ← pack q; calculate_and_set_tcp_checksum q.

Record sealed (o : tcp_header_option) (q q' : tcp_packet) : Prop := {
  sl_timestamped : timestamped o q';
  sl_valid : is_valid_tcp_checksum q' = Done (true, q');
  sl_data : data_of q' = data_of q;
  sl_fields : ∀ f, header_field f = true → disjoint f f_tcp_check = true → get_tcp f q' = get_tcp f q;
  sl_length : get_data_length_bytes q' = get_data_length_bytes q;
  sl_carries : carries o q' }.

Lemma same_length p q :
  headers_ok p → headers_ok q → get_tcp f_tot_len q = get_tcp f_tot_len p → get_tcp_data_offset q = get_tcp_data_offset p →
  get_data_length_bytes q = get_data_length_bytes p.
Proof.
  intros Hp Hq Ht Hd. unfold get_data_length_bytes. rewrite !headers_length by assumption.
  unfold get_tcp_header_length_bytes. rewrite Hd. unfold get_ip_tot_length. change (get_field f_tot_len (ip_of q)) with (get_tcp f_tot_len q).
  rewrite Ht. reflexivity.
Qed.

Lemma seal_spec o q : timestamped o q → ∃ q', seal q = Done q' ∧ sealed o q q'.
Proof.
  intros H. destruct (pack_timestamped o q H) as (q1 & E & H1 & Hs & Hf & Dq & Hc). pose proof (ts_headers _ _ H1) as Hh.
  set (q2 := set_tcp_checksum (tcp_checksum_of q1) q1).
  assert (timestamped o q2) as H2 by (apply timestamped_set; [reflexivity | exact H1]).
  exists q2. split; [unfold seal; rewrite E; cbn [mbind outcome_bind]; apply calculate_and_set_tcp_checksum_eq, Hs |].
  destruct (set_header_field f_tcp_check (tcp_checksum_of q1) q1 eq_refl Hh) as (Hh2 & D2 & L2).
  change (headers_ok q2) in Hh2.
  split.
  - exact H2.
  - apply computed_checksum_accepted, Hs.
  - etransitivity; [exact D2 | exact Dq].
  - intros f Hhf Hdis. rewrite <- Hf by (unfold header_field in Hhf; bool_to_prop; assumption).
    apply get_tcp_set_other; first [exact Hdis | apply Hh | reflexivity].
  - etransitivity; [exact L2 |].
    apply same_length; [apply H | exact Hh | apply Hf; reflexivity | rewrite (ts_offset _ _ H1), (ts_offset _ _ H); reflexivity].
  - unfold carries in *.
    assert (get_options_pointer q1 = 40%nat ∧ get_options_pointer q2 = 40%nat) as [O1 O2]
      by (unfold get_options_pointer; rewrite !headers_next by assumption; auto).
    rewrite O2. rewrite O1 in Hc. rewrite <- Hc. apply (slice_put f_tcp_check). reflexivity.
Qed.

Lemma outgoing_timestamped p :
  outgoing p → get_tcp_data_offset p = 8 → 0 ≤ get_data_length_bytes p ≤ MSS → timestamped timestamp_option p.
Proof. intros [Hp Ho] H8 Hlen. split; try assumption; [apply (stamped_option_ok 0 0).. | vm_compute; reflexivity | vm_compute; reflexivity]. Qed.

(** A stamped segment is one. *)
Lemma stamped_timestamped nxt rcv_nxt wnd time echo p :
  outgoing p → get_tcp_data_offset p = 8 → 0 ≤ get_data_length_bytes p ≤ MSS →
  timestamped (stamped_option time echo) (stamped nxt rcv_nxt wnd time echo p).
Proof.
  intros Hp H8 Hlen. destruct (stamped_option_ok time echo) as (Hok & Hb & H10).
  assert (timestamped timestamp_option (numbered nxt rcv_nxt p)) as H1.
  { pose proof (outgoing_timestamped p Hp H8 Hlen) as H0.
    unfold numbered. destruct (rcv_nxt =? 0); repeat (apply timestamped_set; [reflexivity |]); exact H0. }
  apply timestamped_set; [reflexivity |]. apply (timestamped_option timestamp_option); try assumption.
  unfold stamped_option. destruct (negb _); vm_compute; reflexivity.
Qed.
