(* ===== verification/DelayedAck.v ===== *)
(** * Delayed acknowledgements

    TCPDelayedACKReliabilityContext and TCPDelayedACKReliabilityState
    (transport/src/contexts/TCPDelayedACKReliabilityContext.cc,
    transport/src/states/tcp-ap/TCPDelayedACKReliabilityState.cc): the reliability
    state that acknowledges every [delay_count_] segments or when a timer fires,
    with a delay that grows with the sequence number. It implements the
    interface [Acknowledger] of Reliability, as long as no retransmission timer
    runs. *)
From stdpp Require Import gmap.
From S2P Require Import Prelude SeqMath Double HeaderMem IPPacket TCPOptions WiFuPacket TCPPacket PacketBuffer AddressPort Sockets Events.
From S2P Require Import Outstanding Congestion Reliability.

Definition INITAL_DELAY_TIMEOUT_INTERVAL : double := literal 1 10.
Definition DEFAULT_DELAY_COUNT : Z := 2.

Record delayed_context := {
  base_context : rc_context;
  ack_timer_ : option nat;
  delay_count_ : Z;
  cur_ack_count_ : Z;
  delay_timeout_interval_ : double;
  delay1_ : Z;
  delay2_ : Z;
  delay3_ : Z;
  delay4_ : Z;
  l1_threshold_ : Z;
  l2_threshold_ : Z;
  l3_threshold_ : Z }.

Definition with_base (f : rc_context → rc_context) (c : delayed_context) : delayed_context :=
  {| base_context := f (base_context c); ack_timer_ := ack_timer_ c; delay_count_ := delay_count_ c;
     cur_ack_count_ := cur_ack_count_ c; delay_timeout_interval_ := delay_timeout_interval_ c; delay1_ :=
     delay1_ c; delay2_ := delay2_ c; delay3_ := delay3_ c; delay4_ := delay4_ c; l1_threshold_ := l1_threshold_
     c; l2_threshold_ := l2_threshold_ c; l3_threshold_ := l3_threshold_ c |}.
Definition set_ack_timeout_event (e : option nat) (c : delayed_context) : delayed_context :=
  {| base_context := base_context c; ack_timer_ := e; delay_count_ := delay_count_ c; cur_ack_count_ :=
     cur_ack_count_ c; delay_timeout_interval_ := delay_timeout_interval_ c; delay1_ := delay1_ c; delay2_ :=
     delay2_ c; delay3_ := delay3_ c; delay4_ := delay4_ c; l1_threshold_ := l1_threshold_ c; l2_threshold_ :=
     l2_threshold_ c; l3_threshold_ := l3_threshold_ c |}.
Definition set_delay_count (count : Z) (c : delayed_context) : delayed_context :=
  {| base_context := base_context c; ack_timer_ := ack_timer_ c; delay_count_ := u16 count; cur_ack_count_ :=
     cur_ack_count_ c; delay_timeout_interval_ := delay_timeout_interval_ c; delay1_ := delay1_ c; delay2_ :=
     delay2_ c; delay3_ := delay3_ c; delay4_ := delay4_ c; l1_threshold_ := l1_threshold_ c; l2_threshold_ :=
     l2_threshold_ c; l3_threshold_ := l3_threshold_ c |}.
Definition set_cur_ack_count (count : Z) (c : delayed_context) : delayed_context :=
  {| base_context := base_context c; ack_timer_ := ack_timer_ c; delay_count_ := delay_count_ c; cur_ack_count_
     := u16 count; delay_timeout_interval_ := delay_timeout_interval_ c; delay1_ := delay1_ c; delay2_ :=
     delay2_ c; delay3_ := delay3_ c; delay4_ := delay4_ c; l1_threshold_ := l1_threshold_ c; l2_threshold_ :=
     l2_threshold_ c; l3_threshold_ := l3_threshold_ c |}.
Definition set_l1_threshold (l1 : Z) (c : delayed_context) : delayed_context :=
  {| base_context := base_context c; ack_timer_ := ack_timer_ c; delay_count_ := delay_count_ c; cur_ack_count_
     := cur_ack_count_ c; delay_timeout_interval_ := delay_timeout_interval_ c; delay1_ := delay1_ c; delay2_ :=
     delay2_ c; delay3_ := delay3_ c; delay4_ := delay4_ c; l1_threshold_ := u32 l1; l2_threshold_ :=
     l2_threshold_ c; l3_threshold_ := l3_threshold_ c |}.
Definition set_l2_threshold (l2 : Z) (c : delayed_context) : delayed_context :=
  {| base_context := base_context c; ack_timer_ := ack_timer_ c; delay_count_ := delay_count_ c; cur_ack_count_
     := cur_ack_count_ c; delay_timeout_interval_ := delay_timeout_interval_ c; delay1_ := delay1_ c; delay2_ :=
     delay2_ c; delay3_ := delay3_ c; delay4_ := delay4_ c; l1_threshold_ := l1_threshold_ c; l2_threshold_ :=
     u32 l2; l3_threshold_ := l3_threshold_ c |}.
Definition set_l3_threshold (l3 : Z) (c : delayed_context) : delayed_context :=
  {| base_context := base_context c; ack_timer_ := ack_timer_ c; delay_count_ := delay_count_ c; cur_ack_count_
     := cur_ack_count_ c; delay_timeout_interval_ := delay_timeout_interval_ c; delay1_ := delay1_ c; delay2_ :=
     delay2_ c; delay3_ := delay3_ c; delay4_ := delay4_ c; l1_threshold_ := l1_threshold_ c; l2_threshold_ :=
     l2_threshold_ c; l3_threshold_ := u32 l3 |}.

Definition new_TCPDelayedACKReliabilityContext (memory iss : Z) : outcome delayed_context :=
  c ← new_TCPTahoeReliabilityContext memory iss;
  mret {| base_context := c; ack_timer_ := None; delay_count_ := DEFAULT_DELAY_COUNT; cur_ack_count_ := 0;
          delay_timeout_interval_ := INITAL_DELAY_TIMEOUT_INTERVAL; delay1_ := 1; delay2_ := 3; delay3_ := 3; delay4_ := 4;
          l1_threshold_ := 10000; l2_threshold_ := 100000; l3_threshold_ := 1000000 |}.

#[export] Instance delayed_reliability : Reliability delayed_context :=
  {| rc := base_context; update_rc := with_base; rc_update := fun _ _ => eq_refl; rc_compose := fun _ _ _ => eq_refl |}.

Definition delayed_handler := handler delayed_context.

(** The guard reads the retransmission timer. *)
Definition start_ack_timer (s : nat) : delayed_handler unit :=
  timer ← gets_rc timer_;
  match timer with
  | None =>
      interval ← gets delay_timeout_interval_;
      '(seconds, nanoseconds) ← lift (split_seconds interval);
      timer ← new_timeout s seconds nanoseconds;
      modify (set_ack_timeout_event (Some timer))
  | Some _ => mret tt
  end.

Definition cancel_ack_timer : delayed_handler unit :=
  timer ← gets ack_timer_;
  _ ← h_assert (match timer with Some _ => true | None => false end);
  _ ← dispatch (CancelTimerEvent timer);
  modify (set_ack_timeout_event None).

Definition create_and_dispatch_ack (s : nat) : delayed_handler unit :=
  _ ← modify (fun c => set_cur_ack_count (cur_ack_count_ c + 1) c);
  c ← gets id;
  if delay_count_ c <=? cur_ack_count_ c then
    _ ← (if 1 <? delay_count_ c then cancel_ack_timer else mret tt);
    _ ← modify (set_cur_ack_count 0);
    base_create_and_dispatch_ack s
  else match ack_timer_ c with None => start_ack_timer s | Some _ => mret tt end.

Definition get_delay_based_on_seq_num (seqnum : Z) (c : delayed_context) : Z :=
  if seqnum <? l1_threshold_ c then delay1_ c
  else if (l1_threshold_ c <=? seqnum) && (seqnum <? l2_threshold_ c) then delay2_ c
  else if (l2_threshold_ c <=? seqnum) && (seqnum <? l3_threshold_ c) then delay3_ c
  else delay4_ c.

Definition handle_data (s : nat) (r : packet_ref) : delayed_handler unit :=
  _ ← modify (fun c => set_delay_count (get_delay_based_on_seq_num (get_tcp_sequence_number (pkt r)) c) c);
  base_handle_data create_and_dispatch_ack s r.

Definition state_timer_fired (s timeout_event : nat) : delayed_handler unit :=
  _ ← Reliability.state_timer_fired s timeout_event;
  timer ← gets ack_timer_;
  match timer with
  | Some timer =>
      if Nat.eqb timer timeout_event then
        _ ← modify (set_ack_timeout_event None);
        _ ← modify (set_cur_ack_count 0);
        base_create_and_dispatch_ack s
      else mret tt
  | None => mret tt
  end.

Definition state_receive_packet : nat → packet_ref → delayed_handler unit :=
  Reliability.state_receive_packet create_and_dispatch_ack handle_data.

(** The option value read as an [int], on a little-endian machine. *)
Definition int_value (value : list Z) : outcome Z :=
  if Nat.leb 4 (length value) then Done (i32 (get (Bytes [0; 1; 2; 3]%nat) value)) else Fault OutOfBounds.

Definition state_set_socket_option (level option_name : Z) : delayed_handler unit :=
  if negb (level =? TCP_DELAYEDACK) then mret tt else
  sk ← get_socket;
  let option := fst (options_get (TCP_DELAYEDACK, option_name) (get_socket_options sk)) in
  if option_name =? 1 then l1 ← lift (int_value option); modify (set_l1_threshold l1)
  else if option_name =? 2 then l2 ← lift (int_value option); modify (set_l2_threshold l2)
  else if option_name =? 3 then l3 ← lift (int_value option); modify (set_l3_threshold l3)
  else mret tt.

(** ** Laws *)

(** Without a retransmission timer, segments that wait for an acknowledgement have the timer
    running. *)
Record quiet (c : delayed_context) : Prop := {
  quiet_retransmission : timer_ (base_context c) = None;
  quiet_waiting : 0 < cur_ack_count_ c → is_Some (ack_timer_ c);
  quiet_count : is_u16 (cur_ack_count_ c);
  quiet_interval : ∃ sec ns, delay_ok (delay_timeout_interval_ c) sec ns }.

Ltac delayed_simpl :=
  cbn [ctx sock io with_base set_ack_timeout_event set_delay_count set_cur_ack_count base_context ack_timer_ delay_count_ cur_ack_count_
    delay_timeout_interval_ delay1_ delay2_ delay3_ delay4_ l1_threshold_ l2_threshold_ l3_threshold_].

(** The segments among the effects of a handler. *)
Definition segments_sent (t : list effect) : nat :=
  length (List.filter (fun x => match x with Enqueue (SendPacketEvent _ _) => true | _ => false end) t).

Lemma segments_sent_app t t' : segments_sent (t ++ t') = (segments_sent t + segments_sent t')%nat.
Proof. unfold segments_sent. rewrite List.filter_app, length_app. reflexivity. Qed.

(** Whether one more request is answered at once. *)
Definition answers (c : delayed_context) : bool := delay_count_ c <=? u16 (cur_ack_count_ c + 1).

(** The effect of [start_ack_timer], which leaves the timer of [c] running. *)
Definition timer_started (s : nat) (c : delayed_context) : list effect :=
  match ack_timer_ c, split_seconds (delay_timeout_interval_ c) with
  | Some p, Done (seconds, nanoseconds) => [Dispatch (TimeoutEvent p s seconds nanoseconds)]
  | _, _ => []
  end.

Lemma create_and_dispatch_ack_spec s (w : env delayed_context) :
  is_Some (local_ (sock w)) → quiet (ctx w) →
  ∃ w', create_and_dispatch_ack s w = Done (tt, w') ∧ quiet (ctx w') ∧ base_context (ctx w') = base_context (ctx w) ∧
    sock w' = sock w ∧ now (io w') = now (io w) ∧ delay_count_ (ctx w') = delay_count_ (ctx w) ∧
    delay_timeout_interval_ (ctx w') = delay_timeout_interval_ (ctx w) ∧
    if answers (ctx w) then
      cur_ack_count_ (ctx w') = 0 ∧ ack_timer_ (ctx w') = (if 1 <? delay_count_ (ctx w) then None else ack_timer_ (ctx w)) ∧ ∃ p, pure_ack p ∧
        trace (io w') = (trace (io w) ++ (if 1 <? delay_count_ (ctx w) then [Dispatch (CancelTimerEvent (ack_timer_ (ctx w)))] else [])
                         ++ [Enqueue (SendPacketEvent s p)])%list
    else is_Some (ack_timer_ (ctx w')) ∧ cur_ack_count_ (ctx w') = u16 (cur_ack_count_ (ctx w) + 1) ∧
      trace (io w') = (trace (io w) ++ (match ack_timer_ (ctx w) with Some _ => [] | None => timer_started s (ctx w') end))%list ∧
      match ack_timer_ (ctx w) with Some _ => ack_timer_ (ctx w') = ack_timer_ (ctx w) | None => True end.
Proof.
  intros Hl Hq. pose proof Hq as [Ht Hwait Hc (sec & ns & E & Hs & Hn)]. unfold create_and_dispatch_ack, answers. run. delayed_simpl.
  destruct (Z.leb_spec (delay_count_ (ctx w)) (u16 (cur_ack_count_ (ctx w) + 1))) as [Hd | Hd].
  - set (w1 := {| ctx := set_cur_ack_count (cur_ack_count_ (ctx w) + 1) (ctx w); sock := sock w; io := io w |}).
    set (x := if 1 <? delay_count_ (ctx w) then [Dispatch (CancelTimerEvent (ack_timer_ (ctx w)))] else []).
    set (timer := if 1 <? delay_count_ (ctx w) then None else ack_timer_ (ctx w)).
    assert ((if 1 <? delay_count_ (ctx w) then cancel_ack_timer else fun w => Done (tt, w)) w1
      = Done (tt, {| ctx := set_ack_timeout_event timer (ctx w1); sock := sock w; io := add_trace x (io w) |})) as E1.
    { unfold w1, x, timer. destruct (Z.ltb_spec 1 (delay_count_ (ctx w))) as [H1 | H1].
      - destruct Hwait as [t Et]; [word_lia |]. unfold cancel_ack_timer. run. delayed_simpl. rewrite Et. run. reflexivity.
      - rewrite add_trace_nil. destruct w as [[] ? ?]; reflexivity. }
    match type of E1 with ?l = _ => match goal with |- context [match ?y with Done _ => _ | Fault _ => _ end] => change y with l end end.
    rewrite E1. run.
    match goal with |- context [base_create_and_dispatch_ack s ?w2] => destruct (base_ack_spec s w2 Hl) as (p & -> & Hp) end.
    eexists. split; [reflexivity |]. cbn [ctx sock io add_trace trace now]. delayed_simpl.
    split; [split; delayed_simpl; [exact Ht | intros H0; vm_compute in H0; discriminate H0 | apply u16_range | exact (quiet_interval _ Hq)] |].
    do 7 (split; [reflexivity |]). exists p. rewrite <- app_assoc. auto.
  - assert (is_u16 (u16 (cur_ack_count_ (ctx w) + 1))) as Hu by apply u16_range.
    destruct (ack_timer_ (ctx w)) as [t |] eqn:Et.
    + eexists. split; [reflexivity |]. delayed_simpl. split; [split; delayed_simpl; rewrite ?Et; eauto; exact (quiet_interval _ Hq) |].
      rewrite Et. do 5 (split; [reflexivity |]). split; [eauto |]. split; [reflexivity |].
      rewrite app_nil_r. auto.
    + unfold start_ack_timer, gets_rc. run. cbn [rc delayed_reliability]. delayed_simpl. rewrite Ht. run. delayed_simpl. rewrite E. run.
      unfold new_timeout. run. rewrite !(proj2 (Z.leb_le _ _)) by assumption. run. eexists. split; [reflexivity |].
      cbn [ctx sock io trace now]. delayed_simpl. split; [split; delayed_simpl; eauto; exact (quiet_interval _ Hq) |]. do 5 (split; [reflexivity |]).
      split; [eauto |]. split; [reflexivity |]. split; [| exact I]. unfold timer_started. delayed_simpl. rewrite E. reflexivity.
Qed.

#[export] Program Instance delayed_acknowledger : Acknowledger create_and_dispatch_ack := {| ack_ok := quiet |}.
Next Obligation.
  intros f c Hf [Ht Hw Hc Hi].
  split; cbn [update_rc delayed_reliability with_base base_context ack_timer_ cur_ack_count_ delay_timeout_interval_]; auto.
  exact (eq_trans Hf Ht).
Qed.
Next Obligation.
  intros s w Hl Hq. destruct (create_and_dispatch_ack_spec s w Hl Hq) as (w' & E & Hq' & Hrc & Hs & Hn & _ & _ & Ha).
  assert (∃ t, trace (io w') = (trace (io w) ++ t)%list ∧ Forall (fun x => silent x = true) t) as (t & Ht & Hsil).
  { destruct (answers (ctx w)); [destruct Ha as (_ & _ & p & _ & Ht) | destruct Ha as (_ & _ & Ht & _)];
      eexists; (split; [exact Ht |]).
    - apply Forall_app. split; [destruct (1 <? _) |]; repeat constructor.
    - unfold timer_started. destruct (ack_timer_ (ctx w)), (ack_timer_ (ctx w')); try destruct (split_seconds _) as [[] |]; repeat constructor. }
  exists w', t. auto 10.
Qed.

(** ** The acknowledgement policy *)

Fixpoint ack_requests (k : nat) (s : nat) : delayed_handler unit :=
  match k with O => mret tt | S k => _ ← ack_requests k s; create_and_dispatch_ack s end.

(** Nothing waits for an acknowledgement, and a delay of [sec] seconds and [ns] nanoseconds is set. *)
Record at_rest (sec ns : Z) (c : delayed_context) : Prop := {
  rest_count : cur_ack_count_ c = 0;
  rest_timer : ack_timer_ c = None;
  rest_interval : delay_ok (delay_timeout_interval_ c) sec ns }.

Definition acknowledgement (s : nat) (x : effect) : Prop :=
  match x with Enqueue (SendPacketEvent s' p) => s' = s ∧ pure_ack p | _ => True end.

(** [n] segments wait: the timer that will flush them is among the effects [t]. *)
Record waiting (s : nat) (sec ns n : Z) (c : delayed_context) (t : list effect) : Prop := {
  wait_count : cur_ack_count_ c = n;
  wait_none : n = 0 → ack_timer_ c = None;
  wait_timer : 0 < n → ∃ p, ack_timer_ c = Some p ∧ In (Dispatch (TimeoutEvent p s sec ns)) t }.

Lemma at_rest_quiet sec ns c : timer_ (base_context c) = None → at_rest sec ns c → quiet c.
Proof. intros Ht [Hc Ha Hi]. split; [exact Ht | lia | unfold is_u16; lia | eauto]. Qed.

(** One more request, of which none or some wait already. *)
Lemma one_request s sec ns n t (w : env delayed_context) (d := delay_count_ (ctx w)) :
  is_Some (local_ (sock w)) → quiet (ctx w) → 1 ≤ d < 2 ^ 16 → 0 ≤ n < d →
  delay_ok (delay_timeout_interval_ (ctx w)) sec ns → waiting s sec ns n (ctx w) t →
  ∃ w' t', create_and_dispatch_ack s w = Done (tt, w') ∧ trace (io w') = (trace (io w) ++ t')%list ∧
    quiet (ctx w') ∧ base_context (ctx w') = base_context (ctx w) ∧ sock w' = sock w ∧ delay_count_ (ctx w') = d ∧
    delay_timeout_interval_ (ctx w') = delay_timeout_interval_ (ctx w) ∧ Forall (acknowledgement s) t' ∧
    Z.of_nat (segments_sent t') = (if d <=? n + 1 then 1 else 0) ∧
    waiting s sec ns (if d <=? n + 1 then 0 else n + 1) (ctx w') (t ++ t').
Proof.
  intros Hl Hq Hd Hn Hi [Hc H0 Hw].
  destruct (create_and_dispatch_ack_spec s w Hl Hq) as (w' & E & Hq' & Hb & Hs & _ & Hd' & Hint & Ha).
  unfold answers in Ha. fold d in Ha. rewrite Hc, u16_small in Ha by (unfold is_u16; lia).
  destruct (Z.leb_spec d (n + 1)) as [Hle | Hlt].
  - destruct Ha as (Hc' & Ht' & p & Hp & Htr). eexists w', _. do 7 (split; [eassumption |]).
    split; [apply Forall_app; split; [destruct (1 <? d); repeat constructor | apply Forall_singleton; exact (conj eq_refl Hp)] |].
    split; [destruct (1 <? d); reflexivity |]. split; [exact Hc' | intros _ | lia].
    rewrite Ht'. destruct (Z.ltb_spec 1 d); [reflexivity | apply H0; lia].
  - destruct Ha as ([p Hp] & Hc' & Htr & Hsame). eexists w', _. do 7 (split; [eassumption |]).
    unfold timer_started in *. rewrite Hp, Hint, (proj1 Hi) in *.
    split; [destruct (ack_timer_ (ctx w)); repeat constructor |]. split; [destruct (ack_timer_ (ctx w)); reflexivity |].
    split; [exact Hc' | lia | intros _]. exists p. split; [exact Hp |]. apply in_or_app.
    destruct (Z.eq_dec n 0) as [-> | Hn0]; [rewrite H0 by reflexivity; right; left; reflexivity |].
    destruct Hw as (p' & Ep & Hin); [lia |]. rewrite Ep in Hsame. injection Hsame as <-. auto.
Qed.

Lemma ack_requests_spec k s sec ns w (d := delay_count_ (ctx w)) :
  is_Some (local_ (sock w)) → timer_ (base_context (ctx w)) = None → at_rest sec ns (ctx w) → 1 ≤ d < 2 ^ 16 →
  ∃ w' t, ack_requests k s w = Done (tt, w') ∧ trace (io w') = (trace (io w) ++ t)%list ∧
    quiet (ctx w') ∧ base_context (ctx w') = base_context (ctx w) ∧ sock w' = sock w ∧ delay_count_ (ctx w') = d ∧
    delay_timeout_interval_ (ctx w') = delay_timeout_interval_ (ctx w) ∧ Forall (acknowledgement s) t ∧
    Z.of_nat (segments_sent t) = Z.of_nat k / d ∧ waiting s sec ns (Z.of_nat k mod d) (ctx w') t.
Proof.
  intros Hl Hn Hr Hd. induction k as [|k (w1 & t & E & Ht & Hq & Hb & Hs & Hd1 & Hi & Hall & Hseg & Hw)].
  { exists w, []. rewrite app_nil_r, Z.div_0_l, Z.mod_0_l by lia. do 2 (split; [reflexivity |]).
    split; [exact (at_rest_quiet _ _ _ Hn Hr) |]. do 4 (split; [reflexivity |]). split; [constructor |]. split; [reflexivity |].
    destruct Hr. split; [assumption | auto | lia]. }
  pose proof (Z.mod_pos_bound (Z.of_nat k) d ltac:(lia)) as Hm. pose proof (Z.div_mod (Z.of_nat k) d ltac:(lia)).
  destruct (one_request s sec ns (Z.of_nat k mod d) t w1) as (w' & t' & E' & Ht' & Hq' & Hb' & Hs' & Hd' & Hi' & Hall' & Hseg' & Hw');
    rewrite ?Hs, ?Hd1, ?Hi; try assumption; try lia; [apply Hr |].
  exists w', (t ++ t')%list. rewrite Hd1 in Hd', Hseg', Hw'. rewrite Ht', Ht, app_assoc, Hb', Hs', Hi', segments_sent_app, Nat2Z.inj_add, Hseg, Hseg'.
  split; [cbn [ack_requests]; run; rewrite E; exact E' |]. split; [reflexivity |]. do 5 (split; [assumption |]).
  split; [apply Forall_app; auto |]. replace (Z.of_nat (S k)) with (Z.of_nat k + 1) by lia.
  destruct (Z.leb_spec d (Z.of_nat k mod d + 1)).
  - rewrite <- (Z.div_unique_pos (Z.of_nat k + 1) d (Z.of_nat k / d + 1) 0), <- (Z.mod_unique_pos (Z.of_nat k + 1) d (Z.of_nat k / d + 1) 0) by nia. auto.
  - rewrite <- (Z.div_unique_pos (Z.of_nat k + 1) d (Z.of_nat k / d) (Z.of_nat k mod d + 1)),
      <- (Z.mod_unique_pos (Z.of_nat k + 1) d (Z.of_nat k / d) (Z.of_nat k mod d + 1)) by nia. split; [lia | exact Hw'].
Qed.

(** While the retransmission timer runs no acknowledgement timer is started, and the request
    that completes the count finds none to cancel. *)
Lemma ack_requests_crash k s timer w (d := delay_count_ (ctx w)) :
  timer_ (base_context (ctx w)) = Some timer → cur_ack_count_ (ctx w) = 0 → ack_timer_ (ctx w) = None → 1 < d < 2 ^ 16 →
  ack_requests k s w =
    if Z.of_nat k <? d then Done (tt, {| ctx := set_cur_ack_count (Z.of_nat k) (ctx w); sock := sock w; io := io w |}) else Fault AssertionFailure.
Proof.
  intros Ht Hc Ha Hd. induction k as [|k IH].
  { rewrite (proj2 (Z.ltb_lt _ _)) by lia. cbn [ack_requests]. run. destruct w as [[] ? ?]. cbn in Hc. subst. reflexivity. }
  cbn [ack_requests]. run. rewrite IH. destruct (Z.ltb_spec (Z.of_nat k) d) as [Hk | Hk]; [| rewrite (proj2 (Z.ltb_ge _ _)) by lia; reflexivity].
  unfold create_and_dispatch_ack. run. delayed_simpl. rewrite (u16_small (Z.of_nat k)), u16_small by (unfold is_u16; lia). fold d.
  replace (Z.of_nat k + 1) with (Z.of_nat (S k)) by lia.
  destruct (Z.leb_spec d (Z.of_nat (S k))) as [Hle | Hlt].
  - rewrite (proj2 (Z.ltb_lt _ _)) by lia. rewrite (proj2 (Z.ltb_ge _ _)) by lia. unfold cancel_ack_timer. run. delayed_simpl. rewrite Ha. run. reflexivity.
  - rewrite (proj2 (Z.ltb_lt _ _)) by lia. rewrite Ha. unfold start_ack_timer, gets_rc. run. cbn [rc delayed_reliability]. delayed_simpl. rewrite Ht. run.
    unfold set_cur_ack_count. cbn. rewrite (u16_small (Z.of_nat (S k))) by (unfold is_u16; lia). reflexivity.
Qed.

(** C36: starting with nothing waiting and a constant delay of [d], and no retransmission timer
    running, [k] segments that ask for an acknowledgement get exactly [k / d] pure
    acknowledgements. The [k mod d] that still wait have started an acknowledgement timer, of the
    delay of the context; when it fires, one more acknowledgement goes out and none waits.
    While a retransmission timer runs and the delay is above one, the first [d - 1] segments
    wait, with no timer that would flush them, and the next one fails the assertion of
    [cancel_ack_timer]. *)
Theorem delayed_ack_policy k s sec ns w (d := delay_count_ (ctx w)) :
  is_Some (local_ (sock w)) → at_rest sec ns (ctx w) → 1 ≤ d < 2 ^ 16 →
  match timer_ (base_context (ctx w)) with
  | None =>
      ∃ w' t, ack_requests k s w = Done (tt, w') ∧ trace (io w') = (trace (io w) ++ t)%list ∧
        Forall (acknowledgement s) t ∧ Z.of_nat (segments_sent t) = Z.of_nat k / d ∧ cur_ack_count_ (ctx w') = Z.of_nat k mod d ∧
        (0 < Z.of_nat k mod d → ∃ timer q w'', ack_timer_ (ctx w') = Some timer ∧
          In (Dispatch (TimeoutEvent timer s sec ns)) t ∧
          state_timer_fired s timer w' = Done (tt, w'') ∧ pure_ack q ∧
          trace (io w'') = (trace (io w') ++ [Enqueue (SendPacketEvent s q)])%list ∧ at_rest sec ns (ctx w''))
  | Some _ =>
      1 < d → ack_requests k s w =
        if Z.of_nat k <? d then Done (tt, {| ctx := set_cur_ack_count (Z.of_nat k) (ctx w); sock := sock w; io := io w |})
        else Fault AssertionFailure
  end.
Proof.
  intros Hl Hr Hd. destruct (timer_ (base_context (ctx w))) as [timer |] eqn:Et.
  { intros H1. destruct Hr. apply (ack_requests_crash k s timer); try assumption. lia. }
  destruct (ack_requests_spec k s sec ns w Hl Et Hr Hd) as (w' & t & E & Ht & _ & Hb & Hs & _ & Hi & Hall & Hn & [Hc _ Hw]).
  exists w', t. do 5 (split; [assumption |]). intros H0. destruct (Hw H0) as (timer & Ha & Hin).
  exists timer. unfold state_timer_fired, Reliability.state_timer_fired, gets_rc. run. cbn [rc delayed_reliability]. rewrite Hb, Et. run.
  rewrite Ha, Nat.eqb_refl. run.
  match goal with |- context [base_create_and_dispatch_ack s ?w2] => destruct (base_ack_spec s w2) as (q & -> & Hq); [cbn [sock]; rewrite Hs; exact Hl |] end.
  exists q. eexists. do 5 (split; [first [reflexivity | assumption] |]). split; delayed_simpl; [reflexivity | reflexivity |]. rewrite Hi. apply Hr.
Qed.

(** Delayed acknowledgements do not change delivery. As long as this side has nothing
    outstanding, [handle_data] delivers a segment within the window exactly as Tahoe's does,
    after choosing the delay from the segment's sequence number, and always returns. *)
Theorem delayed_handle_data_delivers base pos stream a f r s w :
  receiving create_and_dispatch_ack base pos stream a f w → Z.of_nat (length (receive_buffer_ (sock w))) < 2 ^ 30 →
  placed base pos f r → carries pos stream r → finish pos r ≤ a + MAX_TCP_RECEIVE_WINDOW_SIZE →
  ∃ e w', handle_data s r w = Done (tt, w') ∧ receiving create_and_dispatch_ack base pos stream a e w' ∧
    receive_buffer_ (sock w') = (receive_buffer_ (sock w) ++ stretch stream f e)%list ∧
    (e ∉ held pos f (base_context (ctx w)) ∪ interval (Z.max f (pos r)) (finish pos r)) ∧
    delay_count_ (ctx w') = u16 (get_delay_based_on_seq_num (get_tcp_sequence_number (pkt r)) (ctx w)).
Proof.
  intros Hr Hbuf Hp Hc He.
  set (w0 := {| ctx := set_delay_count (get_delay_based_on_seq_num (get_tcp_sequence_number (pkt r)) (ctx w)) (ctx w);
                sock := sock w; io := io w |}).
  assert (receiving create_and_dispatch_ack base pos stream a f w0) as Hr0.
  { apply (receiving_ext _ base pos stream a f w w0 Hr); [reflexivity | reflexivity |]. destruct (rcv_ack _ _ _ _ _ _ _ Hr). split; auto. }
  destruct (handle_data_core create_and_dispatch_ack base pos stream a f r s w0 Hr0 Hbuf Hp Hc He) as (e & w1 & E & [Hr1 _ Hb _ Hgap _ _ _ [g Hg] _ _]).
  destruct (create_and_dispatch_ack_spec s w1 (rcv_local _ _ _ _ _ _ _ Hr1) (rcv_ack _ _ _ _ _ _ _ Hr1))
    as (w' & E' & Hq & Hrc & Hs & _ & Hd & _ & _).
  exists e, w'. split; [unfold handle_data; run; rewrite <- E'; exact E |].
  split; [apply (receiving_ext _ base pos stream a e w1); assumption |]. rewrite Hs, Hd, Hg. auto.
Qed.

(** ** Concrete runs *)

Definition sample_delayed (n : Z) (timer : option nat) (delay : Z) : delayed_context :=
  {| base_context := sample_rc n timer 0; ack_timer_ := None; delay_count_ := delay; cur_ack_count_ := 0;
     delay_timeout_interval_ := INITAL_DELAY_TIMEOUT_INTERVAL; delay1_ := 1; delay2_ := 3; delay3_ := 3; delay4_ := 4;
     l1_threshold_ := 10000; l2_threshold_ := 100000; l3_threshold_ := 1000000 |}.

Definition sample_delayed_env (n : Z) (timer : option nat) (delay : Z) : env delayed_context :=
  {| ctx := sample_delayed n timer delay; sock := sample_socket 1 default_address_port;
     io := {| next_pointer := 9; now := 2000000; trace := [] |} |}.

Lemma sample_quiet n delay : quiet (sample_delayed n None delay).
Proof.
  split; cbn; [reflexivity | lia | unfold is_u16; lia |]. exists 0, 100000000. split; [vm_compute; reflexivity | lia].
Qed.

Lemma sample_at_rest n timer delay : at_rest 0 100000000 (sample_delayed n timer delay).
Proof. split; [reflexivity | reflexivity |]. split; [vm_compute; reflexivity | lia]. Qed.

Lemma delayed_ack_policy_witness :
  (∃ w' t, ack_requests 7 5 (sample_delayed_env 0 None 3) = Done (tt, w') ∧ trace (io w') = t ∧
    Z.of_nat (segments_sent t) = 2 ∧ cur_ack_count_ (ctx w') = 1 ∧
    ∃ timer w'', state_timer_fired 5 timer w' = Done (tt, w'') ∧ cur_ack_count_ (ctx w'') = 0) ∧
  ack_requests 3 5 (sample_delayed_env 1 (Some 4%nat) 3) = Fault AssertionFailure.
Proof.
  split.
  - destruct (delayed_ack_policy 7 5 0 100000000 (sample_delayed_env 0 None 3)) as (w' & t & E & Ht & _ & Hn & Hc & Hf).
    + eexists. reflexivity.
    + apply sample_at_rest.
    + cbn. lia.
    + exists w', t. do 4 (split; [assumption |]). destruct Hf as (timer & q & w'' & _ & _ & E' & _ & _ & Hr); [reflexivity |].
      exists timer, w''. split; [exact E' | apply Hr].
  - apply (delayed_ack_policy 3 5 0 100000000 (sample_delayed_env 1 (Some 4%nat) 3)); [eexists; reflexivity | apply sample_at_rest | cbn; lia | cbn; lia].
Defined.

Lemma delayed_handle_data_delivers_witness :
  ∃ e w', handle_data 5 (sample_ref 0 0 [0; 1; 2]) (sample_delayed_env 0 None 2) = Done (tt, w') ∧
    receive_buffer_ (sock w') = stretch sample_stream 0 e ∧ delay_count_ (ctx w') = 4.
Proof.
  pose proof sample_placed as Hp. pose proof sample_carries as Hc. unfold sample_segments in Hp, Hc. rewrite !Forall_cons in Hp, Hc.
  assert (receiving create_and_dispatch_ack sample_base sample_pos sample_stream 0 0 (sample_delayed_env 0 None 2)) as Hr.
  { destruct (sample_receiving 0 0 None [] ltac:(split; discriminate)). split; try assumption. apply sample_quiet. }
  destruct (delayed_handle_data_delivers sample_base sample_pos sample_stream 0 0 (sample_ref 0 0 [0; 1; 2]) 5
    (sample_delayed_env 0 None 2) Hr) as (e & w' & E & _ & Hb & _ & Hd).
  - cbn. lia.
  - apply Hp.
  - apply Hc.
  - apply Z.leb_le. vm_compute. reflexivity.
  - exists e, w'. split; [exact E |]. split; [exact Hb |]. rewrite Hd. vm_compute. reflexivity.
Defined.
