(* ===== verification/RateLimiter.v ===== *)
(** * Paced sending

    classes SendRateLimiter, TCPAPSendRateLimiter and TCPAPRateLimiterContext
    (transport/src/states/tcp-ap/SendRateLimiter.cc, TCPAPSendRateLimiter.cc,
    transport/src/contexts/TCPAPRateLimiterContext.cc): TCP-AP lets segments with data
    out one per interval; the rest wait in a queue for the limiter's timer. The
    interval is fixed by a socket option or follows the round-trip times; the log file
    the second writes is left out. *)
From Stdlib Require Import Floats.SpecFloat.
From stdpp Require Import gmap.
From S2P Require Import Prelude Double HeaderMem Sockets IPPacket TCPOptions WiFuPacket TCPPacket Events Congestion Reliability Stamps DelayedAck.

(** ** SendRateLimiter *)

Record send_rate_limiter := {
  canSend_ : bool;
  sendSeconds_ : Z;
  sendNanos_ : Z;
  waitingTimeout_ : option nat;
  queue_ : list tcp_packet }.

Definition new_SendRateLimiter : send_rate_limiter :=
  {| canSend_ := true; sendSeconds_ := 0; sendNanos_ := 0; waitingTimeout_ := None; queue_ := [] |}.

Definition setRate (seconds nanoseconds : Z) (l : send_rate_limiter) : send_rate_limiter :=
  {| canSend_ := canSend_ l; sendSeconds_ := seconds; sendNanos_ := nanoseconds; waitingTimeout_ := waitingTimeout_ l; queue_ := queue_ l |}.
Definition set_canSend (b : bool) (l : send_rate_limiter) : send_rate_limiter :=
  {| canSend_ := b; sendSeconds_ := sendSeconds_ l; sendNanos_ := sendNanos_ l; waitingTimeout_ := waitingTimeout_ l; queue_ := queue_ l |}.
Definition set_waitingTimeout (e : option nat) (l : send_rate_limiter) : send_rate_limiter :=
  {| canSend_ := canSend_ l; sendSeconds_ := sendSeconds_ l; sendNanos_ := sendNanos_ l; waitingTimeout_ := e; queue_ := queue_ l |}.
Definition set_queue (q : list tcp_packet) (l : send_rate_limiter) : send_rate_limiter :=
  {| canSend_ := canSend_ l; sendSeconds_ := sendSeconds_ l; sendNanos_ := sendNanos_ l; waitingTimeout_ := waitingTimeout_ l; queue_ := q |}.

(** ** TCPAPRateLimiterContext

    [limiter_]: its state, a TCPAPSendRateLimiter. [sent_sizes_] stays empty: the statement that
    should write it, [sendmap[p->get_tcp_sequence_number(), size]], computes an address and
    drops it. *)
Record ap_context := {
  limiter_ : send_rate_limiter;
  fhd_hat_ : double;
  alpha_ : double;
  history_size_ : Z;
  history_ : list double;
  avg_rtt_ : double;
  bandwidth_ : Z;
  ap_echo_reply_ : Z;
  n_hop_factor_ : Z;
  fixed_rate_ : Z;
  sent_sizes_ : gmap Z Z }.

Definition on_limiter (f : send_rate_limiter → send_rate_limiter) (c : ap_context) : ap_context :=
  {| limiter_ := f (limiter_ c); fhd_hat_ := fhd_hat_ c; alpha_ := alpha_ c; history_size_ := history_size_ c; history_ := history_ c;
     avg_rtt_ := avg_rtt_ c; bandwidth_ := bandwidth_ c; ap_echo_reply_ := ap_echo_reply_ c; n_hop_factor_ := n_hop_factor_ c;
     fixed_rate_ := fixed_rate_ c; sent_sizes_ := sent_sizes_ c |}.
Definition set_fhd_hat (fhdhat : double) (c : ap_context) : ap_context :=
  {| limiter_ := limiter_ c; fhd_hat_ := fhdhat; alpha_ := alpha_ c; history_size_ := history_size_ c; history_ := history_ c;
     avg_rtt_ := avg_rtt_ c; bandwidth_ := bandwidth_ c; ap_echo_reply_ := ap_echo_reply_ c; n_hop_factor_ := n_hop_factor_ c;
     fixed_rate_ := fixed_rate_ c; sent_sizes_ := sent_sizes_ c |}.
Definition set_alpha (alpha : double) (c : ap_context) : ap_context :=
  {| limiter_ := limiter_ c; fhd_hat_ := fhd_hat_ c; alpha_ := alpha; history_size_ := history_size_ c; history_ := history_ c;
     avg_rtt_ := avg_rtt_ c; bandwidth_ := bandwidth_ c; ap_echo_reply_ := ap_echo_reply_ c; n_hop_factor_ := n_hop_factor_ c;
     fixed_rate_ := fixed_rate_ c; sent_sizes_ := sent_sizes_ c |}.
Definition set_history_size (size : Z) (c : ap_context) : ap_context :=
  {| limiter_ := limiter_ c; fhd_hat_ := fhd_hat_ c; alpha_ := alpha_ c; history_size_ := u16 size; history_ := history_ c;
     avg_rtt_ := avg_rtt_ c; bandwidth_ := bandwidth_ c; ap_echo_reply_ := ap_echo_reply_ c; n_hop_factor_ := n_hop_factor_ c;
     fixed_rate_ := fixed_rate_ c; sent_sizes_ := sent_sizes_ c |}.
Definition set_history (history : list double) (c : ap_context) : ap_context :=
  {| limiter_ := limiter_ c; fhd_hat_ := fhd_hat_ c; alpha_ := alpha_ c; history_size_ := history_size_ c; history_ := history;
     avg_rtt_ := avg_rtt_ c; bandwidth_ := bandwidth_ c; ap_echo_reply_ := ap_echo_reply_ c; n_hop_factor_ := n_hop_factor_ c;
     fixed_rate_ := fixed_rate_ c; sent_sizes_ := sent_sizes_ c |}.
Definition set_avg_rtt (avg : double) (c : ap_context) : ap_context :=
  {| limiter_ := limiter_ c; fhd_hat_ := fhd_hat_ c; alpha_ := alpha_ c; history_size_ := history_size_ c; history_ := history_ c;
     avg_rtt_ := avg; bandwidth_ := bandwidth_ c; ap_echo_reply_ := ap_echo_reply_ c; n_hop_factor_ := n_hop_factor_ c;
     fixed_rate_ := fixed_rate_ c; sent_sizes_ := sent_sizes_ c |}.
Definition set_bandwidth (bandwidth : Z) (c : ap_context) : ap_context :=
  {| limiter_ := limiter_ c; fhd_hat_ := fhd_hat_ c; alpha_ := alpha_ c; history_size_ := history_size_ c; history_ := history_ c;
     avg_rtt_ := avg_rtt_ c; bandwidth_ := u32 bandwidth; ap_echo_reply_ := ap_echo_reply_ c; n_hop_factor_ := n_hop_factor_ c;
     fixed_rate_ := fixed_rate_ c; sent_sizes_ := sent_sizes_ c |}.
Definition set_echo_reply (echo_reply : Z) (c : ap_context) : ap_context :=
  {| limiter_ := limiter_ c; fhd_hat_ := fhd_hat_ c; alpha_ := alpha_ c; history_size_ := history_size_ c; history_ := history_ c;
     avg_rtt_ := avg_rtt_ c; bandwidth_ := bandwidth_ c; ap_echo_reply_ := u32 echo_reply; n_hop_factor_ := n_hop_factor_ c;
     fixed_rate_ := fixed_rate_ c; sent_sizes_ := sent_sizes_ c |}.
Definition set_n_hop_factor (factor : Z) (c : ap_context) : ap_context :=
  {| limiter_ := limiter_ c; fhd_hat_ := fhd_hat_ c; alpha_ := alpha_ c; history_size_ := history_size_ c; history_ := history_ c;
     avg_rtt_ := avg_rtt_ c; bandwidth_ := bandwidth_ c; ap_echo_reply_ := ap_echo_reply_ c; n_hop_factor_ := u16 factor;
     fixed_rate_ := fixed_rate_ c; sent_sizes_ := sent_sizes_ c |}.
Definition set_fixed_rate (rate : Z) (c : ap_context) : ap_context :=
  {| limiter_ := limiter_ c; fhd_hat_ := fhd_hat_ c; alpha_ := alpha_ c; history_size_ := history_size_ c; history_ := history_ c;
     avg_rtt_ := avg_rtt_ c; bandwidth_ := bandwidth_ c; ap_echo_reply_ := ap_echo_reply_ c; n_hop_factor_ := n_hop_factor_ c;
     fixed_rate_ := u32 rate; sent_sizes_ := sent_sizes_ c |}.

(** The constructor; [memory] is what it leaves uninitialised. *)
Definition new_TCPAPRateLimiterContext (memory : ap_context) : ap_context :=
  {| limiter_ := setRate 0 0 new_SendRateLimiter; fhd_hat_ := of_Z 0; alpha_ := alpha_ memory; history_size_ := history_size_ memory;
     history_ := []; avg_rtt_ := avg_rtt_ memory; bandwidth_ := bandwidth_ memory; ap_echo_reply_ := 0; n_hop_factor_ := 4;
     fixed_rate_ := u32 (-1); sent_sizes_ := ∅ |}.

(** The rate limiter of a new TCPAPIContextContainer. *)
Definition new_rate_limiter (memory : ap_context) : ap_context :=
  set_bandwidth 24000000 (set_history_size 50 (set_alpha (literal 7 10) (new_TCPAPRateLimiterContext memory))).

Definition ap_handler := handler ap_context unit.

(** ** What SendRateLimiter does, with the virtual [protocol_specific_stuff] *)

Section SendRateLimiter.
Context (protocol_specific_stuff : nat → tcp_packet → handler ap_context tcp_packet).

Definition setTimer (s : nat) : ap_handler :=
  l ← gets limiter_;
  timeout_event ← new_timeout s (sendSeconds_ l) (sendNanos_ l);
  modify (on_limiter (set_waitingTimeout (Some timeout_event))).

Definition dispatch_packet (s : nat) (packet : tcp_packet) : ap_handler :=
  packet ← protocol_specific_stuff s packet;
  dispatch (NetworkSendPacketEvent s packet).

Definition base_state_send_packet (s : nat) (p : tcp_packet) : ap_handler :=
  l ← gets limiter_;
  if canSend_ l then
    _ ← modify (on_limiter (set_canSend false));
    _ ← dispatch_packet s p;
    setTimer s
  else modify (on_limiter (fun l => set_queue (queue_ l ++ [p]) l)).

Definition base_state_timer_fired (s timeout_event : nat) : ap_handler :=
  l ← gets limiter_;
  match waitingTimeout_ l with
  | None => mret tt
  | Some waiting =>
      if negb (Nat.eqb timeout_event waiting) then mret tt else
      match queue_ l with
      | packet :: queue =>
          _ ← modify (on_limiter (set_queue queue));
          _ ← dispatch_packet s packet;
          setTimer s
      | [] => modify (on_limiter (fun l => set_waitingTimeout None (set_canSend true l)))
      end
  end.
End SendRateLimiter.

(** ** TCPAPSendRateLimiter *)

(** [*(u_int16_t* ) data], [*(u_int32_t* ) data] and [*(double* ) data] on a little-endian machine. *)
Definition value_at (size : nat) (value : list Z) : outcome Z :=
  if Nat.leb size (length value) then Done (get (Bytes (seq 0 size)) value) else Fault OutOfBounds.

(** The double with these 64 bits. *)
Definition double_of_bits (bits : Z) : double :=
  let sign := Z.testbit bits 63 in
  let exponent := Z.land (Z.shiftr bits 52) 2047 in
  let mantissa := Z.land bits (2 ^ 52 - 1) in
  if exponent =? 2047 then (if mantissa =? 0 then S754_infinity sign else S754_nan)
  else
    match (if exponent =? 0 then mantissa else mantissa + 2 ^ 52) with
    | Z.pos m => S754_finite sign m (Z.max 1 exponent - 1075)
    | _ => S754_zero sign
    end.

Definition deqb : double → double → bool := SFeqb.
Definition dsqrt : double → double := SFsqrt prec emax.

(** Stamps, packs and checks a segment just before it leaves. *)
Definition protocol_specific_stuff (s : nat) (p : tcp_packet) : handler ap_context tcp_packet :=
  '(option, p) ← lift (get_option TCPOPT_TIMESTAMP p);
  _ ← lift (deref option);
  time ← get_current_time_microseconds_32;
  echo_reply ← gets ap_echo_reply_;
  let p := TCPPacket.with_options
    (update_option TCPOPT_TIMESTAMP
       (fun o => let o := set_timestamp time o in
                 if negb (echo_reply =? 0) then TCPOptions.set_echo_reply echo_reply o else o) (options_ p)) p in
  lift (seal p).

(** The statement between the two cases, [sendmap[p->get_tcp_sequence_number(), size]], indexes the
    pointer [sendmap] with [size] (the comma drops the number) and does nothing with the result. *)
Definition state_send_packet (s : nat) (p : tcp_packet) : ap_handler :=
  if is_naked_ack p || is_tcp_syn p then dispatch_packet protocol_specific_stuff s p
  else base_state_send_packet protocol_specific_stuff s p.

Definition state_timer_fired : nat → nat → ap_handler := base_state_timer_fired protocol_specific_stuff.

Definition calc_covariance (c : ap_context) : double :=
  let size := of_Z (Z.of_nat (length (history_ c))) in
  if Nat.leb (length (history_ c)) 1 then of_Z 0
  else
    let total := foldl (fun total i => let d := dsub i (avg_rtt_ c) in dadd total (dmul d d)) (of_Z 0) (history_ c) in
    ddiv (dsqrt (ddiv total size)) (avg_rtt_ c).

(** The history of round-trip times and their average. *)
Definition record_rtt (rtt : double) (c : ap_context) : ap_context :=
  let max_size := of_Z (history_size_ c) in
  let history := (history_ c ++ [rtt])%list in
  if dltb max_size (of_Z (Z.of_nat (length history))) then
    let popped := hd (of_Z 0) history in
    set_avg_rtt (dadd (dsub (avg_rtt_ c) (ddiv popped max_size)) (ddiv rtt max_size)) (set_history (tl history) c)
  else
    set_avg_rtt (ddiv (foldl dadd (of_Z 0) history) (of_Z (Z.of_nat (length history)))) (set_history history c).

(** The estimate of the four-hop delay from one round-trip time. *)
Definition update_fhd_hat (rtt : double) (p : tcp_packet) (size : Z) (c : ap_context) : ap_context :=
  let hops := MAX_TTL - get_ip_ttl (ip_of p) + 1 in
  let hops := of_Z (if hops =? 0 then 1 else hops) in
  let bandwidth := ddiv (of_Z (bandwidth_ c)) (of_Z 8) in
  let ack_size := of_Z (get_data_length_bytes p + get_ip_header_length_bytes (ip_of p) + get_tcp_header_length_bytes p) in
  let n_hop_factor := ddiv (of_Z (n_hop_factor_ c)) (of_Z 2) in
  let fhd := dmul n_hop_factor (dadd (ddiv rtt hops) (ddiv (dsub (of_Z size) ack_size) bandwidth)) in
  if deqb (fhd_hat_ c) (of_Z 0) then set_fhd_hat fhd c
  else set_fhd_hat (dadd (dmul (alpha_ c) (fhd_hat_ c)) (dmul (dsub (of_Z 1) (alpha_ c)) fhd)) c.

Definition state_receive_packet (s : nat) (p : tcp_packet) : ap_handler :=
  c ← gets id;
  if negb (fixed_rate_ c =? 0) then mret tt
  else if negb (is_tcp_ack p) then mret tt
  else
    '(ts, p) ← lift (get_option TCPOPT_TIMESTAMP p);
    _ ← match ts with Some ts => modify (set_echo_reply (get_timestamp ts)) | None => mret tt end;
    curtime ← get_current_time_microseconds_32;
    ts ← lift (deref ts);
    let rtt := dsub (of_Z curtime) (of_Z (TCPOptions.get_echo_reply ts)) in
    if dltb rtt (of_Z 0) then mret tt
    else
      _ ← modify (record_rtt rtt);
      c ← gets id;
      data_size ← lift (match sent_sizes_ c !! get_tcp_ack_number p with Some size => Done size | None => Fault OutOfBounds end);
      _ ← modify (update_fhd_hat rtt p data_size);
      c ← gets id;
      let delay := dmul (fhd_hat_ c) (dadd (of_Z 1) (dmul (of_Z 2) (calc_covariance c))) in
      nanoseconds ← lift (to_long (dmul delay (of_Z 1000)));
      modify (on_limiter (setRate 0 nanoseconds)).

Definition state_set_socket_option (level option_name : Z) : ap_handler :=
  if negb (level =? TCP_AP) then mret tt else
  sk ← get_socket;
  let value := fst (options_get (TCP_AP, option_name) (get_socket_options sk)) in
  if option_name =? 1 then a ← lift (value_at 8 value); modify (set_alpha (double_of_bits a))
  else if option_name =? 2 then size ← lift (value_at 2 value); modify (set_history_size size)
  else if option_name =? 3 then bw ← lift (value_at 4 value); modify (set_bandwidth bw)
  else if option_name =? 4 then hops ← lift (value_at 2 value); modify (set_n_hop_factor hops)
  else if option_name =? 5 then
    rate ← lift (value_at 4 value);
    _ ← modify (set_fixed_rate rate);
    let bytes_per_sec := ddiv (of_Z rate) (of_Z 8) in
    let newrate := ddiv bytes_per_sec (of_Z (Z.of_nat MTU)) in
    let newrate := ddiv (of_Z 1) newrate in
    nanoseconds ← lift (to_long (dmul newrate (of_Z NANOSECONDS_IN_SECONDS)));
    modify (on_limiter (setRate 0 nanoseconds))
  else mret tt.

(** ** Packets that leave *)

Definition restamped (time echo : Z) (o : tcp_header_option) : tcp_header_option :=
  let o := set_timestamp time o in if negb (echo =? 0) then TCPOptions.set_echo_reply echo o else o.

Lemma restamped_ok time echo o :
  option_ok o → Forall is_byte (TCPOptions.data_ o) → get_length o = 10 →
  let o' := restamped time echo o in
  option_ok o' ∧ Forall is_byte (TCPOptions.data_ o') ∧ get_length o' = 10 ∧ get_kind o' = get_kind o.
Proof.
  intros Hok Hb Hl. destruct (put_option_ok f_timestamp_value time o Hok Hb Hl) as (H1 & B1 & L1 & K1); [vm_compute; reflexivity.. |].
  unfold restamped. destruct (negb (echo =? 0)); [| auto].
  destruct (put_option_ok f_timestamp_echo_reply echo _ H1 B1 L1) as (H2 & B2 & L2 & K2); [vm_compute; reflexivity.. |].
  cbv zeta. rewrite <- K1. auto.
Qed.

Lemma restamped_timestamped time echo o p :
  timestamped o p → timestamped (restamped time echo o) (TCPPacket.with_options [restamped time echo o] p).
Proof.
  intros H. pose proof H as [_ _ Hok Hb Hk Hl _ _]. destruct (restamped_ok time echo o Hok Hb Hl) as (H1 & H2 & H3 & H4).
  apply (timestamped_option o); [exact H | exact H1 | exact H2 | congruence | exact H3].
Qed.

(** [q] is [p] as it leaves: stamped, packed, with a checksum, and otherwise the same. *)
Record departs (p q : tcp_packet) : Prop := {
  dp_valid : is_valid_tcp_checksum q = Done (true, q);
  dp_data : data_of q = data_of p;
  dp_length : get_data_length_bytes q = get_data_length_bytes p;
  dp_fields : ∀ f, header_field f = true → disjoint f f_tcp_check = true → get_tcp f q = get_tcp f p;
  dp_stamp : ∃ o, carries o q ∧ get_kind o = TCPOPT_TIMESTAMP }.

Definition sendable (p : tcp_packet) : Prop := ∃ o, timestamped o p.

Lemma stuff_spec s p o w (stamp := restamped (u32 (now (io w))) (ap_echo_reply_ (ctx w)) o) :
  timestamped o p → ∃ q, protocol_specific_stuff s p w = Done (q, w) ∧ departs p q ∧ carries stamp q.
Proof.
  intros H. pose proof (restamped_timestamped (u32 (now (io w))) (ap_echo_reply_ (ctx w)) o p H) as H1. fold stamp in H1.
  destruct (seal_spec _ _ H1) as (q & E & [_ Hv Hd Hf Hl Hc]). exists q. split; [| split; [| exact Hc]].
  - unfold protocol_specific_stuff. run. rewrite (get_timestamp_option _ _ H). run. unfold get_current_time_microseconds_32. run.
    rewrite (ts_options _ _ H). cbn [update_option]. rewrite (ts_kind _ _ H), Z.eqb_refl. cbn [deref].
    match goal with |- context [seal ?x] => change x with (TCPPacket.with_options [stamp] p) end. rewrite E. reflexivity.
  - split; [exact Hv | exact Hd | exact Hl | exact Hf |]. exists stamp. split; [exact Hc | apply (ts_kind _ _ H1)].
Qed.

(** Does a segment wait for its turn? *)
Definition paced (p : tcp_packet) : bool := negb (is_naked_ack p || is_tcp_syn p).

Lemma departs_paced p q : departs p q → paced q = paced p.
Proof.
  intros [_ _ Hl Hf _]. unfold paced, is_naked_ack, is_tcp_ack, is_tcp_fin, is_tcp_psh, is_tcp_rst, is_tcp_syn, is_tcp_urg, is_tcp.
  rewrite Hl, !Hf by reflexivity. reflexivity.
Qed.

(** ** Sequences of events *)

(** A packet to send, an expired timer, or a received packet. *)
Inductive input := Sends (p : tcp_packet) | Fires (timeout_event : nat) | Receives (p : tcp_packet).

Definition handle (s : nat) (i : input) : ap_handler :=
  match i with Sends p => state_send_packet s p | Fires t => state_timer_fired s t | Receives p => state_receive_packet s p end.

(** Each event happens at its time. *)
Definition at_time (t : Z) (w : env ap_context) : env ap_context :=
  {| ctx := ctx w; sock := sock w; io := {| next_pointer := next_pointer (io w); now := t; trace := trace (io w) |} |}.
Fixpoint run_inputs (s : nat) (ls : list (Z * input)) (w : env ap_context) : outcome (env ap_context) :=
  match ls with [] => mret w | (t, i) :: ls => '(_, w) ← handle s i (at_time t w); run_inputs s ls w end.

Definition sent_of (i : input) : list tcp_packet := match i with Sends p => [p] | _ => [] end.
Definition fired_of (i : input) : list nat := match i with Fires t => [t] | _ => [] end.
Definition sent (ls : list (Z * input)) : list tcp_packet := concat (map (fun x => sent_of (snd x)) ls).
Definition fired (ls : list (Z * input)) : list nat := concat (map (fun x => fired_of (snd x)) ls).

Definition packets_of (tr : list effect) : list tcp_packet := omap (fun x => match x with Dispatch (NetworkSendPacketEvent _ p) => Some p | _ => None end) tr.
Definition timers_of (tr : list effect) : list (nat * (nat * Z * Z)) :=
  omap (fun x => match x with Dispatch (TimeoutEvent t s sec ns) => Some (t, (s, sec, ns)) | _ => None end) tr.

Lemma packets_of_app a b : packets_of (a ++ b) = (packets_of a ++ packets_of b)%list.
Proof. apply omap_app. Qed.
Lemma timers_of_app a b : timers_of (a ++ b) = (timers_of a ++ timers_of b)%list.
Proof. apply omap_app. Qed.

(** What the limiter owes after these packets and expirations, when it did [tr]. *)
Record pacing (s : nat) (sec ns : Z) (sents : list tcp_packet) (fireds : list nat) (tr : list effect) (c : ap_context) : Prop := {
  pc_rate : sendSeconds_ (limiter_ c) = sec ∧ sendNanos_ (limiter_ c) = ns;
  pc_fixed : fixed_rate_ c ≠ 0;
  pc_ready : Forall sendable (queue_ (limiter_ c)) ∧ Forall (fun p => paced p = true) (queue_ (limiter_ c));
  pc_order : ∃ gone, List.filter paced sents = (gone ++ queue_ (limiter_ c))%list ∧
    Forall2 departs gone (List.filter paced (packets_of tr));
  pc_unpaced : Forall2 departs (List.filter (fun p => negb (paced p)) sents) (List.filter (fun p => negb (paced p)) (packets_of tr));
  pc_count : length (timers_of tr) = length (List.filter paced (packets_of tr));
  pc_rates : Forall (fun x => snd x = (s, sec, ns)) (timers_of tr);
  pc_busy : if canSend_ (limiter_ c)
    then waitingTimeout_ (limiter_ c) = None ∧ queue_ (limiter_ c) = [] ∧ map fst (timers_of tr) `sublist_of` fireds
    else ∃ t ts, waitingTimeout_ (limiter_ c) = Some t ∧ map fst (timers_of tr) = (ts ++ [t])%list ∧ ts `sublist_of` fireds }.

Lemma filter_singleton {A} (f : A → bool) a : List.filter f [a] = if f a then [a] else [].
Proof. reflexivity. Qed.

(** The first packet of the queue, or a new one, leaves and starts the timer. *)
Lemma release_spec s sec ns p (w : env ap_context) :
  sendSeconds_ (limiter_ (ctx w)) = sec → sendNanos_ (limiter_ (ctx w)) = ns → 0 ≤ sec → 0 ≤ ns → sendable p →
  ∃ q, (_ ← dispatch_packet protocol_specific_stuff s p; setTimer s) w =
      Done (tt, {| ctx := on_limiter (set_waitingTimeout (Some (next_pointer (io w)))) (ctx w); sock := sock w;
                   io := {| next_pointer := S (next_pointer (io w)); now := now (io w);
                            trace := trace (io w) ++ [Dispatch (NetworkSendPacketEvent s q); Dispatch (TimeoutEvent (next_pointer (io w)) s sec ns)] |} |}) ∧
    departs p q.
Proof.
  intros <- <- Hs Hn [o Ho]. destruct (stuff_spec s p o w Ho) as (q & E & Hd & _). exists q. split; [| exact Hd].
  unfold dispatch_packet. run. rewrite E. unfold setTimer. run. unfold new_timeout. run.
  rewrite !(proj2 (Z.leb_le _ _)) by assumption. run. rewrite <- app_assoc. reflexivity.
Qed.

Lemma pacing_more s sec ns sents fireds tr c l : pacing s sec ns sents fireds tr c → pacing s sec ns sents (fireds ++ l) tr c.
Proof.
  intros [Hr Hf Hq Ho Hu Hc Ht Hb]. split; try assumption. destruct (canSend_ (limiter_ c)).
  - destruct Hb as (H1 & H2 & H3). split; [exact H1 |]. split; [exact H2 |]. apply sublist_inserts_r, H3.
  - destruct Hb as (t & ts & H1 & H2 & H3). exists t, ts. split; [exact H1 |]. split; [exact H2 |]. apply sublist_inserts_r, H3.
Qed.

(** A paced packet leaves after all timers so far have expired. *)
Lemma pacing_release s sec ns sents fireds tr c p q t rest gone c' :
  pacing s sec ns sents fireds tr c → Forall sendable rest → Forall (fun p => paced p = true) rest →
  ∀ sents', List.filter paced sents' = (gone ++ p :: rest)%list → Forall2 departs gone (List.filter paced (packets_of tr)) →
  List.filter (fun p => negb (paced p)) sents' = List.filter (fun p => negb (paced p)) sents →
  paced p = true → departs p q → ∀ fireds', map fst (timers_of tr) `sublist_of` fireds' →
  limiter_ c' = {| canSend_ := false; sendSeconds_ := sec; sendNanos_ := ns; waitingTimeout_ := Some t; queue_ := rest |} →
  fixed_rate_ c' ≠ 0 →
  pacing s sec ns sents' fireds' (tr ++ [Dispatch (NetworkSendPacketEvent s q); Dispatch (TimeoutEvent t s sec ns)]) c'.
Proof.
  intros [_ _ _ _ Hu Hc Ht _] Hr1 Hr2 sents' Hs Hg Hun Hp Hd fireds' Hfi Hl Hfix. pose proof (departs_paced p q Hd) as Hq. rewrite Hp in Hq.
  assert (packets_of [Dispatch (NetworkSendPacketEvent s q); Dispatch (TimeoutEvent t s sec ns)] = [q]) as E1 by reflexivity.
  assert (timers_of [Dispatch (NetworkSendPacketEvent s q); Dispatch (TimeoutEvent t s sec ns)] = [(t, (s, sec, ns))]) as E2 by reflexivity.
  split; rewrite ?Hl, ?packets_of_app, ?timers_of_app, ?E1, ?E2, ?List.filter_app, ?filter_singleton, ?Hq; cbn [sendSeconds_ sendNanos_ queue_ canSend_ waitingTimeout_ negb].
  - auto.
  - exact Hfix.
  - auto.
  - exists (gone ++ [p])%list. rewrite Hs, <- app_assoc. split; [reflexivity |]. apply Forall2_app; [exact Hg | constructor; [exact Hd | constructor]].
  - rewrite app_nil_r, Hun. exact Hu.
  - rewrite !length_app, Hc. reflexivity.
  - apply Forall_app. split; [exact Ht | repeat constructor].
  - exists t, (map fst (timers_of tr)). rewrite map_app. auto.
Qed.

Lemma handle_pacing s sec ns sents fireds tr i (w : env ap_context) :
  0 ≤ sec → 0 ≤ ns → pacing s sec ns sents fireds tr (ctx w) → Forall sendable (sent_of i) →
  ∃ w' tr', handle s i w = Done (tt, w') ∧ trace (io w') = (trace (io w) ++ tr')%list ∧
    pacing s sec ns (sents ++ sent_of i) (fireds ++ fired_of i) (tr ++ tr') (ctx w').
Proof.
  intros Hsec Hns HP Hi. pose proof HP as [[Hr1 Hr2] Hfix [Hq1 Hq2] (gone & Hg1 & Hg2) Hu Hc Ht Hb].
  assert (∀ w', handle s i w = Done (tt, w') → ctx w' = ctx w → trace (io w') = trace (io w) → sent_of i = [] →
    ∃ w' tr', handle s i w = Done (tt, w') ∧ trace (io w') = (trace (io w) ++ tr')%list ∧
      pacing s sec ns (sents ++ sent_of i) (fireds ++ fired_of i) (tr ++ tr') (ctx w')) as Hnothing.
  { intros w' E Ec Et Es. exists w', []. rewrite !app_nil_r, Es, app_nil_r, Ec. split; [exact E |]. split; [exact Et |]. apply pacing_more, HP. }
  destruct i as [p | t | p]; cbn [sent_of fired_of] in *.
  - apply Forall_cons in Hi as [Hi _]. unfold handle, state_send_packet. replace (is_naked_ack p || is_tcp_syn p) with (negb (paced p)) by apply negb_involutive.
    rewrite app_nil_r. destruct (paced p) eqn:Ep; cbn [negb].
    + unfold base_state_send_packet. destruct (canSend_ (limiter_ (ctx w))) eqn:Ecan.
      * destruct Hb as (Hw & Hempty & Hfi).
        set (w1 := {| ctx := on_limiter (set_canSend false) (ctx w); sock := sock w; io := io w |}).
        destruct (release_spec s sec ns p w1) as (q & E & Hd); [exact Hr1 | exact Hr2 | assumption..|].
        eexists. exists [Dispatch (NetworkSendPacketEvent s q); Dispatch (TimeoutEvent (next_pointer (io w)) s sec ns)].
        split; [run; rewrite Ecan; exact E |]. split; [reflexivity |].
        apply (pacing_release s sec ns sents fireds tr (ctx w) p q (next_pointer (io w)) [] gone); auto.
        -- rewrite List.filter_app, filter_singleton, Ep, Hg1, Hempty, app_nil_r. reflexivity.
        -- rewrite List.filter_app, filter_singleton, Ep. apply app_nil_r.
        -- cbn. unfold set_waitingTimeout. cbn. rewrite Hr1, Hr2, Hempty. reflexivity.
      * destruct Hb as (t & ts & Hw & Htm & Hfi). eexists. exists []. split; [run; rewrite Ecan; reflexivity |]. cbn [io ctx].
        rewrite !app_nil_r. split; [reflexivity |].
        split; cbn [limiter_ on_limiter fixed_rate_ set_queue sendSeconds_ sendNanos_ queue_ canSend_ waitingTimeout_]; auto.
        -- split; apply Forall_app; auto.
        -- exists gone. rewrite List.filter_app, filter_singleton, Ep, Hg1, <- app_assoc. auto.
        -- rewrite List.filter_app, filter_singleton, Ep. cbn [negb]. rewrite app_nil_r. exact Hu.
        -- rewrite Ecan. eauto.
    + destruct Hi as [o Ho]. destruct (stuff_spec s p o w Ho) as (q & E & Hd & _).
      assert (paced q = false) as Eq by (rewrite (departs_paced p q Hd); exact Ep).
      eexists. exists [Dispatch (NetworkSendPacketEvent s q)]. split; [unfold dispatch_packet; run; rewrite E; reflexivity |]. split; [reflexivity |].
      assert (packets_of [Dispatch (NetworkSendPacketEvent s q)] = [q] ∧ timers_of [Dispatch (NetworkSendPacketEvent s q)] = []) as [E1 E2] by (split; reflexivity).
      cbn [ctx]. split; rewrite ?packets_of_app, ?timers_of_app, ?E1, ?E2, ?List.filter_app, ?filter_singleton, ?Eq, ?Ep, ?app_nil_r; auto.
      * exists gone. auto.
      * cbn [negb]. apply Forall2_app; [exact Hu | constructor; [exact Hd | constructor]].
  - unfold handle, state_timer_fired, base_state_timer_fired in *. revert Hnothing. run. intros Hnothing.
    destruct (waitingTimeout_ (limiter_ (ctx w))) as [waiting|] eqn:Ew; [| exact (Hnothing _ eq_refl eq_refl eq_refl eq_refl)].
    destruct (Nat.eqb_spec t waiting) as [-> | Hne]; [| exact (Hnothing _ eq_refl eq_refl eq_refl eq_refl)]. clear Hnothing.
    destruct (canSend_ (limiter_ (ctx w))) eqn:Ecan; [destruct Hb; congruence |]. destruct Hb as (t & ts & Hw & Htm & Hfi).
    assert (t = waiting) as -> by congruence. rewrite app_nil_r.
    assert (map fst (timers_of tr) `sublist_of` (fireds ++ [waiting])) as Hall by (rewrite Htm; apply sublist_app; [exact Hfi | reflexivity]).
    destruct (queue_ (limiter_ (ctx w))) as [|p rest] eqn:Eq.
    + eexists. exists []. split; [reflexivity |]. cbn [io ctx]. rewrite !app_nil_r. split; [reflexivity |].
      split; cbn [limiter_ on_limiter fixed_rate_ set_waitingTimeout set_canSend sendSeconds_ sendNanos_ queue_ canSend_ waitingTimeout_]; auto; rewrite Eq; auto.
      exists gone. auto.
    + apply Forall_cons in Hq1 as [Hp1 Hq1]. apply Forall_cons in Hq2 as [Hp2 Hq2].
      set (w1 := {| ctx := on_limiter (set_queue rest) (ctx w); sock := sock w; io := io w |}).
      destruct (release_spec s sec ns p w1) as (q & E & Hd); [exact Hr1 | exact Hr2 | assumption..|].
      eexists. exists [Dispatch (NetworkSendPacketEvent s q); Dispatch (TimeoutEvent (next_pointer (io w)) s sec ns)].
      split; [exact E |]. split; [reflexivity |].
      apply (pacing_release s sec ns sents fireds tr (ctx w) p q (next_pointer (io w)) rest gone); auto.
      cbn. unfold set_waitingTimeout. cbn. rewrite Hr1, Hr2, Ecan. reflexivity.
  - apply (Hnothing w); try reflexivity. unfold handle, state_receive_packet. run. rewrite (proj2 (Z.eqb_neq _ _)) by exact Hfix. reflexivity.
Qed.

Lemma run_pacing s sec ns ls : 0 ≤ sec → 0 ≤ ns → ∀ sents fireds tr (w : env ap_context),
  pacing s sec ns sents fireds tr (ctx w) → Forall sendable (sent ls) →
  ∃ w' tr', run_inputs s ls w = Done w' ∧ trace (io w') = (trace (io w) ++ tr')%list ∧
    pacing s sec ns (sents ++ sent ls) (fireds ++ fired ls) (tr ++ tr') (ctx w').
Proof.
  intros Hsec Hns. induction ls as [|[t i] ls IH]; intros sents fireds tr w HP Hs; cbn [run_inputs].
  { exists w, []. unfold sent, fired. cbn. rewrite !app_nil_r. auto. }
  change (sent ((t, i) :: ls)) with (sent_of i ++ sent ls)%list in *. change (fired ((t, i) :: ls)) with (fired_of i ++ fired ls)%list.
  apply Forall_app in Hs as [Hi Hs].
  destruct (handle_pacing s sec ns sents fireds tr i (at_time t w) Hsec Hns HP Hi) as (w1 & tr1 & E & Ht & HP1).
  destruct (IH _ _ _ w1 HP1 Hs) as (w2 & tr2 & E2 & Ht2 & HP2). exists w2, (tr1 ++ tr2)%list. rewrite E. cbn [mbind outcome_bind].
  split; [exact E2 |]. split; [rewrite Ht2, Ht, <- app_assoc; reflexivity |]. rewrite !app_assoc. exact HP2.
Qed.

(** A limiter that has sent nothing yet. *)
Definition unused (sec ns : Z) (c : ap_context) : Prop :=
  0 ≤ sec ∧ 0 ≤ ns ∧ limiter_ c = setRate sec ns new_SendRateLimiter ∧ fixed_rate_ c ≠ 0.

Lemma unused_pacing s sec ns c : unused sec ns c → pacing s sec ns [] [] [] c.
Proof.
  intros (Hsec & Hns & Hl & Hf). split; rewrite ?Hl; cbn; auto; [].
  exists []. split; [reflexivity | constructor].
Qed.

(** C34: pacing. Whatever the order in which segments are sent, segments are received and timers
    expire, with a fixed interval: nothing fails; segments with data or a FIN leave in the order in which they
    were sent, each once, stamped and with a valid checksum, and those that have not left wait
    in the queue; each starts a timer of one interval when it leaves, and the next one leaves
    only after that timer has expired, so that the queue is empty when the limiter is idle;
    acknowledgements and SYNs leave at once. *)
Theorem paced_fifo s ls sec ns (w : env ap_context) :
  unused sec ns (ctx w) → Forall sendable (sent ls) →
  ∃ w' tr gone, run_inputs s ls w = Done w' ∧ trace (io w') = (trace (io w) ++ tr)%list ∧
    List.filter paced (sent ls) = (gone ++ queue_ (limiter_ (ctx w')))%list ∧
    Forall2 departs gone (List.filter paced (packets_of tr)) ∧
    Forall2 departs (List.filter (fun p => negb (paced p)) (sent ls)) (List.filter (fun p => negb (paced p)) (packets_of tr)) ∧
    length (timers_of tr) = length gone ∧ Forall (fun x => snd x = (s, sec, ns)) (timers_of tr) ∧
    if canSend_ (limiter_ (ctx w')) then queue_ (limiter_ (ctx w')) = [] ∧ map fst (timers_of tr) `sublist_of` fired ls
    else ∃ t ts, waitingTimeout_ (limiter_ (ctx w')) = Some t ∧ map fst (timers_of tr) = (ts ++ [t])%list ∧ ts `sublist_of` fired ls.
Proof.
  intros Hu Hs. destruct Hu as (Hsec & Hns & Hl & Hf).
  destruct (run_pacing s sec ns ls Hsec Hns [] [] [] w) as (w' & tr & E & Ht & [_ _ _ (gone & Hg1 & Hg2) Hun Hc Hr Hb]);
    [apply unused_pacing; repeat split; assumption | exact Hs |].
  cbn [app] in *. exists w', tr, gone. split; [exact E |]. split; [exact Ht |]. split; [exact Hg1 |]. split; [exact Hg2 |]. split; [exact Hun |].
  split; [rewrite Hc; symmetry; exact (Forall2_length _ _ _ Hg2) |]. split; [exact Hr |].
  destruct (canSend_ (limiter_ (ctx w'))); [tauto | exact Hb].
Qed.

(** The timers expire, at these times. *)
Fixpoint expire (s : nat) (ts : list Z) (w : env ap_context) : outcome (env ap_context) :=
  match ts, waitingTimeout_ (limiter_ (ctx w)) with
  | t :: ts, Some timer => '(_, w) ← state_timer_fired s timer (at_time t w); expire s ts w
  | _, _ => mret w
  end.

Lemma expire_spec s q : ∀ ts (w : env ap_context) t,
  length ts = S (length q) → queue_ (limiter_ (ctx w)) = q → canSend_ (limiter_ (ctx w)) = false → waitingTimeout_ (limiter_ (ctx w)) = Some t →
  0 ≤ sendSeconds_ (limiter_ (ctx w)) → 0 ≤ sendNanos_ (limiter_ (ctx w)) → Forall sendable q →
  ∃ w' tr, expire s ts w = Done w' ∧ trace (io w') = (trace (io w) ++ tr)%list ∧ canSend_ (limiter_ (ctx w')) = true ∧
    queue_ (limiter_ (ctx w')) = [] ∧ Forall2 departs q (packets_of tr).
Proof.
  induction q as [|p q IH]; intros [|now ts] w t Hlen Hq Hcan Hw Hsec Hns Hs; try discriminate Hlen.
  - destruct ts; [| discriminate Hlen]. cbn [expire]. rewrite Hw. unfold state_timer_fired, base_state_timer_fired. run.
    cbn [ctx at_time]. rewrite Hw, Nat.eqb_refl, Hq. eexists. exists []. split; [reflexivity |]. cbn. rewrite app_nil_r, Hq. repeat split. constructor.
  - injection Hlen as Hlen. apply Forall_cons in Hs as [Hp Hs]. cbn [expire]. rewrite Hw.
    set (w1 := {| ctx := on_limiter (set_queue q) (ctx w); sock := sock w; io := io (at_time now w) |}).
    destruct (release_spec s _ _ p w1 eq_refl eq_refl Hsec Hns Hp) as (x & E & Hd).
    assert (state_timer_fired s t (at_time now w) = (_ ← dispatch_packet protocol_specific_stuff s p; setTimer s) w1) as ->
      by (unfold state_timer_fired, base_state_timer_fired; run; cbn [ctx at_time]; rewrite Hw, Nat.eqb_refl, Hq; reflexivity).
    rewrite E. cbn [mbind outcome_bind].
    match goal with |- context [expire s ts ?w2] => destruct (IH ts w2 (next_pointer (io w1)) Hlen) as (w' & tr & E' & Ht & Hc & Hqe & Hf2); try assumption; try reflexivity end.
    exists w'. eexists. split; [exact E' |]. rewrite Ht. cbn [io trace]. rewrite <- app_assoc. split; [reflexivity |]. split; [exact Hc |].
    split; [exact Hqe |]. cbn. constructor; assumption.
Qed.

(** No segment waits for ever. Whatever happened before, when the timer the limiter waits
    for expires, and the one it starts then, and so on, once more than segments wait, all of
    them have left in order and the limiter is idle. *)
Theorem queue_drains s ls sec ns (w w' : env ap_context) ts (q := queue_ (limiter_ (ctx w'))) :
  unused sec ns (ctx w) → Forall sendable (sent ls) → run_inputs s ls w = Done w' → length ts = S (length q) →
  ∃ w'' tr, expire s ts w' = Done w'' ∧ trace (io w'') = (trace (io w') ++ tr)%list ∧ Forall2 departs q (packets_of tr) ∧
    canSend_ (limiter_ (ctx w'')) = true ∧ queue_ (limiter_ (ctx w'')) = [].
Proof.
  intros (Hsec & Hns & Hl & Hf) Hs E Hlen.
  destruct (run_pacing s sec ns ls Hsec Hns [] [] [] w) as (w1 & tr & E1 & _ & [[Hr1 Hr2] _ [Hq _] _ _ _ _ Hb]);
    [apply unused_pacing; repeat split; assumption | exact Hs |].
  assert (w1 = w') as -> by congruence. fold q in Hq. destruct (canSend_ (limiter_ (ctx w'))) eqn:Ec.
  - destruct Hb as (Hw & Hq0 & _). exists w', []. split.
    + destruct ts; [discriminate Hlen |]. cbn [expire]. rewrite Hw. reflexivity.
    + rewrite app_nil_r. unfold q. rewrite Hq0. repeat split; [constructor | exact Ec].
  - destruct Hb as (t & _ & Hw & _).
    destruct (expire_spec s q ts w' t Hlen eq_refl Ec Hw) as (w'' & tr' & E' & Ht & Hc & Hqe & Hf2); [lia | lia | exact Hq |].
    exists w'', tr'. auto 10.
Qed.

(** ** Concrete runs *)

Lemma sample_timestamped : timestamped timestamp_option sample_outgoing.
Proof. destruct sample_outgoing_ok as [Ho Hl]. apply outgoing_timestamped; [exact Ho | vm_compute; reflexivity | rewrite Hl; unfold MSS; lia]. Qed.

Definition sample_memory : ap_context :=
  {| limiter_ := new_SendRateLimiter; fhd_hat_ := of_Z 0; alpha_ := of_Z 0; history_size_ := 0; history_ := []; avg_rtt_ := of_Z 0; bandwidth_ := 0;
     ap_echo_reply_ := 0; n_hop_factor_ := 0; fixed_rate_ := 0; sent_sizes_ := ∅ |}.

(** Option 5 with the value 12000000: a thousand full packets a second. *)
Definition sample_env (rate : list Z) : env ap_context :=
  {| ctx := new_rate_limiter sample_memory;
     sock := Sockets.with_options {[ (TCP_AP, 5) := (rate, 4) ]} (sample_socket 1 AddressPort.default_address_port);
     io := {| next_pointer := 9; now := 2000000; trace := [] |} |}.
Definition sample_limited : env ap_context :=
  match state_set_socket_option TCP_AP 5 (sample_env [0; 27; 183; 0]) with Done (_, w) => w | Fault _ => sample_env [] end.

(** Two segments; the timer of the first expires. *)
Definition sample_inputs : list (Z * input) := [(1, Sends sample_outgoing); (2, Sends sample_outgoing); (3, Fires 9)].

Lemma sample_inputs_sendable : Forall sendable (sent sample_inputs).
Proof. repeat (apply Forall_cons; split; [exists timestamp_option; exact sample_timestamped |]). apply Forall_nil_2. Qed.

Lemma sample_unused : unused 0 1000000 (ctx sample_limited).
Proof. split; [lia |]. split; [lia |]. split; [vm_compute; reflexivity |]. apply Z.eqb_neq. vm_compute. reflexivity. Qed.

Lemma paced_fifo_witness :
  ∃ w' tr, run_inputs 5 sample_inputs sample_limited = Done w' ∧ trace (io w') = tr ∧ Forall2 departs [sample_outgoing; sample_outgoing] (List.filter paced (packets_of tr)).
Proof.
  destruct (paced_fifo 5 sample_inputs 0 1000000 sample_limited sample_unused sample_inputs_sendable)
    as (w' & tr & gone & E & Ht & Hg & Hd & _). exists w', tr. split; [exact E |]. split; [exact Ht |].
  assert (match run_inputs 5 sample_inputs sample_limited with Done w => length (queue_ (limiter_ (ctx w))) | Fault _ => 1%nat end = 0%nat) as Hq
    by (vm_compute; reflexivity).
  rewrite E in Hq. apply nil_length_inv in Hq. rewrite Hq, app_nil_r in Hg.
  assert (paced sample_outgoing = true) as Hp by (vm_compute; reflexivity).
  assert (List.filter paced (sent sample_inputs) = [sample_outgoing; sample_outgoing]) as <-; [| rewrite Hg; exact Hd].
  change (sent sample_inputs) with [sample_outgoing; sample_outgoing]. cbn [List.filter]. rewrite Hp. reflexivity.
Defined.

Lemma queue_drains_witness :
  ∃ w' w'' tr, run_inputs 5 (take 2 sample_inputs) sample_limited = Done w' ∧ expire 5 [3; 4] w' = Done w'' ∧ trace (io w'') = (trace (io w') ++ tr)%list ∧
    Forall2 departs (queue_ (limiter_ (ctx w'))) (packets_of tr) ∧ length (queue_ (limiter_ (ctx w'))) = 1%nat.
Proof.
  assert (Forall sendable (sent (take 2 sample_inputs))) as Hs by exact sample_inputs_sendable.
  assert (match run_inputs 5 (take 2 sample_inputs) sample_limited with Done w => length (queue_ (limiter_ (ctx w))) | Fault _ => 0%nat end = 1%nat) as Hq
    by (vm_compute; reflexivity).
  destruct (run_inputs 5 (take 2 sample_inputs) sample_limited) as [w'|f] eqn:E; [| discriminate].
  destruct (queue_drains 5 (take 2 sample_inputs) 0 1000000 sample_limited w' [3; 4] sample_unused Hs E) as (w'' & tr & E' & Ht & Hd & _);
    [rewrite Hq; reflexivity |]. exists w', w'', tr. auto.
Defined.

(** ** The adaptive rate

    The constructor sets the fixed rate to -1, so that received acknowledgements never change
    the interval of a new limiter. *)
Lemma adaptation_off memory s p sk i :
  let w := {| ctx := new_rate_limiter memory; sock := sk; io := i |} in state_receive_packet s p w = Done (tt, w).
Proof. reflexivity. Qed.

(** Asking for the adaptive rate (option 5 with value 0) divides by zero and converts the
    infinite result. *)
Lemma fixed_rate_zero : state_set_socket_option TCP_AP 5 (sample_env [0; 0; 0; 0]) = Fault UndefinedConversion.
Proof. vm_compute. reflexivity. Qed.

(** Even then, the first acknowledgement would stop the program: no segment's size was ever
    recorded, and one without a timestamp makes it dereference a null pointer. *)
Lemma adaptation_faults s p (w : env ap_context) ts q :
  fixed_rate_ (ctx w) = 0 → sent_sizes_ (ctx w) = ∅ → is_tcp_ack p = true → get_option TCPOPT_TIMESTAMP p = Done (ts, q) →
  match ts with
  | None => state_receive_packet s p w = Fault NullDereference
  | Some o => dltb (dsub (of_Z (u32 (now (io w)))) (of_Z (TCPOptions.get_echo_reply o))) (of_Z 0) = false → state_receive_packet s p w = Fault OutOfBounds
  end.
Proof.
  intros Hf Hs Ha E. unfold state_receive_packet, get_current_time_microseconds_32. destruct ts as [o|]; [intros Hrtt |]; run; rewrite Hf, Ha, Z.eqb_refl; run; rewrite E; run; [| reflexivity].
  cbn [deref]. run. rewrite Hrtt. run.
  assert (∀ x c, sent_sizes_ (record_rtt x c) = sent_sizes_ c) as ->
    by (intros x c; unfold record_rtt; cbv zeta; destruct (dltb (of_Z _) _); reflexivity).
  cbn [set_echo_reply sent_sizes_]. rewrite Hs. reflexivity.
Qed.
