(* ===== verification/ConnManager.v ===== *)
(** * The connection manager

    ConnectionManagerContext and its states Closed, Listen, SynSent, SynReceived,
    Established, FinWait1, FinWait2, Closing, TimeWait, CloseWait and LastAck
    (transport/src/contexts/, transport/src/states/), run by Context's
    [set_state] and [icontext_] methods: the connection life cycle of RFC 793
    with respect to SYN, FIN and ACK flags; sequence numbers belong to the
    reliability context. *)
From stdpp Require Import gmap.
From S2P Require Import Prelude HeaderMem Inet AddressPort Sockets IPPacket TCPOptions WiFuPacket TCPPacket PacketBuffer Events.

Definition TWO_MSL : Z := 3.
Definition WIFU_PRECLOSE : Z := 13.

Inductive connection_type := PASSIVE_OPEN | ACTIVE_OPEN | ESTABLISHED.

(** The state objects; TimeWait keeps its timer. *)
Inductive cm_state :=
| Closed | Listen | SynSent | SynReceived | Established | FinWait1 | FinWait2 | Closing
| TimeWait (timeout_event : option nat) | CloseWait | LastAck.

#[export] Instance connection_type_eq_dec : EqDecision connection_type.
Proof. solve_decision. Defined.
#[export] Instance cm_state_eq_dec : EqDecision cm_state.
Proof. solve_decision. Defined.

(** Socket pointers are numbers, null is 0. *)
Record cm_context := {
  current_ : cm_state;
  type_ : connection_type;
  c_event_ : option connect_event;
  l_event_ : option listen_event;
  socket_ : nat;
  accept_socket_ : nat }.

Definition set_current (st : cm_state) (c : cm_context) : cm_context :=
  {| current_ := st; type_ := type_ c; c_event_ := c_event_ c; l_event_ := l_event_ c; socket_ := socket_ c;
     accept_socket_ := accept_socket_ c |}.
Definition set_connection_type (type : connection_type) (c : cm_context) : cm_context :=
  {| current_ := current_ c; type_ := type; c_event_ := c_event_ c; l_event_ := l_event_ c; socket_ := socket_ c;
     accept_socket_ := accept_socket_ c |}.
Definition set_connect_event (e : option connect_event) (c : cm_context) : cm_context :=
  {| current_ := current_ c; type_ := type_ c; c_event_ := e; l_event_ := l_event_ c; socket_ := socket_ c;
     accept_socket_ := accept_socket_ c |}.
Definition set_listen_event (e : option listen_event) (c : cm_context) : cm_context :=
  {| current_ := current_ c; type_ := type_ c; c_event_ := c_event_ c; l_event_ := e; socket_ := socket_ c;
     accept_socket_ := accept_socket_ c |}.
Definition set_socket (s : nat) (c : cm_context) : cm_context :=
  {| current_ := current_ c; type_ := type_ c; c_event_ := c_event_ c; l_event_ := l_event_ c; socket_ := s;
     accept_socket_ := accept_socket_ c |}.
Definition set_accept_socket (s : nat) (c : cm_context) : cm_context :=
  {| current_ := current_ c; type_ := type_ c; c_event_ := c_event_ c; l_event_ := l_event_ c; socket_ := socket_ c;
     accept_socket_ := s |}.

(** The constructor leaves the type, the connect event and the socket uninitialised: they are
    what [memory] held. *)
Definition new_ConnectionManagerContext (memory : cm_context) : cm_context :=
  {| current_ := Closed; type_ := type_ memory; c_event_ := c_event_ memory; l_event_ := None;
     socket_ := socket_ memory; accept_socket_ := 0 |}.

Definition cm_handler := handler cm_context unit.

Definition get_front_end_socket : handler cm_context string :=
  c ← gets c_event_;
  match c with
  | Some e => mret (le_source (ce_event e))
  | None => l ← gets l_event_; l ← lift (deref l); mret (le_source (lse_event l))
  end.

(** ** TimeWait's timer *)

Definition start_timer : cm_handler :=
  s ← gets socket_;
  t ← new_timeout s TWO_MSL 0;
  modify (set_current (TimeWait (Some t))).

Definition stop_timer : cm_handler :=
  c ← gets current_;
  match c with
  | TimeWait t => _ ← dispatch (CancelTimerEvent t); modify (set_current (TimeWait None))
  | _ => mret tt
  end.

Definition restart_timer : cm_handler := _ ← stop_timer; start_timer.

(** ** Changing state *)

(** [Established::state_enter] reads the connect event's socket for a message before it
    looks at the connection type. *)
Definition established_enter : cm_handler :=
  event ← gets c_event_;
  event ← lift (deref event);
  type ← gets type_;
  match type with
  | ACTIVE_OPEN => dispatch (ResponseEvent (default_response (le_socket (ce_event event)) (ce_event event) 0 0))
  | ESTABLISHED | PASSIVE_OPEN => mret tt
  end.

Definition state_enter (st : cm_state) : cm_handler :=
  match st with
  | Established => established_enter
  | TimeWait _ => start_timer
  | _ => mret tt
  end.

Definition state_exit (st : cm_state) : cm_handler :=
  match st with TimeWait _ => stop_timer | _ => mret tt end.

(** [Context::set_state] *)
Definition set_state (st : cm_state) : cm_handler :=
  old ← gets current_;
  _ ← state_exit old;
  _ ← modify (set_current st);
  state_enter st.

(** ** The states *)

(** The empty segment every state answers with, between the socket's addresses. *)
Definition empty_response : handler cm_context tcp_packet :=
  p ← socket_packet; lift (set_data [] p).

(** The answer to a packet, between the packet's addresses. *)
Definition reply_packet (packet : tcp_packet) : outcome tcp_packet :=
  '(destination, w) ← get_source_address_port (wifu packet);
  '(source, _) ← get_dest_address_port w;
  addressed_packet destination source.

Module ClosedState.
Section Connect.
(** SourceGetter: the operating system's choice of a source address. *)
Context (get_source_address : string → string).

Definition state_connect (s : nat) (e : connect_event) : cm_handler :=
  _ ← modify (set_connection_type ACTIVE_OPEN);
  _ ← modify (set_connect_event (Some e));
  _ ← modify (set_socket s);
  sk ← get_socket;
  local ← lift (get_local_address_port sk);
  source ← lift (new_AddressPort (get_source_address (get_address (ce_address e))) (get_port local));
  let destination := ce_address e in
  _ ← modify_socket (fun sk => with_addresses (Some source) (get_remote_address_port sk) sk);
  sk ← get_socket;
  _ ← emit (NotifyObservers s sk);
  _ ← modify_socket (fun sk => with_addresses (Some source) destination sk);
  sk ← get_socket;
  _ ← emit (NotifyObservers s sk);
  p ← lift (addressed_packet destination source);
  p ← lift (set_data [] (set_tcp_syn true p));
  _ ← enqueue (SendPacketEvent s p);
  set_state SynSent.
End Connect.

Definition state_listen (s : nat) (e : listen_event) : cm_handler :=
  _ ← modify (set_socket s);
  _ ← modify (set_connection_type PASSIVE_OPEN);
  _ ← modify (set_listen_event (Some e));
  set_state Listen.

Definition state_new_connection_established : cm_handler :=
  _ ← modify (set_connection_type ESTABLISHED);
  set_state Established.

Definition state_new_connection_initiated (s : nat) (e : option listen_event) : cm_handler :=
  _ ← modify (set_connection_type PASSIVE_OPEN);
  _ ← modify (set_socket s);
  _ ← modify (set_listen_event e);
  set_state Listen.
End ClosedState.

Module ListenState.
Definition process_syn (s : nat) (packet : tcp_packet) : cm_handler :=
  listening_socket ← get_socket;
  localNew ← lift (get_local_address_port listening_socket);
  '(remoteNew, w) ← lift (get_source_address_port (wifu packet));
  let packet := with_wifu w packet in
  new_socket ← allocate;
  _ ← modify (set_accept_socket s);
  l_event ← gets l_event_;
  _ ← emit (PushSocket new_socket (new_Socket (get_second_socket_id listening_socket) (get_domain listening_socket)
        (get_type listening_socket) (get_protocol listening_socket) localNew remoteNew));
  _ ← enqueue (ConnectionInitiatedEvent s new_socket l_event);
  response ← lift (reply_packet packet);
  response ← lift (set_data [] (set_tcp_ack true (set_tcp_syn true response)));
  _ ← enqueue (SendPacketEvent new_socket response);
  set_state SynReceived.

Definition state_receive_packet (s : nat) (packet : tcp_packet) : cm_handler :=
  if is_tcp_syn packet then process_syn s packet else mret tt.

Definition state_close (s : nat) : cm_handler := _ ← enqueue (DeleteSocketEvent s); set_state Closed.
End ListenState.

Module SynSentState.
Definition state_receive_packet (s : nat) (packet : tcp_packet) : cm_handler :=
  if is_tcp_syn packet && is_tcp_ack packet then
    response ← lift (reply_packet packet);
    response ← lift (set_data [] response);
    _ ← enqueue (SendPacketEvent s (set_tcp_ack true response));
    set_state Established
  else mret tt.
End SynSentState.

Module SynReceivedState.
Definition state_receive_packet (s : nat) (packet : tcp_packet) : cm_handler :=
  if is_tcp_ack packet then
    accept_socket ← gets accept_socket_;
    _ ← enqueue (ConnectionEstablishedEvent accept_socket s);
    set_state Established
  else mret tt.
End SynReceivedState.

Module EstablishedState.
(** The message that tells the front end the peer closed. *)
Definition preclose (s : nat) (sk : socket) (front_end : string) : response :=
  {| res_socket := s; res_message_type := WIFU_PRECLOSE; res_fd := i32 (get_socket_id sk); res_return_value := 0; res_errno := 0;
     res_length := sizeof_GenericResponseMessage; res_destination := front_end; res_addr := None; res_buffer := [] |}.

Definition state_receive_packet (s : nat) (packet : tcp_packet) : cm_handler :=
  if is_tcp_syn packet then mret tt
  else if is_tcp_fin packet then
    response ← empty_response;
    _ ← enqueue (SendPacketEvent s response);
    _ ← set_state CloseWait;
    sk ← get_socket;
    front_end ← get_front_end_socket;
    dispatch (ResponseEvent (preclose s sk front_end))
  else mret tt.

(** Nothing happens while data waits in the send buffer. *)
Definition state_close (s : nat) : cm_handler :=
  sk ← get_socket;
  if Nat.eqb (length (get_send_buffer sk)) 0 then
    response ← empty_response;
    _ ← set_state FinWait1;
    enqueue (SendPacketEvent s (set_tcp_fin true response))
  else mret tt.
End EstablishedState.

Module FinWait1State.
Definition state_receive_packet (s : nat) (p : tcp_packet) : cm_handler :=
  if is_tcp_fin p && is_tcp_ack p then
    response ← empty_response;
    _ ← enqueue (SendPacketEvent s response);
    set_state (TimeWait None)
  else if is_tcp_ack p then set_state FinWait2
  else mret tt.
End FinWait1State.

Module FinWait2State.
Definition state_receive_packet (s : nat) (p : tcp_packet) : cm_handler :=
  if is_tcp_fin p then
    response ← empty_response;
    _ ← enqueue (SendPacketEvent s response);
    set_state (TimeWait None)
  else mret tt.
End FinWait2State.

Module ClosingState.
Definition state_receive_packet (p : tcp_packet) : cm_handler :=
  if is_tcp_ack p then set_state (TimeWait None) else mret tt.
End ClosingState.

Module TimeWaitState.
Definition state_timer_fired (s timeout_event : nat) : cm_handler :=
  c ← gets current_;
  if decide (c = TimeWait (Some timeout_event)) then
    _ ← enqueue (DeleteSocketEvent s);
    set_state Closed
  else mret tt.

Definition state_receive_packet (s : nat) (p : tcp_packet) : cm_handler :=
  if is_tcp_fin p then
    response ← empty_response;
    _ ← enqueue (SendPacketEvent s response);
    restart_timer
  else mret tt.
End TimeWaitState.

Module CloseWaitState.
Definition state_close (s : nat) : cm_handler :=
  response ← empty_response;
  _ ← enqueue (SendPacketEvent s (set_tcp_fin true response));
  set_state LastAck.
End CloseWaitState.

Module LastAckState.
Definition state_receive_packet (s : nat) (p : tcp_packet) : cm_handler :=
  if is_naked_ack p then _ ← enqueue (DeleteSocketEvent s); set_state Closed else mret tt.
End LastAckState.

(** ** The [icontext_] methods: the current state's handler, State's empty one by default *)

Definition icontext_connect (get_source_address : string → string) (s : nat) (e : connect_event) : cm_handler :=
  c ← gets current_; match c with Closed => ClosedState.state_connect get_source_address s e | _ => mret tt end.

Definition icontext_listen (s : nat) (e : listen_event) : cm_handler :=
  c ← gets current_; match c with Closed => ClosedState.state_listen s e | _ => mret tt end.

Definition icontext_new_connection_established : cm_handler :=
  c ← gets current_; match c with Closed => ClosedState.state_new_connection_established | _ => mret tt end.

Definition icontext_new_connection_initiated (s : nat) (e : option listen_event) : cm_handler :=
  c ← gets current_; match c with Closed => ClosedState.state_new_connection_initiated s e | _ => mret tt end.

Definition icontext_receive_packet (s : nat) (p : tcp_packet) : cm_handler :=
  c ← gets current_;
  match c with
  | Listen => ListenState.state_receive_packet s p
  | SynSent => SynSentState.state_receive_packet s p
  | SynReceived => SynReceivedState.state_receive_packet s p
  | Established => EstablishedState.state_receive_packet s p
  | FinWait1 => FinWait1State.state_receive_packet s p
  | FinWait2 => FinWait2State.state_receive_packet s p
  | Closing => ClosingState.state_receive_packet p
  | TimeWait _ => TimeWaitState.state_receive_packet s p
  | LastAck => LastAckState.state_receive_packet s p
  | Closed | CloseWait => mret tt
  end.

Definition icontext_close (s : nat) : cm_handler :=
  c ← gets current_;
  match c with
  | Listen => ListenState.state_close s
  | Established => EstablishedState.state_close s
  | CloseWait => CloseWaitState.state_close s
  | _ => mret tt
  end.

Definition icontext_timer_fired_event (s timeout_event : nat) : cm_handler :=
  c ← gets current_; match c with TimeWait _ => TimeWaitState.state_timer_fired s timeout_event | _ => mret tt end.

Definition icontext_can_send (c : cm_context) : bool :=
  match current_ c with Established | CloseWait => true | _ => false end.
Definition icontext_can_receive (c : cm_context) : bool :=
  match current_ c with Established | FinWait1 | FinWait2 => true | _ => false end.

(** ** The abstract machine

    What the states promise, without addresses, pointers and packets: inputs, outputs and
    transitions. *)

Inductive input :=
| Connect
| ListenOn
| Initiated
| EstablishedBy
| Packet (syn ack fin naked : bool)
| Close (unsent : bool)
| Timer (own : bool).

Inductive output :=
| Segment (syn ack fin : bool)
| Deleted
| NewConnection
| ConnectionReady
| ConnectAnswered
| PeerClosed
| TimerStarted
| TimerStopped.

#[export] Instance output_eq_dec : EqDecision output.
Proof. solve_decision. Defined.

(** Entering Established answers the connect call of an active open. *)
Definition on_established (ty : connection_type) : list output :=
  match ty with ACTIVE_OPEN => [ConnectAnswered] | _ => [] end.

Definition ack_segment : output := Segment false false false.

Definition machine (st : cm_state) (ty : connection_type) (i : input) : cm_state * connection_type * list output :=
  match st, i with
  | Closed, Connect => (SynSent, ACTIVE_OPEN, [Segment true false false])
  | Closed, ListenOn | Closed, Initiated => (Listen, PASSIVE_OPEN, [])
  | Closed, EstablishedBy => (Established, ESTABLISHED, [])
  | Listen, Packet true _ _ _ => (SynReceived, ty, [NewConnection; Segment true true false])
  | Listen, Close _ => (Closed, ty, [Deleted])
  | SynSent, Packet true true _ _ => (Established, ty, Segment false true false :: on_established ty)
  | SynReceived, Packet _ true _ _ => (Established, ty, ConnectionReady :: on_established ty)
  | Established, Packet false _ true _ => (CloseWait, ty, [ack_segment; PeerClosed])
  | Established, Close false => (FinWait1, ty, [Segment false false true])
  | FinWait1, Packet _ true true _ => (TimeWait None, ty, [ack_segment; TimerStarted])
  | FinWait1, Packet _ true false _ => (FinWait2, ty, [])
  | FinWait2, Packet _ _ true _ => (TimeWait None, ty, [ack_segment; TimerStarted])
  | Closing, Packet _ true _ _ => (TimeWait None, ty, [TimerStarted])
  | TimeWait _, Packet _ _ true _ => (TimeWait None, ty, [ack_segment; TimerStopped; TimerStarted])
  | TimeWait _, Timer true => (Closed, ty, [Deleted; TimerStopped])
  | CloseWait, Close _ => (LastAck, ty, [Segment false false true])
  | LastAck, Packet _ _ _ true => (Closed, ty, [Deleted])
  | st, _ => (st, ty, [])
  end.

(** A state without its timer pointer. *)
Definition phase (st : cm_state) : cm_state := match st with TimeWait _ => TimeWait None | st => st end.

Definition output_of (x : effect) : option output :=
  match x with
  | Enqueue (SendPacketEvent _ p) => Some (Segment (is_tcp_syn p) (is_tcp_ack p) (is_tcp_fin p))
  | Enqueue (DeleteSocketEvent _) => Some Deleted
  | Enqueue (ConnectionInitiatedEvent _ _ _) => Some NewConnection
  | Enqueue (ConnectionEstablishedEvent _ _) => Some ConnectionReady
  | Dispatch (ResponseEvent r) => Some (if res_message_type r =? WIFU_PRECLOSE then PeerClosed else ConnectAnswered)
  | Dispatch (TimeoutEvent _ _ _ _) => Some TimerStarted
  | Dispatch (CancelTimerEvent _) => Some TimerStopped
  | _ => None
  end.
Definition outputs (t : list effect) : list output := omap output_of t.

(** ** The handlers implement the machine *)

(** The calls of the protocol, with what the machine sees of them. *)
Inductive call :=
| CConnect (get_source_address : string → string) (s : nat) (e : connect_event)
| CListen (s : nat) (e : listen_event)
| CInitiated (s : nat) (e : option listen_event)
| CEstablished
| CPacket (s : nat) (p : tcp_packet)
| CClose (s : nat)
| CTimer (s timeout_event : nat).

Definition handle (a : call) : cm_handler :=
  match a with
  | CConnect g s e => icontext_connect g s e
  | CListen s e => icontext_listen s e
  | CInitiated s e => icontext_new_connection_initiated s e
  | CEstablished => icontext_new_connection_established
  | CPacket s p => icontext_receive_packet s p
  | CClose s => icontext_close s
  | CTimer s t => icontext_timer_fired_event s t
  end.

Definition input_of (a : call) (w : env cm_context) : input :=
  match a with
  | CConnect _ _ _ => Connect
  | CListen _ _ => ListenOn
  | CInitiated _ _ => Initiated
  | CEstablished => EstablishedBy
  | CPacket _ p => Packet (is_tcp_syn p) (is_tcp_ack p) (is_tcp_fin p) (is_naked_ack p)
  | CClose _ => Close (negb (Nat.eqb (length (get_send_buffer (sock w))) 0))
  | CTimer _ t => Timer (bool_decide (current_ (ctx w) = TimeWait (Some t)))
  end.

(** What the calls rely on: a bound socket, a received packet, a source address for the
    destination, and a connect event that is one. *)
Definition able (a : call) (w : env cm_context) : Prop :=
  is_Some (local_ (sock w)) ∧ (∀ e, c_event_ (ctx w) = Some e → le_message_type (ce_event e) ≠ WIFU_PRECLOSE) ∧
  match a with
  | CConnect g _ e => is_Some (inet_aton (g (get_address (ce_address e))))
  | CPacket _ p => TCPPacket.wf p
  | _ => True
  end.

(** The calls that read an event nobody gave the context: the connect event, by everything that
    enters Established, and either of the two, to tell the front end about the peer's close. *)
Definition crashes (a : call) (w : env cm_context) : bool :=
  let no_connect := bool_decide (c_event_ (ctx w) = None) in
  match a, current_ (ctx w) with
  | CEstablished, Closed => no_connect
  | CPacket _ p, SynSent => is_tcp_syn p && is_tcp_ack p && no_connect
  | CPacket _ p, SynReceived => is_tcp_ack p && no_connect
  | CPacket _ p, Established => negb (is_tcp_syn p) && is_tcp_fin p && no_connect && bool_decide (l_event_ (ctx w) = None)
  | _, _ => false
  end.

(** *** Control segments *)

Record flags (syn ack fin : bool) (p : tcp_packet) : Prop := {
  flags_headers : headers_ok p;
  flags_doff : get_tcp_data_offset p = 8;
  flags_syn : is_tcp_syn p = syn;
  flags_ack : is_tcp_ack p = ack;
  flags_fin : is_tcp_fin p = fin }.

Lemma flags_new p : new_segment p → flags false false false p.
Proof. intros H. destruct (ns_flags _ H) as (? & ? & ?). split; try assumption; apply H. Qed.

Lemma flags_set f v p syn ack fin :
  flags syn ack fin p → header_field f = true →
  let q := set_tcp f v p in
  headers_ok q ∧ get_tcp_data_offset q = 8 ∧ (∀ g, disjoint g f = true → is_tcp g q = is_tcp g p) ∧
  get_tcp f q = v mod 2 ^ width f ∧ data_set_ q = data_set_ p.
Proof.
  intros [Hh Hd _ _ _] Hf q. destruct (set_header_field f v p Hf Hh) as (Hq & _). pose proof (header_field_ok f Hf) as Hok.
  pose proof (headers_wf _ Hh). unfold header_field in Hf. bool_to_prop.
  split; [exact Hq |]. split; [unfold q, get_tcp_data_offset; rewrite get_tcp_set_other by assumption; exact Hd |].
  split; [intros; unfold is_tcp, q; rewrite get_tcp_set_other by assumption; reflexivity |].
  split; [apply get_tcp_set_same; assumption | reflexivity].
Qed.

Lemma flags_set_syn p syn ack fin : flags syn ack fin p → flags true ack fin (set_tcp_syn true p) ∧ data_set_ (set_tcp_syn true p) = data_set_ p.
Proof.
  intros H. destruct (flags_set f_syn 1 p _ _ _ H eq_refl) as (H1 & H2 & H3 & H4 & H5). split; [| exact H5].
  change (set_tcp_syn true p) with (set_tcp f_syn 1 p).
  pose proof (H3 f_ack eq_refl : is_tcp_ack _ = is_tcp_ack _) as Ho1. pose proof (H3 f_fin eq_refl : is_tcp_fin _ = is_tcp_fin _) as Ho2.
  split; [exact H1 | exact H2 | rewrite ?Ho1, ?Ho2; try apply H..]; unfold is_tcp_syn, is_tcp; rewrite H4; reflexivity.
Qed.

Lemma flags_set_ack p syn ack fin : flags syn ack fin p → flags syn true fin (set_tcp_ack true p) ∧ data_set_ (set_tcp_ack true p) = data_set_ p.
Proof.
  intros H. destruct (flags_set f_ack 1 p _ _ _ H eq_refl) as (H1 & H2 & H3 & H4 & H5). split; [| exact H5].
  change (set_tcp_ack true p) with (set_tcp f_ack 1 p).
  pose proof (H3 f_syn eq_refl : is_tcp_syn _ = is_tcp_syn _) as Ho1. pose proof (H3 f_fin eq_refl : is_tcp_fin _ = is_tcp_fin _) as Ho2.
  split; [exact H1 | exact H2 | rewrite ?Ho1, ?Ho2; try apply H..]; unfold is_tcp_ack, is_tcp; rewrite H4; reflexivity.
Qed.

Lemma flags_set_fin p syn ack fin : flags syn ack fin p → flags syn ack true (set_tcp_fin true p) ∧ data_set_ (set_tcp_fin true p) = data_set_ p.
Proof.
  intros H. destruct (flags_set f_fin 1 p _ _ _ H eq_refl) as (H1 & H2 & H3 & H4 & H5). split; [| exact H5].
  change (set_tcp_fin true p) with (set_tcp f_fin 1 p).
  pose proof (H3 f_syn eq_refl : is_tcp_syn _ = is_tcp_syn _) as Ho1. pose proof (H3 f_ack eq_refl : is_tcp_ack _ = is_tcp_ack _) as Ho2.
  split; [exact H1 | exact H2 | rewrite ?Ho1, ?Ho2; try apply H..]; unfold is_tcp_fin, is_tcp; rewrite H4; reflexivity.
Qed.

(** Without data, before or after the flags are set. *)
Lemma flags_set_data p syn ack fin :
  flags syn ack fin p → data_set_ p = false → ∃ p', set_data [] p = Done p' ∧ flags syn ack fin p'.
Proof.
  intros [Hh Hd Hs Ha Hf] Hset.
  destruct (set_data_full [] p Hh Hset) as (p' & E & Hh' & _ & _ & Hg & _);
    [constructor | unfold get_tcp_header_length_bytes; rewrite Hd; unfold MTU; cbn; lia |].
  exists p'. split; [exact E |].
  split; [exact Hh' | unfold get_tcp_data_offset in *; rewrite Hg by set_solver; exact Hd |..];
    unfold is_tcp_syn, is_tcp_ack, is_tcp_fin, is_tcp in *; rewrite Hg by set_solver; assumption.
Qed.

Lemma empty_response_spec (w : env cm_context) :
  is_Some (local_ (sock w)) → ∃ p, empty_response w = Done (p, w) ∧ flags false false false p.
Proof.
  intros [a Ha]. destruct (socket_packet_spec w a Ha) as (p & E & Hp).
  destruct (flags_set_data p _ _ _ (flags_new p Hp) (ns_data _ Hp)) as (p' & E' & Hp').
  exists p'. unfold empty_response. run. rewrite E. run. rewrite E'. auto.
Qed.

Lemma reply_packet_spec packet : TCPPacket.wf packet → ∃ p, reply_packet packet = Done p ∧ new_segment p.
Proof.
  intros H. destruct (get_source_address_port_Done (wifu packet) H) as (a & q & E & Hq & _).
  assert (WiFuPacket.wf q) as Hwf by (unfold WiFuPacket.wf; rewrite Hq; exact H).
  destruct (get_dest_address_port_Done q Hwf) as (b & q' & E' & _). destruct (addressed_packet_spec a b) as (p & E'' & Hp).
  exists p. unfold reply_packet. rewrite E. cbn [mbind outcome_bind]. rewrite E'. cbn [mbind outcome_bind]. auto.
Qed.

(** *** Handlers *)

(** The handler's run agrees with the machine's step [(st, ty, out)]. *)
Definition implements (h : cm_handler) (w : env cm_context) (step : cm_state * connection_type * list output) : Prop :=
  ∃ w' t, h w = Done (tt, w') ∧ trace (io w') = (trace (io w) ++ t)%list ∧
    (phase (current_ (ctx w')), type_ (ctx w'), outputs t) = step ∧ current_ (ctx w') ≠ TimeWait None.

Definition untimed (st : cm_state) : bool := match st with TimeWait _ | Established => false | _ => true end.

Lemma outputs_app t t' : outputs (t ++ t') = outputs t ++ outputs t'.
Proof. apply omap_app. Qed.

(** Entering a state without an entry action, from one without an exit action. *)
Lemma set_state_plain st w :
  untimed st = true → phase (current_ (ctx w)) ≠ TimeWait None →
  set_state st w = Done (tt, {| ctx := set_current st (ctx w); sock := sock w; io := io w |}).
Proof.
  intros Hst Hw. unfold set_state. run.
  destruct (current_ (ctx w)); try (exfalso; apply Hw; reflexivity); destruct st; try discriminate Hst; reflexivity.
Qed.

Lemma set_state_established w e :
  phase (current_ (ctx w)) ≠ TimeWait None → c_event_ (ctx w) = Some e →
  set_state Established w = Done (tt, {| ctx := set_current Established (ctx w); sock := sock w;
    io := add_trace (match type_ (ctx w) with
                     | ACTIVE_OPEN => [Dispatch (ResponseEvent (default_response (le_socket (ce_event e)) (ce_event e) 0 0))]
                     | _ => [] end) (io w) |}).
Proof.
  intros Hw He. unfold set_state. run.
  destruct (current_ (ctx w)); try (exfalso; apply Hw; reflexivity);
    cbn [state_exit state_enter]; unfold established_enter; run; cbn [c_event_ set_current type_]; rewrite He; cbn [deref]; run;
    cbn [type_ set_current]; destruct (type_ (ctx w)); run; rewrite ?add_trace_nil; reflexivity.
Qed.

Lemma set_state_established_crash w :
  phase (current_ (ctx w)) ≠ TimeWait None → c_event_ (ctx w) = None → set_state Established w = Fault NullDereference.
Proof.
  intros Hw He. unfold set_state. run.
  destruct (current_ (ctx w)); try (exfalso; apply Hw; reflexivity);
    cbn [state_exit state_enter]; unfold established_enter; run; cbn [c_event_ set_current]; rewrite He; reflexivity.
Qed.

Definition with_timer (w : env cm_context) (t : list effect) : env cm_context :=
  {| ctx := set_current (TimeWait (Some (next_pointer (io w)))) (ctx w); sock := sock w;
     io := {| next_pointer := S (next_pointer (io w)); now := now (io w);
              trace := (trace (io w) ++ t ++ [Dispatch (TimeoutEvent (next_pointer (io w)) (socket_ (ctx w)) TWO_MSL 0)])%list |} |}.

Lemma set_state_time_wait w :
  phase (current_ (ctx w)) ≠ TimeWait None → set_state (TimeWait None) w = Done (tt, with_timer w []).
Proof.
  intros Hw. unfold set_state. run.
  destruct (current_ (ctx w)); try (exfalso; apply Hw; reflexivity); reflexivity.
Qed.

Lemma time_wait_answer w :
  ∀ t, current_ (ctx w) = TimeWait (Some t) →
  restart_timer w = Done (tt, with_timer w [Dispatch (CancelTimerEvent (Some t))]) ∧
  set_state Closed w = Done (tt, {| ctx := set_current Closed (ctx w); sock := sock w;
    io := add_trace [Dispatch (CancelTimerEvent (Some t))] (io w) |}).
Proof.
  intros t Ht. split.
  - unfold restart_timer, stop_timer, start_timer, new_timeout. run. rewrite Ht. run. unfold with_timer.
    change (0 <=? TWO_MSL) with true. change (0 <=? 0) with true. run. rewrite <- app_assoc. reflexivity.
  - unfold set_state. run. rewrite Ht. cbn [state_exit]. unfold stop_timer. run. rewrite Ht. reflexivity.
Qed.

Lemma implements_idle (h : cm_handler) w :
  h w = Done (tt, w) → current_ (ctx w) ≠ TimeWait None → implements h w (phase (current_ (ctx w)), type_ (ctx w), []).
Proof. intros E Ht. exists w, []. rewrite app_nil_r. auto. Qed.

Lemma output_segment s p syn ack fin : flags syn ack fin p → output_of (Enqueue (SendPacketEvent s p)) = Some (Segment syn ack fin).
Proof. intros [_ _ <- <- <-]. reflexivity. Qed.

Lemma connect_implements g s e w :
  current_ (ctx w) = Closed → is_Some (local_ (sock w)) → is_Some (inet_aton (g (get_address (ce_address e)))) →
  implements (ClosedState.state_connect g s e) w (SynSent, ACTIVE_OPEN, [Segment true false false]).
Proof.
  intros Hc [a Ha] [n Hn]. unfold implements, ClosedState.state_connect. run. unfold get_local_address_port at 1. rewrite Ha. run.
  unfold new_AddressPort. rewrite Hn. run.
  match goal with |- context [addressed_packet ?d ?s] => destruct (addressed_packet_spec d s) as (p & -> & Hp) end. run.
  destruct (flags_set_syn p _ _ _ (flags_new p Hp)) as [H1 H2]. rewrite (ns_data _ Hp) in H2.
  destruct (flags_set_data _ _ _ _ H1 H2) as (p' & -> & Hp'). run.
  rewrite set_state_plain by (try reflexivity; cbn; rewrite Hc; discriminate).
  eexists _, [NotifyObservers s _; NotifyObservers s _; Enqueue (SendPacketEvent s p')]. split; [reflexivity |].
  cbn [ctx sock io trace]. split; [rewrite <- !app_assoc; reflexivity |]. split; [| discriminate].
  cbn [phase current_ set_current set_socket set_connect_event set_connection_type type_]. unfold outputs. cbn [omap list_omap].
  rewrite (output_segment _ _ _ _ _ Hp'). reflexivity.
Qed.

Lemma listen_packet_implements s p w :
  current_ (ctx w) = Listen → is_Some (local_ (sock w)) → TCPPacket.wf p → is_tcp_syn p = true →
  implements (ListenState.process_syn s p) w (SynReceived, type_ (ctx w), [NewConnection; Segment true true false]).
Proof.
  intros Hc [a Ha] Hp _. unfold implements, ListenState.process_syn. run. unfold get_local_address_port. rewrite Ha. run.
  destruct (get_source_address_port_Done (wifu p) Hp) as (b & q & -> & Hq & _). run.
  destruct (reply_packet_spec (with_wifu q p)) as (r & -> & Hr); [unfold TCPPacket.wf, ip_of; cbn; rewrite Hq; exact Hp |]. run.
  destruct (flags_set_syn r _ _ _ (flags_new r Hr)) as [H1 H1']. destruct (flags_set_ack _ _ _ _ H1) as [H2 H2'].
  destruct (flags_set_data _ _ _ _ H2) as (r' & -> & Hr'); [rewrite H2', H1'; apply Hr |]. run.
  rewrite set_state_plain by (try reflexivity; cbn; rewrite Hc; discriminate).
  eexists _, [_; _; _]. split; [reflexivity |]. cbn [ctx sock io trace]. split; [rewrite <- !app_assoc; reflexivity |].
  split; [| discriminate]. cbn [phase current_ set_current set_accept_socket type_]. unfold outputs. cbn [omap list_omap].
  rewrite (output_segment _ _ _ _ _ Hr'). reflexivity.
Qed.

Lemma on_established_outputs ty e :
  le_message_type (ce_event e) ≠ WIFU_PRECLOSE →
  outputs (match ty with
           | ACTIVE_OPEN => [Dispatch (ResponseEvent (default_response (le_socket (ce_event e)) (ce_event e) 0 0))]
           | _ => [] end) = on_established ty.
Proof.
  intros H. destruct ty; try reflexivity. unfold outputs. cbn [omap list_omap output_of res_message_type default_response].
  rewrite (proj2 (Z.eqb_neq _ _) H). reflexivity.
Qed.

Lemma syn_sent_implements s p w e :
  current_ (ctx w) = SynSent → TCPPacket.wf p → is_tcp_syn p = true → is_tcp_ack p = true →
  c_event_ (ctx w) = Some e → le_message_type (ce_event e) ≠ WIFU_PRECLOSE →
  implements (SynSentState.state_receive_packet s p) w
    (Established, type_ (ctx w), Segment false true false :: on_established (type_ (ctx w))).
Proof.
  intros Hc Hp Hs Ha He Hm. unfold implements, SynSentState.state_receive_packet. rewrite Hs, Ha. cbn [andb]. run.
  destruct (reply_packet_spec p Hp) as (r & -> & Hr). run.
  destruct (flags_set_data r _ _ _ (flags_new r Hr) (ns_data _ Hr)) as (r' & -> & Hr'). run.
  destruct (flags_set_ack _ _ _ _ Hr') as [H1 _].
  rewrite (set_state_established _ e) by (try exact He; cbn; rewrite Hc; discriminate).
  eexists _, (_ :: _). split; [reflexivity |]. cbn [ctx sock io trace add_trace]. split; [rewrite <- app_assoc; reflexivity |].
  split; [| discriminate]. cbn [phase current_ set_current type_]. rewrite <- (on_established_outputs _ e Hm).
  unfold outputs at 1. cbn [omap list_omap]. rewrite (output_segment _ _ _ _ _ H1). reflexivity.
Qed.

(** Closes a goal [implements] once the handler has run to [Done] with the effects [t] at the
    end of the trace. *)
Ltac implemented t :=
  eexists _, t; split; [reflexivity |]; cbn [ctx sock io trace add_trace with_timer]; split;
  [rewrite <- ?app_assoc; reflexivity |]; split; [| discriminate];
  cbn [phase current_ set_current type_]; unfold outputs; cbn [omap list_omap];
  rewrite ?(output_segment _ _ _ _ _ ltac:(eassumption)); try reflexivity.

Lemma syn_received_implements s p w e :
  current_ (ctx w) = SynReceived → is_tcp_ack p = true → c_event_ (ctx w) = Some e → le_message_type (ce_event e) ≠ WIFU_PRECLOSE →
  implements (SynReceivedState.state_receive_packet s p) w
    (Established, type_ (ctx w), ConnectionReady :: on_established (type_ (ctx w))).
Proof.
  intros Hc Ha He Hm. unfold implements, SynReceivedState.state_receive_packet. rewrite Ha. run.
  rewrite (set_state_established _ e) by (try exact He; cbn; rewrite Hc; discriminate).
  eexists _, (_ :: _). split; [reflexivity |]. cbn [ctx sock io trace add_trace]. split; [rewrite <- app_assoc; reflexivity |].
  split; [| discriminate]. cbn [phase current_ set_current type_]. rewrite <- (on_established_outputs _ e Hm). reflexivity.
Qed.

Lemma established_packet_implements s p w :
  current_ (ctx w) = Established → is_Some (local_ (sock w)) → is_tcp_syn p = false → is_tcp_fin p = true →
  is_Some (c_event_ (ctx w)) ∨ is_Some (l_event_ (ctx w)) →
  implements (EstablishedState.state_receive_packet s p) w (CloseWait, type_ (ctx w), [ack_segment; PeerClosed]).
Proof.
  intros Hc Hl Hs Hf He. unfold implements, EstablishedState.state_receive_packet. rewrite Hs, Hf. run.
  destruct (empty_response_spec w Hl) as (r & -> & Hr). run.
  rewrite set_state_plain by (try reflexivity; cbn; rewrite Hc; discriminate). run.
  assert (∃ x, ∀ i, get_front_end_socket {| ctx := set_current CloseWait (ctx w); sock := sock w; io := i |}
    = Done (x, {| ctx := set_current CloseWait (ctx w); sock := sock w; io := i |})) as [x Hx].
  { unfold get_front_end_socket. destruct (c_event_ (ctx w)) as [e|] eqn:Ec.
    - eexists. intros i. run. cbn [c_event_ set_current]. rewrite Ec. reflexivity.
    - destruct He as [[? He] | [l He]]; [discriminate He |]. eexists. intros i. run. cbn [c_event_ l_event_ set_current]. rewrite Ec. run.
      cbn [l_event_ set_current]. rewrite He. reflexivity. }
  rewrite Hx. run. implemented [Enqueue (SendPacketEvent s r); Dispatch (ResponseEvent (EstablishedState.preclose s (sock w) x))].
Qed.

Lemma fin_implements s w st h :
  untimed st = true → untimed (current_ (ctx w)) = true ∨ current_ (ctx w) = Established → is_Some (local_ (sock w)) →
  h = (response ← empty_response; _ ← enqueue (SendPacketEvent s (set_tcp_fin true response)); set_state st) ∨
  h = (response ← empty_response; _ ← set_state st; enqueue (SendPacketEvent s (set_tcp_fin true response))) →
  implements h w (st, type_ (ctx w), [Segment false false true]).
Proof.
  intros Hst Hc Hl Hh. destruct (empty_response_spec w Hl) as (r & E & Hr). destruct (flags_set_fin _ _ _ _ Hr) as [H1 _].
  assert (phase (current_ (ctx w)) ≠ TimeWait None) as Hp by (destruct Hc as [Hc | Hc]; destruct (current_ (ctx w)); discriminate).
  exists {| ctx := set_current st (ctx w); sock := sock w; io := add_trace [Enqueue (SendPacketEvent s (set_tcp_fin true r))] (io w) |},
    [Enqueue (SendPacketEvent s (set_tcp_fin true r))].
  split; [destruct Hh as [-> | ->]; run; rewrite E; run; rewrite (set_state_plain st) by assumption; run; reflexivity |].
  split; [reflexivity |]. unfold outputs. cbn [omap list_omap]. rewrite (output_segment _ _ _ _ _ H1).
  cbn [ctx current_ set_current type_]. destruct st; try discriminate Hst; split; (reflexivity || discriminate).
Qed.

(** The states that answer a FIN and wait. *)
Lemma answer_fin_implements s w h :
  untimed (current_ (ctx w)) = true → is_Some (local_ (sock w)) →
  h = (response ← empty_response; _ ← enqueue (SendPacketEvent s response); set_state (TimeWait None)) →
  implements h w (TimeWait None, type_ (ctx w), [ack_segment; TimerStarted]).
Proof.
  intros Hc Hl ->. unfold implements. run. destruct (empty_response_spec w Hl) as (r & -> & Hr). run.
  rewrite set_state_time_wait by (cbn; destruct (current_ (ctx w)); discriminate).
  cbn [ctx sock io with_timer next_pointer]. implemented [Enqueue (SendPacketEvent s r); Dispatch (TimeoutEvent (next_pointer (io w)) (socket_ (ctx w)) TWO_MSL 0)].
Qed.

Lemma time_wait_packet_implements s p w t :
  current_ (ctx w) = TimeWait (Some t) → is_Some (local_ (sock w)) → is_tcp_fin p = true →
  implements (TimeWaitState.state_receive_packet s p) w (TimeWait None, type_ (ctx w), [ack_segment; TimerStopped; TimerStarted]).
Proof.
  intros Hc Hl Hf. unfold implements, TimeWaitState.state_receive_packet. rewrite Hf. run.
  destruct (empty_response_spec w Hl) as (r & -> & Hr). run.
  match goal with |- context [restart_timer ?w1] => destruct (time_wait_answer w1 t Hc) as [-> _] end.
  cbn [ctx sock io with_timer next_pointer]. implemented [Enqueue (SendPacketEvent s r); Dispatch (CancelTimerEvent (Some t)); Dispatch (TimeoutEvent (next_pointer (io w)) (socket_ (ctx w)) TWO_MSL 0)].
Qed.

Lemma time_wait_timer_implements s w t :
  current_ (ctx w) = TimeWait (Some t) →
  implements (TimeWaitState.state_timer_fired s t) w (Closed, type_ (ctx w), [Deleted; TimerStopped]).
Proof.
  intros Hc. unfold implements, TimeWaitState.state_timer_fired. run. rewrite Hc, decide_True by reflexivity. run.
  match goal with |- context [set_state Closed ?w1] => destruct (time_wait_answer w1 t Hc) as [_ ->] end.
  implemented [Enqueue (DeleteSocketEvent s); Dispatch (CancelTimerEvent (Some t))].
Qed.

Lemma delete_implements s w h :
  untimed (current_ (ctx w)) = true → h = (_ ← enqueue (DeleteSocketEvent s); set_state Closed) →
  implements h w (Closed, type_ (ctx w), [Deleted]).
Proof.
  intros Hc ->. unfold implements. run.
  rewrite set_state_plain by (try reflexivity; cbn; destruct (current_ (ctx w)); discriminate).
  implemented [Enqueue (DeleteSocketEvent s)].
Qed.

Lemma packet_implements s p w :
  able (CPacket s p) w → crashes (CPacket s p) w = false → current_ (ctx w) ≠ TimeWait None →
  implements (icontext_receive_packet s p) w
    (machine (phase (current_ (ctx w))) (type_ (ctx w)) (Packet (is_tcp_syn p) (is_tcp_ack p) (is_tcp_fin p) (is_naked_ack p))).
Proof.
  intros (Hl & Hm & Hp) Hc Ht. unfold crashes in Hc.
  assert (∀ h : cm_handler, h w = Done (tt, w) → implements h w (phase (current_ (ctx w)), type_ (ctx w), [])) as Idle
    by (intros h E; apply implements_idle; assumption).
  unfold implements, icontext_receive_packet. run.
  destruct (current_ (ctx w)) as [ | | | | | | | | [t|] | | ] eqn:Ec; cbn [phase machine] in Idle |- *.
  - exact (Idle (mret tt) eq_refl).
  - destruct (is_tcp_syn p) eqn:Es.
    + refine (_ : implements (ListenState.state_receive_packet s p) w _). unfold ListenState.state_receive_packet. rewrite Es.
      apply listen_packet_implements; assumption.
    + apply (Idle (ListenState.state_receive_packet s p)). unfold ListenState.state_receive_packet. rewrite Es. reflexivity.
  - destruct (is_tcp_syn p) eqn:Es; [destruct (is_tcp_ack p) eqn:Ea |].
    + destruct (c_event_ (ctx w)) as [e|] eqn:He; [| discriminate Hc]. apply (syn_sent_implements s p w e); auto.
    + apply (Idle (SynSentState.state_receive_packet s p)). unfold SynSentState.state_receive_packet. rewrite Es, Ea. reflexivity.
    + apply (Idle (SynSentState.state_receive_packet s p)). unfold SynSentState.state_receive_packet. rewrite Es. reflexivity.
  - destruct (is_tcp_ack p) eqn:Ea.
    + destruct (c_event_ (ctx w)) as [e|] eqn:He; [| discriminate Hc]. apply (syn_received_implements s p w e); auto.
    + apply (Idle (SynReceivedState.state_receive_packet s p)). unfold SynReceivedState.state_receive_packet. rewrite Ea. reflexivity.
  - destruct (is_tcp_syn p) eqn:Es; [| destruct (is_tcp_fin p) eqn:Ef].
    + apply (Idle (EstablishedState.state_receive_packet s p)). unfold EstablishedState.state_receive_packet. rewrite Es. reflexivity.
    + apply established_packet_implements; try assumption.
      destruct (c_event_ (ctx w)); [left; eauto |]. destruct (l_event_ (ctx w)); [right; eauto | discriminate Hc].
    + apply (Idle (EstablishedState.state_receive_packet s p)). unfold EstablishedState.state_receive_packet. rewrite Es, Ef. reflexivity.
  - refine (_ : implements (FinWait1State.state_receive_packet s p) w _). unfold FinWait1State.state_receive_packet.
    destruct (is_tcp_ack p) eqn:Ea; destruct (is_tcp_fin p) eqn:Ef; cbn [andb].
    + apply (answer_fin_implements s); [rewrite Ec | |]; auto.
    + unfold implements. rewrite set_state_plain by (try reflexivity; rewrite Ec; discriminate). eexists _, []. rewrite app_nil_r.
      split; [reflexivity |]. split; [reflexivity |]. split; [reflexivity | discriminate].
    + apply Idle. reflexivity.
    + apply Idle. reflexivity.
  - refine (_ : implements (FinWait2State.state_receive_packet s p) w _). unfold FinWait2State.state_receive_packet.
    destruct (is_tcp_fin p) eqn:Ef; [apply (answer_fin_implements s); [rewrite Ec | |]; auto | apply Idle; reflexivity].
  - refine (_ : implements (ClosingState.state_receive_packet p) w _). unfold ClosingState.state_receive_packet.
    destruct (is_tcp_ack p) eqn:Ea; [| apply Idle; reflexivity].
    unfold implements. rewrite set_state_time_wait by (rewrite Ec; discriminate).
    implemented [Dispatch (TimeoutEvent (next_pointer (io w)) (socket_ (ctx w)) TWO_MSL 0)].
  - destruct (is_tcp_fin p) eqn:Ef; [apply (time_wait_packet_implements s p w t); assumption |].
    apply (Idle (TimeWaitState.state_receive_packet s p)). unfold TimeWaitState.state_receive_packet. rewrite Ef. reflexivity.
  - destruct Ht; reflexivity.
  - exact (Idle (mret tt) eq_refl).
  - refine (_ : implements (LastAckState.state_receive_packet s p) w _). unfold LastAckState.state_receive_packet.
    destruct (is_naked_ack p); [apply (delete_implements s); [rewrite Ec |]; reflexivity | apply Idle; reflexivity].
Qed.

Lemma handle_implements a w :
  able a w → crashes a w = false → current_ (ctx w) ≠ TimeWait None →
  implements (handle a) w (machine (phase (current_ (ctx w))) (type_ (ctx w)) (input_of a w)).
Proof.
  intros Ha Hn Ht.
  assert (∀ h : cm_handler, h w = Done (tt, w) → implements h w (phase (current_ (ctx w)), type_ (ctx w), [])) as Idle
    by (intros h E; apply implements_idle; assumption).
  destruct a as [g s e | s e | s e | | s p | s | s t]; cbn [handle input_of]; [| | | | apply packet_implements; assumption | |];
    destruct Ha as (Hl & Hm & Ha).
  - unfold implements, icontext_connect. run. destruct (current_ (ctx w)) eqn:Ec; cbn [phase machine] in Idle |- *;
      try (refine (Idle (mret tt : cm_handler) _); reflexivity). apply connect_implements; assumption.
  - unfold implements, icontext_listen. run. destruct (current_ (ctx w)) eqn:Ec; cbn [phase machine] in Idle |- *;
      try (refine (Idle (mret tt : cm_handler) _); reflexivity). unfold ClosedState.state_listen. run.
    rewrite set_state_plain by (try reflexivity; cbn; rewrite Ec; discriminate).
    eexists _, []. rewrite app_nil_r. repeat split. discriminate.
  - unfold implements, icontext_new_connection_initiated. run. destruct (current_ (ctx w)) eqn:Ec; cbn [phase machine] in Idle |- *;
      try (refine (Idle (mret tt : cm_handler) _); reflexivity). unfold ClosedState.state_new_connection_initiated. run.
    rewrite set_state_plain by (try reflexivity; cbn; rewrite Ec; discriminate).
    eexists _, []. rewrite app_nil_r. repeat split. discriminate.
  - unfold implements, icontext_new_connection_established. run. destruct (current_ (ctx w)) eqn:Ec; cbn [phase machine] in Idle |- *;
      try (refine (Idle (mret tt : cm_handler) _); reflexivity). cbn [crashes] in Hn. rewrite Ec in Hn.
    destruct (c_event_ (ctx w)) as [e|] eqn:He; [| discriminate Hn]. unfold ClosedState.state_new_connection_established. run.
    rewrite (set_state_established _ e) by (try exact He; cbn; rewrite Ec; discriminate).
    eexists _, []. rewrite app_nil_r. cbn [type_ set_connection_type]. rewrite add_trace_nil. repeat split. discriminate.
  - unfold implements, icontext_close. run. destruct (current_ (ctx w)) eqn:Ec; cbn [phase machine] in Idle |- *;
      try (refine (Idle (mret tt : cm_handler) _); reflexivity).
    + apply (delete_implements s w (ListenState.state_close s)); [rewrite Ec |]; reflexivity.
    + refine (_ : implements (EstablishedState.state_close s) w _). unfold EstablishedState.state_close, implements. run.
      destruct (Nat.eqb (length (get_send_buffer (sock w))) 0); cbn [negb].
      * refine (fin_implements s w FinWait1 _ eq_refl _ Hl (or_intror eq_refl)). auto.
      * exact (Idle (mret tt) eq_refl).
    + refine (fin_implements s w LastAck (CloseWaitState.state_close s) eq_refl _ Hl (or_introl eq_refl)). rewrite Ec. auto.
  - unfold implements, icontext_timer_fired_event. run. destruct (current_ (ctx w)) as [ | | | | | | | | [t'|] | | ] eqn:Ec;
      cbn [phase machine] in Idle |- *;
      lazymatch goal with
      | |- context [TimeWaitState.state_timer_fired] => idtac
      | _ => refine (Idle (mret tt : cm_handler) _); reflexivity
      end; [| destruct Ht; reflexivity].
    destruct (decide (t' = t)) as [-> | Hne].
    + rewrite bool_decide_eq_true_2 by reflexivity. apply time_wait_timer_implements. assumption.
    + rewrite bool_decide_eq_false_2 by congruence. refine (Idle (TimeWaitState.state_timer_fired s t) _).
      unfold TimeWaitState.state_timer_fired. run. rewrite Ec, decide_False by congruence. reflexivity.
Qed.

Lemma handle_crashes a w : able a w → crashes a w = true → handle a w = Fault NullDereference.
Proof.
  intros (Hl & _ & Ha) Hn. destruct a as [g s e | s e | s e | | s p | s | s t]; cbn [crashes handle] in *;
    destruct (current_ (ctx w)) eqn:Ec; try discriminate Hn; rewrite ?andb_true_iff, ?bool_decide_eq_true in Hn; rewrite ?negb_true_iff in Hn.
  - unfold icontext_new_connection_established. run. rewrite Ec. unfold ClosedState.state_new_connection_established. run.
    apply set_state_established_crash; [cbn; rewrite Ec; discriminate | assumption].
  - unfold icontext_receive_packet. run. rewrite Ec. unfold SynSentState.state_receive_packet.
    destruct Hn as ((-> & ->) & Hn). cbn [andb]. run.
    destruct (reply_packet_spec p Ha) as (r & -> & Hr). run.
    destruct (flags_set_data r _ _ _ (flags_new r Hr) (ns_data _ Hr)) as (r' & -> & _). run.
    apply set_state_established_crash; [cbn; rewrite Ec; discriminate | assumption].
  - unfold icontext_receive_packet. run. rewrite Ec. unfold SynReceivedState.state_receive_packet. destruct Hn as (-> & Hn). run.
    apply set_state_established_crash; [cbn; rewrite Ec; discriminate | assumption].
  - unfold icontext_receive_packet. run. rewrite Ec. unfold EstablishedState.state_receive_packet.
    destruct Hn as (((Hs & Hf) & Hn) & Hn'). rewrite Hs, Hf. run.
    destruct (empty_response_spec w Hl) as (r & -> & Hr). run.
    rewrite set_state_plain by (try reflexivity; cbn; rewrite Ec; discriminate). run.
    unfold get_front_end_socket. run. cbn [c_event_ l_event_ set_current]. rewrite Hn. run. cbn [l_event_ set_current]. rewrite Hn'. reflexivity.
Qed.

(** C6: the connection manager implements the machine. Whatever the state, every call and
    every packet either crashes, exactly where [crashes] says (a null event is read: the
    handshake's last acknowledgement of a passive open without a connect event, the end of an
    accept, a peer's close of a connection without any event), or returns, moves to the machine's
    next state and has exactly its outputs, in its order: which flags leave in which segment,
    when the connect call is answered, when the timer starts and stops, when the socket is
    deleted. *)
Theorem handlers_implement_machine a w :
  able a w → current_ (ctx w) ≠ TimeWait None →
  if crashes a w then handle a w = Fault NullDereference
  else ∃ w' t, handle a w = Done (tt, w') ∧ trace (io w') = (trace (io w) ++ t)%list ∧
    (phase (current_ (ctx w')), type_ (ctx w'), outputs t) = machine (phase (current_ (ctx w))) (type_ (ctx w)) (input_of a w) ∧
    current_ (ctx w') ≠ TimeWait None.
Proof.
  intros Ha Ht. destruct (crashes a w) eqn:Ec; [apply handle_crashes | apply handle_implements]; assumption.
Qed.

(** ** Life cycles *)

(** A state, its connection type and all outputs so far. *)
Inductive reachable : cm_state → connection_type → list output → Prop :=
| reach_new ty : reachable Closed ty []
| reach_step st ty h i st' ty' out :
    reachable st ty h → machine st ty i = (st', ty', out) → reachable st' ty' (h ++ out).

Definition count (x : output) (h : list output) : Z := Z.of_nat (length (List.filter (fun y => bool_decide (y = x)) h)).

Lemma count_app x h h' : count x (h ++ h') = count x h + count x h'.
Proof. unfold count. rewrite List.filter_app, length_app. lia. Qed.

(** One if [b] holds. *)
Definition indicator (b : bool) : Z := if b then 1 else 0.

Definition fin_sent (st : cm_state) : bool :=
  match st with FinWait1 | FinWait2 | TimeWait _ | LastAck => true | _ => false end.

Record life (st : cm_state) (ty : connection_type) (h : list output) : Prop := {
  life_phase : phase st = st ∧ st ≠ Closing;
  life_timer : count TimerStarted h = count TimerStopped h + indicator (bool_decide (st = TimeWait None));
  life_connect : count (Segment true false false) h = count ConnectAnswered h + indicator (bool_decide (st = SynSent));
  life_fin : count (Segment false false true) h ≤ count Deleted h + indicator (fin_sent st);
  life_type : match st with SynSent => ty = ACTIVE_OPEN | Listen | SynReceived => ty = PASSIVE_OPEN | _ => True end }.

(** Evaluates the decidable equalities between constructors. *)
Ltac decide_states :=
  repeat match goal with
         | |- context [bool_decide (?a = ?b)] =>
             let v := eval vm_compute in (bool_decide (a = b)) in progress change (bool_decide (a = b)) with v
         | H : context [bool_decide (?a = ?b)] |- _ =>
             let v := eval vm_compute in (bool_decide (a = b)) in progress change (bool_decide (a = b)) with v in H
         end.

Lemma life_reachable st ty h : reachable st ty h → life st ty h.
Proof.
  induction 1 as [ty | st ty h i st' ty' out _ IH Hm]; [split; try split; try reflexivity; discriminate |].
  destruct IH as [[Hp Hc] Ht Hk Hf Hty].
  destruct st as [ | | | | | | | | [t|] | | ]; try discriminate Hp; try (destruct Hc; reflexivity);
    destruct i as [ | | | | [] [] [] [] | [] | []]; cbn [machine] in Hm; injection Hm as <- <- <-;
    try (destruct ty; try discriminate Hty);
    (split; [split; [reflexivity | discriminate] | rewrite !count_app | rewrite !count_app | rewrite !count_app | exact I || reflexivity || exact Hty]);
    unfold count, indicator in *; cbn in *; decide_states; cbn in *; lia.
Qed.

(** What a run of calls leaves: the context and all effects so far. Between two calls the
    socket, the clock and the trace may be anything. *)
Inductive lived (memory : cm_context) : cm_context → list effect → Prop :=
| lived_new : lived memory (new_ConnectionManagerContext memory) []
| lived_call c h a sk i w' t :
    let w := {| ctx := c; sock := sk; io := i |} in
    lived memory c h → able a w → handle a w = Done (tt, w') → trace (io w') = (trace i ++ t)%list →
    lived memory (ctx w') (h ++ t).

Lemma lived_reachable memory c h :
  lived memory c h → reachable (phase (current_ c)) (type_ c) (outputs h) ∧ current_ c ≠ TimeWait None.
Proof.
  induction 1 as [| c h a sk i w' t w _ [IH Ht] Ha E Htr]; [split; [constructor | discriminate] |].
  pose proof (handle_implements a w Ha) as Hi. destruct (crashes a w) eqn:Ec.
  { rewrite (handle_crashes a w Ha Ec) in E. discriminate E. }
  destruct (Hi eq_refl Ht) as (w2 & t2 & E2 & Htr2 & Hm & Ht2). rewrite E in E2. injection E2 as <-.
  rewrite Htr2 in Htr. apply app_inv_head in Htr as <-.
  split; [| exact Ht2]. rewrite outputs_app. eapply reach_step; [exact IH | symmetry; exact Hm].
Qed.


(** ** Concrete runs *)

Definition sample_connect_event : connect_event :=
  {| ce_event := {| le_socket := 5; le_message_type := 9; le_fd := 3; le_source := "app" |}; ce_address := address_port_of 16909060 80 |}.

Definition sample_cm (st : cm_state) (ty : connection_type) (e : option connect_event) (l : option listen_event) : env cm_context :=
  {| ctx := {| current_ := st; type_ := ty; c_event_ := e; l_event_ := l; socket_ := 5; accept_socket_ := 4 |};
     sock := sample_socket 1 default_address_port; io := {| next_pointer := 9; now := 0; trace := [] |} |}.

(** The last acknowledgement of an active open. *)
Lemma handlers_implement_machine_witness :
  ∃ w' t, handle (CPacket 5 (set_tcp_ack true (set_tcp_syn true zero_tcp_packet))) (sample_cm SynSent ACTIVE_OPEN (Some sample_connect_event) None)
    = Done (tt, w') ∧ trace (io w') = t ∧ outputs t = [Segment false true false; ConnectAnswered].
Proof.
  assert (TCPPacket.wf (set_tcp_ack true (set_tcp_syn true zero_tcp_packet))) as Hwf by (apply wf_check_ok; vm_compute; reflexivity).
  destruct (handlers_implement_machine (CPacket 5 (set_tcp_ack true (set_tcp_syn true zero_tcp_packet)))
    (sample_cm SynSent ACTIVE_OPEN (Some sample_connect_event) None)) as (w' & t & E & Ht & Hm & _).
  - split; [eexists; reflexivity |]. split; [| exact Hwf]. intros e [= <-]. discriminate.
  - discriminate.
  - exists w', t. split; [exact E |]. split; [exact Ht |]. cbn [sample_cm current_ ctx phase type_ input_of] in Hm.
    replace (is_tcp_syn _) with true in Hm by (vm_compute; reflexivity).
    replace (is_tcp_ack _) with true in Hm by (vm_compute; reflexivity). cbn [machine on_established] in Hm. injection Hm as _ _ Hm. exact Hm.
Defined.

(** A connection opened and closed from this side. *)
Definition sample_calls : list call :=
  [CConnect (fun _ => "1.2.3.4") 5 sample_connect_event; CPacket 5 (set_tcp_ack true (set_tcp_syn true zero_tcp_packet)); CClose 5;
   CPacket 5 (set_tcp_ack true zero_tcp_packet); CPacket 5 (set_tcp_ack true (set_tcp_fin true zero_tcp_packet))].

Definition sample_cm_env (c : cm_context) : env cm_context :=
  {| ctx := c; sock := sample_socket 1 default_address_port; io := {| next_pointer := 9; now := 0; trace := [] |} |}.

Definition event_ok (c : cm_context) : bool :=
  match c_event_ c with Some e => negb (le_message_type (ce_event e) =? WIFU_PRECLOSE) | None => true end.

Fixpoint live (l : list call) (c : cm_context) : outcome (cm_context * list effect) :=
  match l with
  | [] => mret (c, [])
  | a :: l =>
      _ ← assert (event_ok c);
      '(_, w) ← handle a (sample_cm_env c);
      '(c, h) ← live l (ctx w);
      mret (c, trace (io w) ++ h)
  end.

Lemma live_lived memory l c0 h0 c h :
  Forall (fun a => ∀ c, event_ok c = true → able a (sample_cm_env c)) l → lived memory c0 h0 → live l c0 = Done (c, h) →
  lived memory c (h0 ++ h).
Proof.
  intros Hl. revert c0 h0 h. induction Hl as [| a l Ha _ IH]; intros c0 h0 h H0 E; cbn [live] in E.
  - injection E as <- <-. rewrite app_nil_r. exact H0.
  - destruct (event_ok c0) eqn:Ee; [| discriminate E]. cbn [assert mbind outcome_bind] in E.
    destruct (handle a (sample_cm_env c0)) as [[[] w]|] eqn:Eh; [| discriminate E]. cbn [mbind outcome_bind] in E.
    destruct (live l (ctx w)) as [[c1 h1]|] eqn:El; [| discriminate E]. injection E as -> <-. rewrite app_assoc.
    apply (IH (ctx w) _ h1); [| exact El]. eapply (lived_call memory c0 h0 a _ _ w (trace (io w))); [exact H0 | apply Ha, Ee | exact Eh | reflexivity].
Qed.


(** ** Behaviour the code does not intend *)

(** A passive open never has a connect event, which Established reads on entry. *)
Lemma passive_open_crash l s p :
  is_tcp_ack p = true → handle (CPacket s p) (sample_cm SynReceived PASSIVE_OPEN None l) = Fault NullDereference.
Proof. intros H. unfold handle, icontext_receive_packet, SynReceivedState.state_receive_packet. run. cbn [sample_cm ctx current_]. rewrite H. reflexivity. Qed.

(** In FinWait1 any acknowledgement counts as that of the FIN, whatever it acknowledges. *)
Lemma fin_wait_1_any_ack ty : machine FinWait1 ty (Packet false true false false) = (FinWait2, ty, []).
Proof. reflexivity. Qed.
