(* ===== verification/BackLog.v ===== *)
(** * class BackLog (transport/src/BackLog.cc)

    The established connections that wait for an accept call: a bounded queue of
    (listening socket, new socket), the two pointers of the
    ConnectionEstablishedEvent. *)
From S2P Require Import Prelude.

Record back_log := { num_connections_ : Z; queue_ : list (nat * nat) }.

Definition new_BackLog (num_connections : Z) : back_log := {| num_connections_ := num_connections; queue_ := [] |}.

Definition size (b : back_log) : Z := Z.of_nat (length (queue_ b)).
Definition capacity (b : back_log) : Z := num_connections_ b.
Definition empty (b : back_log) : bool := match queue_ b with [] => true | _ => false end.

Definition push (e : nat * nat) (b : back_log) : bool * back_log :=
  if size b + 1 <=? capacity b
  then (true, {| num_connections_ := num_connections_ b; queue_ := (queue_ b ++ [e])%list |})
  else (false, b).

(** [front()] of an empty std::queue is undefined. *)
Definition pop (b : back_log) : outcome ((nat * nat) * back_log) :=
  match queue_ b with
  | [] => Fault OutOfBounds
  | e :: q => mret (e, {| num_connections_ := num_connections_ b; queue_ := q |})
  end.

Fixpoint push_all (es : list (nat * nat)) (b : back_log) : back_log :=
  match es with [] => b | e :: es => push_all es (snd (push e b)) end.

Fixpoint pop_all (n : nat) (b : back_log) : outcome (list (nat * nat) * back_log) :=
  match n with
  | O => mret ([], b)
  | S n => '(e, b) ← pop b; '(es, b) ← pop_all n b; mret (e :: es, b)
  end.

Lemma push_all_queue es b :
  0 ≤ capacity b → size b ≤ capacity b →
  queue_ (push_all es b) = (queue_ b ++ take (Z.to_nat (capacity b - size b)) es)%list ∧ capacity (push_all es b) = capacity b.
Proof.
  revert b. induction es as [|e es IH]; intros b H0 Hb; cbn [push_all].
  { rewrite take_nil, app_nil_r. auto. }
  unfold push. destruct (Z.leb_spec (size b + 1) (capacity b)) as [Hlt | Hge]; cbn [snd].
  - destruct (IH {| num_connections_ := num_connections_ b; queue_ := (queue_ b ++ [e])%list |}) as [-> ->].
    + exact H0.
    + unfold size, capacity in *. cbn [queue_ num_connections_]. rewrite length_app. cbn. lia.
    + split; [| reflexivity]. cbn [queue_]. unfold size, capacity in *. cbn [queue_ num_connections_]. rewrite length_app. cbn [length].
      replace (Z.to_nat (num_connections_ b - Z.of_nat (length (queue_ b)))) with
        (S (Z.to_nat (num_connections_ b - Z.of_nat (length (queue_ b) + 1)))) by lia.
      cbn [firstn]. rewrite <- app_assoc. reflexivity.
  - destruct (IH b H0 Hb) as [-> ->]. split; [| reflexivity].
    unfold size, capacity in *. replace (Z.to_nat (num_connections_ b - Z.of_nat (length (queue_ b)))) with 0%nat by lia. reflexivity.
Qed.

Lemma pop_all_queue es b : queue_ b = es → pop_all (length es) b = Done (es, {| num_connections_ := num_connections_ b; queue_ := [] |}).
Proof.
  revert b. induction es as [|e es IH]; intros [n q] E; cbn in E; subst q; [reflexivity |].
  cbn [pop_all length]. unfold pop. cbn [queue_ num_connections_ mbind outcome_bind mret outcome_ret]. rewrite (IH {| num_connections_ := n; queue_ := es |} eq_refl). reflexivity.
Qed.

(** The back log is a queue of at most [capacity] connections: of any connections pushed
    into a new one exactly the first [capacity] are kept, the others are refused, and they are
    popped in the order they came; popping an empty back log is an error. *)
Theorem back_log_fifo n es :
  0 ≤ n →
  let b := push_all es (new_BackLog n) in
  size b = Z.min n (Z.of_nat (length es)) ∧
  pop_all (Z.to_nat (size b)) b = Done (take (Z.to_nat n) es, new_BackLog n) ∧
  pop (new_BackLog n) = Fault OutOfBounds.
Proof.
  intros Hn b. destruct (push_all_queue es (new_BackLog n) Hn Hn) as [Hq Hc]. fold b in Hq, Hc.
  cbn [queue_ new_BackLog capacity num_connections_ size length app] in Hq.
  rewrite Z.sub_0_r in Hq.
  assert (size b = Z.min n (Z.of_nat (length es))) as Hs by (unfold size; rewrite Hq, length_take; lia).
  split; [exact Hs |]. split; [| reflexivity].
  replace (Z.to_nat (size b)) with (length (take (Z.to_nat n) es)) by (rewrite length_take; lia).
  rewrite (pop_all_queue _ b Hq). unfold new_BackLog. unfold capacity in Hc. rewrite Hc. reflexivity.
Qed.

Lemma back_log_fifo_witness :
  pop_all (Z.to_nat (size (push_all [(1, 2); (1, 3); (1, 4)]%nat (new_BackLog 2)))) (push_all [(1, 2); (1, 3); (1, 4)]%nat (new_BackLog 2))
  = Done ([(1, 2); (1, 3)]%nat, new_BackLog 2).
Proof. exact (proj1 (proj2 (back_log_fifo 2 [(1, 2); (1, 3); (1, 4)]%nat ltac:(lia)))). Defined.
