(* ===== verification/ProtocolState.v ===== *)
(** * The state of a protocol module

    A Protocol (transport/src/protocol/Protocol.cc) owns the set of its sockets;
    each implementation keeps its own data, [own]. Both work on sockets, which
    live in a heap, and on the one SocketCollection. What a protocol enqueues on
    its own queue or gives to the dispatcher is recorded in [tio]. *)
From stdpp Require Import gmap.
From S2P Require Import Prelude AddressPort Sockets Events.

Record world (X : Type) := {
  sockets_ : gset nat;
  own : X;
  sockets : Sockets.heap;
  socket_collection : Sockets.collection;
  tio : io_state }.
Arguments sockets_ {X} _.
Arguments own {X} _.
Arguments sockets {X} _.
Arguments socket_collection {X} _.
Arguments tio {X} _.

Definition protocol (X A : Type) : Type := world X → outcome (A * world X).

#[export] Instance protocol_ret X : MRet (protocol X) := fun A a t => Done (a, t).
#[export] Instance protocol_bind X : MBind (protocol X) :=
  fun A B f m t => match m t with Done (a, t) => f a t | Fault e => Fault e end.

Section Protocol.
Context {X : Type}.

Definition with_own (o : X) (t : world X) : world X :=
  {| sockets_ := sockets_ t; own := o; sockets := sockets t; socket_collection := socket_collection t; tio := tio t |}.
Definition with_sockets (s : gset nat) (t : world X) : world X :=
  {| sockets_ := s; own := own t; sockets := sockets t; socket_collection := socket_collection t; tio := tio t |}.
Definition with_collection (h : Sockets.heap) (l : Sockets.collection) (t : world X) : world X :=
  {| sockets_ := sockets_ t; own := own t; sockets := h; socket_collection := l; tio := tio t |}.
Definition with_io (i : io_state) (t : world X) : world X :=
  {| sockets_ := sockets_ t; own := own t; sockets := sockets t; socket_collection := socket_collection t; tio := i |}.

Definition plift {A} (m : outcome A) : protocol X A := fun t => a ← m; mret (a, t).
Definition pgets {A} (f : world X → A) : protocol X A := fun t => Done (f t, t).
Definition update (f : world X → world X) : protocol X unit := fun t => Done (tt, f t).

Definition p_emit (x : effect) : protocol X unit := update (fun t => with_io (add_trace [x] (tio t)) t).
(** [Module::dispatch] *)
Definition p_dispatch (e : event) : protocol X unit := p_emit (Dispatch e).
(** [q->enqueue(e)] *)
Definition p_enqueue (e : event) : protocol X unit := p_emit (Enqueue e).
(** The pointer of a new object. *)
Definition p_new : protocol X nat := fun t =>
  Done (next_pointer (tio t), with_io {| next_pointer := S (next_pointer (tio t)); now := now (tio t); trace := trace (tio t) |} t).

Definition get_sock (s : nat) : protocol X socket := h ← pgets sockets; plift (deref (h !! s)).
Definition modify_sock (s : nat) (f : socket → socket) : protocol X unit :=
  sk ← get_sock s; update (fun t => with_collection (<[s := f sk]> (sockets t)) (socket_collection t) t).

(** What a handler did to the socket collection, in its order. *)
Fixpoint absorb (t : list effect) (h : Sockets.heap) (l : Sockets.collection) : outcome (Sockets.heap * Sockets.collection) :=
  match t with
  | [] => mret (h, l)
  | PushSocket s sk :: t => '(h, l) ← Sockets.push s (<[s := sk]> h) l; absorb t h l
  | NotifyObservers s sk :: t => '(h, l) ← Sockets.notify s (<[s := sk]> h) l; absorb t h l
  | _ :: t => absorb t h l
  end.

(** The socket after a handler: its value, observed if the collection observes it now. *)
Definition after_handler (h : Sockets.heap) (s : nat) (sk : socket) : socket :=
  match h !! s with Some old => if observed_ old then add_observer sk else sk | None => sk end.

(** Runs a context's handler for socket [s] on the context [y]. *)
Definition run_on {Y A} (s : nat) (y : Y) (h : handler Y A) : protocol X (A * Y) :=
  sk ← get_sock s;
  i ← pgets tio;
  '(a, w) ← plift (h {| ctx := y; sock := sk; io := i |});
  t ← pgets id;
  '(hp, l) ← plift (absorb (drop (length (trace i)) (trace (io w))) (sockets t) (socket_collection t));
  _ ← update (fun t => with_io (io w) (with_collection (<[s := after_handler hp s (sock w)]> hp) l t));
  mret (a, ctx w).

End Protocol.

(** Runs the operations of the monad on a given state. *)
Ltac run_p :=
  cbv beta iota zeta delta [mbind protocol_bind mret protocol_ret plift pgets update p_emit p_dispatch p_enqueue p_new
    get_sock modify_sock outcome_bind outcome_ret assert deref id negb];
  cbn [sockets_ own sockets socket_collection tio with_own with_sockets with_collection with_io next_pointer now trace].

Lemma protocol_bind_Done {X A B} (m : protocol X A) (f : A → protocol X B) t b t'' :
  (m ≫= f) t = Done (b, t'') → ∃ a t', m t = Done (a, t') ∧ f a t' = Done (b, t'').
Proof. cbv beta delta [mbind protocol_bind]. destruct (m t) as [[a t']|] eqn:E; [eauto | discriminate]. Qed.

Lemma get_sock_Done {X} s (t : world X) sk t' : get_sock s t = Done (sk, t') → sockets t !! s = Some sk ∧ t' = t.
Proof. run_p. destruct (sockets t !! s); [intros [= -> ->]; auto | discriminate]. Qed.

(** ** What [run_on] does *)

(** A handler that leaves the socket collection alone. *)
Definition plain (x : effect) : bool := match x with PushSocket _ _ | NotifyObservers _ _ => false | _ => true end.

Lemma absorb_plain t h l : Forall (fun x => plain x = true) t → absorb t h l = Done (h, l).
Proof. induction 1 as [|[] t]; cbn in *; [reflexivity | assumption.. | discriminate | discriminate]. Qed.

Lemma run_on_plain {X Y A} (s : nat) (y : Y) (h : handler Y A) (w : world X) sk a w' t :
  sockets w !! s = Some sk →
  h {| ctx := y; sock := sk; io := tio w |} = Done (a, w') → trace (io w') = (trace (tio w) ++ t)%list →
  Forall (fun x => plain x = true) t →
  run_on s y h w = Done ((a, ctx w'),
    with_io (io w') (with_collection (<[s := after_handler (sockets w) s (sock w')]> (sockets w)) (socket_collection w) w)).
Proof.
  intros Hs E Ht Hp. unfold run_on. run_p. rewrite Hs. rewrite E. rewrite Ht, drop_app_length.
  rewrite absorb_plain by assumption. reflexivity.
Qed.

(** A handler that does nothing. *)
Lemma run_on_ret {X Y} (s : nat) (y : Y) (w : world X) sk :
  sockets w !! s = Some sk → run_on s y (mret tt) w = Done ((tt, y), w).
Proof.
  intros Hs. rewrite (run_on_plain s y (mret tt) w sk tt {| ctx := y; sock := sk; io := tio w |} []);
    [| exact Hs | reflexivity | rewrite app_nil_r; reflexivity | constructor].
  cbn [sock io ctx]. unfold after_handler. rewrite Hs.
  replace (if observed_ sk then add_observer sk else sk) with sk
    by (destruct sk as [? ? ? ? ? ? ? ? ? ? ? ? []]; reflexivity).
  rewrite insert_id by assumption. destruct w. reflexivity.
Qed.

(** ** Operations that move the state along a preorder *)

Definition respects {X A} (R : relation (world X)) (m : protocol X A) : Prop :=
  ∀ t a t', m t = Done (a, t') → R t t'.

Section Respects.
Context {X : Type} (R : relation (world X)) `{!PreOrder R}.

Lemma respects_ret {A} (a : A) : respects R (mret a).
Proof. intros t a' t' [= _ <-]. reflexivity. Qed.

Lemma respects_bind {A B} (m : protocol X A) (f : A → protocol X B) :
  respects R m → (∀ a, respects R (f a)) → respects R (m ≫= f).
Proof.
  intros Hm Hf t b t'' E. cbv beta delta [mbind protocol_bind] in E. destruct (m t) as [[a t']|] eqn:E1; [| discriminate].
  transitivity t'; [eapply Hm, E1 | eapply Hf, E].
Qed.

Lemma respects_plift {A} (m : outcome A) : respects R (plift m).
Proof. intros t a t'. unfold plift. destruct m; cbn; [intros [= _ <-]; reflexivity | discriminate]. Qed.

Lemma respects_pgets {A} (f : world X → A) : respects R (pgets f).
Proof. intros t a t' [= _ <-]. reflexivity. Qed.

Lemma respects_update f : (∀ t, R t (f t)) → respects R (update f).
Proof. intros Hf t a t' [= _ <-]. apply Hf. Qed.

Lemma respects_if {A} (b : bool) (m m' : protocol X A) : respects R m → respects R m' → respects R (if b then m else m').
Proof. destruct b; auto. Qed.

Lemma respects_decide {A Q} (d : {Q} + {¬ Q}) (m m' : protocol X A) :
  respects R m → respects R m' → respects R (if d then m else m').
Proof. destruct d; auto. Qed.

End Respects.

Create HintDb respects.
#[export] Hint Resolve respects_ret respects_plift respects_pgets respects_if respects_decide : respects.

(** Goes through an operation step by step; a call of another operation is a lemma of the database. *)
Ltac respecting :=
  repeat first
    [ solve [eauto with respects typeclass_instances nocore]
    | lazymatch goal with
      | |- respects _ (_ ≫= _) => eapply respects_bind; [typeclasses eauto | | intros]
      | |- respects _ (match ?x with _ => _ end) => destruct x
      end ].

(** Neither the protocol's sockets nor its own data change. *)
Definition same_own {X} : relation (world X) := fun t t' => sockets_ t' = sockets_ t ∧ own t' = own t.

#[export] Instance same_own_preorder X : PreOrder (@same_own X).
Proof. split; [split; reflexivity |]. intros t t' t'' [] []. split; congruence. Qed.

Lemma same_own_update {X} (f : world X → world X) :
  (∀ t, sockets_ (f t) = sockets_ t ∧ own (f t) = own t) → respects same_own (update f).
Proof. intros Hf. apply respects_update, Hf. Qed.

#[export] Hint Extern 1 (respects same_own (update _)) => (apply same_own_update; intros; split; reflexivity) : respects.

Section SameOwn.
Context {X : Type}.
Lemma same_own_emit x : respects (@same_own X) (p_emit x).
Proof. unfold p_emit. respecting. Qed.
Lemma same_own_new : respects (@same_own X) p_new.
Proof. intros t a t' [= _ <-]. split; reflexivity. Qed.
Lemma same_own_get_sock s : respects (@same_own X) (get_sock s).
Proof. unfold get_sock. respecting. Qed.
#[local] Hint Resolve same_own_get_sock : respects.
Lemma same_own_modify_sock s f : respects (@same_own X) (modify_sock s f).
Proof. unfold modify_sock. respecting. Qed.
Lemma same_own_run_on {Y A} s (y : Y) (h : handler Y A) : respects (@same_own X) (run_on s y h).
Proof. unfold run_on. respecting. Qed.
End SameOwn.
#[export] Hint Resolve same_own_emit same_own_new same_own_get_sock same_own_modify_sock same_own_run_on : respects.
