(* ===== verification/Protocol.v ===== *)
(** * class Protocol (transport/src/protocol/Protocol.cc)

    The module's side of a protocol: each [imodule_] method filters the events of
    sockets that are not this protocol's, does what is common to all protocols and
    calls the implementation's [icontext_] method. The implementation is an
    instance of [ProtocolImpl]; [P] is its packet type. *)
From stdpp Require Import gmap.
From S2P Require Import Prelude Inet AddressPort Sockets Events ProtocolState.

Definition EINVAL : Z := 22.
Definition EADDRINUSE : Z := 98.

(** IContext, as a protocol implements it. *)
Class ProtocolImpl (X P : Type) := {
  protocol_ : Z;
  set_ip_protocol : Z → P → P;
  icontext_socket : nat → protocol X unit;
  icontext_bind : nat → protocol X unit;
  icontext_listen : nat → listen_event → protocol X unit;
  icontext_receive_packet : nat → nat * P → protocol X unit;
  icontext_send_packet : nat → P → protocol X unit;
  icontext_connect : connect_event → protocol X unit;
  icontext_accept : accept_event → protocol X unit;
  icontext_new_connection_established : nat → nat → protocol X unit;
  icontext_new_connection_initiated : nat → nat → option listen_event → protocol X unit;
  icontext_close : close_event → protocol X unit;
  icontext_timer_fired_event : nat → nat → protocol X unit;
  icontext_resend_packet : nat → resend_reason → protocol X unit;
  icontext_send : send_event → protocol X unit;
  icontext_receive : receive_event → protocol X unit;
  icontext_receive_buffer_not_empty : nat → protocol X unit;
  icontext_receive_buffer_not_full : nat → protocol X unit;
  icontext_send_buffer_not_empty : nat → protocol X unit;
  icontext_send_buffer_not_full : nat → protocol X unit;
  icontext_can_send : nat → protocol X bool;
  icontext_can_receive : nat → protocol X bool;
  icontext_delete_socket : nat → protocol X unit;
  icontext_set_socket_option : nat → Z → Z → protocol X unit;
  icontext_get_socket_option : nat → protocol X unit }.

(** What reaches a protocol's queue. A received packet has an address and a content. *)
Inductive module_event (P : Type) :=
| LibrarySocket (e : library_event)
| LibraryBind (e : library_event) (addr : sockaddr_in)
| LibraryListen (e : listen_event)
| LibraryConnect (e : connect_event)
| LibraryAccept (e : accept_event)
| LibraryReceive (e : receive_event)
| LibrarySend (e : send_event)
| LibraryClose (e : close_event)
| LibrarySetSocketOption (e : library_event) (level_name : Z * Z) (value_length : list Z * Z)
| LibraryGetSocketOption (e : library_event) (level_name : Z * Z)
| Send (s : nat) (p : P)
| NetworkReceive (s : nat) (r : nat * P)
| ConnectionEstablished (s new_socket : nat)
| ConnectionInitiated (s new_socket : nat) (listen : option listen_event)
| TimerFired (s timeout_event : nat)
| Resend (s : nat) (reason : resend_reason)
| SendBufferNotEmpty (s : nat)
| SendBufferNotFull (s : nat)
| ReceiveBufferNotEmpty (s : nat)
| ReceiveBufferNotFull (s : nat)
| DeleteSocket (s : nat).
Arguments LibrarySocket {P} _.
Arguments LibraryBind {P} _ _.
Arguments LibraryListen {P} _.
Arguments LibraryConnect {P} _.
Arguments LibraryAccept {P} _.
Arguments LibraryReceive {P} _.
Arguments LibrarySend {P} _.
Arguments LibraryClose {P} _.
Arguments LibrarySetSocketOption {P} _ _ _.
Arguments LibraryGetSocketOption {P} _ _.
Arguments Send {P} _ _.
Arguments NetworkReceive {P} _ _.
Arguments ConnectionEstablished {P} _ _.
Arguments ConnectionInitiated {P} _ _ _.
Arguments TimerFired {P} _ _.
Arguments Resend {P} _ _.
Arguments SendBufferNotEmpty {P} _.
Arguments SendBufferNotFull {P} _.
Arguments ReceiveBufferNotEmpty {P} _.
Arguments ReceiveBufferNotFull {P} _.
Arguments DeleteSocket {P} _.

Section Module_.
Context {X P : Type} `{ProtocolImpl X P}.

(** [if (!sockets_.contains(s)) return;] *)
Definition owned (s : nat) (m : protocol X unit) : protocol X unit :=
  mine ← pgets sockets_; if decide (s ∈ mine) then m else mret tt.

(** Reads the socket collection. *)
Definition ask {A} (visitor : Sockets.heap → Sockets.collection → outcome A) : protocol X A :=
  t ← pgets id; plift (visitor (sockets t) (socket_collection t)).

Definition answer (e : library_event) (return_value errno : Z) : protocol X unit :=
  p_dispatch (ResponseEvent (default_response (le_socket e) e return_value errno)).

Definition imodule_library_socket (e : library_event) : protocol X unit :=
  let s := le_socket e in
  sk ← get_sock s;
  if negb (get_protocol sk =? protocol_) then mret tt else
  _ ← update (fun t => with_sockets ({[s]} ∪ sockets_ t) t);
  _ ← icontext_socket s;
  sk ← get_sock s;
  answer e (i32 (get_socket_id sk)) 0.

Definition imodule_library_bind (e : library_event) (addr : sockaddr_in) : protocol X unit :=
  let s := le_socket e in
  owned s
    (let local := AddressPort_of_sockaddr addr in
     bound ← ask (is_bound local);
     if negb bound then
       t ← pgets id;
       '(h, c) ← plift (set_local_address_port local s (sockets t) (socket_collection t));
       _ ← update (with_collection h c);
       _ ← icontext_bind s;
       answer e 0 0
     else answer e (-1) EINVAL).

Definition imodule_library_listen (e : listen_event) : protocol X unit :=
  let s := le_socket (lse_event e) in
  owned s
    (sk ← get_sock s;
     local ← plift (get_local_address_port sk);
     listening ← ask (is_listening (get_port local));
     '(error, return_val) ← (if (listening : bool) then mret (EADDRINUSE, -1)
                             else _ ← icontext_listen s e; mret (0, 0));
     _ ← modify_sock s make_passive;
     answer (lse_event e) return_val error).

Definition imodule_library_connect (e : connect_event) : protocol X unit := owned (le_socket (ce_event e)) (icontext_connect e).
Definition imodule_library_accept (e : accept_event) : protocol X unit := owned (le_socket e) (icontext_accept e).

Definition imodule_library_receive (e : receive_event) : protocol X unit :=
  let s := le_socket (re_event e) in
  owned s (can ← icontext_can_receive s; if (can : bool) then icontext_receive e else mret tt).

Definition imodule_library_send (e : send_event) : protocol X unit :=
  let s := le_socket (se_event e) in
  owned s (can ← icontext_can_send s; if (can : bool) then icontext_send e else mret tt).

Definition imodule_library_close (e : close_event) : protocol X unit := owned (le_socket e) (icontext_close e).

Definition imodule_send (s : nat) (p : P) : protocol X unit :=
  owned s (icontext_send_packet s (set_ip_protocol protocol_ p)).

Definition imodule_network_receive (s : nat) (r : nat * P) : protocol X unit := owned s (icontext_receive_packet s r).

Definition imodule_connection_established (s new_socket : nat) : protocol X unit :=
  sk ← get_sock s;
  if negb (get_protocol sk =? protocol_) then mret tt else icontext_new_connection_established s new_socket.

Definition imodule_connection_initiated (s new_socket : nat) (e : option listen_event) : protocol X unit :=
  sk ← get_sock new_socket;
  if negb (get_protocol sk =? protocol_) then mret tt else
  _ ← update (fun t => with_sockets ({[new_socket]} ∪ sockets_ t) t);
  icontext_new_connection_initiated s new_socket e.

Definition imodule_timer_fired (s timeout_event : nat) : protocol X unit := owned s (icontext_timer_fired_event s timeout_event).
Definition imodule_resend (s : nat) (reason : resend_reason) : protocol X unit := owned s (icontext_resend_packet s reason).
Definition imodule_send_buffer_not_empty (s : nat) : protocol X unit := owned s (icontext_send_buffer_not_empty s).
Definition imodule_send_buffer_not_full (s : nat) : protocol X unit := owned s (icontext_send_buffer_not_full s).
Definition imodule_receive_buffer_not_empty (s : nat) : protocol X unit := owned s (icontext_receive_buffer_not_empty s).
Definition imodule_receive_buffer_not_full (s : nat) : protocol X unit := owned s (icontext_receive_buffer_not_full s).

Definition imodule_delete_socket (s : nat) : protocol X unit :=
  owned s
    (_ ← icontext_delete_socket s;
     _ ← update (fun t => with_sockets (sockets_ t ∖ {[s]}) t);
     sk ← get_sock s;
     found ← ask (get_by_id (i32 (get_socket_id sk)));
     _ ← plift (assert (bool_decide (found = Some s)));
     t ← pgets id;
     c ← plift (Sockets.remove s (sockets t) (socket_collection t));
     _ ← update (fun t => with_collection (sockets t) c t);
     found ← ask (get_by_id (i32 (get_socket_id sk)));
     plift (assert (bool_decide (found = None)))).

Definition imodule_library_set_socket_option (e : library_event) (level_name : Z * Z) (value_length : list Z * Z) : protocol X unit :=
  let s := le_socket e in
  owned s
    (_ ← modify_sock s (fun sk => with_options (options_insert level_name value_length (get_socket_options sk)) sk);
     _ ← icontext_set_socket_option s (fst level_name) (snd level_name);
     answer e 0 0).

Definition imodule_library_get_socket_option (e : library_event) (level_name : Z * Z) : protocol X unit :=
  let s := le_socket e in
  owned s
    (sk ← get_sock s;
     let '(value, len) := options_get level_name (get_socket_options sk) in
     _ ← p_dispatch (ResponseEvent {| res_socket := s; res_message_type := le_message_type e; res_fd := le_fd e;
           res_return_value := 0; res_errno := 0; res_length := sizeof_GetSockOptResponseMessage + len;
           res_destination := le_source e; res_addr := None; res_buffer := value |});
     icontext_get_socket_option s).

(** [Event::execute] *)
Definition execute (e : module_event P) : protocol X unit :=
  match e with
  | LibrarySocket e => imodule_library_socket e
  | LibraryBind e addr => imodule_library_bind e addr
  | LibraryListen e => imodule_library_listen e
  | LibraryConnect e => imodule_library_connect e
  | LibraryAccept e => imodule_library_accept e
  | LibraryReceive e => imodule_library_receive e
  | LibrarySend e => imodule_library_send e
  | LibraryClose e => imodule_library_close e
  | LibrarySetSocketOption e level_name value_length => imodule_library_set_socket_option e level_name value_length
  | LibraryGetSocketOption e level_name => imodule_library_get_socket_option e level_name
  | Send s p => imodule_send s p
  | NetworkReceive s r => imodule_network_receive s r
  | ConnectionEstablished s new_socket => imodule_connection_established s new_socket
  | ConnectionInitiated s new_socket listen => imodule_connection_initiated s new_socket listen
  | TimerFired s timeout_event => imodule_timer_fired s timeout_event
  | Resend s reason => imodule_resend s reason
  | SendBufferNotEmpty s => imodule_send_buffer_not_empty s
  | SendBufferNotFull s => imodule_send_buffer_not_full s
  | ReceiveBufferNotEmpty s => imodule_receive_buffer_not_empty s
  | ReceiveBufferNotFull s => imodule_receive_buffer_not_full s
  | DeleteSocket s => imodule_delete_socket s
  end.

(** [should_enqueue] *)
Definition should_enqueue (s : nat) : protocol X bool := sk ← get_sock s; mret (get_protocol sk =? protocol_).

End Module_.

(** ** What an implementation promises *)

Section Laws.
Context {X P : Type} `{ProtocolImpl X P} (ready : X → nat → Prop).

(** No socket loses the implementation's data, and the protocol's sockets stay. *)
Definition grows : relation (world X) :=
  fun t t' => sockets_ t' = sockets_ t ∧ ∀ s, ready (own t) s → ready (own t') s.

#[export] Instance grows_preorder : PreOrder grows.
Proof. split; [split; auto |]. intros t t' t'' [E1 H1] [E2 H2]. split; [congruence | auto]. Qed.

(** The operations that neither create nor delete a socket. *)
Inductive keeping : ∀ A, protocol X A → Prop :=
| k_bind s : keeping unit (icontext_bind s)
| k_listen s e : keeping unit (icontext_listen s e)
| k_receive_packet s r : keeping unit (icontext_receive_packet s r)
| k_send_packet s p : keeping unit (icontext_send_packet s p)
| k_connect e : keeping unit (icontext_connect e)
| k_accept e : keeping unit (icontext_accept e)
| k_established s n : keeping unit (icontext_new_connection_established s n)
| k_close e : keeping unit (icontext_close e)
| k_timer s e : keeping unit (icontext_timer_fired_event s e)
| k_resend s r : keeping unit (icontext_resend_packet s r)
| k_send e : keeping unit (icontext_send e)
| k_receive e : keeping unit (icontext_receive e)
| k_receive_not_empty s : keeping unit (icontext_receive_buffer_not_empty s)
| k_receive_not_full s : keeping unit (icontext_receive_buffer_not_full s)
| k_send_not_empty s : keeping unit (icontext_send_buffer_not_empty s)
| k_send_not_full s : keeping unit (icontext_send_buffer_not_full s)
| k_can_send s : keeping bool (icontext_can_send s)
| k_can_receive s : keeping bool (icontext_can_receive s)
| k_set_option s l n : keeping unit (icontext_set_socket_option s l n)
| k_get_option s : keeping unit (icontext_get_socket_option s).
End Laws.
#[export] Hint Constructors keeping : respects.

(** [ready o s]: the implementation has the data an event of [s] needs; [opens_connections]:
    it makes new sockets out of listening ones. *)
Class ProtocolLaws (X P : Type) `{ProtocolImpl X P} := {
  ready : X → nat → Prop;
  opens_connections : bool;
  law_keeping : ∀ A (m : protocol X A), keeping A m → respects (grows ready) m;
  law_socket : ∀ s, respects (fun t t' => grows ready t t' ∧ ready (own t') s) (icontext_socket s);
  law_initiated : ∀ s n e, opens_connections = true →
    respects (fun t t' => grows ready t t' ∧ ready (own t') n) (icontext_new_connection_initiated s n e);
  law_delete : ∀ s, respects (fun t t' => sockets_ t' = sockets_ t ∧ ∀ x, x ≠ s → ready (own t) x → ready (own t') x)
    (icontext_delete_socket s) }.

Section Filters.
Context {X P : Type} `{ProtocolLaws X P}.

Definition of_protocol (s : nat) (t : world X) : bool :=
  match sockets t !! s with Some sk => get_protocol sk =? protocol_ | None => false end.

(** The protocol's sockets after an event. *)
Definition members (e : module_event P) (t : world X) : gset nat :=
  match e with
  | LibrarySocket e => if of_protocol (le_socket e) t then {[le_socket e]} ∪ sockets_ t else sockets_ t
  | ConnectionInitiated _ n _ => if of_protocol n t then {[n]} ∪ sockets_ t else sockets_ t
  | DeleteSocket s => sockets_ t ∖ {[s]}
  | _ => sockets_ t
  end.

(** The socket whose membership decides whether the event is handled. *)
Definition guarded (e : module_event P) : option nat :=
  match e with
  | LibrarySocket _ | ConnectionEstablished _ _ | ConnectionInitiated _ _ _ => None
  | LibraryBind e _ | LibraryAccept e | LibraryClose e | LibrarySetSocketOption e _ _ | LibraryGetSocketOption e _ => Some (le_socket e)
  | LibraryListen e => Some (le_socket (lse_event e))
  | LibraryConnect e => Some (le_socket (ce_event e))
  | LibraryReceive e => Some (le_socket (re_event e))
  | LibrarySend e => Some (le_socket (se_event e))
  | Send s _ | NetworkReceive s _ | TimerFired s _ | Resend s _ | SendBufferNotEmpty s | SendBufferNotFull s
  | ReceiveBufferNotEmpty s | ReceiveBufferNotFull s | DeleteSocket s => Some s
  end.

(** The event is not this protocol's: its socket is not in the set, or, where the module does
    not ask the set (a new socket, a connection made or begun), it is a socket of another
    protocol. *)
Definition of_other_protocol (s : nat) (t : world X) : bool :=
  match sockets t !! s with Some sk => negb (get_protocol sk =? protocol_) | None => false end.
Definition foreign (e : module_event P) (t : world X) : bool :=
  match e with
  | LibrarySocket e => of_other_protocol (le_socket e) t
  | ConnectionEstablished s _ => of_other_protocol s t
  | ConnectionInitiated _ n _ => of_other_protocol n t
  | _ => match guarded e with Some s => bool_decide (s ∉ sockets_ t) | None => false end
  end.

Definition supported (e : module_event P) : bool :=
  match e with ConnectionInitiated _ _ _ => opens_connections | _ => true end.

Definition all_ready (t : world X) : Prop := ∀ s, s ∈ sockets_ t → ready (own t) s.

Lemma same_own_grows {A} (m : protocol X A) : respects same_own m → respects (grows ready) m.
Proof. intros Hm t a t' E. destruct (Hm t a t' E) as [Es Eo]. split; [exact Es |]. rewrite Eo. auto. Qed.

Lemma grows_emit x : respects (grows ready) (p_emit x).
Proof. apply same_own_grows. auto with respects. Qed.
Lemma grows_get_sock s : respects (grows ready) (get_sock s).
Proof. apply same_own_grows. auto with respects. Qed.
Lemma grows_modify_sock s f : respects (grows ready) (modify_sock s f).
Proof. apply same_own_grows. auto with respects. Qed.
Lemma grows_collection f g : respects (grows ready) (update (fun t : world X => with_collection (f t) (g t) t)).
Proof. apply respects_update. intros. split; auto. Qed.
Lemma grows_ask {A} (v : Sockets.heap → Sockets.collection → outcome A) : respects (grows ready) (ask v).
Proof. unfold ask. respecting. Qed.
#[local] Hint Resolve grows_emit grows_get_sock grows_modify_sock grows_collection grows_ask law_keeping : respects.
Lemma grows_answer e v n : respects (grows ready) (answer e v n).
Proof. unfold answer, p_dispatch. respecting. Qed.
Lemma grows_owned s m : respects (grows ready) m → respects (grows ready) (owned s m).
Proof. intros. unfold owned. respecting. Qed.
#[local] Hint Resolve grows_answer grows_owned : respects.

(** Every event but the three that create or delete a socket. *)
Lemma execute_grows e :
  match e with LibrarySocket _ | ConnectionInitiated _ _ _ | DeleteSocket _ => False | _ => True end →
  respects (grows ready) (execute e).
Proof.
  destruct e; intros []; cbn [execute].
  all: unfold imodule_library_bind, imodule_library_listen, imodule_library_connect, imodule_library_accept, imodule_library_receive,
    imodule_library_send, imodule_library_close, imodule_library_set_socket_option, imodule_library_get_socket_option, imodule_send,
    imodule_network_receive, imodule_connection_established, imodule_timer_fired, imodule_resend, imodule_send_buffer_not_empty,
    imodule_send_buffer_not_full, imodule_receive_buffer_not_empty, imodule_receive_buffer_not_full; cbv zeta.
  all: try apply grows_owned. all: respecting.
Qed.

Lemma all_ready_grows t t' : all_ready t → grows ready t t' → all_ready t'.
Proof. intros Hr [Es Hg] s Hs. apply Hg, Hr. rewrite <- Es. exact Hs. Qed.

Lemma socket_members e t t' :
  all_ready t → imodule_library_socket e t = Done (tt, t') → all_ready t' ∧ sockets_ t' = members (LibrarySocket e) t.
Proof.
  intros Hr E. apply protocol_bind_Done in E as (sk & t0 & E0 & E). apply get_sock_Done in E0 as [Hs ->].
  cbn [members]. unfold of_protocol. rewrite Hs. destruct (get_protocol sk =? protocol_); cbn [negb] in E; [| injection E as <-; auto].
  apply protocol_bind_Done in E as (u & t1 & [= _ <-] & E).
  apply protocol_bind_Done in E as (u' & t2 & E1 & E). destruct (law_socket _ _ _ _ E1) as [[Es Hg] Hn]. cbn [sockets_ own with_sockets] in Es, Hg.
  assert (grows ready t2 t') as [Es' Hg'].
  { assert (respects (grows ready) (sk ← get_sock (le_socket e); answer e (i32 (get_socket_id sk)) 0)) as R by respecting.
    eapply R. exact E. }
  split; [| congruence]. intros s Hin. apply Hg'. rewrite Es', Es in Hin. apply elem_of_union in Hin as [->%elem_of_singleton | Hin]; auto.
Qed.

Lemma initiated_members s n l t t' :
  opens_connections = true → all_ready t → imodule_connection_initiated s n l t = Done (tt, t') →
  all_ready t' ∧ sockets_ t' = members (ConnectionInitiated s n l) t.
Proof.
  intros Ho Hr E. apply protocol_bind_Done in E as (sk & t0 & E0 & E). apply get_sock_Done in E0 as [Hs ->].
  cbn [members]. unfold of_protocol. rewrite Hs. destruct (get_protocol sk =? protocol_); cbn [negb] in E; [| injection E as <-; auto].
  apply protocol_bind_Done in E as (u & t1 & [= _ <-] & E).
  destruct (law_initiated s n l Ho _ _ _ E) as [[Es Hg] Hn]. cbn [sockets_ own with_sockets] in Es, Hg.
  split; [| congruence]. intros x Hin. rewrite Es in Hin. apply elem_of_union in Hin as [->%elem_of_singleton | Hin]; auto.
Qed.

Lemma delete_members s t t' :
  all_ready t → imodule_delete_socket s t = Done (tt, t') → all_ready t' ∧ sockets_ t' = members (DeleteSocket s) t.
Proof.
  intros Hr E. cbn [members]. unfold imodule_delete_socket, owned in E. apply protocol_bind_Done in E as (u & t0 & [= <- <-] & E). cbv beta in E.
  destruct (decide (s ∈ sockets_ t)) as [Hin | Hout]; [| unfold mret, protocol_ret in E; injection E as <-; split; [exact Hr | set_solver]].
  apply protocol_bind_Done in E as (u & t1 & E1 & E). destruct (law_delete _ _ _ _ E1) as [Es Hg].
  apply protocol_bind_Done in E as (u' & t2 & [= _ <-] & E).
  match type of E with ?m _ = _ => assert (respects (grows ready) m) as R end.
  { respecting. }
  apply R in E as [Es' Hg']. cbn [sockets_ own with_sockets] in Es', Hg'. rewrite Es' , Es. split; [| reflexivity].
  intros x Hx. rewrite Es', Es in Hx. apply elem_of_difference in Hx as [Hx Hne]. rewrite not_elem_of_singleton in Hne. auto.
Qed.

(** C14: the filters of the module. An event that is not this protocol's does nothing: one for
    a socket outside its set; a socket call, a connection begun or made, which look at the
    socket's protocol instead, when that is another one. Every other event that returns leaves
    the set of the protocol's sockets as the event says (a socket call or a new connection of
    this protocol adds one, a deletion removes one, nothing else changes it), and the
    implementation still has the data of every socket in the set, which all of its operations
    read without a test. *)
Theorem imodule_filters e t :
  (foreign e t = true → execute e t = Done (tt, t)) ∧
  (∀ t', supported e = true → all_ready t → execute e t = Done (tt, t') → all_ready t' ∧ sockets_ t' = members e t).
Proof.
  split.
  - assert (∀ s m, bool_decide (s ∉ sockets_ t) = true → owned s m t = Done (tt, t)) as N
      by (intros s m Hs%bool_decide_eq_true; unfold owned; run_p; rewrite decide_False by assumption; reflexivity).
    assert (∀ s (m : protocol X unit), of_other_protocol s t = true →
      (sk ← get_sock s; if negb (get_protocol sk =? protocol_) then mret tt else m) t = Done (tt, t)) as M.
    { intros s m Hs. unfold of_other_protocol in Hs. run_p. destruct (sockets t !! s); [| discriminate]. run_p. apply negb_true_iff in Hs. rewrite Hs. reflexivity. }
    intros Hf. destruct e; cbn [foreign guarded] in Hf; first [apply N, Hf | apply M, Hf].
  - intros t' Hsup Hr E. destruct e; cbn [execute supported] in *.
    all: try (apply initiated_members || apply socket_members || apply delete_members; assumption).
    all: match goal with |- _ ∧ _ = members ?e _ => pose proof (execute_grows e I) as R end.
    all: cbn [execute members] in *; apply R in E; (split; [eapply all_ready_grows, E; exact Hr | apply E]).
Qed.

End Filters.
