(* ===== verification/Tahoe.v ===== *)
(** * class TCPTahoe (transport/src/protocol/TCPTahoe.cc)

    The protocol object: a map from sockets to containers of three contexts
    (reliability, connection manager, congestion control), and for every event the
    calls it makes on them, in its order, with the events it saves for later. The
    reliability context is any implementation of [ReliabilityState]:
    TCPTahoe's own or the delayed-acknowledgement one (TCPTahoe_DelayedACKs.cc).

    Containers and back logs are heap objects, since the code shares them: a new
    connection takes over the listening socket's container, and the listening
    socket gets a new one that shares its back log. Calls on contexts whose states
    all have State's empty handler are left out. *)
From stdpp Require Import gmap strings.
From S2P Require Import Prelude SeqMath Double HeaderMem Inet AddressPort Sockets IPPacket TCPOptions WiFuPacket TCPPacket PacketBuffer.
From S2P Require Import Events Outstanding Congestion Reliability Stamps DelayedAck ConnManager BackLog ProtocolState.

(** ** What the protocol asks of a reliability context

    No class overrides [state_send_packet]. *)

Class ReliabilityState (C : Type) := {
  rs_base :: Reliability C;
  rs_new : Z → Z → outcome C;
  rs_receive_packet : nat → packet_ref → handler C unit;
  rs_timer_fired : nat → nat → handler C unit;
  rs_receive : receive_event → handler C unit;
  rs_receive_buffer_not_empty : handler C unit;
  rs_set_socket_option : Z → Z → handler C unit }.

#[export] Instance tahoe_reliability : ReliabilityState rc_context := {|
  rs_new := new_TCPTahoeReliabilityContext;
  rs_receive_packet := Reliability.state_receive_packet base_create_and_dispatch_ack (base_handle_data base_create_and_dispatch_ack);
  rs_timer_fired := Reliability.state_timer_fired;
  rs_receive := Reliability.state_receive base_create_and_dispatch_ack;
  rs_receive_buffer_not_empty := Reliability.state_receive_buffer_not_empty base_create_and_dispatch_ack;
  rs_set_socket_option := fun _ _ => mret tt |}.

#[export] Instance delayed_ack_reliability : ReliabilityState delayed_context := {|
  rs_new := new_TCPDelayedACKReliabilityContext;
  rs_receive_packet := DelayedAck.state_receive_packet;
  rs_timer_fired := DelayedAck.state_timer_fired;
  rs_receive := Reliability.state_receive create_and_dispatch_ack;
  rs_receive_buffer_not_empty := Reliability.state_receive_buffer_not_empty create_and_dispatch_ack;
  rs_set_socket_option := DelayedAck.state_set_socket_option |}.

(** ** State *)

(** TCPTahoeIContextContainer. [back_log_] points into the heap of back logs. *)
Record container (C : Type) := {
  reliability_ : C;
  connection_manager_ : cm_context;
  congestion_control_ : cc_context;
  saved_send_event_ : option send_event;
  saved_close_event_ : option close_event;
  fin_ : option (nat * packet_ref);
  saved_accept_event_ : option accept_event;
  back_log_ : option nat }.
Arguments reliability_ {C} _.
Arguments connection_manager_ {C} _.
Arguments congestion_control_ {C} _.
Arguments saved_send_event_ {C} _.
Arguments saved_close_event_ {C} _.
Arguments fin_ {C} _.
Arguments saved_accept_event_ {C} _.
Arguments back_log_ {C} _.

(** The protocol's own data: [map_] holds container pointers; the other two maps are the heaps. *)
Record tahoe (C : Type) := {
  map_ : gmap nat nat;
  containers : gmap nat (container C);
  back_logs : gmap nat back_log }.
Arguments map_ {C} _.
Arguments containers {C} _.
Arguments back_logs {C} _.

Section Setters.
Context {C : Type}.

Definition set_reliability (r : C) (c : container C) : container C :=
  {| reliability_ := r; connection_manager_ := connection_manager_ c; congestion_control_ := congestion_control_ c;
     saved_send_event_ := saved_send_event_ c; saved_close_event_ := saved_close_event_ c; fin_ := fin_ c;
     saved_accept_event_ := saved_accept_event_ c; back_log_ := back_log_ c |}.
Definition set_connection_manager (m : cm_context) (c : container C) : container C :=
  {| reliability_ := reliability_ c; connection_manager_ := m; congestion_control_ := congestion_control_ c;
     saved_send_event_ := saved_send_event_ c; saved_close_event_ := saved_close_event_ c; fin_ := fin_ c;
     saved_accept_event_ := saved_accept_event_ c; back_log_ := back_log_ c |}.
Definition set_congestion_control (g : cc_context) (c : container C) : container C :=
  {| reliability_ := reliability_ c; connection_manager_ := connection_manager_ c; congestion_control_ := g;
     saved_send_event_ := saved_send_event_ c; saved_close_event_ := saved_close_event_ c; fin_ := fin_ c;
     saved_accept_event_ := saved_accept_event_ c; back_log_ := back_log_ c |}.
Definition set_saved_send_event (e : option send_event) (c : container C) : container C :=
  {| reliability_ := reliability_ c; connection_manager_ := connection_manager_ c; congestion_control_ := congestion_control_ c;
     saved_send_event_ := e; saved_close_event_ := saved_close_event_ c; fin_ := fin_ c;
     saved_accept_event_ := saved_accept_event_ c; back_log_ := back_log_ c |}.
(** The event is copied, or null. *)
Definition set_saved_close_event (e : option close_event) (c : container C) : container C :=
  {| reliability_ := reliability_ c; connection_manager_ := connection_manager_ c; congestion_control_ := congestion_control_ c;
     saved_send_event_ := saved_send_event_ c; saved_close_event_ := e; fin_ := fin_ c;
     saved_accept_event_ := saved_accept_event_ c; back_log_ := back_log_ c |}.
Definition set_saved_fin (e : option (nat * packet_ref)) (c : container C) : container C :=
  {| reliability_ := reliability_ c; connection_manager_ := connection_manager_ c; congestion_control_ := congestion_control_ c;
     saved_send_event_ := saved_send_event_ c; saved_close_event_ := saved_close_event_ c; fin_ := e;
     saved_accept_event_ := saved_accept_event_ c; back_log_ := back_log_ c |}.
Definition set_saved_accept_event (e : option accept_event) (c : container C) : container C :=
  {| reliability_ := reliability_ c; connection_manager_ := connection_manager_ c; congestion_control_ := congestion_control_ c;
     saved_send_event_ := saved_send_event_ c; saved_close_event_ := saved_close_event_ c; fin_ := fin_ c;
     saved_accept_event_ := e; back_log_ := back_log_ c |}.
Definition set_back_log (b : option nat) (c : container C) : container C :=
  {| reliability_ := reliability_ c; connection_manager_ := connection_manager_ c; congestion_control_ := congestion_control_ c;
     saved_send_event_ := saved_send_event_ c; saved_close_event_ := saved_close_event_ c; fin_ := fin_ c;
     saved_accept_event_ := saved_accept_event_ c; back_log_ := b |}.
End Setters.

(** ** Reading and writing containers *)

Section Protocol.
Context {C : Type}.
Abbreviation protocol := (protocol (tahoe C)).

Definition with_map (f : gmap nat nat → gmap nat nat) (t : tahoe C) : tahoe C :=
  {| map_ := f (map_ t); containers := containers t; back_logs := back_logs t |}.
Definition with_containers (f : gmap nat (container C) → gmap nat (container C)) (t : tahoe C) : tahoe C :=
  {| map_ := map_ t; containers := f (containers t); back_logs := back_logs t |}.
Definition with_back_logs (f : gmap nat back_log → gmap nat back_log) (t : tahoe C) : tahoe C :=
  {| map_ := map_ t; containers := containers t; back_logs := f (back_logs t) |}.
Definition modify_own (f : tahoe C → tahoe C) : protocol unit := update (fun t => with_own (f (own t)) t).

(** [map_.find(s)->second]: reading the end iterator is undefined. *)
Definition find_container (s : nat) : protocol nat :=
  t ← pgets own; plift (match map_ t !! s with Some c => Done c | None => Fault OutOfBounds end).
Definition get_container (p : nat) : protocol (container C) := t ← pgets own; plift (deref (containers t !! p)).
Definition modify_container (p : nat) (f : container C → container C) : protocol unit :=
  c ← get_container p; modify_own (with_containers (<[p := f c]>)).

(** A call of a handler on one of the contexts of container [p], for socket [s]. *)
Definition call {Y A} (get : container C → Y) (set : Y → container C → container C) (p s : nat) (h : handler Y A) : protocol A :=
  c ← get_container p;
  '(a, y) ← run_on s (get c) h;
  _ ← modify_container p (set y);
  mret a.

Definition on_reliability {A} : nat → nat → handler C A → protocol A := call reliability_ set_reliability.
Definition on_connection_manager {A} : nat → nat → handler cm_context A → protocol A :=
  call connection_manager_ set_connection_manager.
Definition on_congestion_control {A} : nat → nat → handler cc_context A → protocol A :=
  call congestion_control_ set_congestion_control.

(** ** The operations *)

Section Operations.
Context `{ReliabilityState C}.

(** What the memory of a new container held before: the constructors leave some fields
    uninitialised. *)
Record uninitialised := { u_echo_reply : Z; u_connection_manager : cm_context; u_back_log : option nat }.

(** TCPTahoeIContextContainer's constructor, and TCPDelayedACKIContextContainer's. *)
Definition new_container (memory : uninitialised) : outcome (container C) :=
  let iss := 1 in
  cc ← new_TCPTahoeCongestionControlContext iss;
  r ← rs_new (u_echo_reply memory) iss;
  mret {| reliability_ := r; connection_manager_ := new_ConnectionManagerContext (u_connection_manager memory);
          congestion_control_ := cc; saved_send_event_ := None; saved_close_event_ := None; fin_ := None;
          saved_accept_event_ := None; back_log_ := u_back_log memory |}.

(** [factory_->get_icontext_container()] *)
Definition get_icontext_container (memory : uninitialised) : protocol nat :=
  c ← plift (new_container memory);
  p ← p_new;
  _ ← modify_own (with_containers (<[p := c]>));
  mret p.

Definition icontext_socket (memory : uninitialised) (s : nat) : protocol unit :=
  p ← get_icontext_container memory;
  modify_own (with_map (<[s := p]>)).

Definition icontext_bind (s : nat) : protocol unit := _ ← find_container s; mret tt.

Definition icontext_listen (s : nat) (e : listen_event) : protocol unit :=
  c ← find_container s;
  b ← p_new;
  _ ← modify_own (with_back_logs (<[b := new_BackLog (lse_back_log e)]>));
  _ ← modify_container c (set_back_log (Some b));
  on_connection_manager c s (ConnManager.icontext_listen s e).

(** *** Receiving *)

Definition is_valid_sequence_number (rc : rc_context) (p : tcp_packet) : bool :=
  let nxt := rcv_nxt_ rc in
  let wnd := rcv_wnd_ rc in
  let len := get_data_length_bytes p in
  if nxt =? 0 then true
  else if (0 <? len) && (0 <? wnd) then
    between_equal_left nxt (get_tcp_sequence_number p) (u32 (nxt + wnd))
    || between_equal_left nxt (u32 (get_tcp_sequence_number p + len - 1)) (u32 (nxt + wnd))
  else if (0 <? len) && (wnd =? 0) then false
  else if (len =? 0) && (0 <? wnd) then between_equal_left nxt (get_tcp_sequence_number p) (u32 (nxt + wnd))
  else if (len =? 0) && (wnd =? 0) then get_tcp_sequence_number p =? nxt
  else false.

Definition is_valid_ack_number (rc : rc_context) (p : tcp_packet) : bool :=
  between_equal (Reliability.get_snd_una rc) (get_tcp_ack_number p) (Reliability.get_snd_max rc).

Definition is_duplicate_ack (rc : rc_context) (p : tcp_packet) : bool :=
  if is_tcp_ack p && (duplicate_ack_number_ rc =? get_tcp_ack_number p)
     && between_equal_left (get_tcp_ack_number p) (Reliability.get_snd_una rc) (Reliability.get_snd_nxt rc)
  then 3 <=? i32 (duplicates_ rc + 1) else false.

(** [states_we_can_send_ack_] *)
Definition can_send_ack (st : cm_state) : bool :=
  match st with
  | Established | FinWait1 | FinWait2 | CloseWait | Closing | LastAck | TimeWait _ => true
  | Closed | Listen | SynSent | SynReceived => false
  end.

Definition dispatch_ack (s : nat) : protocol unit :=
  sk ← get_sock s;
  source ← plift (get_local_address_port sk);
  response ← plift (addressed_packet (get_remote_address_port sk) source);
  response ← plift (set_data [] response);
  p_enqueue (SendPacketEvent s response).

(** A close that waited until the send buffer was empty. *)
Definition finish_saved_close (c s : nat) : protocol unit :=
  container ← get_container c;
  sk ← get_sock s;
  match saved_close_event_ container, saved_send_event_ container with
  | Some e, None =>
      if Nat.eqb (length (get_send_buffer sk)) 0 then
        _ ← on_connection_manager c (le_socket e) (ConnManager.icontext_close (le_socket e));
        modify_container c (set_saved_close_event None)
      else mret tt
  | _, _ => mret tt
  end.

Definition icontext_receive_packet (s : nat) (r : packet_ref) : protocol unit :=
  c ← find_container s;
  container ← get_container c;
  '(valid, p) ← plift (is_valid_tcp_checksum (pkt r));
  let r := {| address := address r; pkt := p |} in
  let rc := rc (reliability_ container) in
  let state := current_ (connection_manager_ container) in
  if negb valid then mret tt
  else if is_tcp_ack p && negb (is_valid_ack_number rc p) then on_reliability c s (rs_receive_packet s r)
  else if negb (is_valid_sequence_number rc p) then
    match state with
    | TimeWait _ => on_connection_manager c s (ConnManager.icontext_receive_packet s p)
    | _ => if can_send_ack state then dispatch_ack s else mret tt
    end
  else if is_tcp_fin p && (rcv_wnd_ rc <? MAX_TCP_RECEIVE_WINDOW_SIZE) then modify_container c (set_saved_fin (Some (s, r)))
  else
    let dup_ack := is_duplicate_ack rc p in
    _ ← on_reliability c s (rs_receive_packet s r);
    _ ← on_connection_manager c s (ConnManager.icontext_receive_packet s p);
    _ ← (if negb dup_ack then on_congestion_control c s (Congestion.state_receive_packet s p) else mret tt);
    finish_saved_close c s.

Definition icontext_receive (e : receive_event) : protocol unit :=
  c ← find_container (le_socket (re_event e));
  on_reliability c (le_socket (re_event e)) (rs_receive e).

Definition icontext_receive_buffer_not_empty (s : nat) : protocol unit :=
  c ← find_container s;
  on_reliability c s rs_receive_buffer_not_empty.

(** The saved FIN is dispatched and kept. *)
Definition icontext_receive_buffer_not_full (s : nat) : protocol unit :=
  c ← find_container s;
  container ← get_container c;
  match fin_ container with
  | Some (s', r) =>
      if rcv_wnd_ (rc (reliability_ container)) =? MAX_TCP_RECEIVE_WINDOW_SIZE
      then p_dispatch (NetworkReceivePacketEvent s' r) else mret tt
  | None => mret tt
  end.

(** *** Sending *)

Definition send_network_packet (s : nat) (p : tcp_packet) : protocol unit := p_dispatch (NetworkSendPacketEvent s p).

Definition icontext_send_packet (s : nat) (p : tcp_packet) : protocol unit :=
  c ← find_container s;
  p ← on_reliability c s (Reliability.state_send_packet s p);
  _ ← on_congestion_control c s (Congestion.state_send_packet p);
  p ← plift (pack p);
  p ← plift (calculate_and_set_tcp_checksum p);
  send_network_packet s p.

Definition get_available_room_in_send_buffer (e : send_event) : protocol Z :=
  sk ← get_sock (le_socket (se_event e));
  let available := i32 (TCP_SOCKET_MAX_BUFFER_SIZE - Z.of_nat (length (get_send_buffer sk))) in
  _ ← plift (assert (0 <=? available));
  mret available.

(** A negative length, as an unsigned one, is longer than any string. *)
Definition save_in_buffer_and_send_events (e : send_event) (available_room_in_send_buffer : Z) : protocol unit :=
  let s := le_socket (se_event e) in
  let num_to_insert := Z.min available_room_in_send_buffer (i32 (Z.of_nat (length (se_data e)))) in
  _ ← plift (if num_to_insert <? 0 then Fault LengthError else mret tt);
  _ ← modify_sock s (fun sk =>
        with_buffers (get_receive_buffer sk) (get_send_buffer sk ++ take (Z.to_nat num_to_insert) (se_data e))%list sk);
  _ ← p_dispatch (ResponseEvent (default_response s (se_event e) num_to_insert 0));
  p_enqueue (SendBufferNotEmptyEvent s).

Definition icontext_send (e : send_event) : protocol unit :=
  c ← find_container (le_socket (se_event e));
  available_space ← get_available_room_in_send_buffer e;
  if 0 <? available_space then save_in_buffer_and_send_events e available_space
  else modify_container c (set_saved_send_event (Some e)).

Definition icontext_send_buffer_not_empty (s : nat) : protocol unit :=
  c ← find_container s;
  on_congestion_control c s (Congestion.state_send_buffer_not_empty s).

Definition icontext_send_buffer_not_full (s : nat) : protocol unit :=
  c ← find_container s;
  container ← get_container c;
  match saved_send_event_ container with
  | Some e =>
      available_space ← get_available_room_in_send_buffer e;
      if 0 <? available_space then
        _ ← save_in_buffer_and_send_events e available_space;
        modify_container c (set_saved_send_event None)
      else mret tt
  | None => mret tt
  end.

Definition icontext_timer_fired_event (s timeout_event : nat) : protocol unit :=
  c ← find_container s;
  _ ← on_reliability c s (rs_timer_fired s timeout_event);
  _ ← on_connection_manager c s (ConnManager.icontext_timer_fired_event s timeout_event);
  on_congestion_control c s (Congestion.state_timer_fired s timeout_event).

Definition icontext_resend_packet (s : nat) : protocol unit :=
  c ← find_container s;
  on_congestion_control c s (Congestion.state_resend_packet s).

(** *** Opening and closing *)

Definition icontext_connect (get_source_address : string → string) (e : connect_event) : protocol unit :=
  let s := le_socket (ce_event e) in
  c ← find_container s;
  on_connection_manager c s (ConnManager.icontext_connect get_source_address s e).

(** The back log's pointer is read without a test. *)
Definition get_back_log (c : nat) : protocol (nat * back_log) :=
  container ← get_container c;
  b ← plift (deref (back_log_ container));
  t ← pgets own;
  bl ← plift (deref (back_logs t !! b));
  mret (b, bl).

Definition send_accept_response (c : nat) (e : accept_event) : protocol unit :=
  '(b, bl) ← get_back_log c;
  '((s, new_socket), bl) ← plift (BackLog.pop bl);
  _ ← modify_own (with_back_logs (<[b := bl]>));
  sk ← get_sock new_socket;
  p_dispatch (ResponseEvent {| res_socket := s; res_message_type := le_message_type e; res_fd := le_fd e;
    res_return_value := i32 (get_socket_id sk); res_errno := 0; res_length := sizeof_AddressResponseMessage;
    res_destination := le_source e; res_addr := Some (get_network_struct (get_remote_address_port sk)); res_buffer := [] |}).

Definition icontext_accept (e : accept_event) : protocol unit :=
  c ← find_container (le_socket e);
  '(_, bl) ← get_back_log c;
  if negb (BackLog.empty bl) then send_accept_response c e
  else modify_container c (set_saved_accept_event (Some e)).

Definition icontext_new_connection_established (s new_socket : nat) : protocol unit :=
  c ← find_container new_socket;
  '(b, bl) ← get_back_log c;
  _ ← modify_own (with_back_logs (<[b := snd (BackLog.push (s, new_socket) bl)]>));
  container ← get_container c;
  match saved_accept_event_ container with
  | Some ae => _ ← send_accept_response c ae; modify_container c (set_saved_accept_event None)
  | None => mret tt
  end.

(** The new socket takes the listening socket's container, which gets a fresh one. *)
Definition icontext_new_connection_initiated (memory : uninitialised) (listening_socket new_socket : nat)
    (e : option listen_event) : protocol unit :=
  listening_cc ← find_container listening_socket;
  _ ← modify_own (with_map (<[new_socket := listening_cc]>));
  new_cc ← get_icontext_container memory;
  container ← get_container listening_cc;
  _ ← modify_container new_cc (set_back_log (back_log_ container));
  _ ← modify_container new_cc (set_saved_accept_event (saved_accept_event_ container));
  _ ← modify_own (with_map (<[listening_socket := new_cc]>));
  _ ← on_connection_manager new_cc listening_socket (ConnManager.icontext_new_connection_initiated listening_socket e);
  modify_container listening_cc (fun c => set_connection_manager (ConnManager.set_socket new_socket (connection_manager_ c)) c).

Definition icontext_close (e : close_event) : protocol unit :=
  let s := le_socket e in
  c ← find_container s;
  container ← get_container c;
  sk ← get_sock s;
  _ ← match get_send_buffer sk, saved_send_event_ container with
      | [], None => on_connection_manager c s (ConnManager.icontext_close s)
      | _, _ => modify_container c (set_saved_close_event (Some e))
      end;
  p_dispatch (ResponseEvent (default_response s e 0 0)).

Definition icontext_delete_socket (s : nat) : protocol unit :=
  _ ← find_container s;
  modify_own (with_map (delete s)).

Definition icontext_can_send (s : nat) : protocol bool :=
  c ← find_container s; container ← get_container c; mret (ConnManager.icontext_can_send (connection_manager_ container)).
Definition icontext_can_receive (s : nat) : protocol bool :=
  c ← find_container s; container ← get_container c; mret (ConnManager.icontext_can_receive (connection_manager_ container)).

Definition icontext_set_socket_option (s : nat) (level option_name : Z) : protocol unit :=
  c ← find_container s;
  on_reliability c s (rs_set_socket_option level option_name).

Definition icontext_get_socket_option (s : nat) : protocol unit := _ ← find_container s; mret tt.

End Operations.
End Protocol.

(** ** Running the operations *)

Ltac run_t :=
  unfold modify_container, get_back_log, find_container, get_container, modify_own; run_p;
  cbn [map_ containers back_logs with_map with_containers with_back_logs].

(** A socket and its container. *)
Record attached {C} (s c : nat) (k : container C) (sk : socket) (t : world (tahoe C)) : Prop := {
  att_map : map_ (own t) !! s = Some c;
  att_container : containers (own t) !! c = Some k;
  att_socket : sockets t !! s = Some sk }.

(** The world after a handler that left the collection alone. *)
Definition called {C Y} (set : Y → container C → container C) (s c : nat) (k : container C) (w : env Y) (t : world (tahoe C))
  : world (tahoe C) :=
  with_own (with_containers (<[c := set (ctx w) k]>) (own t))
    (with_io (io w) (with_collection (<[s := after_handler (sockets t) s (sock w)]> (sockets t)) (socket_collection t) t)).

Section Calls.
Context {C : Type}.

Lemma call_plain {Y A} (get : container C → Y) set s c k sk (h : handler Y A) t a w tr :
  attached s c k sk t → h {| ctx := get k; sock := sk; io := tio t |} = Done (a, w) →
  trace (io w) = (trace (tio t) ++ tr)%list → Forall (fun x => plain x = true) tr →
  call get set c s h t = Done (a, called set s c k w t).
Proof.
  intros [Hm Hc Hs] E Ht Hp. unfold call. run_t. rewrite Hc.
  rewrite (run_on_plain s (get k) h t sk a w tr Hs E Ht Hp). run_t. rewrite Hc. reflexivity.
Qed.

Lemma called_attached {Y} (set : Y → container C → container C) s c k sk (w : env Y) t :
  attached s c k sk t → attached s c (set (ctx w) k) (after_handler (sockets t) s (sock w)) (called set s c k w t).
Proof.
  intros [Hm Hc Hs]. split; [exact Hm | apply lookup_insert_eq | apply lookup_insert_eq].
Qed.

Lemma silent_plain tr : Forall (fun x => silent x = true) tr → Forall (fun x => plain x = true) tr.
Proof. intros H. eapply Forall_impl; [exact H |]. intros [ | [] | | ]; cbn; congruence. Qed.

Lemma after_handler_observed h s sk sk' : h !! s = Some sk → observed_ sk' = observed_ sk → after_handler h s sk' = sk'.
Proof. intros Hs Ho. unfold after_handler. rewrite Hs, <- Ho. destruct sk' as [? ? ? ? ? ? ? ? ? ? ? ? []]; reflexivity. Qed.

(** A call whose handler leaves the collection and the socket's observer alone. *)
Lemma call_step {Y A} (get : container C → Y) set s c k sk (h : handler Y A) t a w tr :
  attached s c k sk t → h {| ctx := get k; sock := sk; io := tio t |} = Done (a, w) →
  trace (io w) = (trace (tio t) ++ tr)%list → Forall (fun x => plain x = true) tr → observed_ (sock w) = observed_ sk →
  ∃ t', call get set c s h t = Done (a, t') ∧ attached s c (set (ctx w) k) (sock w) t' ∧ tio t' = io w.
Proof.
  intros Ha E Ht Hp Ho. exists (called set s c k w t). split; [apply (call_plain _ _ _ _ _ sk _ _ _ _ tr); assumption |].
  pose proof (called_attached set s c k sk w t Ha) as Ha'. rewrite (after_handler_observed _ s sk) in Ha' by (apply Ha || exact Ho).
  split; [exact Ha' | reflexivity].
Qed.

Lemma find_container_eq s c (k : container C) sk t : attached s c k sk t → find_container s t = Done (c, t).
Proof. intros [Hm _ _]. run_t. rewrite Hm. reflexivity. Qed.

Lemma get_container_eq s c (k : container C) sk t : attached s c k sk t → get_container c t = Done (k, t).
Proof. intros [_ Hc _]. run_t. rewrite Hc. reflexivity. Qed.

Lemma get_sock_eq s c (k : container C) sk (t : world (tahoe C)) : attached s c k sk t → get_sock s t = Done (sk, t).
Proof. intros [_ _ Hs]. run_p. rewrite Hs. reflexivity. Qed.

Lemma modify_container_eq s c (k : container C) sk f t :
  attached s c k sk t → modify_container c f t = Done (tt, with_own (with_containers (<[c := f k]>) (own t)) t).
Proof. intros [_ Hc _]. run_t. rewrite Hc. reflexivity. Qed.

End Calls.

(** ** Sending *)

Section Sending.
Context `{ReliabilityState C}.

(** What sending does to the congestion control. *)
Definition cc_sent (p : tcp_packet) (g : cc_context) : cc_context :=
  let g :=
    if is_tcp_syn p then
      Congestion.set_snd_nxt (Outstanding.get_iss (Congestion.odc g) + 1) (Congestion.set_snd_una (Outstanding.get_iss (Congestion.odc g)) g)
    else if is_tcp_fin p then Congestion.set_snd_nxt (Outstanding.get_snd_nxt (Congestion.odc g) + 1) g
    else g in
  if negb (data_sent_ g) && (0 <? get_data_length_bytes p) then set_data_sent true g else g.

(** The world when [q], stamped from [p], is about to be packed: contexts and socket have
    accounted for it. *)
Definition accounted (s c : nat) (k : container C) (sk : socket) (sec ns : Z) (p q : tcp_packet) (t : world (tahoe C)) : world (tahoe C) :=
  let w := stamped_env s sec ns p (numbered_env p {| ctx := reliability_ k; sock := sk; io := tio t |}) in
  with_own (with_containers (<[c := set_congestion_control (cc_sent q (congestion_control_ k)) (set_reliability (ctx w) k)]>) (own t))
    (with_io (io w) (with_collection (<[s := sock w]> (sockets t)) (socket_collection t) t)).

Lemma timer_effects_plain s sec ns b (w : env C) : Forall (fun x => plain x = true) (timer_effects s sec ns b w).
Proof. unfold timer_effects. destruct b; [destruct (timer_ _) |]; repeat constructor. Qed.

Lemma account_packet s c (k : container C) sk t p base u n m sec ns (r := rc (reliability_ k))
    (q := stamped (seq_at base (u + n)) (rcv_nxt_ r) (rcv_wnd_ r) (u32 (now (tio t))) (echo_reply_ r) p) {B} (f : tcp_packet → protocol (tahoe C) B) :
  attached s c k sk t → initialized_ r = true → window base u n m (odc r) → outgoing p → 0 ≤ get_data_length_bytes p →
  n + sequence_length p < 2 ^ 31 → is_u32 (rcv_nxt_ r) → delay_ok (rto_ r) sec ns →
  (is_tcp_syn p = true → send_buffer_ sk = [] ∨ byte_is (send_buffer_ sk) 0 SYN_BYTE = true) →
  (p ← on_reliability c s (Reliability.state_send_packet s p); _ ← on_congestion_control c s (Congestion.state_send_packet p); f p) t
    = f q (accounted s c k sk sec ns p q t).
Proof.
  intros Ha Hi Hw Hp Hlen Hn Hr Hd Hsyn. set (w := {| ctx := reliability_ k; sock := sk; io := tio t |}).
  pose proof (state_send_packet_eq base u n m s p w sec ns Hi Hw Hp Hlen Hr Hd Hsyn) as E1.
  destruct (state_send_packet_stamps base u n m s p w sec ns Hw Hlen Hn) as (_ & _ & Ht1).
  set (w1 := stamped_env s sec ns p (numbered_env p w)) in *. change (Done (q, w1)) with (Done (q, w1)) in E1.
  pose proof (call_plain reliability_ set_reliability s c k sk _ t q w1 _ Ha E1 Ht1 (timer_effects_plain _ _ _ _ _)) as C1.
  pose proof (called_attached set_reliability s c k sk w1 t Ha) as Ha1.
  assert (after_handler (sockets t) s (sock w1) = sock w1) as Hsk by (apply (after_handler_observed _ s sk); [apply Ha | reflexivity]).
  rewrite Hsk in Ha1. set (k1 := set_reliability (ctx w1) k) in *.
  pose proof (call_plain congestion_control_ set_congestion_control s c k1 (sock w1) (Congestion.state_send_packet q)
    (called set_reliability s c k w1 t) tt {| ctx := cc_sent q (congestion_control_ k1); sock := sock w1; io := tio (called set_reliability s c k w1 t) |} []
    Ha1 eq_refl ltac:(symmetry; apply app_nil_r) ltac:(constructor)) as C2.
  unfold on_reliability, on_congestion_control. cbv beta iota zeta delta [mbind protocol_bind]. rewrite C1. cbv beta iota. rewrite C2. cbv beta iota.
  f_equal. unfold accounted. fold w w1. unfold called. rewrite Hsk.
  cbn [sock ctx io tio own sockets with_own with_io with_collection].
  rewrite (after_handler_observed _ s (sock w1)) by (first [apply lookup_insert_eq | reflexivity]).
  unfold with_own, with_io, with_collection, with_containers. cbn. rewrite !insert_insert_eq. reflexivity.
Qed.

(** [icontext_send_packet] hands exactly one segment to the network, the stamped one sealed. *)
Lemma send_packet_eq s c (k : container C) sk t p base u n m sec ns (r := rc (reliability_ k))
    (q1 := stamped (seq_at base (u + n)) (rcv_nxt_ r) (rcv_wnd_ r) (u32 (now (tio t))) (echo_reply_ r) p) (tb := accounted s c k sk sec ns p q1 t) :
  attached s c k sk t → initialized_ r = true → window base u n m (odc r) → outgoing p → get_tcp_data_offset p = 8 →
  0 ≤ get_data_length_bytes p ≤ MSS → n + sequence_length p < 2 ^ 31 → is_u32 (rcv_nxt_ r) → delay_ok (rto_ r) sec ns →
  (is_tcp_syn p = true → send_buffer_ sk = [] ∨ byte_is (send_buffer_ sk) 0 SYN_BYTE = true) →
  ∃ q, icontext_send_packet s p t = Done (tt, with_io (add_trace [Dispatch (NetworkSendPacketEvent s q)] (tio tb)) tb) ∧
    seal q1 = Done q ∧ sealed (stamped_option (u32 (now (tio t))) (echo_reply_ r)) q1 q.
Proof.
  intros Ha Hi Hw Hp H8 Hlen Hn Hr Hd Hsyn.
  destruct (seal_spec _ _ (stamped_timestamped (seq_at base (u + n)) (rcv_nxt_ r) (rcv_wnd_ r) (u32 (now (tio t))) (echo_reply_ r) p Hp H8 Hlen))
    as (q & E3 & Hq). fold q1 in E3, Hq.
  exists q. split; [| split; [exact E3 | exact Hq]]. apply outcome_bind_Done in E3 as (q2 & E3 & E4).
  unfold icontext_send_packet. cbv beta iota zeta delta [mbind protocol_bind]. rewrite (find_container_eq s c k sk t Ha).
  pose proof (account_packet s c k sk t p base u n m sec ns (fun p => p ← plift (pack p); p ← plift (calculate_and_set_tcp_checksum p);
    send_network_packet s p) Ha Hi Hw Hp ltac:(lia) Hn Hr Hd Hsyn) as E. fold r q1 tb in E.
  cbv beta iota zeta delta [mbind protocol_bind] in E. rewrite E. run_p. rewrite E3, E4. reflexivity.
Qed.

(** C7: what [icontext_send_packet] hands to the network. All it emits is the start of the
    retransmission timer, when the packet takes sequence numbers and the timer is off, and then
    exactly one segment, whose
    checksum the receiver's test accepts, with the data and control flags of the packet it was
    given, the next sequence number, RCV.NXT and the receive window filled in, and a timestamp
    option that a receiver parses from its bytes. *)
Theorem send_packet_on_the_wire s c (k : container C) sk t p base u n m sec ns (r := rc (reliability_ k)) :
  attached s c k sk t → initialized_ r = true → window base u n m (odc r) → outgoing p → get_tcp_data_offset p = 8 →
  0 ≤ get_data_length_bytes p ≤ MSS → n + sequence_length p < 2 ^ 31 → is_u32 (rcv_nxt_ r) → is_u16 (rcv_wnd_ r) →
  is_u32 (echo_reply_ r) → delay_ok (rto_ r) sec ns →
  (is_tcp_syn p = true → send_buffer_ sk = [] ∨ byte_is (send_buffer_ sk) 0 SYN_BYTE = true) →
  ∃ q t' o, icontext_send_packet s p t = Done (tt, t') ∧
    trace (tio t') = (trace (tio t)
      ++ (if decide (0 < sequence_length p ∧ timer_ r = None) then [Dispatch (TimeoutEvent (next_pointer (tio t)) s sec ns)] else [])
      ++ [Dispatch (NetworkSendPacketEvent s q)])%list ∧
    is_valid_tcp_checksum q = Done (true, q) ∧ data_of q = data_of p ∧
    get_tcp_sequence_number q = seq_at base (u + n) ∧ get_tcp_ack_number q = rcv_nxt_ r ∧
    get_tcp_receive_window_size q = rcv_wnd_ r ∧ is_tcp_syn q = is_tcp_syn p ∧ is_tcp_fin q = is_tcp_fin p ∧
    parse 2 (payload_ (ip_of q)) (get_options_pointer q) 12 [] = Done [o] ∧
    get_timestamp o = u32 (now (tio t)) ∧ TCPOptions.get_echo_reply o = echo_reply_ r.
Proof.
  intros Ha Hi Hw Hp H8 Hlen Hn Hr Hwnd He Hd Hsyn.
  destruct (send_packet_eq s c k sk t p base u n m sec ns Ha Hi Hw Hp H8 Hlen Hn Hr Hd Hsyn) as (q & E & _ & [Hts Hv Dq Hfq _ Hc]).
  fold r in E, Dq, Hfq, Hc, Hts.
  destruct (state_send_packet_stamps base u n m s p {| ctx := reliability_ k; sock := sk; io := tio t |} sec ns Hw ltac:(lia) Hn)
    as (_ & _ & Ht1).
  destruct (stamped_spec (seq_at base (u + n)) (rcv_nxt_ r) (rcv_wnd_ r) (u32 (now (tio t))) (echo_reply_ r) p
    (out_headers p Hp) (seq_at_range _ _) Hr Hwnd) as (_ & _ & D1 & _ & Es & Ea & Ew & _ & Ey & Ef).
  destruct (stamped_option_spec (u32 (now (tio t))) (echo_reply_ r) (u32_range _) He) as [Eo1 Eo2].
  eexists q, _, (stamped_option (u32 (now (tio t))) (echo_reply_ r)). split; [exact E |].
  split.
  { cbn. cbn in Ht1. rewrite Ht1, <- app_assoc. do 2 f_equal. unfold timer_effects. cbn [ctx io]. fold r.
    destruct (Z.ltb_spec 0 (sequence_length p)), (timer_ r); first [rewrite decide_True by auto | rewrite decide_False by (intros [? ?]; lia || discriminate)]; reflexivity. }
  split; [exact Hv |].
  split; [congruence |].
  split; [unfold get_tcp_sequence_number in *; rewrite Hfq by reflexivity; exact Es |].
  split; [unfold get_tcp_ack_number in *; rewrite Hfq by reflexivity; exact Ea |].
  split; [unfold get_tcp_receive_window_size in *; rewrite Hfq by reflexivity; exact Ew |].
  split; [unfold is_tcp_syn, is_tcp in *; rewrite Hfq by reflexivity; exact Ey |].
  split; [unfold is_tcp_fin, is_tcp in *; rewrite Hfq by reflexivity; exact Ef |].
  split; [| split; [exact Eo1 | exact Eo2]]. apply carries_parse; [exact Hc | apply Hts | apply Hts | lia].
Qed.
End Sending.

(** ** What reaches the contexts *)

Lemma between_equal_left_positions base l n r :
  - 2 ^ 31 < n - l < 2 ^ 31 → - 2 ^ 31 < r - n < 2 ^ 31 →
  between_equal_left (seq_at base l) (seq_at base n) (seq_at base r) = ((l <=? n) && (n <? r)).
Proof. intros. unfold between_equal_left. autorewrite with seqnum. reflexivity. Qed.

(** The acceptance test of RFC 793 on stream positions. With RCV.NXT at position [f], a
    segment at [x] is accepted exactly when it is empty and at [f] (closed window) or inside
    the window, or has data whose first or last byte is inside the open window. For a segment
    no longer than the window that is: some byte of it is inside. *)
Theorem is_valid_sequence_number_spec base f x rc p (len := get_data_length_bytes p) (wnd := rcv_wnd_ rc)
    (inside := fun i => f ≤ i < f + wnd) :
  rcv_nxt_ rc = seq_at base f → rcv_nxt_ rc ≠ 0 → get_tcp_sequence_number p = seq_at base x →
  is_u16 wnd → 0 ≤ len < 2 ^ 16 → - 2 ^ 30 < x - f < 2 ^ 30 →
  (is_valid_sequence_number rc p = true ↔
    if decide (len = 0) then if decide (wnd = 0) then x = f else inside x
    else wnd ≠ 0 ∧ (inside x ∨ inside (x + len - 1))) ∧
  (0 < len ≤ wnd → (is_valid_sequence_number rc p = true ↔ ∃ i, x ≤ i < x + len ∧ inside i)).
Proof.
  intros Hn H0 Hs Hw Hl Hx. unfold is_u16 in Hw.
  assert (is_valid_sequence_number rc p = true ↔
    if decide (len = 0) then if decide (wnd = 0) then x = f else inside x
    else wnd ≠ 0 ∧ (inside x ∨ inside (x + len - 1))) as A.
  { unfold is_valid_sequence_number. fold len wnd. rewrite (proj2 (Z.eqb_neq _ _) H0). rewrite Hn, Hs.
    replace (u32 (seq_at base x + len - 1)) with (seq_at base (x + len - 1))
      by (rewrite <- (Z.add_sub_assoc (seq_at base x)), seq_at_add; f_equal; lia).
    rewrite seq_at_add, !between_equal_left_positions, seq_at_eqb by lia. unfold inside.
    destruct (decide (len = 0)) as [El|El]; destruct (decide (wnd = 0)) as [Ew|Ew].
    - rewrite El, Ew. cbn. lia.
    - rewrite El. cbn [Z.ltb Z.compare andb Z.eqb]. rewrite (proj2 (Z.ltb_lt 0 wnd)) by lia. rewrite andb_true_iff. lia.
    - rewrite Ew. rewrite (proj2 (Z.ltb_lt 0 len)) by lia. cbn. split; [discriminate | lia].
    - rewrite (proj2 (Z.ltb_lt 0 len)), (proj2 (Z.ltb_lt 0 wnd)) by lia. cbn [andb].
      rewrite orb_true_iff, !andb_true_iff. lia. }
  split; [exact A |]. intros Hlen. rewrite A, decide_False by lia. unfold inside. split.
  - intros [_ [H | H]]; [exists x | exists (x + len - 1)]; lia.
  - intros (i & Hi & Hin). lia.
Qed.

(** The acknowledgement the protocol sends itself. *)
Lemma dispatch_ack_eq {C} s c (k : container C) sk t local :
  attached s c k sk t → local_ sk = Some local →
  ∃ q, dispatch_ack s t = Done (tt, with_io (add_trace [Enqueue (SendPacketEvent s q)] (tio t)) t) ∧
    data_of q = [] ∧ is_tcp_syn q = false ∧ is_tcp_fin q = false.
Proof.
  intros Ha Hl. destruct (addressed_packet_spec (get_remote_address_port sk) local) as (p & Ep & Hns).
  destruct (set_data_new_segment [] p Hns ltac:(constructor) ltac:(cbn; lia)) as (q & Eq & Dq & _ & _ & _ & Hsyn & Hfin & _).
  destruct (ns_flags _ Hns) as (F1 & F2 & _). exists q. split; [| split; [exact Dq | split; congruence]].
  unfold dispatch_ack. cbv beta iota zeta delta [mbind protocol_bind]. rewrite (get_sock_eq _ _ _ _ _ Ha).
  unfold get_local_address_port. rewrite Hl. run_p. rewrite Ep. run_p. rewrite Eq. reflexivity.
Qed.

Section Gate.
Context `{ReliabilityState C}.

(** A handler that changes nothing. *)
Lemma call_unchanged {Y} (get : container C → Y) set s c k sk (h : handler Y unit) t :
  attached s c k sk t → h {| ctx := get k; sock := sk; io := tio t |} = Done (tt, {| ctx := get k; sock := sk; io := tio t |}) →
  set (get k) k = k → call get set c s h t = Done (tt, t).
Proof.
  intros Ha E Hset. rewrite (call_plain get set s c k sk h t tt _ [] Ha E ltac:(symmetry; apply app_nil_r) ltac:(constructor)).
  unfold called. cbn [ctx sock io]. rewrite Hset, (after_handler_observed _ s sk) by (apply Ha || reflexivity).
  destruct Ha as [_ Hc Hs]. destruct t as [? [] ? ? ?]. cbn in *.
  unfold with_own, with_io, with_collection, with_containers. cbn. rewrite !insert_id by assumption. reflexivity.
Qed.

(** In TIME-WAIT only a FIN matters. *)
Lemma timewait_ignores s p (w : env cm_context) e :
  current_ (ctx w) = TimeWait e → is_tcp_fin p = false → ConnManager.icontext_receive_packet s p w = Done (tt, w).
Proof.
  intros Hc Hf. unfold ConnManager.icontext_receive_packet. run. rewrite Hc. unfold TimeWaitState.state_receive_packet. rewrite Hf. reflexivity.
Qed.

(** The run up to the sequence number test. *)
Ltac gate Ha Hv :=
  unfold icontext_receive_packet; cbv beta iota zeta delta [mbind protocol_bind];
  rewrite (find_container_eq _ _ _ _ _ Ha), (get_container_eq _ _ _ _ _ Ha); unfold plift; cbn [pkt address]; rewrite Hv;
  cbv beta iota zeta delta [mbind outcome_bind mret outcome_ret]; cbn [negb address].

End Gate.

(** ** Accepting data from the application *)

Section SendCalls.
Context {C : Type}.

Definition room (sk : socket) : Z := TCP_SOCKET_MAX_BUFFER_SIZE - Z.of_nat (length (send_buffer_ sk)).
(** How many bytes of a send call fit. *)
Definition taken_by_send (e : send_event) (sk : socket) : Z := Z.min (room sk) (Z.of_nat (length (se_data e))).
Definition buffered (e : send_event) (sk : socket) : socket :=
  with_buffers (receive_buffer_ sk) (send_buffer_ sk ++ take (Z.to_nat (taken_by_send e sk)) (se_data e))%list sk.
Definition send_answer (e : send_event) (sk : socket) : list effect :=
  [Dispatch (ResponseEvent (default_response (le_socket (se_event e)) (se_event e) (taken_by_send e sk) 0));
   Enqueue (SendBufferNotEmptyEvent (le_socket (se_event e)))].
Definition after_send (e : send_event) (sk : socket) (t : world (tahoe C)) : world (tahoe C) :=
  with_io (add_trace (send_answer e sk) (tio t))
    (with_collection (<[le_socket (se_event e) := buffered e sk]> (sockets t)) (socket_collection t) t).

Lemma available_room_eq (e : send_event) (t : world (tahoe C)) sk :
  sockets t !! le_socket (se_event e) = Some sk → 0 ≤ room sk →
  get_available_room_in_send_buffer e t = Done (room sk, t).
Proof.
  intros Hs Hr. unfold get_available_room_in_send_buffer. run_p. rewrite Hs. unfold get_send_buffer. fold (room sk).
  rewrite i32_small by (unfold room, TCP_SOCKET_MAX_BUFFER_SIZE in *; lia). rewrite (proj2 (Z.leb_le _ _) Hr). reflexivity.
Qed.

Lemma save_in_buffer_eq (e : send_event) (t : world (tahoe C)) sk :
  sockets t !! le_socket (se_event e) = Some sk → 0 ≤ room sk → Z.of_nat (length (se_data e)) < 2 ^ 31 →
  save_in_buffer_and_send_events e (room sk) t = Done (tt, after_send e sk t).
Proof.
  intros Hs Hr Hl. unfold save_in_buffer_and_send_events. rewrite i32_small by lia. fold (taken_by_send e sk).
  rewrite (proj2 (Z.ltb_ge _ _)) by (unfold taken_by_send; lia). run_p. rewrite Hs. rewrite add_trace_add. reflexivity.
Qed.

Lemma buffered_size (e : send_event) sk :
  0 ≤ room sk → Z.of_nat (length (send_buffer_ (buffered e sk))) = Z.of_nat (length (send_buffer_ sk)) + taken_by_send e sk.
Proof.
  intros Hr. unfold buffered. cbn [with_buffers send_buffer_]. rewrite length_app, length_take. unfold taken_by_send. lia.
Qed.

(** C11: every byte of a send call is accounted for. With room in the send buffer the call is
    answered at once with the number of bytes taken, min(room, length); exactly those are
    appended, the buffer stays within its limit, and the congestion control is told. With
    none the call waits, unanswered and with nothing taken; when the buffer has room again
    the waiting call is answered in the same way, once. *)
Theorem send_call_accounting s c (k : container C) sk t e :
  attached s c k sk t → le_socket (se_event e) = s → 0 ≤ room sk → Z.of_nat (length (se_data e)) < 2 ^ 31 →
  Z.of_nat (length (send_buffer_ (buffered e sk))) = Z.of_nat (length (send_buffer_ sk)) + taken_by_send e sk ∧
  Z.of_nat (length (send_buffer_ (buffered e sk))) ≤ TCP_SOCKET_MAX_BUFFER_SIZE ∧
  icontext_send e t = Done (tt, if decide (0 < room sk) then after_send e sk t
                                else with_own (with_containers (<[c := set_saved_send_event (Some e) k]>) (own t)) t) ∧
  (saved_send_event_ k = Some e →
   icontext_send_buffer_not_full s t
   = Done (tt, if decide (0 < room sk)
               then with_own (with_containers (<[c := set_saved_send_event None k]>) (own t)) (after_send e sk t) else t)).
Proof.
  intros Ha <- Hr Hl. pose proof (buffered_size e sk Hr) as Hsize. split; [exact Hsize |].
  split; [rewrite Hsize; unfold taken_by_send, room; lia |].
  pose proof (available_room_eq e t sk (att_socket _ _ _ _ _ Ha) Hr) as Er.
  pose proof (save_in_buffer_eq e t sk (att_socket _ _ _ _ _ Ha) Hr Hl) as Es.
  split; [| intros Hs].
  - unfold icontext_send. cbv beta iota zeta delta [mbind protocol_bind]. rewrite (find_container_eq _ _ _ _ _ Ha), Er.
    destruct (Z.ltb_spec 0 (room sk)); [rewrite decide_True by assumption; exact Es |].
    rewrite decide_False by lia. apply (modify_container_eq _ _ _ _ _ _ Ha).
  - unfold icontext_send_buffer_not_full. cbv beta iota zeta delta [mbind protocol_bind].
    rewrite (find_container_eq _ _ _ _ _ Ha), (get_container_eq _ _ _ _ _ Ha), Hs. cbv beta iota. rewrite Er.
    destruct (Z.ltb_spec 0 (room sk)); [rewrite decide_True by assumption | rewrite decide_False by lia; reflexivity].
    rewrite Es. run_t. cbn [after_send]. unfold after_send. cbn [own with_io with_collection].
    rewrite (att_container _ _ _ _ _ Ha). reflexivity.
Qed.

End SendCalls.

(** ** Concrete runs *)

Definition sample_container (n : Z) (st : cm_state) : container rc_context :=
  {| reliability_ := sample_rc n None 5; connection_manager_ := ctx (sample_cm st ACTIVE_OPEN None None);
     congestion_control_ := sample_context 1000; saved_send_event_ := None; saved_close_event_ := None; fin_ := None;
     saved_accept_event_ := None; back_log_ := None |}.
Definition sample_sock (buffer : list Z) : socket := with_buffers [] buffer (sample_socket 1 default_address_port).
Definition sample_world (n : Z) (st : cm_state) (buffer : list Z) : world (tahoe rc_context) :=
  {| sockets_ := {[ 5%nat ]};
     own := {| map_ := {[ 5%nat := 6%nat ]}; containers := {[ 6%nat := sample_container n st ]}; back_logs := ∅ |};
     sockets := {[ 5%nat := sample_sock buffer ]}; socket_collection := ∅;
     tio := {| next_pointer := 9; now := 2000000; trace := [] |} |}.

Lemma sample_attached n st buffer : attached 5 6 (sample_container n st) (sample_sock buffer) (sample_world n st buffer).
Proof. split; apply lookup_singleton_eq. Qed.

Lemma send_packet_on_the_wire_witness :
  outgoing sample_outgoing ∧
  ∃ q t', icontext_send_packet 5 sample_outgoing (sample_world 3 Established [1; 2; 3; 7; 8]) = Done (tt, t') ∧
    trace (tio t') = [Dispatch (TimeoutEvent 9 5 3 0); Dispatch (NetworkSendPacketEvent 5 q)] ∧
    is_valid_tcp_checksum q = Done (true, q) ∧ data_of q = data_of sample_outgoing ∧ get_tcp_sequence_number q = 3.
Proof.
  destruct sample_outgoing_ok as [Ho Hl]. split; [exact Ho |].
  assert (is_tcp_syn sample_outgoing = false ∧ is_tcp_fin sample_outgoing = false ∧ get_tcp_data_offset sample_outgoing = 8) as (Hs & Hf & H8)
    by (vm_compute; auto).
  assert (Reliability.sequence_length sample_outgoing = 2) as Hn by (unfold Reliability.sequence_length; rewrite Hs, Hf; exact Hl).
  destruct (send_packet_on_the_wire 5 6 _ _ _ sample_outgoing 0 0 3 3 3 0 (sample_attached 3 Established [1; 2; 3; 7; 8]))
    as (q & t' & o & E & Ht & Hv & Hd & Hseq & _).
  - reflexivity.
  - apply (sample_window 3 None [] []). lia.
  - exact Ho.
  - exact H8.
  - unfold MSS. lia.
  - lia.
  - split; [discriminate | reflexivity].
  - split; [discriminate | reflexivity].
  - split; [discriminate | reflexivity].
  - exact INITIAL_RTO_delay.
  - rewrite Hs. discriminate.
  - rewrite decide_True in Ht by (rewrite Hn; split; [lia | reflexivity]). exists q, t'. auto.
Defined.

Definition sample_send (n : nat) : send_event :=
  {| se_event := {| le_socket := 5; le_message_type := 8; le_fd := 3; le_source := "app" |}; se_addr := {| sin_addr := 0; sin_port := 0 |};
     se_data := replicate n 7 |}.

Lemma send_call_accounting_witness :
  ∃ t', icontext_send (sample_send 4) (sample_world 3 Established (replicate (Z.to_nat (131071 - 2)) 1)) = Done (tt, t') ∧
    trace (tio t') = [Dispatch (ResponseEvent (default_response 5 (se_event (sample_send 4)) 2 0)); Enqueue (SendBufferNotEmptyEvent 5)].
Proof.
  set (buffer := replicate (Z.to_nat (131071 - 2)) 1).
  assert (room (sample_sock buffer) = 2) as Hr.
  { unfold room, TCP_SOCKET_MAX_BUFFER_SIZE. cbn [sample_sock with_buffers send_buffer_]. unfold buffer. rewrite length_replicate. lia. }
  destruct (send_call_accounting 5 6 _ _ _ (sample_send 4) (sample_attached 3 Established buffer)) as (_ & _ & E & _).
  - reflexivity.
  - lia.
  - cbn. lia.
  - rewrite decide_True in E by lia. eexists. split; [exact E |].
    cbn [after_send with_io tio add_trace trace sample_world app]. unfold send_answer, taken_by_send. rewrite Hr. reflexivity.
Defined.

Definition sample_seq (n : Z) : tcp_packet := set_tcp_sequence_number n sample_outgoing.

Lemma is_valid_sequence_number_spec_witness :
  is_valid_sequence_number (sample_rc 3 None 5) (sample_seq 4) = true.
Proof.
  destruct sample_outgoing_ok as [[Ho _] Hl]. destruct (set_header_field f_seq 4 sample_outgoing eq_refl Ho) as (_ & _ & L).
  rewrite Hl in L. change (get_data_length_bytes (sample_seq 4) = 2) in L.
  destruct (is_valid_sequence_number_spec (PacketBuffer.sample_base) 5 6 (sample_rc 3 None 5) (sample_seq 4)) as (_ & H).
  - reflexivity.
  - vm_compute. discriminate.
  - vm_compute. reflexivity.
  - split; [discriminate | reflexivity].
  - lia.
  - lia.
  - rewrite L in H. apply H; [split; [lia | vm_compute; discriminate] |]. exists 6. split; [lia |]. vm_compute. split; [discriminate | reflexivity].
Defined.

(** A segment a hundred million bytes ahead. *)
Definition sample_stray : tcp_packet := set_tcp_checksum (tcp_checksum_of (sample_seq 100000000)) (sample_seq 100000000).


(** ** Behaviour the code does not intend *)

(** The saved FIN is dispatched every time the receive buffer gets room, not once. *)
Lemma saved_fin_kept {C} `{ReliabilityState C} s c (k : container C) sk t s' r :
  attached s c k sk t → fin_ k = Some (s', r) → rcv_wnd_ (rc (reliability_ k)) = MAX_TCP_RECEIVE_WINDOW_SIZE →
  ∃ t', icontext_receive_buffer_not_full s t = Done (tt, t') ∧ attached s c k sk t' ∧
    trace (tio t') = (trace (tio t) ++ [Dispatch (NetworkReceivePacketEvent s' r)])%list.
Proof.
  intros Ha Hf Hw. eexists. split; [| split].
  - unfold icontext_receive_buffer_not_full. cbv beta iota zeta delta [mbind protocol_bind].
    rewrite (find_container_eq _ _ _ _ _ Ha), (get_container_eq _ _ _ _ _ Ha), Hf. cbv beta iota. rewrite Hw, Z.eqb_refl. reflexivity.
  - destruct Ha. split; assumption.
  - reflexivity.
Qed.

Definition sample_memory : uninitialised :=
  {| u_echo_reply := 0; u_connection_manager := ctx (sample_cm Closed PASSIVE_OPEN None None); u_back_log := None |}.
Definition listening_world : world (tahoe rc_context) :=
  {| sockets_ := ∅; own := {| map_ := ∅; containers := ∅; back_logs := ∅ |};
     sockets := {[ 5%nat := sample_sock []; 7%nat := sample_sock []; 8%nat := sample_sock [] ]}; socket_collection := ∅;
     tio := {| next_pointer := 9; now := 2000000; trace := [] |} |}.
Definition sample_event : library_event := {| le_socket := 5; le_message_type := 6; le_fd := 3; le_source := "app" |}.
Definition sample_listen : listen_event := {| lse_event := sample_event; lse_back_log := 5 |}.
Definition connection_arrives (new_socket : nat) : ProtocolState.protocol (tahoe rc_context) unit :=
  icontext_new_connection_initiated sample_memory 5 new_socket (Some sample_listen).

(** The responses a run sends to the front end. *)
Definition responses (m : ProtocolState.protocol (tahoe rc_context) unit) : outcome nat :=
  '(_, t) ← m listening_world;
  mret (length (List.filter (fun x => match x with Dispatch (ResponseEvent _) => true | _ => false end) (trace (tio t)))).

(** The waiting accept call is copied to the listening socket's new container, so one call is
    answered by two connections. *)
Lemma accept_answered_twice :
  responses (_ ← icontext_socket sample_memory 5; _ ← icontext_listen 5 sample_listen; _ ← icontext_accept sample_event;
             _ ← connection_arrives 7; _ ← icontext_new_connection_established 5 7;
             _ ← connection_arrives 8; icontext_new_connection_established 5 8) = Done 2%nat.
Proof. vm_compute. reflexivity. Qed.

(** An accept call that comes while the handshake is on waits in the listening socket's new
    container, where the connection established next does not look. *)
Lemma accept_missed :
  responses (_ ← icontext_socket sample_memory 5; _ ← icontext_listen 5 sample_listen; _ ← connection_arrives 7;
             _ ← icontext_accept sample_event; icontext_new_connection_established 5 7) = Done 0%nat.
Proof. vm_compute. reflexivity. Qed.
