(* ===== verification/TCPModule.v ===== *)
(** * The TCP protocols as modules

    TCPTahoe and TCPDelayedACK are Protocols: TCPTahoe's [icontext_] methods over
    either reliability context implement the interface of Protocol.v and keep its
    laws. *)
From stdpp Require Import gmap.
From S2P Require Import Prelude Inet AddressPort Sockets IPPacket WiFuPacket TCPPacket PacketBuffer Events Reliability DelayedAck ConnManager.
From S2P Require Import Congestion BackLog ProtocolState Protocol Tahoe.

Section Instance_.
Context {C : Type} `{ReliabilityState C}.
(** The protocol's number, what the memory of the container allocated at a pointer held, and
    the operating system's choice of a source address. *)
Context (number : Z) (memory : nat → uninitialised) (get_source_address : string → string).

Definition memory_of_next : ProtocolState.protocol (tahoe C) uninitialised := i ← pgets tio; mret (memory (next_pointer i)).

#[local] Instance tcp_protocol : ProtocolImpl (tahoe C) tcp_packet := {|
  protocol_ := number;
  set_ip_protocol := fun n p => with_ip_of (IPPacket.set_ip_protocol n (ip_of p)) p;
  Protocol.icontext_socket := fun s => m ← memory_of_next; Tahoe.icontext_socket m s;
  Protocol.icontext_bind := Tahoe.icontext_bind;
  Protocol.icontext_listen := Tahoe.icontext_listen;
  Protocol.icontext_receive_packet := fun s r => Tahoe.icontext_receive_packet s {| address := fst r; pkt := snd r |};
  Protocol.icontext_send_packet := Tahoe.icontext_send_packet;
  Protocol.icontext_connect := Tahoe.icontext_connect get_source_address;
  Protocol.icontext_accept := Tahoe.icontext_accept;
  Protocol.icontext_new_connection_established := Tahoe.icontext_new_connection_established;
  Protocol.icontext_new_connection_initiated := fun s n e => m ← memory_of_next; Tahoe.icontext_new_connection_initiated m s n e;
  Protocol.icontext_close := Tahoe.icontext_close;
  Protocol.icontext_timer_fired_event := Tahoe.icontext_timer_fired_event;
  Protocol.icontext_resend_packet := fun s _ => Tahoe.icontext_resend_packet s;
  Protocol.icontext_send := Tahoe.icontext_send;
  Protocol.icontext_receive := Tahoe.icontext_receive;
  Protocol.icontext_receive_buffer_not_empty := Tahoe.icontext_receive_buffer_not_empty;
  Protocol.icontext_receive_buffer_not_full := Tahoe.icontext_receive_buffer_not_full;
  Protocol.icontext_send_buffer_not_empty := Tahoe.icontext_send_buffer_not_empty;
  Protocol.icontext_send_buffer_not_full := Tahoe.icontext_send_buffer_not_full;
  Protocol.icontext_can_send := Tahoe.icontext_can_send;
  Protocol.icontext_can_receive := Tahoe.icontext_can_receive;
  Protocol.icontext_delete_socket := Tahoe.icontext_delete_socket;
  Protocol.icontext_set_socket_option := Tahoe.icontext_set_socket_option;
  Protocol.icontext_get_socket_option := Tahoe.icontext_get_socket_option |}.

(** The socket's container is where [map_] says. *)
Definition has_container (o : tahoe C) (s : nat) : Prop := ∃ c, map_ o !! s = Some c ∧ is_Some (containers o !! c).

Abbreviation R := (grows has_container).
#[local] Instance R_preorder : PreOrder R := grows_preorder has_container.

Lemma R_same_own {A} (m : ProtocolState.protocol (tahoe C) A) : respects same_own m → respects R m.
Proof. intros Hm t a t' E. destruct (Hm t a t' E) as [Es Eo]. split; [exact Es |]. rewrite Eo. auto. Qed.

Lemma R_emit x : respects R (p_emit x).
Proof. apply R_same_own. auto with respects. Qed.
Lemma R_new : respects R p_new.
Proof. apply R_same_own. auto with respects. Qed.
Lemma R_get_sock s : respects R (get_sock s).
Proof. apply R_same_own. auto with respects. Qed.
Lemma R_modify_sock s f : respects R (modify_sock s f).
Proof. apply R_same_own. auto with respects. Qed.
Lemma R_run_on {Y A} s (y : Y) (h : handler Y A) : respects R (run_on s y h).
Proof. apply R_same_own. auto with respects. Qed.
Lemma R_find s : respects R (find_container (C := C) s).
Proof. unfold find_container. respecting. Qed.
Lemma R_get p : respects R (get_container (C := C) p).
Proof. unfold get_container. respecting. Qed.
Lemma R_back_logs f : respects R (modify_own (C := C) (with_back_logs f)).
Proof. apply respects_update. intros t. split; auto. Qed.
(** Writing a container, an existing one or a new one. *)
Lemma R_containers p k : respects R (modify_own (C := C) (with_containers (<[p := k]>))).
Proof.
  apply respects_update. intros t. split; [reflexivity |]. intros s (c & Hm & Hc). exists c. split; [exact Hm |].
  cbn [own with_own containers with_containers]. destruct (decide (c = p)) as [-> | ?].
  - rewrite lookup_insert_eq. eauto.
  - rewrite lookup_insert_ne by congruence. exact Hc.
Qed.
#[local] Hint Resolve R_emit R_new R_get_sock R_modify_sock R_run_on R_find R_get R_back_logs R_containers : respects.
Lemma R_modify_container p f : respects R (modify_container (C := C) p f).
Proof. unfold modify_container. respecting. Qed.
#[local] Hint Resolve R_modify_container : respects.
Lemma R_call {Y A} get (set : Y → container C → container C) p s (h : handler Y A) : respects R (call get set p s h).
Proof. unfold call. respecting. Qed.
Lemma R_get_back_log p : respects R (get_back_log (C := C) p).
Proof. unfold get_back_log. respecting. Qed.
#[local] Hint Resolve R_call R_get_back_log : respects.
Lemma R_accept_response p e : respects R (send_accept_response (C := C) p e).
Proof. unfold send_accept_response, p_dispatch. respecting. Qed.
Lemma R_available e : respects R (get_available_room_in_send_buffer (C := C) e).
Proof. unfold get_available_room_in_send_buffer. respecting. Qed.
Lemma R_save e n : respects R (save_in_buffer_and_send_events (C := C) e n).
Proof. unfold save_in_buffer_and_send_events, p_dispatch, p_enqueue. cbv zeta. respecting. Qed.
Lemma R_dispatch_ack s : respects R (dispatch_ack (C := C) s).
Proof. unfold dispatch_ack, p_enqueue. respecting. Qed.
Lemma R_finish_close c s : respects R (finish_saved_close (C := C) c s).
Proof. unfold finish_saved_close, on_connection_manager. respecting. Qed.
#[local] Hint Resolve R_accept_response R_available R_save R_dispatch_ack R_finish_close : respects.

Lemma R_keeping A (m : ProtocolState.protocol (tahoe C) A) : keeping A m → respects R m.
Proof.
  intros []; cbn [tcp_protocol Protocol.icontext_bind Protocol.icontext_listen Protocol.icontext_receive_packet
    Protocol.icontext_send_packet Protocol.icontext_connect Protocol.icontext_accept Protocol.icontext_new_connection_established
    Protocol.icontext_close Protocol.icontext_timer_fired_event Protocol.icontext_resend_packet Protocol.icontext_send
    Protocol.icontext_receive Protocol.icontext_receive_buffer_not_empty Protocol.icontext_receive_buffer_not_full
    Protocol.icontext_send_buffer_not_empty Protocol.icontext_send_buffer_not_full Protocol.icontext_can_send
    Protocol.icontext_can_receive Protocol.icontext_set_socket_option Protocol.icontext_get_socket_option].
  all: unfold Tahoe.icontext_bind, Tahoe.icontext_listen, Tahoe.icontext_receive_packet, Tahoe.icontext_send_packet,
    Tahoe.icontext_connect, Tahoe.icontext_accept, Tahoe.icontext_new_connection_established, Tahoe.icontext_close,
    Tahoe.icontext_timer_fired_event, Tahoe.icontext_resend_packet, Tahoe.icontext_send, Tahoe.icontext_receive,
    Tahoe.icontext_receive_buffer_not_empty, Tahoe.icontext_receive_buffer_not_full, Tahoe.icontext_send_buffer_not_empty,
    Tahoe.icontext_send_buffer_not_full, Tahoe.icontext_can_send, Tahoe.icontext_can_receive, Tahoe.icontext_set_socket_option,
    Tahoe.icontext_get_socket_option, on_reliability, on_connection_manager, on_congestion_control, send_network_packet, p_dispatch; cbv zeta.
  all: respecting.
Qed.

(** ** Creating and deleting sockets *)

Lemma R_get_icontext_container m : respects R (get_icontext_container (C := C) m).
Proof. unfold get_icontext_container. respecting. Qed.

Lemma new_container_present m t p t' :
  get_icontext_container (C := C) m t = Done (p, t') → is_Some (containers (own t') !! p).
Proof.
  unfold get_icontext_container. intros E. apply protocol_bind_Done in E as (k & t1 & _ & E).
  apply protocol_bind_Done in E as (q & t2 & _ & E). apply protocol_bind_Done in E as (u & t3 & E3 & E).
  injection E as <- <-. injection E3 as _ <-. cbn. rewrite lookup_insert_eq. eauto.
Qed.

(** Pointing a socket to a container that exists. *)
Lemma R_map_insert s p (t : world (tahoe C)) :
  is_Some (containers (own t) !! p) →
  R t (with_own (with_map (<[s := p]>) (own t)) t) ∧ has_container (with_map (<[s := p]>) (own t)) s.
Proof.
  intros Hp. split; [split; [reflexivity |] |].
  - intros x (c & Hm & Hc). unfold has_container. cbn [own with_own with_map map_ containers].
    destruct (decide (x = s)) as [-> | ?]; [exists p | exists c]; (split; [| assumption]).
    + apply lookup_insert_eq.
    + rewrite lookup_insert_ne by congruence. exact Hm.
  - exists p. split; [apply lookup_insert_eq | exact Hp].
Qed.

Lemma R_socket s : respects (fun t t' => R t t' ∧ has_container (own t') s) (Protocol.icontext_socket s).
Proof.
  intros t u t' E. cbn [Protocol.icontext_socket tcp_protocol] in E. apply protocol_bind_Done in E as (m & t1 & [= _ <-] & E).
  apply protocol_bind_Done in E as (p & t2 & E2 & E). injection E as _ <-.
  destruct (R_map_insert s p t2 (new_container_present _ _ _ _ E2)) as [H1 H2].
  split; [| exact H2]. transitivity t2; [eapply R_get_icontext_container, E2 | exact H1].
Qed.

Lemma find_container_Done s (t : world (tahoe C)) c t' : find_container s t = Done (c, t') → map_ (own t) !! s = Some c ∧ t' = t.
Proof. unfold find_container. run_p. destruct (map_ (own t) !! s); [intros [= -> ->]; auto | discriminate]. Qed.

Lemma get_icontext_container_Done m t p t' :
  get_icontext_container (C := C) m t = Done (p, t') →
  ∃ k, own t' = with_containers (<[p := k]>) (own t) ∧ sockets_ t' = sockets_ t.
Proof.
  unfold get_icontext_container. intros E. apply protocol_bind_Done in E as (k & t1 & E1 & E).
  unfold plift in E1. destruct (new_container m); [| discriminate]. injection E1 as -> <-.
  apply protocol_bind_Done in E as (q & t2 & [= <- <-] & E). apply protocol_bind_Done in E as (u & t3 & [= _ <-] & E).
  injection E as <- <-. exists k. auto.
Qed.

Lemma get_container_Done c (t : world (tahoe C)) k t' : get_container c t = Done (k, t') → containers (own t) !! c = Some k ∧ t' = t.
Proof. unfold get_container. run_p. destruct (containers (own t) !! c); [intros [= -> ->]; auto | discriminate]. Qed.

Lemma modify_container_Done p f (t : world (tahoe C)) u t' :
  modify_container p f t = Done (u, t') → is_Some (containers (own t') !! p).
Proof.
  unfold modify_container. intros E. apply protocol_bind_Done in E as (k & t1 & _ & E). injection E as _ <-.
  cbn. rewrite lookup_insert_eq. eauto.
Qed.

Lemma R_initiated s n e :
  respects (fun t t' => R t t' ∧ has_container (own t') n) (Protocol.icontext_new_connection_initiated s n e).
Proof.
  intros t u t' E. cbn [Protocol.icontext_new_connection_initiated tcp_protocol] in E. apply protocol_bind_Done in E as (m & t1 & [= _ <-] & E).
  unfold Tahoe.icontext_new_connection_initiated in E.
  apply protocol_bind_Done in E as (c & t2 & E2 & E). apply find_container_Done in E2 as [Hc ->].
  apply protocol_bind_Done in E as (u' & t3 & [= _ <-] & E).
  apply protocol_bind_Done in E as (p & t4 & E4 & E). destruct (get_icontext_container_Done _ _ _ _ E4) as (k & Ho & Es).
  apply protocol_bind_Done in E as (k' & t5 & E5 & E). apply get_container_Done in E5 as [Ek ->].
  cbn [own with_own with_map] in Ho.
  assert (∀ x, has_container (own t) x ∨ x = n → has_container (own t4) x) as Hn4.
  { intros x Hx. rewrite Ho in Ek |- *. unfold has_container. cbn [with_containers with_map map_ containers] in *.
    destruct (decide (x = n)) as [-> | Hne]; [exists c; rewrite lookup_insert_eq; eauto |].
    destruct Hx as [(c' & Hm & Hc') | ?]; [| contradiction]. exists c'. rewrite lookup_insert_ne by congruence. split; [exact Hm |].
    destruct (decide (c' = p)) as [-> | ?]; [rewrite lookup_insert_eq; eauto | rewrite lookup_insert_ne by congruence; exact Hc']. }
  assert (R t t4) as R04 by (split; [exact Es | auto]).
  apply protocol_bind_Done in E as (u1 & t5 & E5 & E). apply R_modify_container in E5.
  apply protocol_bind_Done in E as (u2 & t6 & E6 & E). pose proof (modify_container_Done _ _ _ _ _ E6) as Hp6. apply R_modify_container in E6.
  apply protocol_bind_Done in E as (u3 & t7 & [= _ <-] & E). destruct (R_map_insert s p t6 Hp6) as [R67 _].
  match type of E with ?m _ = _ => assert (respects R m) as R7 by (unfold on_connection_manager; respecting) end.
  apply R7 in E. assert (R t4 t') as R4 by (etransitivity; [exact E5 | etransitivity; [exact E6 | etransitivity; [exact R67 | exact E]]]).
  split; [etransitivity; eassumption |]. apply R4. auto.
Qed.

Lemma R_delete s :
  respects (fun t t' => sockets_ t' = sockets_ t ∧ ∀ x, x ≠ s → has_container (own t) x → has_container (own t') x)
    (Protocol.icontext_delete_socket s).
Proof.
  intros t u t' E. cbn [Protocol.icontext_delete_socket tcp_protocol] in E. apply protocol_bind_Done in E as (c & t1 & E1 & E).
  apply find_container_Done in E1 as [_ ->]. injection E as _ <-. split; [reflexivity |].
  intros x Hne (c' & Hm & Hc). exists c'. cbn. rewrite lookup_delete_ne by congruence. auto.
Qed.

#[local] Instance tcp_laws : ProtocolLaws (tahoe C) tcp_packet := {|
  ready := has_container;
  opens_connections := true;
  law_keeping := R_keeping;
  law_socket := R_socket;
  law_initiated := fun s n e _ => R_initiated s n e;
  law_delete := R_delete |}.

End Instance_.

(** ** Concrete modules *)

Definition sample_module : ProtocolImpl (tahoe rc_context) tcp_packet := tcp_protocol 6 (fun _ => sample_memory) (fun a => a).
Definition sample_laws : ProtocolLaws (tahoe rc_context) tcp_packet (H := sample_module) :=
  tcp_laws 6 (fun _ => sample_memory) (fun a => a).

(** A socket call adds the socket; before it, a close of the socket does nothing. *)
Lemma imodule_filters_witness :
  execute (H := sample_module) (LibraryClose sample_event) listening_world = Done (tt, listening_world) ∧
  ∃ t', execute (H := sample_module) (LibrarySocket sample_event) listening_world = Done (tt, t') ∧
    sockets_ t' = {[ 5%nat ]} ∪ ∅ ∧ (∀ s, s ∈ sockets_ t' → has_container (own t') s).
Proof.
  split.
  - apply (proj1 (@imodule_filters _ _ sample_module sample_laws (LibraryClose sample_event) listening_world)). reflexivity.
  - assert (is_Some (match execute (H := sample_module) (LibrarySocket sample_event) listening_world with Done x => Some x | Fault _ => None end))
      as [[[] t'] E'] by (vm_compute; eexists; reflexivity).
    assert (execute (H := sample_module) (LibrarySocket sample_event) listening_world = Done (tt, t')) as E
      by (destruct (execute (H := sample_module) _ _) as [a|]; [injection E' as ->; reflexivity | discriminate]).
    exists t'. split; [exact E |].
    destruct (proj2 (@imodule_filters _ _ sample_module sample_laws (LibrarySocket sample_event) listening_world) t' eq_refl) as [Hr Hm].
    + intros s []%elem_of_empty.
    + exact E.
    + split; [exact Hm | exact Hr].
Defined.
