(* ===== verification/TCPAP.v ===== *)
(** * class TCPAP (transport/src/protocol/TCPAP.cc)

    TCP-AP is TCPTahoe with a rate limiter between the contexts and the network; with
    the delayed-acknowledgement contexts it is TCP_AP_DelayedACKs. A
    TCPAPIContextContainer is a container with a rate limiter besides the three
    contexts (transport/src/contexts/TCPAPIContextContainer.cc); here the limiter
    stands next to the reliability context, the one part of a container whose type is
    a parameter, so that all that Tahoe.v and TCPModule.v define and prove applies. *)
From stdpp Require Import gmap.
From S2P Require Import Prelude SeqMath HeaderMem Inet AddressPort Sockets TCPOptions WiFuPacket TCPPacket PacketBuffer Events Outstanding Congestion.
From S2P Require Import Reliability Stamps DelayedAck RateLimiter ConnManager ProtocolState Protocol Tahoe TCPModule.

Record limited (C : Type) := { reliability : C; rate_limiter_ : ap_context }.
Arguments reliability {C} _.
Arguments rate_limiter_ {C} _.

Section TCPAP.
Context {C : Type} `{HC : ReliabilityState C}.

(** What the memory of the limiter's uninitialised fields held. *)
Context (ap_memory : ap_context).

#[export] Program Instance limited_base : Reliability (limited C) := {|
  rc := fun c => rc (reliability c);
  update_rc := fun f c => {| reliability := update_rc f (reliability c); rate_limiter_ := rate_limiter_ c |} |}.
Next Obligation. intros f c. apply rc_update. Qed.
Next Obligation. intros f g c. cbn. rewrite rc_compose. reflexivity. Qed.

(** A handler of either part. *)
Definition of_reliability {A} (h : handler C A) : handler (limited C) A := fun w =>
  '(a, w') ← h {| ctx := reliability (ctx w); sock := sock w; io := io w |};
  mret (a, {| ctx := {| reliability := ctx w'; rate_limiter_ := rate_limiter_ (ctx w) |}; sock := sock w'; io := io w' |}).
Definition of_rate_limiter {A} (h : handler ap_context A) : handler (limited C) A := fun w =>
  '(a, w') ← h {| ctx := rate_limiter_ (ctx w); sock := sock w; io := io w |};
  mret (a, {| ctx := {| reliability := reliability (ctx w); rate_limiter_ := ctx w' |}; sock := sock w'; io := io w' |}).

#[local] Instance limited_reliability : ReliabilityState (limited C) := {|
  rs_new := fun memory iss => c ← rs_new memory iss; mret {| reliability := c; rate_limiter_ := new_rate_limiter ap_memory |};
  rs_receive_packet := fun s r => of_reliability (rs_receive_packet s r);
  rs_timer_fired := fun s t => of_reliability (rs_timer_fired s t);
  rs_receive := fun e => of_reliability (rs_receive e);
  rs_receive_buffer_not_empty := of_reliability rs_receive_buffer_not_empty;
  rs_set_socket_option := fun level name => of_reliability (rs_set_socket_option level name) |}.

Definition on_rate_limiter {A} (c s : nat) (h : handler ap_context A) : protocol (tahoe (limited C)) A :=
  on_reliability c s (of_rate_limiter h).

(** ** The four methods TCPAP overrides *)

Definition icontext_receive_packet (s : nat) (r : packet_ref) : protocol (tahoe (limited C)) unit :=
  _ ← Tahoe.icontext_receive_packet s r;
  c ← find_container s;
  on_rate_limiter c s (RateLimiter.state_receive_packet s (pkt r)).

Definition icontext_send_packet (s : nat) (p : tcp_packet) : protocol (tahoe (limited C)) unit :=
  c ← find_container s;
  p ← on_reliability c s (Reliability.state_send_packet s p);
  _ ← on_congestion_control c s (Congestion.state_send_packet p);
  on_rate_limiter c s (RateLimiter.state_send_packet s p).

Definition icontext_timer_fired_event (s timeout_event : nat) : protocol (tahoe (limited C)) unit :=
  c ← find_container s;
  _ ← on_rate_limiter c s (RateLimiter.state_timer_fired s timeout_event);
  Tahoe.icontext_timer_fired_event s timeout_event.

Definition icontext_set_socket_option (s : nat) (level option_name : Z) : protocol (tahoe (limited C)) unit :=
  c ← find_container s;
  _ ← Tahoe.icontext_set_socket_option s level option_name;
  on_rate_limiter c s (RateLimiter.state_set_socket_option level option_name).

(** ** The module *)

Section Module_.
Context (number : Z) (memory : nat → uninitialised) (get_source_address : string → string).

#[local] Instance base_protocol : ProtocolImpl (tahoe (limited C)) tcp_packet := tcp_protocol number memory get_source_address.

#[local] Instance ap_protocol : ProtocolImpl (tahoe (limited C)) tcp_packet := {|
  protocol_ := number;
  set_ip_protocol := set_ip_protocol (ProtocolImpl := base_protocol);
  Protocol.icontext_socket := Protocol.icontext_socket (ProtocolImpl := base_protocol);
  Protocol.icontext_bind := Tahoe.icontext_bind;
  Protocol.icontext_listen := Tahoe.icontext_listen;
  Protocol.icontext_receive_packet := fun s r => icontext_receive_packet s {| address := fst r; pkt := snd r |};
  Protocol.icontext_send_packet := icontext_send_packet;
  Protocol.icontext_connect := Tahoe.icontext_connect get_source_address;
  Protocol.icontext_accept := Tahoe.icontext_accept;
  Protocol.icontext_new_connection_established := Tahoe.icontext_new_connection_established;
  Protocol.icontext_new_connection_initiated := Protocol.icontext_new_connection_initiated (ProtocolImpl := base_protocol);
  Protocol.icontext_close := Tahoe.icontext_close;
  Protocol.icontext_timer_fired_event := icontext_timer_fired_event;
  Protocol.icontext_resend_packet := fun s _ => Tahoe.icontext_resend_packet s;
  Protocol.icontext_send := Tahoe.icontext_send;
  Protocol.icontext_receive := Tahoe.icontext_receive;
  Protocol.icontext_receive_buffer_not_empty := Tahoe.icontext_receive_buffer_not_empty;
  Protocol.icontext_receive_buffer_not_full := Tahoe.icontext_receive_buffer_not_full;
  Protocol.icontext_send_buffer_not_empty := Tahoe.icontext_send_buffer_not_empty;
  Protocol.icontext_send_buffer_not_full := Tahoe.icontext_send_buffer_not_full;
  Protocol.icontext_can_send := Tahoe.icontext_can_send;
  Protocol.icontext_can_receive := Tahoe.icontext_can_receive;
  Protocol.icontext_delete_socket := Tahoe.icontext_delete_socket;
  Protocol.icontext_set_socket_option := icontext_set_socket_option;
  Protocol.icontext_get_socket_option := Tahoe.icontext_get_socket_option |}.

(** *** The laws *)

Abbreviation R := (grows (has_container (C := limited C))).
#[local] Instance ap_R_preorder : PreOrder R := grows_preorder has_container.

(** A method of TCPTahoe. *)
Lemma R_base A (m : protocol (tahoe (limited C)) A) : keeping (H := base_protocol) A m → respects R m.
Proof. apply R_keeping. Qed.

#[local] Hint Resolve R_find R_call : respects.
Lemma R_rate_limiter {A} c s (h : handler ap_context A) : respects R (on_rate_limiter c s h).
Proof. apply R_call. Qed.
#[local] Hint Resolve R_rate_limiter : respects.
Lemma R_receive_packet s r : respects R (icontext_receive_packet s r).
Proof.
  unfold icontext_receive_packet. eapply respects_bind; [exact _ | | intros; respecting].
  destruct r as [a p]. exact (R_base _ _ (k_receive_packet (H := base_protocol) s (a, p))).
Qed.
Lemma R_send_packet s p : respects R (icontext_send_packet s p).
Proof. unfold icontext_send_packet, on_reliability, on_congestion_control. respecting. Qed.
Lemma R_timer_fired s t : respects R (icontext_timer_fired_event s t).
Proof.
  unfold icontext_timer_fired_event. do 2 (eapply respects_bind; [exact _ | respecting | intros]).
  exact (R_base _ _ (k_timer (H := base_protocol) s t)).
Qed.
Lemma R_set_option s level name : respects R (icontext_set_socket_option s level name).
Proof.
  unfold icontext_set_socket_option. eapply respects_bind; [exact _ | respecting | intros].
  eapply respects_bind; [exact _ | | intros; respecting]. exact (R_base _ _ (k_set_option (H := base_protocol) s level name)).
Qed.

Lemma ap_keeping A (m : protocol (tahoe (limited C)) A) : keeping (H := ap_protocol) A m → respects R m.
Proof.
  intros [];
  [ exact (R_base _ _ (k_bind (H := base_protocol) _))
  | exact (R_base _ _ (k_listen (H := base_protocol) _ _))
  | exact (R_receive_packet _ _)
  | exact (R_send_packet _ _)
  | exact (R_base _ _ (k_connect (H := base_protocol) _))
  | exact (R_base _ _ (k_accept (H := base_protocol) _))
  | exact (R_base _ _ (k_established (H := base_protocol) _ _))
  | exact (R_base _ _ (k_close (H := base_protocol) _))
  | exact (R_timer_fired _ _)
  | exact (R_base _ _ (k_resend (H := base_protocol) _ TIMEOUT))
  | exact (R_base _ _ (k_send (H := base_protocol) _))
  | exact (R_base _ _ (k_receive (H := base_protocol) _))
  | exact (R_base _ _ (k_receive_not_empty (H := base_protocol) _))
  | exact (R_base _ _ (k_receive_not_full (H := base_protocol) _))
  | exact (R_base _ _ (k_send_not_empty (H := base_protocol) _))
  | exact (R_base _ _ (k_send_not_full (H := base_protocol) _))
  | exact (R_base _ _ (k_can_send (H := base_protocol) _))
  | exact (R_base _ _ (k_can_receive (H := base_protocol) _))
  | exact (R_set_option _ _ _)
  | exact (R_base _ _ (k_get_option (H := base_protocol) _)) ].
Qed.

#[local] Instance ap_laws : ProtocolLaws (tahoe (limited C)) tcp_packet (H := ap_protocol) := {|
  ready := has_container;
  opens_connections := true;
  law_keeping := ap_keeping;
  law_socket := R_socket number memory get_source_address;
  law_initiated := fun s n e _ => R_initiated number memory get_source_address s n e;
  law_delete := R_delete number memory get_source_address |}.

End Module_.

(** ** Sending *)

Lemma of_rate_limiter_Done {A} (h : handler ap_context A) (w : env (limited C)) a w' :
  h {| ctx := rate_limiter_ (ctx w); sock := sock w; io := io w |} = Done (a, w') →
  of_rate_limiter h w = Done (a, {| ctx := {| reliability := reliability (ctx w); rate_limiter_ := ctx w' |}; sock := sock w'; io := io w' |}).
Proof. intros E. unfold of_rate_limiter. rewrite E. reflexivity. Qed.

(** Sending a segment leaves the limiter alone until its turn comes. *)
Lemma stamped_rate_limiter s sec ns p (w : env (limited C)) : rate_limiter_ (ctx (stamped_env s sec ns p (numbered_env p w))) = rate_limiter_ (ctx w).
Proof. unfold stamped_env, numbered_env, started. destruct (0 <? _); [destruct (timer_ _) |]; reflexivity. Qed.

(** The state's step, with the segment it lets out, if any. *)
Lemma limiter_step s p o (w : env ap_context) (l := limiter_ (ctx w)) :
  timestamped o p → 0 ≤ sendSeconds_ l → 0 ≤ sendNanos_ l →
  ∃ w' tr, RateLimiter.state_send_packet s p w = Done (tt, w') ∧ sock w' = sock w ∧ trace (io w') = (trace (io w) ++ tr)%list ∧
    Forall (fun x => plain x = true) tr ∧
    if paced p && negb (canSend_ l) then tr = [] ∧ limiter_ (ctx w') = set_queue (queue_ l ++ [p]) l
    else ∃ q, departs p q ∧ packets_of tr = [q] ∧ queue_ (limiter_ (ctx w')) = queue_ l ∧
      canSend_ (limiter_ (ctx w')) = canSend_ l && negb (paced p).
Proof.
  intros Hp Hs Hn. unfold RateLimiter.state_send_packet. replace (is_naked_ack p || is_tcp_syn p) with (negb (paced p)) by apply negb_involutive.
  destruct (paced p); cbn [negb andb].
  - unfold base_state_send_packet. destruct (canSend_ l) eqn:Ec; cbn [negb].
    + set (w1 := {| ctx := on_limiter (set_canSend false) (ctx w); sock := sock w; io := io w |}).
      destruct (release_spec s (sendSeconds_ l) (sendNanos_ l) p w1 eq_refl eq_refl Hs Hn (ex_intro _ o Hp)) as (q & E & Hd).
      eexists. eexists. split; [run; change (limiter_ (ctx w)) with l; rewrite Ec; exact E |]. split; [reflexivity |]. split; [reflexivity |].
      split; [repeat constructor |]. exists q. split; [exact Hd |]. repeat split.
    + eexists. exists []. split; [run; change (limiter_ (ctx w)) with l; rewrite Ec; reflexivity |].
      split; [reflexivity |]. split; [symmetry; apply app_nil_r |]. split; [constructor |]. split; reflexivity.
  - destruct (stuff_spec s p o w Hp) as (q & E & Hd & _). eexists. exists [Dispatch (NetworkSendPacketEvent s q)].
    split; [unfold dispatch_packet; run; rewrite E; reflexivity |]. split; [reflexivity |]. split; [reflexivity |].
    split; [repeat constructor |]. exists q. split; [exact Hd |]. split; [reflexivity |]. split; [reflexivity |]. rewrite andb_true_r. reflexivity.
Qed.

(** The state's step when a timer fires. *)
Definition fires (s e : nat) (l : send_rate_limiter) (next : nat) (tr : list effect) (l' : send_rate_limiter) : Prop :=
  if decide (waitingTimeout_ l = Some e) then
    match queue_ l with
    | p :: rest => ∃ x, departs p x ∧
        tr = [Dispatch (NetworkSendPacketEvent s x); Dispatch (TimeoutEvent next s (sendSeconds_ l) (sendNanos_ l))] ∧
        l' = set_waitingTimeout (Some next) (set_queue rest l)
    | [] => tr = [] ∧ l' = set_waitingTimeout None (set_canSend true l)
    end
  else tr = [] ∧ l' = l.

Lemma limiter_fires s e (w : env ap_context) (l := limiter_ (ctx w)) :
  Forall sendable (queue_ l) → 0 ≤ sendSeconds_ l → 0 ≤ sendNanos_ l →
  ∃ w' tr, RateLimiter.state_timer_fired s e w = Done (tt, w') ∧ sock w' = sock w ∧ trace (io w') = (trace (io w) ++ tr)%list ∧
    Forall (fun x => plain x = true) tr ∧ fires s e l (next_pointer (io w)) tr (limiter_ (ctx w')).
Proof.
  intros Hq Hs Hn. unfold RateLimiter.state_timer_fired, base_state_timer_fired, fires. subst l.
  destruct (decide (waitingTimeout_ (limiter_ (ctx w)) = Some e)) as [Hw | Hw].
  - destruct (queue_ (limiter_ (ctx w))) as [|p rest] eqn:Eq.
    + eexists. exists []. split; [run; rewrite Hw, Nat.eqb_refl, Eq; reflexivity |]. split; [reflexivity |].
      split; [symmetry; apply app_nil_r |]. split; [constructor |]. split; reflexivity.
    + apply Forall_cons in Hq as [Hp _]. set (w1 := {| ctx := on_limiter (set_queue rest) (ctx w); sock := sock w; io := io w |}).
      destruct (release_spec s _ _ p w1 eq_refl eq_refl Hs Hn Hp) as (x & E & Hd).
      eexists. eexists. split; [run; rewrite Hw, Nat.eqb_refl, Eq; exact E |]. split; [reflexivity |]. split; [reflexivity |].
      split; [repeat constructor |]. exists x. split; [exact Hd |]. split; reflexivity.
  - exists w, []. split; [| split; [reflexivity |]; split; [symmetry; apply app_nil_r |]; split; [constructor | split; reflexivity]].
    run. destruct (waitingTimeout_ (limiter_ (ctx w))) as [t|]; [| reflexivity].
    destruct (Nat.eqb_spec e t) as [-> |]; [destruct (Hw eq_refl) | reflexivity].
Qed.

(** The limiter's part of [icontext_timer_fired_event]. *)
Lemma ap_timer_fired s c (k : container (limited C)) sk t e (l := limiter_ (rate_limiter_ (reliability_ k))) :
  attached s c k sk t → Forall sendable (queue_ l) → 0 ≤ sendSeconds_ l → 0 ≤ sendNanos_ l →
  ∃ t1 tr k1, icontext_timer_fired_event s e t = Tahoe.icontext_timer_fired_event s e t1 ∧
    trace (tio t1) = (trace (tio t) ++ tr)%list ∧ attached s c k1 sk t1 ∧ reliability (reliability_ k1) = reliability (reliability_ k) ∧
    fires s e l (next_pointer (tio t)) tr (limiter_ (rate_limiter_ (reliability_ k1))).
Proof.
  intros Ha Hq Hs Hn.
  destruct (limiter_fires s e {| ctx := rate_limiter_ (reliability_ k); sock := sk; io := tio t |} Hq Hs Hn) as (w' & tr & E & Hsk & Ht & Hp & Hf).
  pose proof (of_rate_limiter_Done _ {| ctx := reliability_ k; sock := sk; io := tio t |} tt w' E) as E1. cbn [ctx sock io] in *.
  match type of E1 with _ = Done (_, ?w1) =>
    destruct (call_step reliability_ set_reliability s c k sk _ t tt w1 tr Ha E1 Ht Hp ltac:(cbn [sock]; rewrite Hsk; reflexivity))
      as (t1 & E2 & Ha1 & Hio) end.
  cbn [sock ctx io] in *. rewrite Hsk in Ha1. exists t1, tr. eexists. split; [| split; [rewrite Hio; exact Ht | split; [exact Ha1 | split; [reflexivity | exact Hf]]]].
  unfold icontext_timer_fired_event, on_rate_limiter, on_reliability. cbv beta iota zeta delta [mbind protocol_bind].
  rewrite (find_container_eq s c k sk t Ha). cbv beta iota. rewrite E2. reflexivity.
Qed.

(** C35: TCP-AP sends what TCPTahoe sends, at its pace. For the segment TCPTahoe would pack and
    send now, numbered, acknowledged and stamped: an acknowledgement or a SYN, and any
    segment while the limiter is idle, leaves at once and only it, with the same data, flags
    and numbers and a valid checksum; while an interval runs, nothing leaves and the segment
    is last in the limiter's queue. And when a timer fires, the limiter is asked first, then
    TCPTahoe: if it is the limiter's timer, the first segment of the queue leaves and the timer of
    the next interval starts, or, with the queue empty, the limiter is idle; any other timer
    does nothing to it. *)
Theorem ap_sends_at_its_pace s c (k : container (limited C)) sk t (l := limiter_ (rate_limiter_ (reliability_ k))) :
  attached s c k sk t → 0 ≤ sendSeconds_ l → 0 ≤ sendNanos_ l →
  (∀ p base u n m sec ns (r := rc (reliability_ k))
     (q := stamped (seq_at base (u + n)) (rcv_nxt_ r) (rcv_wnd_ r) (u32 (now (tio t))) (echo_reply_ r) p),
   initialized_ r = true → window base u n m (odc r) → outgoing p → get_tcp_data_offset p = 8 →
   0 ≤ get_data_length_bytes p ≤ MSS → n + sequence_length p < 2 ^ 31 → is_u32 (rcv_nxt_ r) → delay_ok (rto_ r) sec ns →
   (is_tcp_syn p = true → send_buffer_ sk = [] ∨ byte_is (send_buffer_ sk) 0 SYN_BYTE = true) →
   ∃ t' tr k' sk', icontext_send_packet s p t = Done (tt, t') ∧ trace (tio t') = (trace (tio t) ++ tr)%list ∧ attached s c k' sk' t' ∧
     let l' := limiter_ (rate_limiter_ (reliability_ k')) in
     if paced q && negb (canSend_ l) then packets_of tr = [] ∧ queue_ l' = (queue_ l ++ [q])%list ∧ sendable q
     else ∃ x, packets_of tr = [x] ∧ departs q x ∧ queue_ l' = queue_ l ∧ canSend_ l' = canSend_ l && negb (paced q)) ∧
  (∀ e, Forall sendable (queue_ l) →
   ∃ t1 tr k1, icontext_timer_fired_event s e t = Tahoe.icontext_timer_fired_event s e t1 ∧
     trace (tio t1) = (trace (tio t) ++ tr)%list ∧ attached s c k1 sk t1 ∧ reliability (reliability_ k1) = reliability (reliability_ k) ∧
     fires s e l (next_pointer (tio t)) tr (limiter_ (rate_limiter_ (reliability_ k1)))).
Proof.
  intros Ha Hs1 Hs2. split; [| intros e Hq; apply ap_timer_fired; assumption].
  intros p base u n m sec ns r q Hi Hw Hp H8 Hlen Hn Hr Hd Hsyn.
  set (w := {| ctx := reliability_ k; sock := sk; io := tio t |}). set (w1 := stamped_env s sec ns p (numbered_env p w)).
  destruct (state_send_packet_stamps base u n m s p w sec ns Hw ltac:(lia) Hn) as (_ & _ & Ht1). fold w1 in Ht1. cbn [w io] in Ht1. set (t1 := timer_effects s sec ns (0 <? sequence_length p) w) in Ht1.
  set (t2 := accounted s c k sk sec ns p q t).
  set (k2 := set_congestion_control (cc_sent q (congestion_control_ k)) (set_reliability (ctx w1) k)).
  assert (attached s c k2 (sock w1) t2) as Ha2 by (split; [apply Ha | apply lookup_insert_eq | apply lookup_insert_eq]).
  assert (rate_limiter_ (reliability_ k2) = rate_limiter_ (reliability_ k)) as Hl by apply (stamped_rate_limiter s sec ns p w).
  pose proof (stamped_timestamped (seq_at base (u + n)) (rcv_nxt_ r) (rcv_wnd_ r) (u32 (now (tio t))) (echo_reply_ r) p Hp H8 Hlen) as Hq. fold q in Hq.
  destruct (limiter_step s q _ {| ctx := rate_limiter_ (reliability_ k2); sock := sock w1; io := tio t2 |} Hq) as (w3 & tr & E3 & Hk3 & Ht3 & Hpl & H3);
    cbn [ctx]; [rewrite Hl; exact Hs1 | rewrite Hl; exact Hs2 |]. cbn [ctx sock io] in *. rewrite Hl in H3. change (limiter_ (rate_limiter_ (reliability_ k))) with l in H3.
  pose proof (of_rate_limiter_Done _ {| ctx := reliability_ k2; sock := sock w1; io := tio t2 |} tt w3 E3) as E4. cbn [ctx] in E4.
  match type of E4 with _ = Done (_, ?w4) => pose proof (call_plain reliability_ set_reliability s c k2 (sock w1) _ t2 tt w4 tr Ha2 E4 Ht3 Hpl) as E5;
    pose proof (called_attached set_reliability s c k2 (sock w1) w4 t2 Ha2) as Ha5; set (t5 := called set_reliability s c k2 w4 t2) in * end.
  exists t5, (t1 ++ tr)%list. do 2 eexists. split; [| split; [| split; [exact Ha5 |]]].
  - unfold icontext_send_packet. cbv beta iota zeta delta [mbind protocol_bind]. rewrite (find_container_eq s c k sk t Ha). cbv beta iota.
    pose proof (account_packet s c k sk t p base u n m sec ns (fun p => on_rate_limiter c s (RateLimiter.state_send_packet s p)) Ha Hi Hw Hp
      ltac:(lia) Hn Hr Hd Hsyn) as E. fold r q t2 in E. cbv beta iota zeta delta [mbind protocol_bind] in E.
    etransitivity; [exact E | exact E5].
  - change (trace (tio t5)) with (trace (io w3)). rewrite Ht3. change (trace (tio t2)) with (trace (io w1)). rewrite Ht1, <- app_assoc. reflexivity.
  - cbn [reliability_ set_reliability rate_limiter_ ctx]. assert (packets_of t1 = []) as Hp0 by (unfold t1, timer_effects; destruct (0 <? _); [destruct (timer_ _) |]; reflexivity).
    rewrite packets_of_app, Hp0. cbn [app]. destruct (paced q && negb (canSend_ l)).
    + destruct H3 as [-> ->]. split; [reflexivity |]. split; [reflexivity | eexists; exact Hq].
    + destruct H3 as (x & Hx & Hpx & Hqx & Hcx). exists x. auto.
Qed.
End TCPAP.

(** ** A concrete connection *)

Definition limited_container (n : Z) (l : ap_context) : container (limited rc_context) :=
  {| reliability_ := {| reliability := sample_rc n None 5; rate_limiter_ := l |}; connection_manager_ := ctx (sample_cm Established ACTIVE_OPEN None None);
     congestion_control_ := sample_context 1000; saved_send_event_ := None; saved_close_event_ := None; fin_ := None; saved_accept_event_ := None;
     back_log_ := None |}.
Definition limited_world (n : Z) (l : ap_context) (buffer : list Z) : world (tahoe (limited rc_context)) :=
  {| sockets_ := {[ 5%nat ]};
     own := {| map_ := {[ 5%nat := 6%nat ]}; containers := {[ 6%nat := limited_container n l ]}; back_logs := ∅ |};
     sockets := {[ 5%nat := sample_sock buffer ]}; socket_collection := ∅;
     tio := {| next_pointer := 9; now := 2000000; trace := [] |} |}.

Lemma limited_attached n l buffer : attached 5 6 (limited_container n l) (sample_sock buffer) (limited_world n l buffer).
Proof. split; apply lookup_singleton_eq. Qed.

(** A segment with data while the interval of an earlier one runs. *)
Lemma ap_sends_at_its_pace_witness :
  let l := on_limiter (fun l => set_waitingTimeout (Some 7%nat) (set_canSend false l)) (ctx sample_limited) in
  let world := limited_world 3 l [1; 2; 3; 7; 8] in
  ∃ t' tr k' sk', icontext_send_packet 5 sample_outgoing world = Done (tt, t') ∧ trace (tio t') = tr ∧ attached 5 6 k' sk' t' ∧
    packets_of tr = [] ∧ length (queue_ (limiter_ (rate_limiter_ (reliability_ k')))) = 1%nat.
Proof.
  intros l world. destruct sample_outgoing_ok as [Ho Hl].
  assert (is_tcp_syn sample_outgoing = false ∧ is_tcp_fin sample_outgoing = false ∧ get_tcp_data_offset sample_outgoing = 8) as (Hs & Hf & H8)
    by (vm_compute; auto).
  assert (Reliability.sequence_length sample_outgoing = 2) as Hn by (unfold Reliability.sequence_length; rewrite Hs, Hf; exact Hl).
  destruct (ap_sends_at_its_pace RateLimiter.sample_memory 5 6 _ _ _ (limited_attached 3 l [1; 2; 3; 7; 8])) as [Hsend _];
    [apply Z.leb_le; vm_compute; reflexivity.. |].
  destruct (Hsend sample_outgoing 0 0 3 3 3 0) as (t' & tr & k' & sk' & E & Ht & Ha & H).
  - reflexivity.
  - apply (sample_window 3 None [] []). lia.
  - exact Ho.
  - exact H8.
  - unfold MSS. lia.
  - lia.
  - split; [discriminate | reflexivity].
  - exact INITIAL_RTO_delay.
  - rewrite Hs. discriminate.
  - exists t', tr, k', sk'. split; [exact E |]. split; [exact Ht |]. split; [exact Ha |].
    match type of H with let l' := _ in if ?b then _ else _ => assert (b = true) as Hb by (vm_compute; reflexivity); rewrite Hb in H end.
    destruct H as (H1 & H2 & _). split; [exact H1 |]. etransitivity; [exact (f_equal length H2) |]. rewrite length_app.
    match goal with |- (length ?q + _)%nat = _ => assert (q = []) as -> by (vm_compute; reflexivity) end. reflexivity.
Defined.
