(* ===== verification/SimpleUDP.v ===== *)
(** * class SimpleUDP (transport/src/protocol/SimpleUDP.cc)

    One container per socket: the datagrams that arrived (SimpleUDPContainer's
    packet queue) and the receive call that waits. [map_] is the only owner of a
    container, so its containers are values. *)
From stdpp Require Import gmap strings.
From S2P Require Import Prelude HeaderMem Inet AddressPort Sockets IPPacket WiFuPacket UDPPacket Events ProtocolState Protocol.


Record udp_container := { packet_queue_ : list (nat * udp_packet); receive_event_ : option receive_event }.

Definition new_SimpleUDPContainer : udp_container := {| packet_queue_ := []; receive_event_ := None |}.
Definition set_receive_event (e : option receive_event) (c : udp_container) : udp_container :=
  {| packet_queue_ := packet_queue_ c; receive_event_ := e |}.
Definition set_packet_queue (q : list (nat * udp_packet)) (c : udp_container) : udp_container :=
  {| packet_queue_ := q; receive_event_ := receive_event_ c |}.

(** The protocol's data and the file's two counters, [int]s. *)
Record udp := { map_ : gmap nat udp_container; sent : Z; received : Z }.

Definition with_map (m : gmap nat udp_container) (o : udp) : udp := {| map_ := m; sent := sent o; received := received o |}.
Definition count_sent (o : udp) : udp := {| map_ := map_ o; sent := i32 (sent o + 1); received := received o |}.
Definition count_received (o : udp) : udp := {| map_ := map_ o; sent := sent o; received := i32 (received o + 1) |}.

Abbreviation udp_protocol := (protocol udp).

Definition modify_own (f : udp → udp) : udp_protocol unit := update (fun t => with_own (f (own t)) t).
(** [map_.find(s)->second] *)
Definition find_container (s : nat) : udp_protocol udp_container :=
  t ← pgets own; plift (match map_ t !! s with Some c => Done c | None => Fault OutOfBounds end).
Definition store_container (s : nat) (c : udp_container) : udp_protocol unit :=
  modify_own (fun o => with_map (<[s := c]> (map_ o)) o).

Definition icontext_socket (s : nat) : udp_protocol unit := store_container s new_SimpleUDPContainer.

(** The response to a receive call, with the datagram's source and its data. *)
Definition recv_from_response (e : receive_event) (p : udp_packet) : outcome response :=
  '(source, w) ← get_source_address_port (wifu p);
  let p := {| wifu := w |} in
  mret {| res_socket := le_socket (re_event e); res_message_type := le_message_type (re_event e); res_fd := le_fd (re_event e);
          res_return_value := i32 (get_data_length_bytes p); res_errno := 0;
          res_length := u32 (sizeof_AddressResponseMessage + get_data_length_bytes p); res_destination := le_source (re_event e);
          res_addr := Some (get_network_struct source); res_buffer := data_of p |}.

(** The container of socket [s]. *)
Definition send_receive_response (s : nat) : udp_protocol unit :=
  c ← find_container s;
  match receive_event_ c, packet_queue_ c with
  | Some e, (_, p) :: q =>
      response ← plift (recv_from_response e p);
      _ ← store_container s (set_receive_event None (set_packet_queue q c));
      p_dispatch (ResponseEvent response)
  | _, _ => mret tt
  end.

Definition icontext_receive_packet (s : nat) (r : nat * udp_packet) : udp_protocol unit :=
  c ← find_container s;
  _ ← store_container s (set_packet_queue (packet_queue_ c ++ [r])%list c);
  _ ← send_receive_response s;
  modify_own count_received.

Definition icontext_receive (e : receive_event) : udp_protocol unit :=
  let s := le_socket (re_event e) in
  c ← find_container s;
  _ ← store_container s (set_receive_event (Some e) c);
  send_receive_response s.

Definition icontext_close (e : close_event) : udp_protocol unit :=
  _ ← p_dispatch (ResponseEvent (default_response (le_socket e) e 0 0));
  p_enqueue (DeleteSocketEvent (le_socket e)).

Definition icontext_delete_socket (s : nat) : udp_protocol unit := modify_own (fun o => with_map (delete s (map_ o)) o).

Definition on_wifu (f : wifu_packet → wifu_packet) (p : udp_packet) : udp_packet := {| wifu := f (wifu p) |}.

(** The datagram [icontext_send] builds; [new UDPPacket()] is cleared memory. *)
Definition datagram (destination local : address_port) (data : list Z) : outcome udp_packet :=
  p ← new_UDPPacket (replicate MTU 0);
  let p := with_ip_of (set_ip_destination_address_s (get_address destination) (ip_of p)) p in
  let p := on_wifu (set_destination_port (get_port destination)) p in
  let p := with_ip_of (set_ip_source_address_s (get_address local) (ip_of p)) p in
  let p := on_wifu (set_source_port (get_port local)) p in
  let p := with_ip_of (IPPacket.set_ip_protocol UDP (ip_of p)) p in
  p ← set_data data p;
  calculate_and_set_udp_checksum p.

Section Send.
(** SourceGetter: the operating system's choice of a source address. *)
Context (get_source_address : string → string).

(** A socket bound to every address is bound to the one that reaches the destination. *)
Definition bind_source (s : nat) (destination : address_port) : udp_protocol unit :=
  sk ← get_sock s;
  local ← plift (get_local_address_port sk);
  if String.eqb (get_address local) "0.0.0.0"%string then
    local_ap ← plift (new_AddressPort (get_source_address (get_address destination)) (get_port local));
    t ← pgets id;
    '(h, c) ← plift (set_local_address_port local_ap s (sockets t) (socket_collection t));
    update (with_collection h c)
  else mret tt.

Definition icontext_send (e : send_event) : udp_protocol unit :=
  let s := le_socket (se_event e) in
  let destination := AddressPort_of_sockaddr (se_addr e) in
  _ ← bind_source s destination;
  sk ← get_sock s;
  local ← plift (get_local_address_port sk);
  p ← plift (datagram destination local (se_data e));
  _ ← p_dispatch (NetworkSendDatagramEvent s p);
  _ ← p_dispatch (ResponseEvent (default_response s (se_event e) (i32 (Z.of_nat (length (se_data e)))) 0));
  modify_own count_sent.

(** The methods that do nothing include connect: a UDP socket's connect call gets no response. *)
#[local] Instance udp_module : ProtocolImpl udp udp_packet := {|
  protocol_ := UDP;
  Protocol.set_ip_protocol := fun n p => with_ip_of (IPPacket.set_ip_protocol n (ip_of p)) p;
  Protocol.icontext_socket := icontext_socket;
  icontext_bind := fun _ => mret tt;
  icontext_listen := fun _ _ => mret tt;
  Protocol.icontext_receive_packet := icontext_receive_packet;
  icontext_send_packet := fun _ _ => mret tt;
  icontext_connect := fun _ => mret tt;
  icontext_accept := fun _ => mret tt;
  icontext_new_connection_established := fun _ _ => mret tt;
  icontext_new_connection_initiated := fun _ _ _ => mret tt;
  Protocol.icontext_close := icontext_close;
  icontext_timer_fired_event := fun _ _ => mret tt;
  icontext_resend_packet := fun _ _ => mret tt;
  Protocol.icontext_send := icontext_send;
  Protocol.icontext_receive := icontext_receive;
  icontext_receive_buffer_not_empty := fun _ => mret tt;
  icontext_receive_buffer_not_full := fun _ => mret tt;
  icontext_send_buffer_not_empty := fun _ => mret tt;
  icontext_send_buffer_not_full := fun _ => mret tt;
  icontext_can_send := fun _ => mret true;
  icontext_can_receive := fun _ => mret true;
  Protocol.icontext_delete_socket := icontext_delete_socket;
  icontext_set_socket_option := fun _ _ _ => mret tt;
  icontext_get_socket_option := fun _ => mret tt |}.

End Send.

(** ** Receiving *)

(** A datagram that came off the network, within its buffer. *)
Record received_ok (p : udp_packet) : Prop := {
  recv_wf : UDPPacket.wf p;
  recv_length : 0 ≤ get_data_length_bytes p;
  recv_fits : Z.of_nat (get_data p) + get_data_length_bytes p ≤ Z.of_nat MTU }.

(** The answer to a receive call: to its caller, with the datagram's bytes, all of them. *)
Record answers (e : receive_event) (p : udp_packet) (x : effect) : Prop := {
  ans_response : ∃ r, x = Dispatch (ResponseEvent r) ∧ res_buffer r = data_of p ∧
    res_return_value r = Z.of_nat (length (data_of p)) ∧ res_errno r = 0 ∧ res_socket r = le_socket (re_event e) ∧
    res_fd r = le_fd (re_event e) ∧ res_destination r = le_source (re_event e) ∧ is_Some (res_addr r) }.

Lemma length_data_of p : received_ok p → Z.of_nat (length (data_of p)) = get_data_length_bytes p.
Proof.
  intros [[Hl _] H0 Hf]. unfold data_of. rewrite length_slice, Hl. lia.
Qed.

Lemma recv_from_response_spec e p :
  received_ok p → ∃ r, recv_from_response e p = Done r ∧ answers e p (Dispatch (ResponseEvent r)).
Proof.
  intros Hp. pose proof (length_data_of p Hp) as Hlen. destruct Hp as [Hwf H0 Hf]. unfold recv_from_response.
  destruct (get_source_address_port_Done (wifu p) Hwf) as (a & w & E & Hip & _). rewrite E.
  assert (get_data_length_bytes {| wifu := w |} = get_data_length_bytes p) as El by (unfold get_data_length_bytes, ip_of; cbn [wifu]; rewrite Hip; reflexivity).
  assert (data_of {| wifu := w |} = data_of p) as Ed by (unfold data_of, get_data, ip_of; rewrite El; cbn [wifu]; rewrite Hip; reflexivity).
  cbn [mbind outcome_bind mret outcome_ret]. eexists. split; [reflexivity |]. split. eexists. split; [reflexivity |]. cbn.
  rewrite Ed, El. split; [reflexivity |]. split; [| eauto 10].
  rewrite Hlen. apply i32_small. unfold MTU in Hf. lia.
Qed.

Inductive udp_input := Arrives (r : nat * udp_packet) | Calls (e : receive_event).

Definition handle (s : nat) (i : udp_input) : udp_protocol unit :=
  match i with Arrives r => icontext_receive_packet s r | Calls e => icontext_receive e end.
Fixpoint handle_all (s : nat) (l : list udp_input) : udp_protocol unit :=
  match l with [] => mret tt | i :: l => _ ← handle s i; handle_all s l end.

Definition arrivals (l : list udp_input) : list (nat * udp_packet) := omap (fun i => match i with Arrives r => Some r | Calls _ => None end) l.
Definition calls (l : list udp_input) : list receive_event := omap (fun i => match i with Calls e => Some e | Arrives _ => None end) l.

(** The calls that stand, oldest first, with [waiting] unanswered and [n] datagrams queued: the
    container holds one call, so a call that comes in while one waits takes its place. *)
Fixpoint standing (waiting : option receive_event) (n : nat) (l : list udp_input) : list receive_event :=
  match l with
  | [] => match waiting with Some e => [e] | None => [] end
  | Arrives _ :: l => match waiting with Some e => e :: standing None n l | None => standing None (S n) l end
  | Calls e :: l => match n with O => standing (Some e) O l | S n => e :: standing None n l end
  end.

(** The application calls receive only when no call of it waits. *)
Fixpoint sequential (waiting : bool) (n : nat) (l : list udp_input) : Prop :=
  match l with
  | [] => True
  | Arrives _ :: l => if waiting then sequential false n l else sequential false (S n) l
  | Calls _ :: l => waiting = false ∧ match n with O => sequential true O l | S n => sequential false n l end
  end.

Definition waiting_calls (c : udp_container) : list receive_event := match receive_event_ c with Some e => [e] | None => [] end.

Ltac run_u := unfold icontext_receive_packet, icontext_receive, send_receive_response, find_container, store_container, modify_own; run_p;
  cbn [map_ with_map count_received receive_event_ packet_queue_ set_receive_event set_packet_queue app].

Section Receiving.
Context (s : nat).

(** The calls [cs] and the datagrams [rs] are paired in order, and what is left over waits. *)
Definition settled (cs : list receive_event) (rs : list (nat * udp_packet)) (c : udp_container) (out : list effect) : Prop :=
  Forall2 (fun cr x => answers (fst cr) (snd (snd cr)) x) (zip cs rs) out ∧
  packet_queue_ c = drop (length cs) rs ∧ waiting_calls c = drop (length rs) cs.

Definition input_ok (i : udp_input) : Prop :=
  match i with Arrives r => received_ok (snd r) | Calls e => le_socket (re_event e) = s end.

(** A call waits only while no datagram does. *)
Record container_ok (c : udp_container) : Prop := {
  one_waits : receive_event_ c = None ∨ packet_queue_ c = [];
  queue_received : Forall (fun r => received_ok (snd r)) (packet_queue_ c) }.

Lemma handle_spec c i t :
  map_ (own t) !! s = Some c → container_ok c → input_ok i →
  ∃ c1 t1 out1, handle s i t = Done (tt, t1) ∧ map_ (own t1) !! s = Some c1 ∧ trace (tio t1) = (trace (tio t) ++ out1)%list ∧
    container_ok c1 ∧ ∀ l c' out, settled (standing (receive_event_ c1) (length (packet_queue_ c1)) l) (packet_queue_ c1 ++ arrivals l) c' out →
      settled (standing (receive_event_ c) (length (packet_queue_ c)) (i :: l)) (packet_queue_ c ++ arrivals (i :: l)) c' (out1 ++ out).
Proof.
  destruct c as [q w]. intros Hc [Hex Hq] Hi. cbn [packet_queue_ receive_event_] in *. destruct i as [r | e]; cbn [handle].
  - destruct w as [e |].
    + destruct Hex as [? | ->]; [discriminate |]. destruct (recv_from_response_spec e (snd r) Hi) as (x & Ex & Hx).
      destruct r as [a p]. cbn [snd] in *. eexists {| packet_queue_ := []; receive_event_ := None |}, _, [_]. split; [| split; [| split; [| split]]].
      * run_u. rewrite Hc. cbn [app]. rewrite lookup_insert_eq. run_u. rewrite Ex. reflexivity.
      * cbn. apply lookup_insert_eq.
      * reflexivity.
      * split; [auto | constructor].
      * intros l c' out (F & Q & W). split; [constructor; [exact Hx | exact F] | auto].
    + exists {| packet_queue_ := q ++ [r]; receive_event_ := None |}. eexists _, []. split; [| split; [| split; [| split]]].
      * run_u. rewrite Hc. rewrite lookup_insert_eq. destruct r. reflexivity.
      * cbn. apply lookup_insert_eq.
      * cbn. rewrite app_nil_r. reflexivity.
      * split; [auto |]. cbn. apply Forall_app. auto.
      * intros l c' out. cbn [packet_queue_ receive_event_ standing arrivals omap list_omap app].
        rewrite length_app, <- app_assoc. cbn [length app]. rewrite Nat.add_1_r. auto.
  - destruct q as [| [a p] q].
    + exists {| packet_queue_ := []; receive_event_ := Some e |}. eexists _, []. split; [| split; [| split; [| split]]].
      * run_u. rewrite Hi, Hc. rewrite lookup_insert_eq. reflexivity.
      * cbn. apply lookup_insert_eq.
      * cbn. rewrite app_nil_r. reflexivity.
      * split; [auto | constructor].
      * auto.
    + destruct Hex as [-> | ?]; [| discriminate]. apply Forall_cons in Hq as [Hp Hq]. destruct (recv_from_response_spec e p Hp) as (x & Ex & Hx).
      exists {| packet_queue_ := q; receive_event_ := None |}. eexists _, [_]. split; [| split; [| split; [| split]]].
      * run_u. rewrite Hi, Hc. rewrite lookup_insert_eq. run_u. rewrite Ex. reflexivity.
      * cbn. apply lookup_insert_eq.
      * reflexivity.
      * split; auto.
      * intros l c' out (F & Q & W). split; [constructor; [exact Hx | exact F] | auto].
Qed.

Lemma standing_sublist w n l : standing w n l `sublist_of` (match w with Some e => [e] | None => [] end ++ calls l)%list.
Proof.
  revert w n. induction l as [| [r | e] l IH]; intros w n; cbn [standing calls omap list_omap].
  - rewrite app_nil_r. reflexivity.
  - destruct w as [e |]; [apply sublist_skip; apply (IH None) | apply (IH None)].
  - destruct n; [| destruct w; [apply sublist_cons |]; apply sublist_skip; apply (IH None)].
    etransitivity; [apply (IH (Some e)) |]. destruct w; [apply sublist_cons |]; reflexivity.
Qed.

Lemma standing_sequential w n l :
  sequential (match w with Some _ => true | None => false end) n l → standing w n l = (match w with Some e => [e] | None => [] end ++ calls l)%list.
Proof.
  revert w n. induction l as [| [r | e] l IH]; intros w n; cbn [standing sequential calls omap list_omap].
  - rewrite app_nil_r. reflexivity.
  - destruct w as [e |]; intros Hs; rewrite (IH None) by exact Hs; reflexivity.
  - intros [Hw Hs]. destruct w; [discriminate |]. destruct n; [rewrite (IH (Some e)) by exact Hs | rewrite (IH None) by exact Hs]; reflexivity.
Qed.

(** C18: UDP receive is a queue on both sides. Whatever the order in which datagrams arrive and
    receive calls come in: a call that comes in while another of the socket waits takes its
    place, and that one is never answered; of the calls that stand, the n-th is answered with
    the n-th datagram, whole, once both are there, nothing else is answered, and what is left
    over waits in order. An application that calls only while no call of it waits loses none. *)
Theorem udp_receive_fifo l c t :
  map_ (own t) !! s = Some c → container_ok c → Forall input_ok l →
  let cs := standing (receive_event_ c) (length (packet_queue_ c)) l in
  ∃ c' t' out, handle_all s l t = Done (tt, t') ∧ map_ (own t') !! s = Some c' ∧ trace (tio t') = (trace (tio t) ++ out)%list ∧
    settled cs (packet_queue_ c ++ arrivals l) c' out ∧
    cs `sublist_of` (waiting_calls c ++ calls l) ∧
    (sequential (match receive_event_ c with Some _ => true | None => false end) (length (packet_queue_ c)) l →
     cs = (waiting_calls c ++ calls l)%list).
Proof.
  intros Hc Hok Hl cs.
  assert (∃ c' t' out, handle_all s l t = Done (tt, t') ∧ map_ (own t') !! s = Some c' ∧ trace (tio t') = (trace (tio t) ++ out)%list ∧
    settled cs (packet_queue_ c ++ arrivals l) c' out) as (c' & t' & out & E & Hc' & Ht & Hs).
  2: { exists c', t', out. do 4 (split; [assumption |]). split; [apply standing_sublist | apply standing_sequential]. }
  subst cs. revert c t Hc Hok. induction Hl as [| i l Hi Hl IH]; intros c t Hc [Hex Hq].
  { exists c, t, []. split; [reflexivity |]. split; [exact Hc |]. split; [symmetry; apply app_nil_r |].
    unfold settled, waiting_calls. cbn. rewrite app_nil_r.
    destruct Hex as [-> | ->]; cbn; rewrite ?drop_0, ?drop_nil; [repeat constructor |]. destruct (receive_event_ c); repeat constructor. }
  destruct (handle_spec c i t Hc (Build_container_ok _ Hex Hq) Hi) as (c1 & t1 & out1 & E1 & Hc1 & Ht1 & Hok1 & S1).
  destruct (IH c1 t1 Hc1 Hok1) as (c' & t' & out2 & E2 & Hc' & Ht' & S2).
  exists c', t', (out1 ++ out2)%list. split; [| split; [exact Hc' | split]].
  - cbn [handle_all]. cbv beta delta [mbind protocol_bind]. rewrite E1. exact E2.
  - rewrite Ht', Ht1, app_assoc. reflexivity.
  - exact (S1 _ _ _ S2).
Qed.
End Receiving.

(** ** Sending *)

Lemma recalculated_checksum p : datagram_ok p → is_valid_udp_checksum p = Done (true, p) → calculate_and_set_udp_checksum p = Done p.
Proof.
  intros Hp Hv. rewrite is_valid_udp_checksum_eq in Hv by assumption. injection Hv as E. apply Z.eqb_eq in E.
  rewrite calculate_and_set_udp_checksum_eq, <- E, set_checksum_get by (assumption || apply Hp). reflexivity.
Qed.

(** Writing a field of the addresses, ports or protocol. *)
Lemma set_header_fields f v p :
  field_ok MTU f = true → disjoint f_ihl f = true → UDPPacket.wf p ∧ get_ip_header_length_words (ip_of p) = 5 →
  let p' := with_ip_of (set_field f v (ip_of p)) p in
  (UDPPacket.wf p' ∧ get_ip_header_length_words (ip_of p') = 5) ∧ get_field f (ip_of p') = v mod 2 ^ width f ∧
  ∀ g, disjoint g f = true → get_field g (ip_of p') = get_field g (ip_of p).
Proof.
  intros Hf Hd [Hw Hi] p'. split; [split; [apply wf_set_field; assumption |] | split].
  - unfold get_ip_header_length_words. change (ip_of p') with (set_field f v (ip_of p)). rewrite get_set_other by assumption. exact Hi.
  - apply (get_set_same f v (ip_of p)); assumption.
  - intros g Hg. apply (get_set_other g f v (ip_of p)); assumption.
Qed.

Lemma fresh_datagram :
  ∃ p, new_UDPPacket (replicate MTU 0) = Done p ∧ UDPPacket.wf p ∧ get_ip_header_length_words (ip_of p) = 5.
Proof.
  destruct (new_IPPacket_spec (replicate MTU 0) (length_replicate _ _)) as (q & E & Hq & Hi).
  { apply Forall_replicate. unfold is_byte. lia. }
  unfold new_UDPPacket, new_WiFuPacket. rewrite E. cbn [mbind outcome_bind mret outcome_ret]. eexists. split; [reflexivity |].
  pose proof (wf_set_ip_tot_length (get_ip_header_length_bytes q + sizeof_wifu_packet_header) q Hq) as H1. split.
  - apply (wf_set_ip_tot_length _ (set_ip_tot_length (get_ip_header_length_bytes q + sizeof_wifu_packet_header) q)), H1.
  - unfold get_ip_header_length_words, ip_of, with_ip_of. cbn [wifu with_ip ip]. rewrite !get_set_tot_length_other by (reflexivity || assumption). exact Hi.
Qed.

(** What leaves: a valid datagram between the addresses and ports given, with the data. *)
Record carries (destination source : Z * Z) (data : list Z) (p : udp_packet) : Prop := {
  car_valid : is_valid_udp_checksum p = Done (true, p);
  car_data : data_of p = data;
  car_daddr : get_field f_daddr (ip_of p) = fst destination;
  car_dport : get_field f_dport (ip_of p) = snd destination;
  car_saddr : get_field f_saddr (ip_of p) = fst source;
  car_sport : get_field f_sport (ip_of p) = snd source;
  car_protocol : get_field f_protocol (ip_of p) = UDP }.

Lemma datagram_spec destination local a b data :
  inet_pton (get_address destination) = Some a → inet_pton (get_address local) = Some b → is_u32 a → is_u32 b →
  Forall is_byte data → (length data ≤ MTU - 28)%nat →
  ∃ p, datagram destination local data = Done p ∧
    carries (a, u16 (get_port destination)) (b, u16 (get_port local)) data p.
Proof.
  intros Ha Hb Ua Ub Hd Hl. destruct fresh_datagram as (p0 & E0 & W0). unfold datagram. rewrite E0. cbn [mbind outcome_bind].
  unfold set_ip_destination_address_s, set_ip_source_address_s. rewrite Ha, Hb.
  unfold set_ip_destination_address, set_ip_source_address, IPPacket.set_ip_protocol, set_destination_port, set_source_port, on_wifu.
  destruct (set_header_fields f_daddr a p0 eq_refl eq_refl W0) as (W1 & V1 & _).
  set (p1 := with_ip_of (set_field f_daddr a (ip_of p0)) p0) in *.
  destruct (set_header_fields f_dport (get_port destination) p1 eq_refl eq_refl W1) as (W2 & V2 & K2).
  set (p2 := with_ip_of (set_field f_dport (get_port destination) (ip_of p1)) p1) in *.
  destruct (set_header_fields f_saddr b p2 eq_refl eq_refl W2) as (W3 & V3 & K3).
  set (p3 := with_ip_of (set_field f_saddr b (ip_of p2)) p2) in *.
  destruct (set_header_fields f_sport (get_port local) p3 eq_refl eq_refl W3) as (W4 & V4 & K4).
  set (p4 := with_ip_of (set_field f_sport (get_port local) (ip_of p3)) p3) in *.
  destruct (set_header_fields f_protocol UDP p4 eq_refl eq_refl W4) as (W5 & V5 & K5).
  set (p5 := with_ip_of (set_field f_protocol UDP (ip_of p4)) p4) in *.
  destruct (set_data_datagram data p5 (proj1 W5) (proj2 W5) Hd Hl) as (p & E & Hp & Dp & _ & _ & Hv & Hf).
  exists p. split.
  - transitivity (set_data data p5 ≫= calculate_and_set_udp_checksum); [reflexivity |]. rewrite E. apply recalculated_checksum; assumption.
  - split; [exact Hv | exact Dp |..]; rewrite Hf by (rewrite !elem_of_cons; tauto); cbn [fst snd].
    + rewrite K5, K4, K3, K2 by reflexivity. etransitivity; [exact V1 | apply u32_small, Ua].
    + rewrite K5, K4, K3 by reflexivity. exact V2.
    + rewrite K5, K4 by reflexivity. etransitivity; [exact V3 | apply u32_small, Ub].
    + rewrite K5 by reflexivity. exact V4.
    + exact V5.
Qed.

(** A sendto call on a bound UDP socket. For data that fits one datagram, exactly one
    datagram leaves: to the address and port of the call, from the socket's, with exactly the
    data, the protocol number and a checksum that the receiver's test accepts; the call is
    answered with the number of bytes. Neither the queue nor the waiting call is touched. *)
Theorem udp_send get_source_address e t sk local b :
  sockets t !! le_socket (se_event e) = Some sk → local_ sk = Some local →
  get_address local ≠ "0.0.0.0"%string → inet_pton (get_address local) = Some b → is_u32 b →
  is_u32 (sin_addr (se_addr e)) → is_u16 (sin_port (se_addr e)) → is_u16 (get_port local) →
  Forall is_byte (se_data e) → (length (se_data e) ≤ MTU - 28)%nat →
  ∃ p t', icontext_send get_source_address e t = Done (tt, t') ∧
    carries (sin_addr (se_addr e), sin_port (se_addr e)) (b, get_port local) (se_data e) p ∧
    trace (tio t') = (trace (tio t) ++ [Dispatch (NetworkSendDatagramEvent (le_socket (se_event e)) p);
      Dispatch (ResponseEvent (default_response (le_socket (se_event e)) (se_event e) (Z.of_nat (length (se_data e))) 0))])%list ∧
    own t' = count_sent (own t) ∧ sockets t' = sockets t.
Proof.
  intros Hs Hl Hany Hb Ub Ua Up Ul Hd Hlen.
  set (destination := AddressPort_of_sockaddr (se_addr e)).
  destruct (datagram_spec destination local (sin_addr (se_addr e)) b (se_data e) (inet_pton_ntop _ Ua) Hb Ua Ub Hd Hlen) as (p & E & Hp).
  exists p. eexists. split; [| split; [| split; [| split]]].
  - unfold icontext_send, bind_source, get_local_address_port, modify_own. fold destination. run_p. rewrite Hs, Hl. run_p.
    rewrite (proj2 (String.eqb_neq _ _) Hany). run_p. rewrite Hs, Hl. run_p. rewrite E. reflexivity.
  - cbn [get_port destination AddressPort_of_sockaddr port_] in Hp. rewrite !u16_small in Hp by (rewrite ?u16_small; assumption). exact Hp.
  - cbn [tio with_own with_io add_trace trace]. rewrite <- app_assoc, i32_small by (unfold MTU in Hlen; lia). reflexivity.
  - reflexivity.
  - reflexivity.
Qed.

(** ** Concrete runs *)

Definition sample_address (p : Z) : address_port := address_port_of 16909060 p.
Definition sample_udp (data : list Z) : udp_packet :=
  match datagram (sample_address 53) (sample_address 99) data with Done p => p | Fault _ => {| wifu := {| ip := zero_packet; source_ := None; dest_ := None |} |} end.

Definition udp_world (sk : socket) : world udp :=
  {| sockets_ := {[ 5%nat ]}; own := {| map_ := {[ 5%nat := new_SimpleUDPContainer ]}; sent := 0; received := 0 |};
     sockets := {[ 5%nat := sk ]}; socket_collection := ∅; tio := {| next_pointer := 9; now := 0; trace := [] |} |}.

Definition received_check (p : udp_packet) : bool :=
  Nat.eqb (length (payload_ (ip_of p))) MTU && forallb (fun b => (0 <=? b) && (b <? 256)) (payload_ (ip_of p))
  && (0 <=? get_data_length_bytes p) && (Z.of_nat (get_data p) + get_data_length_bytes p <=? Z.of_nat MTU).

Lemma received_check_ok p : received_check p = true → received_ok p.
Proof.
  unfold received_check. intros [[[Hl%Nat.eqb_eq Hb]%andb_true_iff H0%Z.leb_le]%andb_true_iff Hf%Z.leb_le]%andb_true_iff.
  split; [split; [exact Hl |] | exact H0 | exact Hf]. apply List.Forall_forall. intros b Hin.
  rewrite forallb_forall in Hb. specialize (Hb b Hin). unfold is_byte. lia.
Qed.

Definition sample_call (fd : Z) : receive_event :=
  {| re_event := {| le_socket := 5; le_message_type := 9; le_fd := fd; le_source := "app" |}; re_data_length := 100 |}.
Lemma sample_received : ∃ p q, received_ok p ∧ received_ok q ∧ data_of p = [104; 105] ∧ data_of q = [106].
Proof.
  exists (sample_udp [104; 105]), (sample_udp [106]).
  split; [apply received_check_ok; vm_compute; reflexivity |]. split; [apply received_check_ok; vm_compute; reflexivity |].
  split; vm_compute; reflexivity.
Qed.

(** Two calls and two datagrams, the first call waits and the second finds its datagram; and
    two calls before a datagram, which answers the second. *)
Lemma udp_receive_fifo_witness :
  ∃ p q, data_of p = [104; 105] ∧ data_of q = [106] ∧
    (∃ t' a b, handle_all 5 [Calls (sample_call 1); Arrives (1%nat, p); Arrives (2%nat, q); Calls (sample_call 2)]
        (udp_world (sample_socket 1 default_address_port)) = Done (tt, t') ∧
      trace (tio t') = [a; b] ∧ answers (sample_call 1) p a ∧ answers (sample_call 2) q b) ∧
    (∃ t' a, handle_all 5 [Calls (sample_call 1); Calls (sample_call 2); Arrives (1%nat, p)]
        (udp_world (sample_socket 1 default_address_port)) = Done (tt, t') ∧
      trace (tio t') = [a] ∧ answers (sample_call 2) p a).
Proof.
  destruct sample_received as (p & q & Hp & Hq & Dp & Dq). exists p, q. split; [exact Dp |]. split; [exact Dq |]. split.
  - destruct (udp_receive_fifo 5 [Calls (sample_call 1); Arrives (1%nat, p); Arrives (2%nat, q); Calls (sample_call 2)]
      new_SimpleUDPContainer (udp_world (sample_socket 1 default_address_port))) as (c' & t' & out & E & _ & Ht & (F & _) & _).
    + apply lookup_singleton_eq.
    + split; [left; reflexivity | constructor].
    + repeat apply Forall_cons_2; [reflexivity | exact Hp | exact Hq | reflexivity | constructor].
    + cbn in F. apply Forall2_cons_inv_l in F as (a & out1 & Ha & F & ->). apply Forall2_cons_inv_l in F as (b & out2 & Hb & F & ->).
      apply Forall2_nil_inv_l in F as ->. exists t', a, b. auto 10.
  - destruct (udp_receive_fifo 5 [Calls (sample_call 1); Calls (sample_call 2); Arrives (1%nat, p)]
      new_SimpleUDPContainer (udp_world (sample_socket 1 default_address_port))) as (c' & t' & out & E & _ & Ht & (F & _) & _).
    + apply lookup_singleton_eq.
    + split; [left; reflexivity | constructor].
    + repeat apply Forall_cons_2; [reflexivity | reflexivity | exact Hp | constructor].
    + cbn in F. apply Forall2_cons_inv_l in F as (a & out1 & Ha & F & ->). apply Forall2_nil_inv_l in F as ->. exists t', a. auto 10.
Defined.

Definition sample_sendto : send_event :=
  {| se_event := {| le_socket := 5; le_message_type := 8; le_fd := 3; le_source := "app" |};
     se_addr := {| sin_addr := 84281096; sin_port := 53 |}; se_data := [104; 105] |}.

Lemma udp_send_witness :
  ∃ p t', icontext_send (fun a => a) sample_sendto (udp_world (sample_socket 1 (sample_address 99))) = Done (tt, t') ∧
    carries (84281096, 53) (16909060, 99) [104; 105] p.
Proof.
  destruct (udp_send (fun a => a) sample_sendto (udp_world (sample_socket 1 (sample_address 99))) (sample_socket 1 (sample_address 99))
    (sample_address 99) 16909060) as (p & t' & E & Hp & _).
  - apply lookup_singleton_eq.
  - reflexivity.
  - vm_compute. discriminate.
  - vm_compute. reflexivity.
  - split; [discriminate | reflexivity].
  - split; [discriminate | reflexivity].
  - split; [discriminate | reflexivity].
  - split; [discriminate | reflexivity].
  - repeat constructor; discriminate.
  - apply Nat.leb_le. vm_compute. reflexivity.
  - exists p, t'. auto.
Defined.

(** ** Behaviour the code does not intend *)

(** The answer to a receive call holds the whole datagram, also when the call asked for less. *)
Lemma receive_ignores_length :
  ∃ p r, recv_from_response {| re_event := re_event (sample_call 1); re_data_length := 1 |} p = Done r ∧ res_return_value r = 2.
Proof.
  destruct sample_received as (p & _ & Hp & _ & Dp & _). exists p.
  destruct (recv_from_response_spec {| re_event := re_event (sample_call 1); re_data_length := 1 |} p Hp) as (r & E & [(r' & [= <-] & _ & Hv & _)]).
  exists r. split; [exact E |]. rewrite Hv, Dp. reflexivity.
Qed.

(** A connect call on a UDP socket is never answered. *)
Lemma connect_unanswered get_source_address e t : @Protocol.icontext_connect _ _ (udp_module get_source_address) e t = Done (tt, t).
Proof. reflexivity. Qed.
