(* ===== verification/Queues.v ===== *)
(** * Queues (transport/headers/PriorityQueue.h, Queue.h, Set.h)

    The queue of a module. [PriorityQueue] keeps a list ordered by a comparator and
    inserts behind everything that is not after the new element. The semaphores
    only make each operation atomic and let [dequeue] wait; a [dequeue] that
    would wait is [None]. *)
From stdpp Require Import sorting.
From S2P Require Import Prelude.

(** A comparator [list] can be kept ordered by. *)
Class StrictWeakOrder {A} (before : A → A → bool) := {
  before_asym : ∀ x y, before x y = true → before y x = false;
  before_weak : ∀ x y z, before x z = true → before x y = true ∨ before y z = true }.

Section PriorityQueue.
Context {A : Type} (before : A → A → bool).

(** [upper_bound(q_.begin(), q_.end(), obj, comparator_)] *)
Fixpoint upper_bound (obj : A) (q : list A) : nat :=
  match q with [] => 0%nat | x :: q => if before obj x then 0%nat else S (upper_bound obj q) end.
Definition enqueue (obj : A) (q : list A) : list A :=
  let i := upper_bound obj q in (take i q ++ obj :: drop i q)%list.
Definition dequeue (q : list A) : option (A * list A) := match q with [] => None | value :: q => Some (value, q) end.
Definition top (q : list A) : outcome A := match q with [] => Fault OutOfBounds | value :: _ => Done value end.
Definition size (q : list A) : nat := length q.
Definition is_empty (q : list A) : bool := Nat.eqb (size q) 0.

(** ** What a priority queue promises

    Its abstract state is what was enqueued, in that order. [dequeue] takes, of the
    elements that none other goes before, the one that came first. *)
Definition minimal (l : list A) (x : A) : bool := forallb (fun y => negb (before y x)) l.
Fixpoint first_minimal (l : list A) (rest : list A) : option (A * list A) :=
  match rest with
  | [] => None
  | x :: rest =>
      if minimal l x then Some (x, rest)
      else match first_minimal l rest with Some (y, rest) => Some (y, x :: rest) | None => None end
  end.
Definition spec_dequeue (l : list A) : option (A * list A) := first_minimal l l.

Inductive operation := Enqueue (obj : A) | Dequeue.
(** The results of the dequeues of a sequence of operations; one on an empty queue gives [None]. *)
Fixpoint run (enq : A → list A → list A) (deq : list A → option (A * list A)) (ops : list operation) (q : list A) : list (option A) :=
  match ops with
  | [] => []
  | Enqueue obj :: ops => run enq deq ops (enq obj q)
  | Dequeue :: ops => match deq q with Some (x, q) => Some x :: run enq deq ops q | None => None :: run enq deq ops q end
  end.

(** The concrete state of an abstract one. *)
Definition sorted (l : list A) : list A := foldl (fun q x => enqueue x q) [] l.

Lemma sorted_snoc l x : sorted (l ++ [x]) = enqueue x (sorted l).
Proof. unfold sorted. rewrite foldl_app. reflexivity. Qed.

Lemma enqueue_cons x y q : enqueue x (y :: q) = if before x y then x :: y :: q else y :: enqueue x q.
Proof. unfold enqueue. cbn [upper_bound]. destruct (before x y); reflexivity. Qed.

Lemma enqueue_permutation x q : enqueue x q ≡ₚ x :: q.
Proof. unfold enqueue. rewrite <- Permutation_middle, take_drop. reflexivity. Qed.

(** Ordered by the comparator. *)
Definition ordered : list A → Prop := StronglySorted (fun x y => before y x = false).

Lemma minimal_snoc l x y : minimal (l ++ [x]) y = minimal l y && negb (before x y).
Proof. unfold minimal. rewrite forallb_app. cbn. rewrite andb_true_r. reflexivity. Qed.

Context `{!StrictWeakOrder before}.

Lemma enqueue_ordered x q : ordered q → ordered (enqueue x q).
Proof.
  unfold ordered. induction q as [|y q IH]; intros Hq; [repeat constructor |]. rewrite enqueue_cons.
  apply StronglySorted_inv in Hq as [Hq Hy]. destruct (before x y) eqn:Exy.
  - constructor; [constructor; assumption |]. constructor; [apply before_asym, Exy |].
    apply (Forall_impl _ _ _ Hy). intros z Hz. destruct (before z x) eqn:Ezx; [| reflexivity].
    destruct (before_weak z y x Ezx) as [H|H]; [congruence |]. rewrite (before_asym x y Exy) in H. discriminate.
  - constructor; [apply IH, Hq |]. rewrite enqueue_permutation. constructor; assumption.
Qed.

Lemma first_minimal_keep l x rest y rest' :
  before x y = false → first_minimal l rest = Some (y, rest') → first_minimal (l ++ [x]) (rest ++ [x]) = Some (y, rest' ++ [x]).
Proof.
  intros Hxy. revert rest'. induction rest as [|z rest IH]; intros rest' E; [discriminate |].
  cbn [first_minimal app] in *. rewrite minimal_snoc. destruct (minimal l z); cbn [andb].
  - injection E as -> <-. rewrite Hxy. reflexivity.
  - destruct (first_minimal l rest) as [[y' r]|]; [| discriminate]. injection E as -> <-. rewrite (IH r eq_refl). reflexivity.
Qed.

Lemma first_minimal_last l x rest :
  (∀ y, y ∈ rest → before x y = true) → minimal (l ++ [x]) x = true → first_minimal (l ++ [x]) (rest ++ [x]) = Some (x, rest).
Proof.
  intros Hlt Hx. induction rest as [|z rest IH]; cbn [first_minimal app]; [rewrite Hx; reflexivity |].
  rewrite minimal_snoc, (Hlt z) by apply list_elem_of_here. rewrite andb_false_r, IH; [reflexivity |].
  intros y Hy. apply Hlt, list_elem_of_further, Hy.
Qed.

Lemma first_minimal_minimal l rest y rest' : first_minimal l rest = Some (y, rest') → minimal l y = true.
Proof.
  revert rest'. induction rest as [|z rest IH]; intros rest' E; [discriminate |]. cbn [first_minimal] in E.
  destruct (minimal l z) eqn:Ez; [injection E as -> _; exact Ez |].
  destruct (first_minimal l rest) as [[y' r]|]; [| discriminate]. injection E as -> _. apply (IH r eq_refl).
Qed.

(** One dequeue. *)
Lemma dequeue_sorted l :
  match dequeue (sorted l) with
  | Some (x, q) => ∃ l', spec_dequeue l = Some (x, l') ∧ q = sorted l'
  | None => l = []
  end.
Proof.
  induction l as [|x l IH] using rev_ind; [reflexivity |]. rewrite sorted_snoc. destruct (sorted l) as [|h t] eqn:E; cbn [dequeue] in IH.
  - subst l. cbn. unfold spec_dequeue, minimal. cbn. exists [].
    destruct (before x x) eqn:Ex; [pose proof (before_asym x x Ex); congruence | auto].
  - destruct IH as (l' & Eh & ->). rewrite enqueue_cons. pose proof (first_minimal_minimal _ _ _ _ Eh) as Hh.
    destruct (before x h) eqn:Exh; cbn [dequeue].
    + exists l. split; [| symmetry; exact E]. unfold minimal in Hh. rewrite forallb_forall in Hh.
      assert (∀ y, y ∈ l → before x y = true) as Hlt.
      { intros y Hy%list_elem_of_In. destruct (before_weak x y h Exh) as [H|H]; [exact H |].
        apply Hh in Hy. rewrite H in Hy. discriminate. }
      apply first_minimal_last; [exact Hlt |]. rewrite minimal_snoc. apply andb_true_iff. split.
      * unfold minimal. rewrite forallb_forall. intros y Hy%list_elem_of_In. rewrite (before_asym x y) by auto. reflexivity.
      * destruct (before x x) eqn:Ex; [pose proof (before_asym x x Ex); congruence | reflexivity].
    + exists (l' ++ [x])%list. split; [apply first_minimal_keep; assumption | symmetry; apply sorted_snoc].
Qed.

(** PriorityQueue implements its specification. In any sequence of enqueues and
    dequeues from an empty queue, every dequeue gives what the specification gives: among the
    elements no other goes before, the one enqueued first. *)
Theorem priority_queue_refines ops :
  run enqueue dequeue ops [] = run (fun x l => l ++ [x])%list spec_dequeue ops [].
Proof.
  assert (∀ l, run enqueue dequeue ops (sorted l) = run (fun x l => l ++ [x])%list spec_dequeue ops l) as H; [| apply (H [])].
  induction ops as [|[x|] ops IH]; intros l; cbn [run]; [reflexivity | |].
  - rewrite <- sorted_snoc. apply IH.
  - pose proof (dequeue_sorted l) as H. destruct (dequeue (sorted l)) as [[x q]|].
    + destruct H as (l' & -> & ->). rewrite IH. reflexivity.
    + subst l. cbn. f_equal. apply (IH []).
Qed.

End PriorityQueue.

(** A comparator that compares numbers is one. *)
Lemma key_order {A} (key : A → Z) : StrictWeakOrder (fun x y => key x <? key y).
Proof. split; intros; rewrite ?Z.ltb_lt, ?Z.ltb_ge in *; lia. Qed.

Lemma priority_queue_refines_witness :
  StrictWeakOrder Z.ltb ∧
  run (enqueue Z.ltb) dequeue [Enqueue 3; Enqueue 1; Enqueue 2; Dequeue; Enqueue 0; Dequeue; Dequeue; Dequeue; Dequeue] []
  = run (fun x l => l ++ [x])%list (spec_dequeue Z.ltb) [Enqueue 3; Enqueue 1; Enqueue 2; Dequeue; Enqueue 0; Dequeue; Dequeue; Dequeue; Dequeue] [].
Proof.
  pose proof (key_order (fun x : Z => x)) as H. split; [exact H |]. apply (@priority_queue_refines Z Z.ltb H).
Defined.
