(* ===== verification/ConcurrentQueue.v ===== *)
(** * Semaphores and the queues that threads share (Semaphore.cc, BinarySemaphore.cc,
      headers/PriorityQueue.h, headers/Queue.h)

    Both queues guard a container with one semaphore and count its elements with another, on
    which [dequeue] waits. Here every operation on a semaphore or on the container is a step of its
    own ([upper_bound] and [insert], [front] and [pop_front] are two each), and the steps of any
    number of threads interleave: what a thread has seen of the container is only good as long as
    the semaphore keeps the others out. [position] is where an element enters the container: in
    order for a PriorityQueue, at the end for a Queue. [is_empty] is [size] compared with 0; the
    signal that [enqueue] can raise does not touch the queue and is left out. *)
From stdpp Require Import gmap.
From S2P Require Import Prelude.
From S2P Require Import Queues.

(** ** Semaphores

    The value of the semaphore; [None] when the caller has to wait. *)
Definition sem_init (value : nat) : nat := value.
Definition sem_post (value : nat) : nat := S value.
Definition sem_wait (value : nat) : option nat := match value with O => None | S n => Some n end.
Definition sem_try_wait (value : nat) : nat := match value with O => O | S n => n end.

(** [timed_wait]: what [sem_timedwait] does, when the deadline passes first or a signal comes,
    shows only in [errno], which is cleared if it says so. *)
Inductive errno := NoError | ETIMEDOUT | OtherError.
Inductive wakeup := Posted | DeadlinePassed | Interrupted.
Definition report (e : errno) (value : nat) : bool * errno * nat :=
  match e with ETIMEDOUT => (true, NoError, value) | _ => (false, e, value) end.
Definition sem_timed_wait (w : wakeup) (e : errno) (value : nat) : option (bool * errno * nat) :=
  match value, w with
  | S n, _ => Some (report e n)
  | O, Posted => None
  | O, DeadlinePassed => Some (report ETIMEDOUT O)
  | O, Interrupted => Some (report OtherError O)
  end.

Definition binary_init (value : nat) : nat := match value with O => O | _ => 1%nat end.
Definition binary_post (value : nat) : nat := sem_post (sem_try_wait value).

Section Queue.
Context {A : Type} (position : A → list A → nat).

(** ** The queue *)

Inductive call := Enqueue (obj : A) | Dequeue | Top | Size | Clear.
(** [top] returns a reference to the element that is the front when it looks; its caller reads
    through it after the semaphore was given back, when the element may be gone. *)
Inductive result := Nothing | Value (x : A) | Reference (x : A) | Count (n : nat).

(** What is left to do at the container after the first look at it. *)
Inductive rest := InsertAt (i : nat) (obj : A) | PopFront (value : A) | KeepReference (val : A) | ReadSize | Wipe.

(** Where a thread is in a call: at [counter_.wait()], at [sem_.wait()], at the container, there
    after a look, at [sem_.post()], and, in [enqueue], at [counter_.post()]. *)
Inductive place :=
| AtCounter
| AtSem (c : call)
| Inside (c : call)
| Looked (c : call) (k : rest)
| Posting (c : call) (r : result)
| Counting (obj : A).

Inductive event :=
| Called (t : nat) (c : call)
| Effect (t : nat) (c : call) (r : result)
| Returned (t : nat) (r : result).

Record queue := { q_ : list A; sem_ : nat; counter_ : nat; threads : gmap nat place; events : list event }.

Definition new_queue : queue := {| q_ := []; sem_ := sem_init 1; counter_ := sem_init 0; threads := ∅; events := [] |}.

Definition at_place (t : nat) (p : place) (s : queue) : queue :=
  {| q_ := q_ s; sem_ := sem_ s; counter_ := counter_ s; threads := <[t := p]> (threads s); events := events s |}.
Definition with_sem (n : nat) (s : queue) : queue :=
  {| q_ := q_ s; sem_ := n; counter_ := counter_ s; threads := threads s; events := events s |}.
Definition with_counter (n : nat) (s : queue) : queue :=
  {| q_ := q_ s; sem_ := sem_ s; counter_ := n; threads := threads s; events := events s |}.
Definition with_event (e : event) (s : queue) : queue :=
  {| q_ := q_ s; sem_ := sem_ s; counter_ := counter_ s; threads := threads s; events := events s ++ [e] |}.
Definition with_q (q : list A) (s : queue) : queue :=
  {| q_ := q; sem_ := sem_ s; counter_ := counter_ s; threads := threads s; events := events s |}.

Definition return_ (t : nat) (r : result) (s : queue) : queue :=
  with_event (Returned t r) {| q_ := q_ s; sem_ := sem_ s; counter_ := counter_ s; threads := delete t (threads s); events := events s |}.

(** The first operation of a call on the container. Looking at the front of an empty one is
    undefined. *)
Definition look (c : call) (q : list A) : outcome rest :=
  match c with
  | Enqueue obj => Done (InsertAt (position obj q) obj)
  | Dequeue => match q with value :: _ => Done (PopFront value) | [] => Fault OutOfBounds end
  | Top => match q with val :: _ => Done (KeepReference val) | [] => Fault OutOfBounds end
  | Size => Done ReadSize
  | Clear => Done Wipe
  end.

(** The second, on the container as it is then. *)
Definition finish (k : rest) (q : list A) : outcome (list A * result) :=
  match k with
  | InsertAt i obj => Done ((take i q ++ obj :: drop i q)%list, Nothing)
  | PopFront value => match q with _ :: q => Done (q, Value value) | [] => Fault OutOfBounds end
  | KeepReference val => Done (q, Reference val)
  | ReadSize => Done (q, Count (length q))
  | Wipe => Done ([], Nothing)
  end.

(** What a call does to the container when nobody else is there. *)
Definition access (c : call) (q : list A) : outcome (list A * result) := k ← look c q; finish k q.

(** A call begins. *)
Definition start (t : nat) (c : call) (s : queue) : queue :=
  with_event (Called t c) (at_place t (match c with Dequeue => AtCounter | _ => AtSem c end) s).

(** The next step of a thread; [None] when it has to wait. *)
Definition go (t : nat) (s : queue) : outcome (option queue) :=
  match threads s !! t with
  | None => Done None
  | Some AtCounter =>
      Done (match sem_wait (counter_ s) with Some n => Some (at_place t (AtSem Dequeue) (with_counter n s)) | None => None end)
  | Some (AtSem c) =>
      Done (match sem_wait (sem_ s) with Some n => Some (at_place t (Inside c) (with_sem n s)) | None => None end)
  | Some (Inside c) => k ← look c (q_ s); Done (Some (at_place t (Looked c k) s))
  | Some (Looked c k) =>
      '(q, r) ← finish k (q_ s); Done (Some (with_event (Effect t c r) (at_place t (Posting c r) (with_q q s))))
  | Some (Posting c r) =>
      let s := with_sem (sem_post (sem_ s)) s in
      Done (Some (match c with Enqueue obj => at_place t (Counting obj) s | _ => return_ t r s end))
  | Some (Counting _) => Done (Some (return_ t Nothing (with_counter (sem_post (counter_ s)) s)))
  end.

Inductive action := Start (t : nat) (c : call) | Go (t : nat).

(** A thread is in one call at a time. *)
Definition step (a : action) (s : queue) : outcome (option queue) :=
  match a with
  | Start t c => Done (match threads s !! t with None => Some (start t c s) | Some _ => None end)
  | Go t => go t s
  end.

Fixpoint run (acts : list action) (s : queue) : outcome (option queue) :=
  match acts with
  | [] => Done (Some s)
  | a :: acts => r ← step a s; match r with None => Done None | Some s => run acts s end
  end.

(** ** Sequential histories *)

(** The accesses to the container, in order. *)
Definition accesses (evs : list event) : list (call * result) :=
  omap (fun e => match e with Effect _ c r => Some (c, r) | _ => None end) evs.

(** Running the calls one after the other gives these results and this container. *)
Inductive sequential : list (call * result) → list A → Prop :=
| sequential_nil : sequential [] []
| sequential_snoc h q c r q' : sequential h q → access c q = Done (q', r) → sequential (h ++ [(c, r)]) q'.

(** Where a thread is between a call and its return. *)
Inductive phase := Idle | Pending (c : call) | Effected (c : call) (r : result).

Definition of_thread (t : nat) (e : event) : Prop := match e with Called u _ | Effect u _ _ | Returned u _ => u = t end.

(** The events of a thread: it calls, the call takes effect once, and returns its result. *)
Inductive traced (t : nat) : list event → phase → Prop :=
| traced_nil : traced t [] Idle
| traced_other evs ph e : traced t evs ph → ¬ of_thread t e → traced t (evs ++ [e]) ph
| traced_call evs c : traced t evs Idle → traced t (evs ++ [Called t c]) (Pending c)
| traced_effect evs c r : traced t evs (Pending c) → traced t (evs ++ [Effect t c r]) (Effected c r)
| traced_return evs c r : traced t evs (Effected c r) → traced t (evs ++ [Returned t r]) Idle.

Definition phase_of (p : option place) : phase :=
  match p with
  | None => Idle
  | Some AtCounter => Pending Dequeue
  | Some (AtSem c) | Some (Inside c) | Some (Looked c _) => Pending c
  | Some (Posting c r) => Effected c r
  | Some (Counting obj) => Effected (Enqueue obj) Nothing
  end.

(** ** Counting the threads at places *)

Section Sum.
Context (weight : place → nat).

Definition sum (m : gmap nat place) : nat := sum_list (map (fun x => weight (snd x)) (map_to_list m)).

Lemma sum_empty : sum ∅ = 0%nat.
Proof. unfold sum. rewrite map_to_list_empty. reflexivity. Qed.

Lemma sum_list_permutation l k : l ≡ₚ k → sum_list l = sum_list k.
Proof. induction 1; cbn; lia. Qed.

Lemma sum_insert_new m t p : m !! t = None → sum (<[t := p]> m) = (weight p + sum m)%nat.
Proof.
  intros H. unfold sum. rewrite (sum_list_permutation _ _ (fmap_Permutation (fun x => weight (snd x)) _ _ (map_to_list_insert m t p H))). reflexivity.
Qed.

Lemma sum_delete m t p : m !! t = Some p → sum m = (weight p + sum (delete t m))%nat.
Proof. intros H. rewrite <- (sum_insert_new (delete t m) t p) by apply lookup_delete_eq. rewrite insert_delete_id by exact H. reflexivity. Qed.

Lemma sum_insert m t p p' : m !! t = Some p → (weight p + sum (<[t := p']> m) = weight p' + sum m)%nat.
Proof.
  intros H. rewrite (sum_delete m t p H). rewrite <- (insert_delete_eq m t p').
  rewrite (sum_insert_new (delete t m) t p') by apply lookup_delete_eq. lia.
Qed.

Lemma sum_two m t u p p' : m !! t = Some p → m !! u = Some p' → t ≠ u → (weight p + weight p' <= sum m)%nat.
Proof.
  intros Ht Hu Hne. rewrite (sum_delete m t p Ht), (sum_delete (delete t m) u p') by (rewrite lookup_delete_ne by exact Hne; exact Hu). lia.
Qed.

Lemma sum_zero m : sum m = 0%nat → ∀ t p, m !! t = Some p → weight p = 0%nat.
Proof. intros H t p Ht. rewrite (sum_delete m t p Ht) in H. lia. Qed.

Lemma sum_all_zero m : (∀ t p, m !! t = Some p → weight p = 0%nat) → sum m = 0%nat.
Proof.
  induction m as [| t p m Ht IH] using map_ind; intros H; [apply sum_empty |].
  rewrite sum_insert_new by exact Ht. rewrite (H t p) by apply lookup_insert_eq. apply IH. intros u p' Hu.
  apply (H u). rewrite lookup_insert_ne; [exact Hu | intros ->; congruence].
Qed.

End Sum.

(** ** What every interleaving keeps *)

(** Threads inside hold the semaphore; a dequeue that passed the counter has an element reserved; an
    element that was inserted is not yet counted. *)
Definition holds (p : place) : nat := match p with Inside _ | Looked _ _ | Posting _ _ => 1 | _ => 0 end.
Definition reserved (p : place) : nat := match p with AtSem Dequeue | Inside Dequeue | Looked Dequeue _ => 1 | _ => 0 end.
Definition uncounted (p : place) : nat := match p with Posting (Enqueue _) _ | Counting _ => 1 | _ => 0 end.

Definition call_of (p : place) : call :=
  match p with AtCounter => Dequeue | AtSem c | Inside c | Looked c _ | Posting c _ => c | Counting obj => Enqueue obj end.

(** [P] are the calls that are made. *)
Record queue_inv (P : call → Prop) (s : queue) : Prop := {
  inv_sem : (sem_ s + sum holds (threads s) = 1)%nat;
  inv_counter : (counter_ s + sum reserved (threads s) + sum uncounted (threads s) = length (q_ s))%nat;
  inv_places : ∀ t p, threads s !! t = Some p → P (call_of p) ∧ match p with Posting (Enqueue _) r => r = Nothing | _ => True end;
  inv_looked : ∀ t c k, threads s !! t = Some (Looked c k) → look c (q_ s) = Done k;
  inv_history : sequential (accesses (events s)) (q_ s);
  inv_calls : Forall (fun x => P (fst x)) (accesses (events s));
  inv_traced : ∀ t, traced t (events s) (phase_of (threads s !! t)) }.

Lemma accesses_snoc evs e : accesses (evs ++ [e]) = accesses evs ++ match e with Effect _ c r => [(c, r)] | _ => [] end.
Proof. unfold accesses. rewrite omap_app. destruct e; reflexivity. Qed.

Lemma new_queue_inv P : queue_inv P new_queue.
Proof.
  split; cbn.
  - rewrite sum_empty. reflexivity.
  - rewrite !sum_empty. reflexivity.
  - intros t p H. discriminate.
  - intros t c k H. discriminate.
  - constructor.
  - constructor.
  - intros t. constructor.
Qed.

(** A thread that moves keeps the traces of the others. *)
Lemma traced_move s t p e evs :
  (∀ u, traced u (events s) (phase_of (threads s !! u))) →
  match e with None => evs = events s | Some e => evs = events s ++ [e] ∧ of_thread t e end →
  traced t evs (phase_of (Some p)) → ∀ u, traced u evs (phase_of (<[t := p]> (threads s) !! u)).
Proof.
  intros Hs He Ht u. destruct (decide (t = u)) as [<- | Hne]; [rewrite lookup_insert_eq; exact Ht |].
  rewrite lookup_insert_ne by exact Hne. destruct e as [e |]; [destruct He as [-> He] | subst evs; apply Hs].
  apply traced_other; [apply Hs |]. destruct e; cbn in *; congruence.
Qed.

Lemma traced_leave s t e :
  (∀ u, traced u (events s) (phase_of (threads s !! u))) → of_thread t e → traced t (events s ++ [e]) Idle →
  ∀ u, traced u (events s ++ [e]) (phase_of (delete t (threads s) !! u)).
Proof.
  intros Hs He Ht u. destruct (decide (t = u)) as [<- | Hne]; [rewrite lookup_delete_eq; exact Ht |].
  rewrite lookup_delete_ne by exact Hne. apply traced_other; [apply Hs |]. destruct e; cbn in *; congruence.
Qed.

Lemma places_insert (P : call → Prop) (m : gmap nat place) t p :
  (∀ u q, m !! u = Some q → P (call_of q) ∧ match q with Posting (Enqueue _) r => r = Nothing | _ => True end) →
  P (call_of p) → match p with Posting (Enqueue _) r => r = Nothing | _ => True end →
  ∀ u q, <[t := p]> m !! u = Some q → P (call_of q) ∧ match q with Posting (Enqueue _) r => r = Nothing | _ => True end.
Proof. intros H Hp Hn u q [[<- <-] | [_ Hu]]%lookup_insert_Some; [split; assumption | exact (H u q Hu)]. Qed.

Lemma places_delete (P : call → Prop) (m : gmap nat place) t :
  (∀ u q, m !! u = Some q → P (call_of q) ∧ match q with Posting (Enqueue _) r => r = Nothing | _ => True end) →
  ∀ u q, delete t m !! u = Some q → P (call_of q) ∧ match q with Posting (Enqueue _) r => r = Nothing | _ => True end.
Proof. intros H u q [_ Hu]%lookup_delete_Some. exact (H u q Hu). Qed.

Definition looked (m : gmap nat place) (q : list A) : Prop := ∀ t c k, m !! t = Some (Looked c k) → look c q = Done k.

Lemma looked_insert m q t p : looked m q → match p with Looked c k => look c q = Done k | _ => True end → looked (<[t := p]> m) q.
Proof. intros H Hp u c k [[_ ->] | [_ Hu]]%lookup_insert_Some; [exact Hp | exact (H u c k Hu)]. Qed.

Lemma looked_delete m q t : looked m q → looked (delete t m) q.
Proof. intros H u c k [_ Hu]%lookup_delete_Some. exact (H u c k Hu). Qed.

(** The one that holds the semaphore changes the container: nobody else has looked. *)
Lemma looked_change m q t c k p : (sum holds m <= 1)%nat → m !! t = Some (Looked c k) → (∀ c k, p ≠ Looked c k) → looked (<[t := p]> m) q.
Proof.
  intros Hs Ht Hp u c' k' [[_ E] | [Hne Hu]]%lookup_insert_Some; [destruct (Hp _ _ E) |].
  pose proof (sum_two holds m t u _ _ Ht Hu Hne). cbn in *. lia.
Qed.

Lemma access_finish c k q q' r : look c q = Done k → finish k q = Done (q', r) → access c q = Done (q', r).
Proof. intros E1 E2. unfold access. rewrite E1. exact E2. Qed.

Lemma queue_start_inv P t c s : queue_inv P s → P c → threads s !! t = None → queue_inv P (start t c s).
Proof.
  intros [Hs Hc Hp Hlk Hh Hcs Ht] HP Hn. unfold start. set (p := match c with Dequeue => AtCounter | _ => AtSem c end).
  assert (holds p = 0 ∧ reserved p = 0 ∧ uncounted p = 0)%nat as (W1 & W2 & W3) by (destruct c; auto).
  split; cbn.
  - rewrite sum_insert_new, W1 by exact Hn. exact Hs.
  - rewrite !sum_insert_new, W2, W3 by exact Hn. exact Hc.
  - apply places_insert; [exact Hp | destruct c; exact HP | destruct c; exact I].
  - apply (looked_insert _ _ t p Hlk). destruct c; exact I.
  - rewrite accesses_snoc, app_nil_r. exact Hh.
  - rewrite accesses_snoc, app_nil_r. exact Hcs.
  - apply (traced_move s t p (Some (Called t c))); [exact Ht | split; reflexivity |]. pose proof (Ht t) as H. rewrite Hn in H.
    destruct c; apply traced_call, H.
Qed.

(** An access in the section. *)
Lemma access_length c k q q' r :
  access c q = Done (q', r) → c ≠ Clear → (length q' + reserved (Looked c k) = length q + uncounted (Posting c r))%nat.
Proof.
  intros E Hc. destruct c; cbn in *.
  - injection E as <- <-. rewrite length_app, length_take. cbn. rewrite length_drop. lia.
  - destruct q; [discriminate |]. injection E as <- <-. cbn. lia.
  - destruct q; [discriminate |]. injection E as <- <-. cbn. lia.
  - injection E as <- <-. lia.
  - contradiction.
Qed.

Lemma queue_go_inv P t s s' : (P Clear → False) → queue_inv P s → go t s = Done (Some s') → queue_inv P s'.
Proof.
  intros HP [Hs Hc Hp Hlk Hh Hcs Ht] E. unfold go in E. destruct (threads s !! t) as [p |] eqn:Et; [| discriminate].
  pose proof (Hp t p Et) as [HPp Hn]. pose proof (Ht t) as Htt. rewrite Et in Htt.
  pose proof (fun w p' => sum_insert w (threads s) t p p' Et) as Si. pose proof (fun w => sum_delete w (threads s) t p Et) as Sd.
  destruct p as [| c | c | c k | c r | obj].
  - destruct (sem_wait (counter_ s)) as [n |] eqn:Ew; [| discriminate]. injection E as <-.
    destruct (counter_ s) as [| n'] eqn:En; [discriminate |]. injection Ew as ->.
    pose proof (Si holds (AtSem Dequeue)). pose proof (Si reserved (AtSem Dequeue)). pose proof (Si uncounted (AtSem Dequeue)).
    split; cbn in *; [lia | lia | apply places_insert; auto | refine (looked_insert _ _ _ _ Hlk _); exact I | exact Hh | exact Hcs |].
    apply (traced_move s t _ None); auto.
  - destruct (sem_wait (sem_ s)) as [n |] eqn:Ew; [| discriminate]. injection E as <-.
    destruct (sem_ s) as [| n'] eqn:En; [discriminate |]. injection Ew as ->.
    pose proof (Si holds (Inside c)). pose proof (Si reserved (Inside c)). pose proof (Si uncounted (Inside c)).
    split; cbn in *; [lia | destruct c; lia | apply places_insert; auto | refine (looked_insert _ _ _ _ Hlk _); exact I | exact Hh | exact Hcs |].
    apply (traced_move s t _ None); auto.
  - destruct (look c (q_ s)) as [k |] eqn:El; [| discriminate]. injection E as <-.
    pose proof (Si holds (Looked c k)). pose proof (Si reserved (Looked c k)). pose proof (Si uncounted (Looked c k)).
    split; cbn in *; [lia | destruct c; lia | apply places_insert; auto | refine (looked_insert _ _ _ _ Hlk _); exact El | exact Hh | exact Hcs |].
    apply (traced_move s t _ None); auto.
  - destruct (finish k (q_ s)) as [[q r] |] eqn:Ef; [| discriminate]. injection E as <-.
    assert (c ≠ Clear) as Hcl by (intros ->; exact (HP HPp)).
    pose proof (access_finish c k (q_ s) q r (Hlk t c k Et) Ef) as Ea.
    pose proof (access_length c k (q_ s) q r Ea Hcl) as Hl.
    pose proof (Si holds (Posting c r)). pose proof (Si reserved (Posting c r)). pose proof (Si uncounted (Posting c r)).
    split; cbn [with_event with_q at_place sem_ counter_ threads events q_].
    + cbn in *. lia.
    + cbn [reserved uncounted] in *. lia.
    + apply places_insert; [exact Hp | exact HPp |]. destruct c; try exact I. cbn in Ea. congruence.
    + apply (looked_change _ _ t c k); [lia | exact Et | discriminate].
    + rewrite accesses_snoc. econstructor; eassumption.
    + rewrite accesses_snoc. apply Forall_app_2; [exact Hcs | constructor; [exact HPp | constructor]].
    + apply (traced_move s t _ (Some (Effect t c r))); [exact Ht | split; reflexivity |]. apply traced_effect, Htt.
  - assert (E' : s' = match c with Enqueue obj => at_place t (Counting obj) (with_sem (sem_post (sem_ s)) s) | _ => return_ t r (with_sem (sem_post (sem_ s)) s) end).
    { destruct c; injection E as <-; reflexivity. }
    clear E. assert ((∃ obj, c = Enqueue obj) ∨ ∀ obj, c ≠ Enqueue obj) as [[obj ->] | Hne] by (destruct c; [left; eauto | right; congruence..]).
    + subst s' r. pose proof (Si holds (Counting obj)). pose proof (Si reserved (Counting obj)). pose proof (Si uncounted (Counting obj)).
      split; cbn in *; [lia | lia | apply places_insert; auto | refine (looked_insert _ _ _ _ Hlk _); exact I | exact Hh | exact Hcs |]. apply (traced_move s t _ None); auto.
    + assert (s' = return_ t r (with_sem (sem_post (sem_ s)) s)) as -> by (destruct c; [destruct (Hne obj eq_refl) | assumption..]).
      assert (reserved (Posting c r) = 0 ∧ uncounted (Posting c r) = 0)%nat as [R U] by (destruct c; [destruct (Hne obj eq_refl) | auto..]).
      pose proof (Sd holds). pose proof (Sd reserved). pose proof (Sd uncounted).
      split; cbn in *; [lia | lia | apply places_delete, Hp | exact (looked_delete _ _ _ Hlk) | rewrite accesses_snoc, app_nil_r; exact Hh | rewrite accesses_snoc, app_nil_r; exact Hcs |].
      apply traced_leave; [exact Ht | reflexivity |]. exact (traced_return t _ c r Htt).
  - injection E as <-. pose proof (Sd holds). pose proof (Sd reserved). pose proof (Sd uncounted).
    split; cbn in *; [lia | lia | apply places_delete, Hp | exact (looked_delete _ _ _ Hlk) | rewrite accesses_snoc, app_nil_r; exact Hh | rewrite accesses_snoc, app_nil_r; exact Hcs |].
    apply traced_leave; [exact Ht | reflexivity |]. exact (traced_return t _ _ _ Htt).
Qed.

(** A step that fails looks at the front of an empty queue. *)
Lemma go_fault P t s f : (P Clear → False) → queue_inv P s → go t s = Fault f → P Top.
Proof.
  intros HP [Hs Hc Hp Hlk Hh Hcs Ht] E. unfold go in E. destruct (threads s !! t) as [p |] eqn:Et; [| discriminate].
  pose proof (proj1 (Hp t p Et)) as HPp. destruct p as [| c | c | c k | c r | obj]; try discriminate.
  - destruct c; cbn in E; try discriminate; [| exact HPp].
    pose proof (sum_delete reserved _ t _ Et) as Sd. cbn in Sd. destruct (q_ s) as [| x q]; [cbn in Hc; lia | discriminate].
  - pose proof (Hlk t c k Et) as Hk. destruct c; cbn in Hk; try (injection Hk as <-; discriminate E);
      destruct (q_ s); try discriminate Hk; injection Hk as <-; discriminate E.
Qed.

Definition call_made (P : call → Prop) (a : action) : Prop := match a with Start _ c => P c | Go _ => True end.

Lemma queue_run_inv P acts s :
  (P Clear → False) → Forall (call_made P) acts → queue_inv P s →
  match run acts s with Done (Some s') => queue_inv P s' | Done None => True | Fault _ => P Top end.
Proof.
  intros HP. revert s. induction acts as [| a acts IH]; intros s Ha Hi; [exact Hi |]. apply Forall_cons in Ha as [Ha Has]. cbn [run].
  destruct (step a s) as [[s' |] | f] eqn:E; cbn [mbind outcome_bind]; [| exact I |].
  - apply IH; [exact Has |]. destruct a as [t c | t]; cbn in E.
    + destruct (threads s !! t) eqn:Et; [discriminate |]. injection E as <-. apply queue_start_inv; assumption.
    + exact (queue_go_inv P t s s' HP Hi E).
  - destruct a as [t c | t]; cbn in E; [discriminate |]. exact (go_fault P t s f HP Hi E).
Qed.

(** ** Every call comes to its end *)

Definition steps_left (p : place) : nat :=
  match p with
  | AtCounter => 5
  | AtSem (Enqueue _) => 5 | AtSem _ => 4
  | Inside (Enqueue _) => 4 | Inside _ => 3
  | Looked (Enqueue _) _ => 3 | Looked _ _ => 2
  | Posting (Enqueue _) _ => 2 | Posting _ _ => 1
  | Counting _ => 1
  end.

Lemma go_measure t s s' : go t s = Done (Some s') → sum steps_left (threads s) = S (sum steps_left (threads s')).
Proof.
  intros E. unfold go in E. destruct (threads s !! t) as [p |] eqn:Et; [| discriminate].
  pose proof (fun p' => sum_insert steps_left (threads s) t p p' Et) as Si. pose proof (sum_delete steps_left (threads s) t p Et) as Sd.
  destruct p as [| c | c | c k | c r | obj].
  - destruct (sem_wait (counter_ s)); [| discriminate]. injection E as <-. specialize (Si (AtSem Dequeue)). cbn in *. lia.
  - destruct (sem_wait (sem_ s)); [| discriminate]. injection E as <-. specialize (Si (Inside c)). destruct c; cbn in *; lia.
  - destruct (look c (q_ s)) as [k |]; [| discriminate]. injection E as <-. specialize (Si (Looked c k)). destruct c; cbn in *; lia.
  - destruct (finish k (q_ s)) as [[q r] |]; [| discriminate]. injection E as <-. specialize (Si (Posting c r)). destruct c; cbn in *; lia.
  - destruct c; injection E as <-; cbn in *; [specialize (Si (Counting obj)); cbn in Si; lia | lia..].
  - injection E as <-. cbn in *. lia.
Qed.

Lemma steps_left_bound (m : gmap nat place) : (sum steps_left m <= 5 * base.size m)%nat.
Proof.
  induction m as [| t p m Ht IH] using map_ind; [rewrite sum_empty; lia |].
  rewrite sum_insert_new, map_size_insert_None by exact Ht. assert (steps_left p <= 5)%nat by (destruct p as [| [] | [] | [] | [] |]; cbn; lia). lia.
Qed.

Definition is_go (a : action) : Prop := match a with Go _ => True | Start _ _ => False end.

(** No thread in a call can take a step. *)
Definition stuck (s : queue) : Prop := ∀ t, go t s = Done None.

Lemma stuck_waits P s : queue_inv P s → stuck s → ∀ t p, threads s !! t = Some p → p = AtCounter ∧ q_ s = [].
Proof.
  intros [Hs Hc Hp Hlk Hh Hcs Ht] Hst.
  assert (∀ t p, threads s !! t = Some p → (p = AtCounter ∧ counter_ s = 0%nat) ∨ (∃ c, p = AtSem c ∧ sem_ s = 0%nat)) as Hw.
  { intros t p Et. specialize (Hst t). unfold go in Hst. rewrite Et in Hst. destruct p as [| c | c | c k | c r | obj].
    - destruct (counter_ s); [auto | discriminate].
    - destruct (sem_ s); [eauto | discriminate].
    - destruct (look c (q_ s)); discriminate.
    - destruct (finish k (q_ s)) as [[]|]; discriminate.
    - destruct c; discriminate.
    - discriminate. }
  assert (sum holds (threads s) = 0%nat) as Hh0.
  { apply sum_all_zero. intros t p Et. destruct (Hw t p Et) as [[-> _] | (c & -> & _)]; reflexivity. }
  assert (∀ t p, threads s !! t = Some p → p = AtCounter ∧ counter_ s = 0%nat) as Ha.
  { intros t p Et. destruct (Hw t p Et) as [H | (c & _ & H)]; [exact H | lia]. }
  intros t p Et. destruct (Ha t p Et) as [-> H0]. split; [reflexivity |].
  rewrite (sum_all_zero reserved), (sum_all_zero uncounted), H0 in Hc by (intros u p Hu; destruct (Ha u p Hu) as [-> _]; reflexivity).
  apply length_zero_iff_nil. cbn in Hc. congruence.
Qed.

Lemma run_measure gos s s' :
  Forall is_go gos → run gos s = Done (Some s') → (length gos + sum steps_left (threads s') = sum steps_left (threads s))%nat.
Proof.
  revert s. induction gos as [| a gos IH]; intros s Hg E; [injection E as ->; reflexivity |]. apply Forall_cons in Hg as [Ha Hg].
  destruct a as [t c | t]; [contradiction |]. cbn [run step] in E. destruct (go t s) as [[s1 |] |] eqn:E1; cbn in E; try discriminate.
  rewrite (go_measure t s s1 E1), <- (IH s1 Hg E). reflexivity.
Qed.

Lemma run_actions_app acts1 acts2 s s1 : run acts1 s = Done (Some s1) → run (acts1 ++ acts2) s = run acts2 s1.
Proof.
  revert s. induction acts1 as [| a acts1 IH]; intros s E; cbn [run app] in *; [injection E as ->; reflexivity |].
  destruct (step a s) as [[s' |] |]; cbn [mbind outcome_bind] in *; try discriminate. apply IH, E.
Qed.

End Queue.

Arguments Enqueue {A}.
Arguments Dequeue {A}.
Arguments Top {A}.
Arguments Size {A}.
Arguments Clear {A}.
Arguments Start {A}.
Arguments Go {A}.
Arguments Nothing {A}.
Arguments Value {A}.
Arguments Reference {A}.
Arguments Count {A}.
Arguments AtCounter {A}.
Arguments new_queue {A}.

(** C33: A queue's calls come to an end. After any run without [clear], however the threads go on,
    each step brings the calls nearer to their returns by one of a number of steps that is bounded at
    the start (five for each call at most); and when no thread can go on, the only calls left are
    dequeues, and the queue is empty. *)
Theorem queue_calls_return {A} (position : A → list A → nat) acts gos s s' :
  Forall (call_made (fun c => c ≠ Clear)) acts → run position acts new_queue = Done (Some s) →
  Forall is_go gos → run position gos s = Done (Some s') →
  (length gos + sum steps_left (threads s') = sum steps_left (threads s))%nat ∧ (sum steps_left (threads s) <= 5 * base.size (threads s))%nat
  ∧ (stuck position s' → ∀ t p, threads s' !! t = Some p → p = AtCounter ∧ q_ s' = []).
Proof.
  intros Ha E Hg E'. split; [exact (run_measure position gos s s' Hg E') |]. split; [apply steps_left_bound |].
  assert (Forall (call_made (fun c => c ≠ Clear)) (acts ++ gos)) as Hall.
  { apply Forall_app_2; [exact Ha |]. apply (Forall_impl _ _ _ Hg). intros [t c | t] H; [contradiction | exact I]. }
  pose proof (queue_run_inv position (fun c => c ≠ Clear) (acts ++ gos) new_queue ltac:(congruence) Hall (new_queue_inv position _)) as Hi.
  rewrite (run_actions_app position acts gos new_queue s E), E' in Hi. exact (stuck_waits position _ s' Hi).
Qed.

(** ** The two queues *)

(** The enqueues and dequeues of a history, and what the dequeues took. *)
Definition ops_of {A} (h : list (call (A := A) * result (A := A))) : list (operation (A := A)) :=
  omap (fun x => match fst x with Enqueue obj => Some (Queues.Enqueue obj) | Dequeue => Some Queues.Dequeue | _ => None end) h.
Definition taken {A} (h : list (call (A := A) * result (A := A))) : list (option A) :=
  omap (fun x => match x with (Dequeue, Value v) => Some (Some v) | _ => None end) h.
Definition entered {A} (h : list (call (A := A) * result (A := A))) : list A :=
  omap (fun x => match fst x with Enqueue obj => Some obj | _ => None end) h.

Definition no_clear {A} (h : list (call (A := A) * result (A := A))) : Prop := Forall (fun x => fst x ≠ Clear) h.

(** A sequential history is a run of the queue's operations. *)
Lemma sequential_run {A} (before : A → A → bool) h q :
  sequential (upper_bound before) h q → no_clear h →
  ∀ ops, Queues.run (Queues.enqueue before) dequeue (ops_of h ++ ops) [] = taken h ++ Queues.run (Queues.enqueue before) dequeue ops q.
Proof.
  unfold no_clear. induction 1 as [| h q c r q' Hh IH E]; intros Hn ops; [reflexivity |].
  apply Forall_app in Hn as [Hn Hc]. apply Forall_inv in Hc. cbn in Hc. specialize (IH Hn).
  unfold ops_of, taken in *. rewrite !omap_app, <- !app_assoc, IH.
  destruct c; cbn in *; try contradiction.
  - injection E as <- <-. reflexivity.
  - destruct q; [discriminate |]. injection E as <- <-. reflexivity.
  - destruct q; [discriminate |]. injection E as <- <-. reflexivity.
  - injection E as <- <-. reflexivity.
Qed.

(** A Queue gives its elements in the order in which they came. *)
Lemma queue_fifo {A} h (q : list A) :
  sequential (fun _ q => length q) h q → no_clear h → map Some (entered h) = taken h ++ map Some q.
Proof.
  unfold no_clear. induction 1 as [| h q c r q' Hh IH E]; intros Hn; [reflexivity |].
  apply Forall_app in Hn as [Hn Hc]. apply Forall_inv in Hc. cbn in Hc. specialize (IH Hn).
  unfold entered, taken in *. rewrite !omap_app, map_app, IH, <- !app_assoc. f_equal.
  destruct c; cbn in *; try contradiction.
  - injection E as <- <-. rewrite firstn_all, drop_all, map_app. reflexivity.
  - destruct q; [discriminate |]. injection E as <- <-. cbn. rewrite app_nil_r. reflexivity.
  - destruct q; [discriminate |]. injection E as <- <-. apply app_nil_r.
  - injection E as <- <-. apply app_nil_r.
Qed.

(** C32: PriorityQueue under threads is its specification, although each call is at the list twice
    (it looks for a place and then inserts there, reads the front and then removes it) and others
    could come between. Whatever the interleaving of calls (of any but [clear]), no step fails
    unless [top] looks at an empty queue; each thread's calls take effect once, between their
    start and their return, as if nobody else had been at the list, and return what they found
    then ([top] a reference to the front it found); and in the order of those effects, every
    dequeue takes, of the elements no other goes before, the one that was enqueued first. *)
Theorem priority_queue_linearizable {A} (before : A → A → bool) `{!StrictWeakOrder before} acts :
  Forall (call_made (fun c => c ≠ Clear)) acts →
  match run (upper_bound before) acts new_queue with
  | Done (Some s) =>
      (∀ t, ∃ ph, traced t (events s) ph)
      ∧ sequential (upper_bound before) (accesses (events s)) (q_ s)
      ∧ taken (accesses (events s)) = Queues.run (fun x l => l ++ [x])%list (spec_dequeue before) (ops_of (accesses (events s))) []
  | Done None => True
  | Fault _ => ∃ t, Start t Top ∈ acts
  end.
Proof.
  intros Ha. set (P := fun c : call (A := A) => c ≠ Clear ∧ (c = Top → ∃ t, Start t Top ∈ acts)).
  assert (Forall (call_made P) acts) as HP.
  { apply Forall_forall. intros a Hin. pose proof (proj1 (Forall_forall _ _) Ha a Hin) as H. destruct a as [t c | t]; [| exact I].
    split; [exact H |]. intros ->. eauto. }
  pose proof (queue_run_inv (upper_bound before) P acts new_queue ltac:(intros [H _]; congruence) HP (new_queue_inv _ P)) as Hi.
  destruct (run (upper_bound before) acts new_queue) as [[s |] | f]; [| exact I | exact (proj2 Hi eq_refl)].
  destruct Hi as [_ _ _ _ Hh Hcs Ht]. split; [eauto |]. split; [exact Hh |].
  rewrite <- (priority_queue_refines before), <- (app_nil_r (ops_of _)), (sequential_run _ _ _ Hh); [symmetry; apply app_nil_r |].
  apply (Forall_impl _ _ _ Hcs). intros x [H _]. exact H.
Qed.

(** ** Failing runs *)

(** [clear] leaves the count of the waiting semaphore: the next dequeue takes from the empty queue. *)
Lemma clear_leaves_count {A} (position : A → list A → nat) x :
  run position ([Start 1 (Enqueue x); Go 1; Go 1; Go 1; Go 1; Go 1] ++ [Start 1 Clear; Go 1; Go 1; Go 1; Go 1] ++ [Start 1 Dequeue; Go 1; Go 1; Go 1]) new_queue
  = Fault OutOfBounds.
Proof. reflexivity. Qed.

(** A semaphore's [timed_wait] that gets the semaphore reports a timeout if an earlier call left
    [errno] so. *)
Lemma stale_timeout n : sem_timed_wait Posted ETIMEDOUT (S n) = Some (true, NoError, n).
Proof. reflexivity. Qed.

Lemma binary_post_one n : (n <= 1)%nat → binary_post n = 1%nat.
Proof. destruct n as [| [|]]; [reflexivity | reflexivity | lia]. Qed.

(** ** Sample runs *)

(** A dequeue waits while two elements are enqueued, the second passing in front of the first. *)
Definition sample_actions : list (action (A := Z)) :=
  [Start 1 Dequeue; Start 2 (Enqueue 5); Start 3 (Enqueue 3); Go 2; Go 2; Go 2; Go 2; Go 3; Go 3; Go 3; Go 2; Go 1; Go 3; Go 1; Go 1; Go 1].

Lemma sample_no_clear : Forall (call_made (A := Z) (fun c => c ≠ Clear)) sample_actions.
Proof. unfold sample_actions. repeat (constructor; [first [exact I | discriminate] |]). constructor. Qed.

Lemma priority_queue_linearizable_witness :
  ∃ s, run (upper_bound Z.ltb) sample_actions new_queue = Done (Some s) ∧ taken (accesses (events s)) = [Some 3]
    ∧ ∀ t, ∃ ph, traced t (events s) ph.
Proof.
  pose proof (key_order (fun x : Z => x)) as W.
  pose proof (@priority_queue_linearizable Z Z.ltb W sample_actions sample_no_clear) as H.
  assert (match run (upper_bound Z.ltb) sample_actions new_queue with Done (Some s) => taken (accesses (events s)) | _ => [] end = [Some 3]) as R by (vm_compute; reflexivity).
  destruct (run (upper_bound Z.ltb) sample_actions new_queue) as [[s |] | f]; [| discriminate R | discriminate R].
  exists s. split; [reflexivity |]. split; [exact R |]. exact (proj1 H).
Defined.

Lemma queue_calls_return_witness :
  ∃ s s', run (upper_bound Z.ltb) sample_actions new_queue = Done (Some s)
    ∧ run (upper_bound Z.ltb) [Go 1; Go 3] s = Done (Some s') ∧ (2 + sum steps_left (threads s') = sum steps_left (threads s))%nat.
Proof.
  assert (match run (upper_bound Z.ltb) sample_actions new_queue with
          | Done (Some s) => match run (upper_bound Z.ltb) [Go 1; Go 3] s with Done (Some _) => true | _ => false end
          | _ => false end = true) as R by (vm_compute; reflexivity).
  destruct (run (upper_bound Z.ltb) sample_actions new_queue) as [[s |] | f] eqn:E; [| discriminate R | discriminate R].
  destruct (run (upper_bound Z.ltb) [Go 1; Go 3] s) as [[s' |] | f] eqn:E'; [| discriminate R | discriminate R].
  exists s, s'. split; [reflexivity |]. split; [exact E' |].
  assert (Forall (is_go (A := Z)) [Go 1; Go 3]) as Hg by (repeat constructor).
  exact (proj1 (queue_calls_return (upper_bound Z.ltb) sample_actions [Go 1; Go 3] s s' sample_no_clear E Hg E')).
Defined.
