(* ===== verification/Timers.v ===== *)
(** * Timers (transport/src/TimeoutEventManager.cc, TimeoutEventComparator.cc, Utils.cc,
      BinarySemaphore.cc, events/framework_events/TimeoutEvent.cc)

    The manager's thread takes the timeout event with the earliest deadline off its
    queue and waits for it on a binary semaphore, which every new timeout event and
    every cancellation posts; when the wait ends by a post the event goes back to
    the queue. A post is two steps, the first of which takes the semaphore to 0. Only the
    dispatcher's thread enqueues and cancels. A state is what
    both threads see, [step] is one step of either thread, of the clock, or a
    signal that interrupts the wait; a history is any interleaving of them. *)
From stdpp Require Import gmap sorting.
From S2P Require Import Prelude.
From S2P Require Queues.

(** ** Deadlines *)


Record timespec := { tv_sec : Z; tv_nsec : Z }.
Definition LONG_MAX : Z := 2 ^ 63 - 1.

(** A sum of two [long]s. *)
Definition add_long (a b : Z) : outcome Z := if a + b <=? LONG_MAX then Done (a + b) else Fault SignedOverflow.

(** The loop that carries whole seconds over. *)
Fixpoint carry_seconds (fuel : nat) (ts : timespec) : outcome timespec :=
  match fuel with
  | O => Done ts
  | S fuel =>
      if NANOSECONDS_IN_SECONDS <=? tv_nsec ts
      then sec ← add_long (tv_sec ts) 1; carry_seconds fuel {| tv_sec := sec; tv_nsec := tv_nsec ts - NANOSECONDS_IN_SECONDS |}
      else Done ts
  end.

(** [clock] is what [clock_gettime] stored. Each round takes a second off [tv_nsec]. *)
Definition get_timespec_future_time (seconds nanoseconds : Z) (clock : timespec) : outcome timespec :=
  _ ← assert (0 <=? seconds);
  _ ← assert (0 <=? nanoseconds);
  nsec ← add_long (tv_nsec clock) nanoseconds;
  sec ← add_long (tv_sec clock) seconds;
  carry_seconds (Z.to_nat (nsec / NANOSECONDS_IN_SECONDS)) {| tv_sec := sec; tv_nsec := nsec |}.

(** A time as the operating system wants it, in nanoseconds. *)
Definition valid_time (ts : timespec) : Prop := 0 ≤ tv_nsec ts < NANOSECONDS_IN_SECONDS.
Definition in_nanoseconds (ts : timespec) : Z := tv_sec ts * NANOSECONDS_IN_SECONDS + tv_nsec ts.

Lemma add_long_ok a b : a + b ≤ LONG_MAX → add_long a b = Done (a + b).
Proof. intros H. unfold add_long. rewrite (proj2 (Z.leb_le _ _)) by exact H. reflexivity. Qed.

Lemma carry_seconds_spec fuel : ∀ ts,
  0 ≤ tv_nsec ts → tv_nsec ts < (Z.of_nat fuel + 1) * NANOSECONDS_IN_SECONDS → tv_sec ts + Z.of_nat fuel ≤ LONG_MAX →
  ∃ ts', carry_seconds fuel ts = Done ts' ∧ valid_time ts' ∧ in_nanoseconds ts' = in_nanoseconds ts.
Proof.
  unfold valid_time, in_nanoseconds, NANOSECONDS_IN_SECONDS.
  induction fuel as [|fuel IH]; intros ts H0 H1 H2; cbn [carry_seconds]; [exists ts; split; [reflexivity | lia] |].
  destruct (Z.leb_spec NANOSECONDS_IN_SECONDS (tv_nsec ts)) as [Hle | Hgt]; unfold NANOSECONDS_IN_SECONDS in *;
    [| exists ts; split; [reflexivity | lia]].
  rewrite add_long_ok by lia. cbn [mbind outcome_bind].
  destruct (IH {| tv_sec := tv_sec ts + 1; tv_nsec := tv_nsec ts - 1000000000 |}) as (ts' & E & Hv & Ht); cbn [tv_sec tv_nsec] in *; [lia.. |].
  exists ts'. split; [exact E |]. split; [exact Hv | lia].
Qed.

(** The deadline of a timer. For a valid clock and any delay, the loop ends with a time
    the operating system accepts, exactly the delay after the clock, unless the year is beyond
    2^62 seconds; a negative delay fails an assertion, and nanoseconds near the end of [long]
    overflow it. *)
Theorem future_time_spec seconds nanoseconds clock :
  valid_time clock → tv_sec clock ≤ 2 ^ 62 →
  (0 ≤ seconds < 2 ^ 31 → 0 ≤ nanoseconds ≤ LONG_MAX - NANOSECONDS_IN_SECONDS →
     ∃ ts, get_timespec_future_time seconds nanoseconds clock = Done ts ∧ valid_time ts ∧
       in_nanoseconds ts = in_nanoseconds clock + seconds * NANOSECONDS_IN_SECONDS + nanoseconds) ∧
  (seconds < 0 ∨ nanoseconds < 0 → get_timespec_future_time seconds nanoseconds clock = Fault AssertionFailure) ∧
  (0 ≤ seconds → LONG_MAX < tv_nsec clock + nanoseconds → get_timespec_future_time seconds nanoseconds clock = Fault SignedOverflow).
Proof.
  intros Hv Hc. unfold valid_time in Hv. unfold get_timespec_future_time. split; [| split].
  - intros Hs Hn. rewrite !(proj2 (Z.leb_le 0 _)) by lia. cbn [assert mbind outcome_bind].
    rewrite !add_long_ok by (unfold LONG_MAX in *; lia). cbn [mbind outcome_bind]. set (nsec := tv_nsec clock + nanoseconds).
    destruct (carry_seconds_spec (Z.to_nat (nsec / NANOSECONDS_IN_SECONDS)) {| tv_sec := tv_sec clock + seconds; tv_nsec := nsec |})
      as (ts & E & Ht & Hn'); cbn [tv_nsec tv_sec].
    1-3: unfold NANOSECONDS_IN_SECONDS, LONG_MAX in *; Z.div_mod_to_equations; lia.
    exists ts. split; [exact E |]. split; [exact Ht |]. rewrite Hn'. unfold in_nanoseconds. cbn [tv_sec tv_nsec]. lia.
  - intros [H | H].
    + rewrite (proj2 (Z.leb_gt 0 seconds)) by exact H. reflexivity.
    + destruct (0 <=? seconds); cbn [assert mbind outcome_bind]; [| reflexivity].
      rewrite (proj2 (Z.leb_gt 0 nanoseconds)) by exact H. reflexivity.
  - intros Hs Hn. rewrite !(proj2 (Z.leb_le 0 _)) by (unfold LONG_MAX, NANOSECONDS_IN_SECONDS in *; lia). cbn [assert mbind outcome_bind].
    assert (add_long (tv_nsec clock) nanoseconds = Fault SignedOverflow) as ->
      by (unfold add_long; rewrite (proj2 (Z.leb_gt _ _)) by exact Hn; reflexivity).
    reflexivity.
Qed.

Lemma future_time_spec_witness :
  valid_time {| tv_sec := 5; tv_nsec := 999999999 |} ∧
  ∃ ts, get_timespec_future_time 3 2500000001 {| tv_sec := 5; tv_nsec := 999999999 |} = Done ts ∧ valid_time ts ∧
    in_nanoseconds ts = in_nanoseconds {| tv_sec := 5; tv_nsec := 999999999 |} + 3 * NANOSECONDS_IN_SECONDS + 2500000001.
Proof.
  assert (valid_time {| tv_sec := 5; tv_nsec := 999999999 |}) as H by (unfold valid_time, NANOSECONDS_IN_SECONDS; cbn; lia).
  split; [exact H |].
  apply (future_time_spec 3 2500000001 _ H); [cbn; lia | lia | unfold LONG_MAX, NANOSECONDS_IN_SECONDS; lia].
Defined.

(** ** The manager *)

(** A TimeoutEvent: its pointer and its deadline. *)
Record timer := { timer_id : nat; deadline : timespec }.

Definition TimeoutEventComparator (t1 t2 : timer) : bool :=
  let a := deadline t1 in
  let b := deadline t2 in
  (tv_sec a <? tv_sec b) || ((tv_sec a =? tv_sec b) && (tv_nsec a <? tv_nsec b)).

#[export] Instance timeout_order : Queues.StrictWeakOrder TimeoutEventComparator.
Proof. unfold TimeoutEventComparator. split; intros; lia. Qed.

(** Where the dispatcher's thread is in [BinarySemaphore::post]: not in it, before its
    [try_wait], or before [Semaphore::post]. *)
Inductive posting := Idle | BeforeTryWait | BeforePost.

(** [waiting]: the event the thread waits for in [timed_wait]. [fired]: the TimerFiredEvents
    given to the dispatcher, by their timeout events, in order. *)
Record manager := {
  clock : timespec;
  queue : list timer;
  canceled_events_ : gset nat;
  semaphore : bool;
  waiting : option timer;
  fired : list nat;
  poster : posting }.

Definition initial (now : timespec) : manager :=
  {| clock := now; queue := []; canceled_events_ := ∅; semaphore := false; waiting := None; fired := []; poster := Idle |}.

Definition with_semaphore (value : bool) (p : posting) (m : manager) : manager :=
  {| clock := clock m; queue := queue m; canceled_events_ := canceled_events_ m; semaphore := value;
     waiting := waiting m; fired := fired m; poster := p |}.
Definition with_queue (q : list timer) (w : option timer) (m : manager) : manager :=
  {| clock := clock m; queue := q; canceled_events_ := canceled_events_ m; semaphore := semaphore m;
     waiting := w; fired := fired m; poster := poster m |}.
Definition with_canceled (c : gset nat) (m : manager) : manager :=
  {| clock := clock m; queue := queue m; canceled_events_ := c; semaphore := semaphore m; waiting := waiting m; fired := fired m;
     poster := poster m |}.

(** [TimeoutManagerSemaphore.post()], called, and each of its two steps: [try_wait] takes what
    is there, then [Semaphore::post] adds one. Between them the semaphore is 0. *)
Definition call_post (m : manager) : manager := with_semaphore (semaphore m) BeforeTryWait m.
Definition post (m : manager) : manager :=
  match poster m with
  | Idle => m
  | BeforeTryWait => with_semaphore false BeforePost m
  | BeforePost => with_semaphore true Idle m
  end.

Definition imodule_cancel_timer (e : nat) (m : manager) : manager :=
  call_post (with_canceled ({[e]} ∪ canceled_events_ m) m).

(** [enqueue] of a timeout event; the signal it raises runs [signal_manager], which posts. *)
Definition enqueue (t : timer) (m : manager) : manager :=
  call_post (with_queue (Queues.enqueue TimeoutEventComparator t (queue m)) (waiting m) m).

(** [imodule_timeout] up to the wait. *)
Definition begin_timeout (t : timer) (m : manager) : manager :=
  if decide (timer_id t ∈ canceled_events_ m) then with_canceled (canceled_events_ m ∖ {[timer_id t]}) m
  else with_queue (queue m) (Some t) m.

(** The rest, once the wait ended by a post or a signal. *)
Definition requeue (t : timer) (m : manager) : manager :=
  with_queue (Queues.enqueue TimeoutEventComparator t (queue m)) None m.

(** Is the deadline over? *)
Definition timed_out (m : manager) (t : timer) : bool :=
  negb (TimeoutEventComparator {| timer_id := timer_id t; deadline := clock m |} t).

(** The wait timed out. *)
Definition fire (t : timer) (m : manager) : manager :=
  {| clock := clock m; queue := queue m; canceled_events_ := canceled_events_ m; semaphore := semaphore m;
     waiting := None; fired := fired m ++ [timer_id t]; poster := poster m |}.

(** One step of the manager's thread; it stays where it is while it blocks. *)
Definition thread_step (m : manager) : manager :=
  match waiting m with
  | None => match Queues.dequeue (queue m) with Some (t, q) => begin_timeout t (with_queue q None m) | None => m end
  | Some t =>
      if semaphore m then requeue t (with_semaphore false (poster m) m)
      else if timed_out m t then fire t m
      else m
  end.

Inductive label := Enqueued (t : timer) | Canceled (e : nat) | Posts | Thread | Interrupted | Clock (now : timespec).

Definition step (m : manager) (l : label) : manager :=
  match l with
  | Enqueued t => enqueue t m
  | Canceled e => imodule_cancel_timer e m
  | Posts => post m
  | Thread => thread_step m
  | Interrupted => match waiting m with Some t => requeue t m | None => m end
  | Clock now => {| clock := now; queue := queue m; canceled_events_ := canceled_events_ m; semaphore := semaphore m;
                    waiting := waiting m; fired := fired m; poster := poster m |}
  end.
Definition run (now : timespec) (h : list label) : manager := foldl step (initial now) h.

(** [h] can happen: no timeout event is enqueued twice, the dispatcher's thread finishes one
    call before the next, and the clock does not go back. *)
Definition created (h : list label) : list nat := omap (fun l => match l with Enqueued t => Some (timer_id t) | _ => None end) h.
Definition allowed (h : list label) (m : manager) (l : label) : Prop :=
  match l with
  | Enqueued t => timer_id t ∉ created h ∧ poster m = Idle
  | Canceled _ => poster m = Idle
  | Clock now => TimeoutEventComparator {| timer_id := 0; deadline := now |} {| timer_id := 0; deadline := clock m |} = false
  | Posts | Thread | Interrupted => True
  end.
Inductive history (now : timespec) : list label → Prop :=
| history_nil : history now []
| history_snoc h l : history now h → allowed h (run now h) l → history now (h ++ [l]).

Definition pending (m : manager) : list timer := option_list (waiting m) ++ queue m.

(** ** What the manager guarantees *)

Section Invariant.
Context (now : timespec).

Record inv (h : list label) (m : manager) : Prop := {
  inv_nodup : NoDup (map timer_id (pending m) ++ fired m);
  inv_created : ∀ i, i ∈ map timer_id (pending m) ++ fired m → i ∈ created h;
  inv_known : ∀ t, t ∈ pending m → Enqueued t ∈ h;
  inv_ordered : Queues.ordered TimeoutEventComparator (queue m);
  inv_waiting : ∀ t, waiting m = Some t → semaphore m = false → poster m = Idle →
    (timer_id t ∉ canceled_events_ m) ∧ ∀ t', t' ∈ queue m → TimeoutEventComparator t' t = false;
  inv_due : ∀ i, i ∈ fired m → ∃ t, Enqueued t ∈ h ∧ timer_id t = i ∧ timed_out m t = true }.

Lemma created_snoc h l : created (h ++ [l]) = created h ++ (match l with Enqueued t => [timer_id t] | _ => [] end).
Proof. unfold created. rewrite omap_app. f_equal. destruct l; reflexivity. Qed.

Lemma timed_out_later m m' t :
  TimeoutEventComparator {| timer_id := 0; deadline := clock m' |} {| timer_id := 0; deadline := clock m |} = false →
  timed_out m t = true → timed_out m' t = true.
Proof. unfold timed_out, TimeoutEventComparator. cbn [deadline]. intros. lia. Qed.

(** Timers that are as before, up to the order they wait in. *)
Lemma inv_same h l m m' :
  inv h m → pending m' ≡ₚ pending m → fired m' = fired m → clock m' = clock m → match l with Enqueued _ => False | _ => True end →
  Queues.ordered TimeoutEventComparator (queue m') →
  (∀ t, waiting m' = Some t → semaphore m' = false → poster m' = Idle →
     (timer_id t ∉ canceled_events_ m') ∧ ∀ t', t' ∈ queue m' → TimeoutEventComparator t' t = false) →
  inv (h ++ [l]) m'.
Proof.
  intros [Hn Hc Hk _ _ Hd] Hp Hf Hcl Hl Ho Hw.
  assert (created (h ++ [l]) = created h) as E by (rewrite created_snoc; destruct l; [destruct Hl | apply app_nil_r..]).
  split; rewrite ?Hf, ?E; [rewrite Hp; exact Hn | | | exact Ho | exact Hw |].
  - intros i. rewrite Hp. apply Hc.
  - intros t Ht. rewrite Hp in Ht. apply elem_of_app. left. apply Hk, Ht.
  - intros i Hi. destruct (Hd i Hi) as (t & ? & ? & ?). exists t. split; [apply elem_of_app; auto |]. split; [assumption |].
    unfold timed_out in *. rewrite Hcl. assumption.
Qed.

Lemma pending_requeue t m : waiting m = Some t → pending (requeue t m) ≡ₚ pending m.
Proof. intros E. unfold pending, requeue. cbn [with_queue waiting queue]. rewrite E. cbn. apply Queues.enqueue_permutation. Qed.

Lemma inv_thread h m : inv h m → inv (h ++ [Thread]) (thread_step m).
Proof.
  intros Hi. pose proof Hi as [Hn Hc Hk Ho Hw Hd]. unfold thread_step. destruct (waiting m) as [t|] eqn:Et.
  - destruct (semaphore m) eqn:Es; [| destruct (timed_out m t) eqn:Eo].
    + apply (inv_same h Thread m); [exact Hi | | reflexivity | reflexivity | exact I | | discriminate].
      * unfold pending, requeue. cbn [with_queue with_semaphore waiting queue]. rewrite Et. apply Queues.enqueue_permutation.
      * apply Queues.enqueue_ordered; [apply timeout_order | exact Ho].
    + unfold fire. unfold pending in *. rewrite Et in *. cbn in Hn, Hc, Hk.
      assert (map timer_id (queue m) ++ fired m ++ [timer_id t] ≡ₚ timer_id t :: map timer_id (queue m) ++ fired m) as Hp
        by (rewrite app_assoc; symmetry; apply Permutation_cons_append).
      split; unfold pending; cbn [waiting queue fired clock semaphore option_list app]; rewrite ?created_snoc, ?app_nil_r.
      * rewrite Hp. exact Hn.
      * intros i. rewrite Hp. apply Hc.
      * intros t' Ht'. apply elem_of_app. left. apply Hk, list_elem_of_further, Ht'.
      * exact Ho.
      * discriminate.
      * intros i [Hin | ->%list_elem_of_singleton]%elem_of_app.
        -- destruct (Hd i Hin) as (t' & ? & ? & ?). exists t'. split; [apply elem_of_app; auto | auto].
        -- exists t. split; [apply elem_of_app; left; apply Hk, list_elem_of_here | split; [reflexivity | exact Eo]].
    + apply (inv_same h Thread m); [exact Hi | reflexivity.. | exact I | exact Ho |]. rewrite Et, Es. exact Hw.
  - destruct (queue m) as [|t q] eqn:Eq; cbn [Queues.dequeue].
    { apply (inv_same h Thread m); [exact Hi | reflexivity.. | exact I | rewrite Eq; exact Ho |]. rewrite Et. discriminate. }
    apply StronglySorted_inv in Ho as [Ho Ht]. rewrite Forall_forall in Ht.
    unfold begin_timeout. cbn [with_queue canceled_events_]. destruct (decide _) as [Hin | Hout].
    + unfold pending in *. rewrite Et, Eq in *. cbn in Hn, Hc, Hk. apply NoDup_cons in Hn as [_ Hn].
      split; unfold pending; cbn [with_canceled with_queue waiting queue fired clock semaphore option_list app]; rewrite ?created_snoc, ?app_nil_r.
      * exact Hn.
      * intros i Hi'. apply Hc, list_elem_of_further, Hi'.
      * intros t' Ht'. apply elem_of_app. left. apply Hk, list_elem_of_further, Ht'.
      * exact Ho.
      * discriminate.
      * intros i Hi'. destruct (Hd i Hi') as (t' & ? & ? & ?). exists t'. split; [apply elem_of_app; auto | auto].
    + apply (inv_same h Thread m); [exact Hi | | reflexivity | reflexivity | exact I | exact Ho |].
      * unfold pending. cbn. rewrite Et, Eq. reflexivity.
      * cbn. intros t' [= <-] _ _. split; [exact Hout | exact Ht].
Qed.

Lemma inv_step h m l : inv h m → allowed h m l → inv (h ++ [l]) (step m l).
Proof.
  intros Hi Ha. pose proof Hi as [Hn Hc Hk Ho Hw Hd]. destruct l as [t|e| | | |c]; cbn [step allowed] in *.
  - destruct Ha as [Ha Hidle]. assert (pending (enqueue t m) ≡ₚ t :: pending m) as Hp.
    { unfold pending, enqueue. cbn. rewrite Queues.enqueue_permutation. symmetry. apply Permutation_middle. }
    split; rewrite ?created_snoc.
    + change (fired (enqueue t m)) with (fired m). rewrite Hp. cbn. apply NoDup_cons. split; [| exact Hn].
      intros Hin%Hc. contradiction.
    + intros i. rewrite Hp. change (fired (enqueue t m)) with (fired m). cbn. rewrite elem_of_app, list_elem_of_singleton.
      intros [-> | Hin]%elem_of_cons; auto.
    + intros t'. rewrite Hp. rewrite elem_of_app, list_elem_of_singleton. intros [-> | Hin]%elem_of_cons; auto.
    + apply Queues.enqueue_ordered; [apply timeout_order | exact Ho].
    + cbn. discriminate.
    + intros i Hin. destruct (Hd i Hin) as (t' & ? & ? & ?). exists t'. split; [apply elem_of_app; auto | auto].
  - apply (inv_same h (Canceled e) m); [exact Hi | reflexivity.. | exact I | exact Ho | cbn; discriminate].
  - unfold post. destruct (poster m) eqn:Ep.
    + apply (inv_same h Posts m); [exact Hi | reflexivity.. | exact I | exact Ho |]. rewrite Ep. exact Hw.
    + apply (inv_same h Posts m); [exact Hi | reflexivity.. | exact I | exact Ho | cbn; discriminate].
    + apply (inv_same h Posts m); [exact Hi | reflexivity.. | exact I | exact Ho | cbn; discriminate].
  - apply inv_thread, Hi.
  - destruct (waiting m) as [t|] eqn:Et.
    + apply (inv_same h Interrupted m); [exact Hi | apply pending_requeue, Et | reflexivity | reflexivity | exact I | | discriminate].
      apply Queues.enqueue_ordered; [apply timeout_order | exact Ho].
    + apply (inv_same h Interrupted m); [exact Hi | reflexivity.. | exact I | exact Ho |]. rewrite Et. discriminate.
  - split; rewrite ?created_snoc, ?app_nil_r; try assumption.
    + intros t Ht. apply elem_of_app. left. apply Hk, Ht.
    + intros i Hin. destruct (Hd i Hin) as (t' & ? & ? & Hto). exists t'. split; [apply elem_of_app; auto |]. split; [assumption |].
      apply (timed_out_later m); [exact Ha | exact Hto].
Qed.

Lemma run_snoc h l : run now (h ++ [l]) = step (run now h) l.
Proof. unfold run. rewrite foldl_app. reflexivity. Qed.

Lemma history_inv h : history now h → inv h (run now h).
Proof.
  induction 1 as [|h l Hh IH Ha]; [| rewrite run_snoc; apply inv_step; assumption].
  split; cbn; [constructor | intros i Hi; inversion Hi.. | constructor | discriminate | intros i Hi; inversion Hi].
Qed.

(** A timer cancelled before it fired, and not waited for: either the cancellation is still
    noted, or the timer is gone. *)
Definition cancelled (e : nat) (h : list label) (m : manager) : Prop :=
  (e ∉ fired m) ∧ (∀ t, waiting m = Some t → timer_id t ≠ e) ∧
  (e ∈ canceled_events_ m ∨ (e ∈ created h ∧ e ∉ map timer_id (pending m))).

(** Cancelled while the manager waits for it: it will wake up, or a post is under way. *)
Definition cancelling (e : nat) (m : manager) : Prop :=
  (e ∉ fired m) ∧ e ∈ canceled_events_ m ∧ (∃ t, waiting m = Some t ∧ timer_id t = e) ∧ (poster m = Idle → semaphore m = true).

Lemma pending_absent {m m' : manager} {e} :
  pending m' ≡ₚ pending m → e ∉ map timer_id (pending m) → e ∉ map timer_id (pending m').
Proof. intros ->. auto. Qed.

Lemma cancelled_thread e h m : inv h m → cancelled e h m → cancelled e (h ++ [Thread]) (thread_step m).
Proof.
  intros [Hn Hc _ _ _ _] (Hf & Hw & Hd). unfold thread_step, cancelled. rewrite created_snoc, app_nil_r. destruct (waiting m) as [t|] eqn:Et.
  - specialize (Hw t eq_refl). destruct (semaphore m) eqn:Es; [| destruct (timed_out m t)].
    + split; [exact Hf |]. split; [discriminate |]. destruct Hd as [Hin | [Hcr Hp]]; [left; exact Hin | right; split; [exact Hcr |]].
      refine (pending_absent (pending_requeue t (with_semaphore false (poster m) m) Et) _). exact Hp.
    + split; [cbn; rewrite elem_of_app, list_elem_of_singleton; intros [?|?]; [contradiction | congruence] |]. split; [discriminate |].
      destruct Hd as [Hin | [Hcr Hp]]; [left; exact Hin | right; split; [exact Hcr |]].
      unfold pending in *. rewrite Et in Hp. cbn in Hp |- *. intros Hin. apply Hp, list_elem_of_further, Hin.
    + split; [exact Hf |]. rewrite Et. split; [intros t' [= <-]; exact Hw | exact Hd].
  - unfold pending in *. destruct (queue m) as [|t q] eqn:Eq; cbn [Queues.dequeue]; [rewrite Et, Eq in *; auto |].
    rewrite Et in *. unfold begin_timeout. cbn [with_queue canceled_events_ option_list app map] in *. destruct (decide _) as [Hin | Hout].
    + split; [exact Hf |]. split; [discriminate |]. cbn. apply NoDup_cons in Hn as [Hn _].
      destruct (decide (timer_id t = e)) as [<- | Hne].
      * right. split; [apply Hc, list_elem_of_here |]. intros Hq. apply Hn, elem_of_app. auto.
      * destruct Hd as [Hi | [Hcr Hp]]; [left; set_solver | right; split; [exact Hcr |]].
        intros Hq. apply Hp, list_elem_of_further, Hq.
    + split; [exact Hf |]. cbn. split; [| exact Hd]. intros t' [= <-] <-.
      destruct Hd as [Hi | [_ Hp]]; [contradiction | apply Hp, list_elem_of_here].
Qed.

Lemma cancelled_step e h m l : inv h m → allowed h m l → cancelled e h m → cancelled e (h ++ [l]) (step m l).
Proof.
  intros Hi Ha Hc. destruct l as [t|e'| | | |c]; cbn [step allowed] in *; [| | | apply cancelled_thread; assumption | |].
  all: destruct Hc as (Hf & Hw & Hd); unfold cancelled; rewrite created_snoc, ?app_nil_r.
  - split; [exact Hf |]. split; [exact Hw |]. destruct Hd as [Hin | [Hcr Hp]]; [left; exact Hin | right].
    split; [apply elem_of_app; auto |]. unfold pending, enqueue in *. cbn. rewrite map_app in *.
    rewrite elem_of_app, Queues.enqueue_permutation. cbn. rewrite elem_of_app in Hp. rewrite elem_of_cons.
    intros [H | [-> | H]]; auto. destruct Ha as [Ha _]. contradiction.
  - split; [exact Hf |]. split; [exact Hw |]. destruct Hd as [Hin | [Hcr Hp]]; [left; cbn; set_solver | right; auto].
  - unfold post. destruct (poster m); auto.
  - destruct (waiting m) as [t|] eqn:Et; [| rewrite Et; auto].
    split; [exact Hf |]. split; [discriminate |]. destruct Hd as [Hin | [Hcr Hp]]; [left; exact Hin | right].
    split; [exact Hcr |]. exact (pending_absent (pending_requeue t m Et) Hp).
  - auto.
Qed.

(** A cancellation of what the manager waits for ends the wait, or the timer fires while a
    post is under way. *)
Lemma cancelling_step e h m l :
  inv h m → allowed h m l → cancelling e m →
  cancelling e (step m l) ∨ cancelled e (h ++ [l]) (step m l) ∨ (l = Thread ∧ poster m ≠ Idle ∧ e ∈ fired (step m l)).
Proof.
  intros Hi Ha (Hf & Hc & (t & Et & He) & Hs). destruct l as [t'|e'| | | |c]; cbn [step allowed] in *.
  - left. repeat (split; eauto). cbn. discriminate.
  - left. split; [exact Hf |]. split; [cbn; set_solver |]. split; [exists t; auto | cbn; discriminate].
  - left. unfold post. destruct (poster m) eqn:Ep; (split; [exact Hf |]); (split; [exact Hc |]); (split; [exists t; auto |]); cbn; rewrite ?Ep; auto; discriminate.
  - unfold thread_step. rewrite Et. destruct (semaphore m) eqn:Es; [right; left | destruct (timed_out m t); [right; right | left]].
    + split; [exact Hf |]. split; [discriminate | left; exact Hc].
    + split; [reflexivity |]. split; [intros E; specialize (Hs E); discriminate | cbn; apply elem_of_app; right; subst; apply list_elem_of_here].
    + rewrite <- Es in Hs. repeat (split; eauto).
  - right. left. rewrite Et. split; [exact Hf |]. split; [discriminate | left; exact Hc].
  - left. split; [exact Hf |]. split; [exact Hc |]. split; [exists t; auto | exact Hs].
Qed.

Lemma history_split h l h' : history now (h ++ l :: h') → history now h ∧ allowed h (run now h) l.
Proof.
  induction h' as [|x h' IH] using rev_ind; intros Hh; inversion Hh as [E | h0 l0 Hh0 Ha E].
  - destruct h; discriminate.
  - apply app_inj_tail in E as [-> ->]. auto.
  - destruct h; discriminate.
  - rewrite app_comm_cons, app_assoc in E. apply app_inj_tail in E as [-> _]. auto.
Qed.

Lemma cancelled_forever e h' : ∀ h,
  history now (h ++ h') → cancelled e h (run now h) → cancelled e (h ++ h') (run now (h ++ h')).
Proof.
  induction h' as [|l h' IH]; intros h Hh Hc; [rewrite app_nil_r; exact Hc |].
  destruct (history_split h l h' Hh) as [Hh0 Ha]. change (l :: h') with ([l] ++ h')%list in *. rewrite app_assoc in *.
  apply IH; [exact Hh |]. rewrite run_snoc. apply cancelled_step; [apply history_inv; exact Hh0 | exact Ha | exact Hc].
Qed.

(** When a cancelled timer fires after all. *)
Definition overtaken (e : nat) (h h' : list label) : Prop :=
  ∃ h3 h4, h' = (h3 ++ Thread :: h4)%list ∧ poster (run now (h ++ h3)) ≠ Idle ∧
    e ∉ fired (run now (h ++ h3)) ∧ e ∈ fired (run now (h ++ h3 ++ [Thread])).

Lemma cancelling_history e h' : ∀ h,
  history now (h ++ h') → cancelling e (run now h) → e ∈ fired (run now (h ++ h')) → overtaken e h h'.
Proof.
  induction h' as [|l h' IH]; intros h Hh Hc Hf; [rewrite app_nil_r in Hf; destruct (proj1 Hc Hf) |].
  destruct (history_split h l h' Hh) as [Hh0 Ha]. pose proof Hh as Hh'. change (l :: h') with ([l] ++ h')%list in Hh', Hf.
  rewrite app_assoc in Hh', Hf.
  destruct (cancelling_step e h (run now h) l (history_inv h Hh0) Ha Hc) as [H | [H | (-> & Hp & H)]]; rewrite <- ?run_snoc in H.
  - destruct (IH _ Hh' H Hf) as (h3 & h4 & -> & H1 & H2 & H3). exists (l :: h3), h4. rewrite <- !app_assoc in *. auto.
  - destruct (cancelled_forever e h' _ Hh' H) as [Hn _]. contradiction.
  - exists [], h'. rewrite !app_nil_r. split; [reflexivity |]. split; [exact Hp |]. split; [apply Hc | exact H].
Qed.
End Invariant.

(** C30: timers are safe. Whatever the interleaving of new timers, cancellations, the two steps
    of each post, the manager's thread, interrupting signals and the clock: no timer fires twice;
    one fires only after its deadline; one fires, except while a post is under way, only when it
    is not cancelled and no other waiting timer has an earlier deadline; and one cancelled before
    it fired never fires unless the manager already waits for it when the cancellation comes,
    and then only in a step of the manager's thread taken while a post is under way (the post
    takes the semaphore to 0 before it raises it). *)
Theorem timers_safe now h (m := run now h) :
  history now h →
  NoDup (fired m) ∧
  (∀ i, i ∈ fired m → ∃ t, Enqueued t ∈ h ∧ timer_id t = i ∧ timed_out m t = true) ∧
  (∀ i, i ∈ fired (thread_step m) → i ∉ fired m →
     ∃ t, t ∈ pending m ∧ timer_id t = i ∧
       (poster m = Idle → i ∉ canceled_events_ m ∧ ∀ t', t' ∈ pending m → TimeoutEventComparator t' t = false)) ∧
  (∀ h1 h2 e, h = (h1 ++ Canceled e :: h2)%list → e ∉ fired (run now h1) → e ∈ fired m →
     (∃ t, waiting (run now h1) = Some t ∧ timer_id t = e) ∧ overtaken now e (h1 ++ [Canceled e]) h2).
Proof.
  intros Hh. pose proof (history_inv now h Hh) as Hi. fold m in Hi. split; [apply (NoDup_app (map timer_id (pending m))), (inv_nodup _ _ Hi) |].
  split; [exact (inv_due _ _ Hi) |]. split.
  - intros i Hin Hout. unfold thread_step in Hin. destruct (waiting m) as [t|] eqn:Et.
    + destruct (semaphore m) eqn:Es; [contradiction |]. destruct (timed_out m t); [| contradiction]. cbn in Hin.
      apply elem_of_app in Hin as [? | ->%list_elem_of_singleton]; [contradiction |]. exists t. unfold pending. rewrite Et.
      split; [apply list_elem_of_here |]. split; [reflexivity |]. intros Hidle.
      destruct (inv_waiting _ _ Hi t Et Es Hidle) as [Hnc Hmin]. split; [exact Hnc |]. cbn. intros t' [-> | Ht']%elem_of_cons; [| auto].
      destruct (TimeoutEventComparator t t) eqn:E; [| reflexivity]. pose proof (Queues.before_asym t t E). congruence.
    + destruct (queue m); cbn [Queues.dequeue] in Hin; [contradiction |]. unfold begin_timeout in Hin. destruct (decide _); contradiction.
  - intros h1 h2 e Eh Hf Hfm. unfold m in *. clear m Hi. subst h. destruct (history_split now h1 _ h2 Hh) as [Hh1 Ha].
    change (Canceled e :: h2) with ([Canceled e] ++ h2)%list in *. rewrite app_assoc in *.
    assert (∀ t, waiting (run now h1) = Some t → timer_id t ≠ e → False) as Hw.
    { intros t Et Hne. assert (cancelled e (h1 ++ [Canceled e]) (run now (h1 ++ [Canceled e]))) as Hc.
      { rewrite run_snoc. split; [exact Hf |]. split; [cbn; rewrite Et; intros t' [= <-]; exact Hne | left; cbn; set_solver]. }
      destruct (cancelled_forever now e h2 _ Hh Hc) as [Hn _]. contradiction. }
    destruct (waiting (run now h1)) as [t|] eqn:Et.
    2: { assert (cancelled e (h1 ++ [Canceled e]) (run now (h1 ++ [Canceled e]))) as Hc.
         { rewrite run_snoc. split; [exact Hf |]. split; [cbn; rewrite Et; discriminate | left; cbn; set_solver]. }
         destruct (cancelled_forever now e h2 _ Hh Hc) as [Hn _]. contradiction. }
    destruct (decide (timer_id t = e)) as [He | Hne]; [| destruct (Hw t eq_refl Hne)].
    split; [exists t; auto |]. apply cancelling_history; [exact Hh | | exact Hfm].
    rewrite run_snoc. split; [exact Hf |]. split; [cbn; set_solver |]. split; [exists t; auto | cbn; discriminate].
Qed.

Lemma history_all now h :
  (∀ i l, h !! i = Some l → allowed (take i h) (run now (take i h)) l) → history now h.
Proof.
  induction h as [|l h IH] using rev_ind; intros H; [constructor |]. constructor.
  - apply IH. intros i l' E. pose proof (lookup_lt_Some _ _ _ E). specialize (H i l').
    rewrite lookup_app_l, take_app_le in H by lia. auto.
  - specialize (H (length h) l). rewrite take_app_length, lookup_app_r, Nat.sub_diag in H by lia. auto.
Qed.

(** Two timers, of which the later one was enqueued first; the clock, then the thread. *)
Definition example_start : timespec := {| tv_sec := 1; tv_nsec := 0 |}.
Definition example_timer (i : nat) (s : Z) : timer := {| timer_id := i; deadline := {| tv_sec := s; tv_nsec := 500 |} |}.
Definition example_history : list label :=
  [Enqueued (example_timer 1 9); Thread; Posts; Posts; Enqueued (example_timer 2 3); Posts; Posts; Enqueued (example_timer 3 5); Posts; Posts;
   Thread; Thread; Thread; Canceled 3; Posts; Posts; Clock {| tv_sec := 10; tv_nsec := 0 |}].

Ltac by_decision := apply (bool_decide_unpack _); vm_compute; exact I.

Lemma example_history_history : history example_start example_history.
Proof.
  apply history_all. intros i l E. assert (i < 17)%nat as Hi by (apply lookup_lt_Some in E; exact E).
  do 17 (destruct i as [|i]; [injection E as <-; cbn [allowed]; first [exact I | reflexivity | by_decision | split; [by_decision | reflexivity]] |]). lia.
Qed.

Lemma timers_safe_witness :
  let m := run example_start (example_history ++ [Thread; Thread; Thread; Thread; Thread]) in
  history example_start (example_history ++ [Thread; Thread; Thread; Thread; Thread]) ∧ fired m = [2%nat] ∧ NoDup (fired m) ∧
  3%nat ∉ fired m.
Proof.
  assert (history example_start (example_history ++ [Thread; Thread; Thread; Thread; Thread])) as H.
  { change (history example_start (((((example_history ++ [Thread]) ++ [Thread]) ++ [Thread]) ++ [Thread]) ++ [Thread])).
    repeat (apply history_snoc; [| exact I]). exact example_history_history. }
  split; [exact H |]. split; [vm_compute; reflexivity |].
  destruct (timers_safe _ _ H) as (Hn & _ & _ & Hc). split; [exact Hn |]. intros Hin.
  destruct (Hc (take 13 example_history) (drop 14 (example_history ++ [Thread; Thread; Thread; Thread; Thread])) 3%nat) as [(t & Et & He) _];
    [reflexivity | by_decision | exact Hin |]. vm_compute in Et. injection Et as <-. discriminate He.
Defined.

(** ** Every timer fires *)

Section Liveness.

Definition live (m : manager) (l : list timer) : list timer := filter (fun t => timer_id t ∉ canceled_events_ m) l.

Lemma live_drop m t l : timer_id t ∈ canceled_events_ m → live m (t :: l) = live m l.
Proof. intros H. unfold live. rewrite filter_cons, decide_False by (intros N; exact (N H)). reflexivity. Qed.

Lemma live_keep m t l : timer_id t ∉ canceled_events_ m → live m (t :: l) = t :: live m l.
Proof. intros H. unfold live. rewrite filter_cons, decide_True by exact H. reflexivity. Qed.

Lemma live_ext m m' l :
  (∀ t, t ∈ l → timer_id t ∈ canceled_events_ m ↔ timer_id t ∈ canceled_events_ m') → live m l = live m' l.
Proof.
  induction l as [|t l IH]; intros H; [reflexivity |]. unfold live. rewrite !filter_cons. fold (live m l) (live m' l).
  rewrite IH by (intros; apply H, list_elem_of_further; assumption).
  pose proof (H t (list_elem_of_here _ _)). do 2 case_decide; tauto || reflexivity.
Qed.

Definition all_timed_out (m : manager) : Prop := ∀ t, t ∈ pending m → timed_out m t = true.

(** The manager at rest, with nothing to do. *)
Record drained (m : manager) (l : list timer) (m' : manager) : Prop := {
  drained_pending : pending m' = [];
  drained_fired : fired m' = (fired m ++ map timer_id l)%list;
  drained_semaphore : semaphore m' = false ∨ semaphore m' = semaphore m }.

(** Waking up to an empty queue changes nothing. *)
Lemma drain_waiting_none n : ∀ m,
  length (queue m) = n → waiting m = None → semaphore m = false → NoDup (map timer_id (queue m)) → all_timed_out m →
  ∃ k, (k ≤ 2 * n)%nat ∧ drained m (live m (queue m)) (Nat.iter k thread_step m).
Proof.
  induction n as [|n IH]; intros m Hl Hw Hs Hn Ht; destruct (queue m) as [|t q] eqn:Eq; try discriminate.
  { exists 0%nat. split; [lia |]. split; cbn; [unfold pending; rewrite Hw, Eq; reflexivity | symmetry; apply app_nil_r | auto]. }
  injection Hl as Hl. cbn [map] in Hn. apply NoDup_cons in Hn as [Hnt Hn].
  assert (∀ m', clock m' = clock m → pending m' = q → all_timed_out m') as Hall.
  { intros m' Hc Hp t' Ht'. unfold timed_out. rewrite Hc. apply Ht. unfold pending. rewrite Hw, Eq. apply list_elem_of_further. rewrite <- Hp. exact Ht'. }
  assert (thread_step m = begin_timeout t (with_queue q None m)) as E1 by (unfold thread_step; rewrite Hw, Eq; reflexivity).
  unfold begin_timeout in E1. cbn [with_queue canceled_events_] in E1.
  destruct (decide (timer_id t ∈ canceled_events_ m)) as [Hin | Hout].
  - rewrite (live_drop m t q Hin).
    destruct (IH (thread_step m)) as (k & Hk & Hd); [rewrite E1; auto; apply Hall; reflexivity.. |].
    exists (S k). split; [lia |]. rewrite Nat.iter_succ_r. destruct Hd as [D1 D2 D3]. rewrite E1 in *.
    split; [exact D1 | | exact D3]. rewrite D2. cbn [fired with_canceled with_queue queue]. do 2 f_equal.
    apply live_ext. intros t' Ht'. cbn. rewrite elem_of_difference, elem_of_singleton.
    split; [tauto |]. intros H. split; [exact H |]. intros E. apply Hnt. rewrite <- E. apply list_elem_of_fmap. eauto.
  - rewrite (live_keep m t q Hout).
    assert (timed_out m t = true) as Hto by (apply Ht; unfold pending; rewrite Hw, Eq; apply list_elem_of_here).
    set (m2 := {| clock := clock m; queue := q; canceled_events_ := canceled_events_ m; semaphore := semaphore m; waiting := None;
                  fired := fired m ++ [timer_id t]; poster := poster m |}).
    assert (thread_step (thread_step m) = m2) as E2.
    { rewrite E1. unfold thread_step. cbn. rewrite Hs. unfold timed_out in *. cbn in *. rewrite Hto. unfold m2, fire. cbn. rewrite Hs. reflexivity. }
    destruct (IH m2) as (k & Hk & [D1 D2 D3]); [exact Hl | reflexivity | exact Hs | exact Hn | apply Hall; reflexivity |].
    exists (S (S k)). split; [lia |]. rewrite !Nat.iter_succ_r, E2. split; [exact D1 | | exact D3].
    rewrite D2. cbn [m2 fired queue map]. rewrite <- app_assoc. reflexivity.
Qed.

Lemma live_ordered m l : Queues.ordered TimeoutEventComparator l → Queues.ordered TimeoutEventComparator (live m l).
Proof.
  induction 1 as [|t l Hl IH Ht]; [constructor |]. unfold live. rewrite filter_cons. fold (live m l).
  case_decide; [constructor |]; try exact IH. rewrite Forall_forall in *. intros t' [_ Ht']%list_elem_of_filter. auto.
Qed.

(** [k] steps fire the timers [l], in this order, and nothing else is left. *)
Definition fires_all (m : manager) (n : nat) : Prop :=
  ∃ k l, (k ≤ n)%nat ∧ pending (Nat.iter k thread_step m) = [] ∧ fired (Nat.iter k thread_step m) = (fired m ++ map timer_id l)%list ∧
    l ≡ₚ live m (pending m) ∧ Queues.ordered TimeoutEventComparator l.

Lemma fires_rested m :
  waiting m = None → semaphore m = false → NoDup (map timer_id (queue m)) → all_timed_out m →
  Queues.ordered TimeoutEventComparator (queue m) → fires_all m (2 * length (pending m)).
Proof.
  intros Hw Hs Hn Ht Ho. destruct (drain_waiting_none (length (queue m)) m eq_refl Hw Hs Hn Ht) as (k & Hk & [D1 D2 _]).
  exists k, (live m (queue m)). unfold pending at 1 3. rewrite Hw. cbn.
  split; [exact Hk |]. split; [exact D1 |]. split; [exact D2 |]. split; [reflexivity | apply live_ordered, Ho].
Qed.

(** A step that neither fires nor forgets. *)
Lemma fires_step m n :
  pending (thread_step m) ≡ₚ pending m → fired (thread_step m) = fired m → canceled_events_ (thread_step m) = canceled_events_ m →
  fires_all (thread_step m) n → fires_all m (S n).
Proof.
  intros Hp Hf Hc (k & l & Hk & D1 & D2 & D3 & D4). exists (S k), l. rewrite Nat.iter_succ_r, <- Hf. split; [lia |].
  split; [exact D1 |]. split; [exact D2 |]. split; [| exact D4]. rewrite D3. unfold live. rewrite Hc, Hp. reflexivity.
Qed.

Lemma fires_mono m n n' : (n ≤ n')%nat → fires_all m n → fires_all m n'.
Proof. intros Hn (k & l & ? & H). exists k, l. split; [lia | exact H]. Qed.

(** Between two waits, whatever the semaphore. *)
Lemma fires_between n : ∀ m,
  length (queue m) = n → waiting m = None → NoDup (map timer_id (queue m)) → all_timed_out m →
  Queues.ordered TimeoutEventComparator (queue m) → fires_all m (2 * n + 2).
Proof.
  induction n as [|n IH]; intros m Hl Hw Hn Ht Ho; destruct (queue m) as [|t q] eqn:Eq; try discriminate.
  { exists 0%nat, []. unfold pending. cbn. rewrite Hw, Eq. split; [lia |]. split; [reflexivity |].
    split; [symmetry; apply app_nil_r |]. split; [reflexivity | constructor]. }
  destruct (semaphore m) eqn:Es.
  2: { apply (fires_mono m (2 * length (pending m))); [unfold pending; rewrite Hw, Eq; cbn in *; lia |].
       apply fires_rested; rewrite ?Eq; assumption. }
  injection Hl as Hl. cbn [map] in Hn. pose proof Hn as Hn0. apply NoDup_cons in Hn as [Hnt Hn]. pose proof Ho as Ho0.
  apply StronglySorted_inv in Ho as [Ho _].
  assert (thread_step m = begin_timeout t (with_queue q None m)) as E1 by (unfold thread_step; rewrite Hw, Eq; reflexivity).
  unfold begin_timeout in E1. cbn [with_queue canceled_events_ queue] in E1.
  destruct (decide (timer_id t ∈ canceled_events_ m)) as [Hin | Hout].
  - destruct (IH (thread_step m)) as (k & l & Hk & D1 & D2 & D3 & D4); [rewrite E1; auto; intros t' Ht'.. |].
    { unfold timed_out. apply Ht. unfold pending. rewrite Hw, Eq. apply list_elem_of_further, Ht'. }
    exists (S k), l. rewrite Nat.iter_succ_r. split; [lia |]. split; [exact D1 |].
    split; [rewrite D2, E1; reflexivity |]. split; [| exact D4]. rewrite D3, E1. unfold pending. rewrite Hw, Eq. cbn [option_list app].
    change (option_list None ++ t :: q)%list with (t :: q). rewrite (live_drop m t q Hin).
    change (live (with_canceled (canceled_events_ m ∖ {[timer_id t]}) (with_queue q None m)) q ≡ₚ live m q).
    erewrite live_ext; [reflexivity |]. intros t' Ht'. cbn. rewrite elem_of_difference, elem_of_singleton.
    split; [tauto |]. intros H. split; [exact H |]. intros E. apply Hnt. rewrite <- E. apply list_elem_of_fmap. eauto.
  - assert (Queues.enqueue TimeoutEventComparator t q ≡ₚ t :: q) as Hperm by apply Queues.enqueue_permutation.
    apply (fires_mono m (S (S (2 * S n)))); [lia |]. apply fires_step; [rewrite E1; unfold pending; cbn; rewrite Hw, Eq; reflexivity | rewrite E1; reflexivity.. |].
    assert (thread_step (thread_step m) = {| clock := clock m; queue := Queues.enqueue TimeoutEventComparator t q;
      canceled_events_ := canceled_events_ m; semaphore := false; waiting := None; fired := fired m; poster := poster m |}) as E2
      by (rewrite E1; unfold thread_step; cbn; rewrite Es; reflexivity).
    apply fires_step; [rewrite E2, E1; exact Hperm | rewrite E2, E1; reflexivity.. |].
    apply (fires_mono _ (2 * length (pending (thread_step (thread_step m))))); [rewrite E2; unfold pending; cbn [waiting queue option_list app]; rewrite Hperm; cbn; lia |].
    apply fires_rested; rewrite E2; [reflexivity | reflexivity | | |]; cbn [queue].
    + rewrite Hperm. exact Hn0.
    + intros t' Ht'. unfold pending in Ht'. cbn in Ht'. rewrite Hperm in Ht'. unfold timed_out. apply Ht. unfold pending. rewrite Hw, Eq. exact Ht'.
    + apply Queues.enqueue_ordered; [apply timeout_order | exact Ho].
Qed.
End Liveness.

(** Nothing is under way in the dispatcher's thread. *)
Lemma idle_fires h m :
  inv h m → poster m = Idle → all_timed_out m → fires_all m (2 * length (pending m) + 2).
Proof.
  intros Hi Hidle Ht. unfold all_timed_out in Ht. pose proof Hi as [Hn _ _ Ho Hwt _].
  apply NoDup_app in Hn as (Hn & _ & _). destruct (waiting m) as [t|] eqn:Et.
  2: { assert (pending m = queue m) as Hp by (unfold pending; rewrite Et; reflexivity). rewrite Hp in *.
       apply fires_between; auto. intros t Ht'. rewrite Hp in Ht'. auto. }
  assert (pending m = t :: queue m) as Hp by (unfold pending; rewrite Et; reflexivity). rewrite Hp in *. cbn [length].
  destruct (semaphore m) eqn:Es.
  - assert (thread_step m = {| clock := clock m; queue := Queues.enqueue TimeoutEventComparator t (queue m);
      canceled_events_ := canceled_events_ m; semaphore := false; waiting := None; fired := fired m; poster := poster m |}) as E
      by (unfold thread_step; rewrite Et, Es; reflexivity).
    assert (pending (thread_step m) ≡ₚ t :: queue m) as Hperm by (rewrite E; apply Queues.enqueue_permutation).
    apply (fires_mono m (S (2 * length (pending (thread_step m))))); [rewrite Hperm; cbn; lia |].
    apply fires_step; [rewrite Hp; exact Hperm | rewrite E; reflexivity.. |].
    apply fires_rested; rewrite ?E; cbn [waiting semaphore queue]; [reflexivity | reflexivity | | |].
    + rewrite Queues.enqueue_permutation. exact Hn.
    + intros t' Ht'. unfold timed_out. cbn [clock]. apply Ht. rewrite <- Hperm, E. exact Ht'.
    + apply Queues.enqueue_ordered; [apply timeout_order | exact Ho].
  - destruct (Hwt t eq_refl eq_refl Hidle) as [Hlive Hmin]. apply NoDup_cons in Hn as [_ Hn].
    assert (thread_step m = {| clock := clock m; queue := queue m; canceled_events_ := canceled_events_ m; semaphore := false;
      waiting := None; fired := fired m ++ [timer_id t]; poster := poster m |}) as E.
    { unfold thread_step. rewrite Et, Es, Ht by apply list_elem_of_here. unfold fire. rewrite Es. reflexivity. }
    destruct (drain_waiting_none (length (queue m)) (thread_step m)) as (k & Hk & [D1 D2 _]); rewrite ?E; auto.
    { intros t' Ht'. unfold timed_out. cbn [clock]. apply Ht. apply list_elem_of_further. exact Ht'. }
    exists (S k), (t :: live m (queue m)). rewrite Nat.iter_succ_r. split; [lia |]. split; [exact D1 |].
    split; [rewrite D2, E; cbn; rewrite <- app_assoc; reflexivity |]. rewrite Hp. rewrite live_keep by exact Hlive.
    split; [reflexivity |]. constructor; [apply live_ordered, Ho |]. apply Forall_forall. intros t' [_ Ht']%list_elem_of_filter. auto.
Qed.

(** The dispatcher's thread ends its post, if it is in one. *)
Definition finish (m : manager) : manager :=
  match poster m with Idle => m | BeforeTryWait => post (post m) | BeforePost => post m end.

(** C31: every timer fires. Once the clock is past the deadlines of the timers the manager
    holds and the dispatcher's thread has ended the post it may be in, a bounded number of steps
    of the manager's thread, whatever it was doing, fires exactly those that were not cancelled,
    earliest deadline first, and leaves none. *)
Theorem timers_fire now h (m := run now h) :
  history now h → (∀ t, t ∈ pending m → timed_out m t = true) → fires_all (finish m) (2 * length (pending m) + 2).
Proof.
  intros Hh Ht.
  assert (∃ h', history now h' ∧ run now h' = finish m) as (h' & Hh' & E).
  { unfold finish. destruct (poster m) eqn:Ep; [exists h; auto | |].
    - exists ((h ++ [Posts]) ++ [Posts]). rewrite !run_snoc. split; [| reflexivity]. repeat (apply history_snoc; [| exact I]). exact Hh.
    - exists (h ++ [Posts]). rewrite run_snoc. split; [| reflexivity]. repeat (apply history_snoc; [| exact I]). exact Hh. }
  assert (poster (finish m) = Idle ∧ pending (finish m) = pending m ∧ clock (finish m) = clock m) as (Hp & <- & Hc)
    by (unfold finish, post; destruct (poster m) eqn:Ep; cbn; rewrite ?Ep; auto).
  apply (idle_fires h'); [rewrite <- E; apply history_inv, Hh' | exact Hp |].
  intros t Hin. unfold timed_out. rewrite Hc. apply Ht. revert Hin. unfold finish, post. destruct (poster m) eqn:Ep; cbn; rewrite ?Ep; auto.
Qed.

Lemma timers_fire_witness :
  let m := run example_start example_history in
  map timer_id (pending m) = [2; 3; 1]%nat ∧ fires_all (finish m) (2 * length (pending m) + 2).
Proof.
  split; [vm_compute; reflexivity |]. apply timers_fire; [exact example_history_history |].
  apply Forall_forall. by_decision.
Defined.

(** ** Behaviour the code does not intend *)

(** The manager waits for timer 1, which is cancelled; before its thread runs again, the post of
    a new timer takes the semaphore back to 0, and the cancelled timer fires. *)
Definition overtaking_history : list label :=
  [Enqueued (example_timer 1 9); Posts; Posts; Thread; Thread; Thread; Canceled 1; Posts; Posts;
   Enqueued (example_timer 2 30); Posts; Clock {| tv_sec := 10; tv_nsec := 0 |}; Thread].

Lemma cancelled_timer_fires : history example_start overtaking_history ∧ fired (run example_start overtaking_history) = [1%nat].
Proof.
  split; [| vm_compute; reflexivity]. apply history_all. intros i l E.
  assert (i < 13)%nat as Hi by (apply lookup_lt_Some in E; exact E).
  do 13 (destruct i as [|i]; [injection E as <-; cbn [allowed]; first [exact I | reflexivity | by_decision | split; [by_decision | reflexivity]] |]). lia.
Qed.
