(* ===== verification/Dispatcher.v ===== *)
(** * The dispatcher and its registrations

    classes Dispatcher and ProtocolManager (transport/src/Dispatcher.cc,
    ProtocolManager.cc), the listener's registrations (RawSocketListener.cc), and the
    part of transport/src/main.cc that connects the program's modules: which of them
    get which events. Options are what the command line switches on. *)
From Stdlib Require Import String.
From stdpp Require Import gmap strings.
From S2P Require Import Prelude.

Local Open Scope string_scope.
Local Open Scope Z_scope.


(** The modules. A protocol is known by its number. *)
Inductive processor := Protocol (number : Z) | NetworkInterface | TimeoutEventManager | WiFuTransportBackEndTranslator | PacketLogger.

#[export] Instance processor_eq_dec : EqDecision processor.
Proof. solve_decision. Defined.

Abbreviation dispatcher_map := (gmap string (list processor)).

(** An event's name is that of its class. *)
Definition map_event (name : string) (q : processor) (m : dispatcher_map) : dispatcher_map :=
  let m := match m !! name with None => <[name := []]> m | Some _ => m end in
  let v := default [] (m !! name) in
  if decide (q ∈ v) then m else <[name := (v ++ [q])%list]> m.

(** The queues an event is put on, in this order. *)
Definition process (name : string) (m : dispatcher_map) : list processor :=
  match m !! name with Some queue_processors => queue_processors | None => [] end.

(** ** What main sets up

    [map_]: the dispatcher's; [supported]: the ProtocolManager's set; [factories]: the
    protocols the listener's raw sockets were opened for, in order. *)
Record system := { map_ : dispatcher_map; supported : gset Z; factories : list Z }.

Definition map_events (names : list string) (q : processor) (s : system) : system :=
  {| map_ := foldl (fun m name => map_event name q m) (map_ s) names; supported := supported s; factories := factories s |}.
Definition support (protocol : Z) (s : system) : system :=
  {| map_ := map_ s; supported := {[protocol]} ∪ supported s; factories := factories s |}.
Definition is_supported (domain type protocol : Z) (s : system) : bool := bool_decide (protocol ∈ supported s).
Definition register_protocol (protocol : Z) (s : system) : system :=
  {| map_ := map_ s; supported := supported s; factories := (factories s ++ [protocol])%list |}.

(** The events the four TCP protocols are registered for. *)
Definition tcp_events : list string :=
  ["SocketEvent"; "BindEvent"; "ListenEvent"; "ConnectEvent"; "AcceptEvent"; "ConnectionEstablishedEvent"; "ConnectionInitiatedEvent";
   "SendPacketEvent"; "NetworkReceivePacketEvent"; "TimerFiredEvent"; "ResendPacketEvent"; "ReceiveEvent"; "SendEvent";
   "SendBufferNotEmptyEvent"; "SendBufferNotFullEvent"; "ReceiveBufferNotEmptyEvent"; "ReceiveBufferNotFullEvent"; "CloseEvent";
   "DeleteSocketEvent"; "SetSocketOptionEvent"; "GetSocketOptionEvent"].
Definition udp_events : list string :=
  ["SocketEvent"; "BindEvent"; "ListenEvent"; "ConnectEvent"; "AcceptEvent"; "SendPacketEvent"; "NetworkReceivePacketEvent";
   "ReceiveEvent"; "SendEvent"; "CloseEvent"; "DeleteSocketEvent"; "SetSocketOptionEvent"; "GetSocketOptionEvent"].

Definition register_tcp_tahoe (s : system) : system :=
  map_events tcp_events (Protocol TCP_TAHOE) (register_protocol TCP_TAHOE (support TCP_TAHOE s)).
Definition register_udp (s : system) : system :=
  map_events udp_events (Protocol UDP) (register_protocol UDP (support UDP s)).
Definition register_ap (s : system) : system :=
  map_events tcp_events (Protocol TCP_AP) (register_protocol TCP_AP (support TCP_AP s)).
Definition register_delayed_ack (s : system) : system :=
  map_events tcp_events (Protocol TCP_DELAYEDACK) (register_protocol TCP_DELAYEDACK (support TCP_DELAYEDACK s)).
Definition register_ap_delayed_ack (s : system) : system :=
  map_events tcp_events (Protocol TCP_AP_DELAYEDACK) (register_protocol TCP_AP_DELAYEDACK (support TCP_AP_DELAYEDACK s)).

Definition when (b : bool) (f : system → system) (s : system) : system := if b then f s else s.

(** [present]: [OptionParser::present]. *)
Definition register_protocols (present : string → bool) (s : system) : system :=
  let s := register_tcp_tahoe s in
  let s := register_udp s in
  let s := when (present "tahoe") register_tcp_tahoe s in
  let s := when (present "udp") register_udp s in
  let s := when (present "ap") register_ap s in
  let s := when (present "dack") register_delayed_ack s in
  when (present "ap+dack") register_ap_delayed_ack s.

(** [main] from the registrations of the modules on. *)
Definition main (present : string → bool) : system :=
  let s := {| map_ := ∅; supported := ∅; factories := [] |} in
  let s := map_events ["NetworkSendPacketEvent"; "TimerFiredEvent"] NetworkInterface s in
  let s := map_events ["TimeoutEvent"; "CancelTimerEvent"] TimeoutEventManager s in
  let s := map_events ["ResponseEvent"] WiFuTransportBackEndTranslator s in
  let s := map_events ["TimerFiredEvent"] PacketLogger s in
  register_protocols present s.

(** ** What the registrations achieve *)

(** Whether a queue keeps an event of a socket of this protocol: [should_enqueue], of
    [Protocol] and of the other modules. *)
Definition should_enqueue (protocol : Z) (q : processor) : bool :=
  match q with Protocol number => protocol =? number | _ => true end.

(** The queues an event named [name], of a socket of this protocol, ends up on. *)
Definition delivered (present : string → bool) (name : string) (protocol : Z) : list processor :=
  List.filter (should_enqueue protocol) (process name (map_ (main present))).

(** The names of the front end's calls and of received packets. *)
Definition call_events : list string :=
  ["SocketEvent"; "BindEvent"; "ListenEvent"; "ConnectEvent"; "AcceptEvent"; "ReceiveEvent"; "SendEvent"; "CloseEvent";
   "SetSocketOptionEvent"; "GetSocketOptionEvent"; "NetworkReceivePacketEvent"].

(** The protocols that run, in the order of their first registration. *)
Definition running (present : string → bool) : list Z :=
  ([TCP_TAHOE; UDP] ++ (if present "ap" then [TCP_AP] else []) ++ (if present "dack" then [TCP_DELAYEDACK] else []) ++
   (if present "ap+dack" then [TCP_AP_DELAYEDACK] else []))%list.

(** Goes through the command lines. *)
Ltac command_lines present :=
  unfold main, register_protocols, running, when;
  destruct (present "tahoe"), (present "udp"), (present "ap"), (present "dack"), (present "ap+dack").

Lemma supported_running present domain type protocol : is_supported domain type protocol (main present) = bool_decide (protocol ∈ running present).
Proof.
  unfold is_supported. apply bool_decide_ext. rewrite <- elem_of_elements.
  assert (elements (supported (main present)) ≡ₚ running present) as H; [| rewrite H; reflexivity].
  apply (bool_decide_unpack _). command_lines present; vm_compute; exact I.
Qed.

Lemma running_nodup present : NoDup (running present).
Proof. apply (bool_decide_unpack _). command_lines present; vm_compute; exact I. Qed.

(** Exactly one protocol keeps a socket's event. *)
Lemma filter_protocols protocol l :
  NoDup l → List.filter (should_enqueue protocol) (map Protocol l) = if bool_decide (protocol ∈ l) then [Protocol protocol] else [].
Proof.
  induction 1 as [|p l Hp Hl IH]; [reflexivity |]. cbn [map List.filter should_enqueue]. rewrite IH.
  destruct (Z.eqb_spec protocol p) as [-> | Hne].
  - rewrite (bool_decide_eq_false_2 (p ∈ l)) by exact Hp. rewrite bool_decide_eq_true_2 by apply list_elem_of_here. reflexivity.
  - rewrite (bool_decide_ext (protocol ∈ p :: l) (protocol ∈ l)); [reflexivity |]. rewrite elem_of_cons. tauto.
Qed.

(** Does each event reach exactly the modules beside it? *)
Definition routes (l : list (string * list processor)) (m : dispatcher_map) : bool :=
  forallb (fun '(name, q) => bool_decide (process name m = q)) l.

Lemma routes_spec l m name q : routes l m = true → (name, q) ∈ l → process name m = q.
Proof.
  unfold routes. rewrite forallb_forall. intros H Hin%list_elem_of_In. specialize (H _ Hin). cbn in H.
  rewrite bool_decide_eq_true in H. exact H.
Qed.

Lemma call_receivers present name : name ∈ call_events → process name (map_ (main present)) = map Protocol (running present).
Proof.
  intros H. apply (routes_spec (map (fun name => (name, map Protocol (running present))) call_events)).
  - command_lines present; vm_compute; reflexivity.
  - apply list_elem_of_fmap. exists name. split; [reflexivity | exact H].
Qed.

Definition other_routes (present : string → bool) : list (string * list processor) :=
  [("ResponseEvent", [WiFuTransportBackEndTranslator]); ("NetworkSendPacketEvent", [NetworkInterface]);
   ("TimeoutEvent", [TimeoutEventManager]); ("CancelTimerEvent", [TimeoutEventManager]);
   ("TimerFiredEvent", [NetworkInterface; PacketLogger] ++ map Protocol (base.filter (fun p => p ≠ UDP) (running present)))]%list.

Lemma other_receivers present i name q : other_routes present !! i = Some (name, q) → process name (map_ (main present)) = q.
Proof.
  intros H. apply (routes_spec (other_routes present)); [| apply (list_elem_of_lookup_2 _ i), H].
  unfold other_routes. command_lines present; vm_compute; reflexivity.
Qed.

(** C27: the registrations route every event. Whatever the options: a call of the front end or a
    received packet for a socket of a supported protocol is put on that protocol's queue,
    once, and on no other queue, and for an unsupported protocol on none; responses go to the
    back end, packets to the network, new and cancelled timers to the timer manager, and an
    expired timer to the protocol of its socket besides the network interface and the logger,
    unless that is UDP. *)
Theorem main_routes present name domain type protocol :
  (name ∈ call_events →
     delivered present name protocol = if is_supported domain type protocol (main present) then [Protocol protocol] else []) ∧
  delivered present "ResponseEvent" protocol = [WiFuTransportBackEndTranslator] ∧
  delivered present "NetworkSendPacketEvent" protocol = [NetworkInterface] ∧
  delivered present "TimeoutEvent" protocol = [TimeoutEventManager] ∧
  delivered present "CancelTimerEvent" protocol = [TimeoutEventManager] ∧
  delivered present "TimerFiredEvent" protocol =
    ([NetworkInterface; PacketLogger] ++
     if is_supported domain type protocol (main present) && negb (protocol =? UDP) then [Protocol protocol] else [])%list.
Proof.
  unfold delivered.
  rewrite (other_receivers present 0 "ResponseEvent" _ eq_refl), (other_receivers present 1 "NetworkSendPacketEvent" _ eq_refl),
    (other_receivers present 2 "TimeoutEvent" _ eq_refl), (other_receivers present 3 "CancelTimerEvent" _ eq_refl),
    (other_receivers present 4 "TimerFiredEvent" _ eq_refl).
  split; [| split; [reflexivity | split; [reflexivity | split; [reflexivity | split; [reflexivity |]]]]].
  - intros H. rewrite call_receivers, filter_protocols, (supported_running present domain type) by (assumption || apply running_nodup). reflexivity.
  - cbn [List.filter should_enqueue app].
    rewrite filter_protocols by (apply NoDup_filter, running_nodup). rewrite supported_running.
    rewrite (bool_decide_ext (protocol ∈ base.filter (fun p => p ≠ UDP) (running present)) (protocol ∈ running present ∧ protocol ≠ UDP)).
    + rewrite bool_decide_and, bool_decide_not. replace (protocol =? UDP) with (bool_decide (protocol = UDP)); [reflexivity |].
      destruct (Z.eqb_spec protocol UDP); [apply bool_decide_eq_true_2 | apply bool_decide_eq_false_2]; assumption.
    + rewrite list_elem_of_filter. tauto.
Qed.

Lemma main_routes_witness :
  let present := String.eqb "ap" in
  "SendEvent" ∈ call_events ∧ delivered present "SendEvent" TCP_AP = [Protocol TCP_AP] ∧ delivered present "SendEvent" TCP_DELAYEDACK = [].
Proof.
  intros present. assert ("SendEvent" ∈ call_events) as H by (apply (bool_decide_unpack _); vm_compute; exact I).
  split; [exact H |]. split.
  - rewrite (proj1 (main_routes present "SendEvent" 2 1 TCP_AP) H). vm_compute. reflexivity.
  - rewrite (proj1 (main_routes present "SendEvent" 2 1 TCP_DELAYEDACK) H). vm_compute. reflexivity.
Defined.

(** Tahoe and UDP are registered unconditionally, and again when their option is present: the
    listener then has two raw sockets for the protocol and gets each of its packets twice. *)
Lemma option_opens_second_socket present :
  present "tahoe" = true → length (List.filter (Z.eqb TCP_TAHOE) (factories (main present))) = 2%nat.
Proof. intros H. command_lines present; discriminate || (vm_compute; reflexivity). Qed.
