(* ===== verification/EventLoop.v ===== *)
(** * A module's event loop (transport/headers/QueueProcessor.h, Module.cc, PriorityEventComparator.cc, events/)

    A protocol's thread takes the first event off the protocol's PriorityQueue and
    executes it; the protocol events this enqueues have priority HIGH, the framework
    events that the dispatcher's thread enqueues meanwhile have priority LOW. One
    step is one execution; an arrival during an execution is put before or after it,
    which is all the queue can tell, since arrivals go behind every HIGH event.
    [of_event] turns the events of Events.v that handlers enqueue into the module's. *)
From stdpp Require Import gmap sorting.
From S2P Require Import Prelude Sockets TCPPacket Events ProtocolState Protocol Tahoe TCPModule.
From S2P Require Queues.

Definition HIGH : Z := 0.
Definition LOW : Z := 2000.

Section Loop.
Context {X P : Type} `{ProtocolImpl X P} (of_event : event → option (module_event P)).

(** The constructors of ProtocolEvent and FrameworkEvent. *)
Definition get_priority (e : module_event P) : Z :=
  match e with
  | Send _ _ | Resend _ _ | ConnectionEstablished _ _ | ConnectionInitiated _ _ _ | SendBufferNotEmpty _ | SendBufferNotFull _
  | ReceiveBufferNotEmpty _ | ReceiveBufferNotFull _ | DeleteSocket _ => HIGH
  | _ => LOW
  end.

Definition PriorityEventComparator (t1 t2 : module_event P) : bool := get_priority t1 <? get_priority t2.

(** [Event::get_socket] *)
Definition event_socket (e : module_event P) : nat :=
  match e with
  | LibrarySocket e | LibraryBind e _ | LibraryAccept e | LibraryClose e | LibrarySetSocketOption e _ _ | LibraryGetSocketOption e _ => le_socket e
  | LibraryListen e => le_socket (lse_event e)
  | LibraryConnect e => le_socket (ce_event e)
  | LibraryReceive e => le_socket (re_event e)
  | LibrarySend e => le_socket (se_event e)
  | Send s _ | NetworkReceive s _ | TimerFired s _ | Resend s _ | SendBufferNotEmpty s | SendBufferNotFull s
  | ReceiveBufferNotEmpty s | ReceiveBufferNotFull s | DeleteSocket s | ConnectionEstablished s _ | ConnectionInitiated s _ _ => s
  end.

(** A module: its queue, and the state its events work on. *)
Record module := { queue_ : list (module_event P); state : world X }.

(** [should_enqueue(e)] *)
Definition keeps (e : module_event P) (w : world X) : outcome bool := '(keep, _) ← should_enqueue (event_socket e) w; mret keep.

(** [QueueProcessor::enqueue] *)
Definition enqueue (e : module_event P) (m : module) : outcome module :=
  keep ← keeps e (state m);
  mret (if (keep : bool) then {| queue_ := Queues.enqueue PriorityEventComparator e (queue_ m); state := state m |} else m).

Fixpoint enqueue_all (es : list (module_event P)) (m : module) : outcome module :=
  match es with [] => mret m | e :: es => m ← enqueue e m; enqueue_all es m end.

(** What an execution enqueued on the module's own queue. *)
Definition enqueued (w w' : world X) : list (module_event P) :=
  omap (fun x => match x with Enqueue e => of_event e | _ => None end) (drop (length (trace (tio w))) (trace (tio w'))).

(** [Module::process], at time [t]. *)
Definition at_time (t : Z) (w : world X) : world X :=
  with_io {| next_pointer := next_pointer (tio w); now := t; trace := trace (tio w) |} w.
Definition process (t : Z) (e : module_event P) (m : module) : outcome module :=
  let w := at_time t (state m) in
  '(_, w') ← execute e w;
  enqueue_all (enqueued w w') {| queue_ := queue_ m; state := w' |}.

(** [Arrive]: the dispatcher enqueues an event. [Step]: the module's thread goes once around
    its loop; on an empty queue it waits. *)
Inductive label := Arrive (e : module_event P) | Step (t : Z).

Definition step (m : module) (l : label) : outcome module :=
  match l with
  | Arrive e => enqueue e m
  | Step t => match Queues.dequeue (queue_ m) with Some (e, q) => process t e {| queue_ := q; state := state m |} | None => mret m end
  end.
Fixpoint run (ls : list label) (m : module) : outcome module :=
  match ls with [] => mret m | l :: ls => m ← step m l; run ls m end.

(** ** The serial machine

    It has all framework events from the start and works through them in order: the next
    one is executed when all protocol events of those before are, which are executed in the
    order they were enqueued. *)
Record serial := { protocol_events : list (module_event P); framework_events : list (module_event P); serial_state : world X }.

Fixpoint keep_all (es : list (module_event P)) (w : world X) : outcome (list (module_event P)) :=
  match es with
  | [] => mret []
  | e :: es => keep ← keeps e w; l ← keep_all es w; mret (if (keep : bool) then e :: l else l)
  end.

Definition serial_execute (t : Z) (e : module_event P) (pes fes : list (module_event P)) (w : world X) : outcome serial :=
  let w := at_time t w in
  '(_, w') ← execute e w;
  es ← keep_all (enqueued w w') w';
  mret {| protocol_events := pes ++ es; framework_events := fes; serial_state := w' |}.

Definition serial_step (t : Z) (s : serial) : outcome serial :=
  match protocol_events s, framework_events s with
  | e :: pes, fes => serial_execute t e pes fes (serial_state s)
  | [], e :: fes => serial_execute t e [] fes (serial_state s)
  | [], [] => mret s
  end.

Fixpoint serial_run (ts : list Z) (s : serial) : outcome serial :=
  match ts with [] => mret s | t :: ts => s ← serial_step t s; serial_run ts s end.

(** The framework events the queue accepted in a run, in order of arrival, and the times of
    the executions. *)
Definition accepts (l : label) (m : module) : list (module_event P) :=
  match l with Arrive e => match keeps e (state m) with Done true => [e] | _ => [] end | Step _ => [] end.
Fixpoint accepted (ls : list label) (m : module) : list (module_event P) :=
  match ls with
  | [] => []
  | l :: ls => match step m l with Done m' => (accepts l m ++ accepted ls m')%list | Fault _ => [] end
  end.
Definition times : list label → list Z := omap (fun l => match l with Step t => Some t | Arrive _ => None end).

(** ** The loop is the serial machine *)

Definition is_high (e : module_event P) : Prop := get_priority e = HIGH.
Definition is_low (e : module_event P) : Prop := get_priority e = LOW.

Lemma enqueue_high e pes fes :
  is_high e → Forall is_high pes → Forall is_low fes →
  Queues.enqueue PriorityEventComparator e (pes ++ fes) = (pes ++ e :: fes)%list.
Proof.
  intros He Hp Hf. induction Hp as [|x pes Hx Hp IH]; cbn [app].
  - destruct Hf as [|x fes Hx Hf]; [reflexivity |]. rewrite Queues.enqueue_cons. unfold PriorityEventComparator.
    rewrite He, Hx. reflexivity.
  - rewrite Queues.enqueue_cons, IH. unfold PriorityEventComparator. rewrite He, Hx. reflexivity.
Qed.

Lemma enqueue_low e l : is_low e → Forall (fun x => is_high x ∨ is_low x) l → Queues.enqueue PriorityEventComparator e l = (l ++ [e])%list.
Proof.
  intros He Hl. induction Hl as [|x l Hx Hl IH]; [reflexivity |]. rewrite Queues.enqueue_cons, IH. unfold PriorityEventComparator.
  rewrite He. destruct Hx as [-> | ->]; reflexivity.
Qed.

(** The events a handler enqueues are protocol events. *)
Context (Hhigh : ∀ e e', of_event e = Some e' → is_high e').

Lemma enqueued_high w w' : Forall is_high (enqueued w w').
Proof.
  apply Forall_forall. intros e (x & Hx & E)%list_elem_of_omap. destruct x; try discriminate. eapply Hhigh, E.
Qed.

Lemma enqueue_all_serial es : ∀ pes fes w m',
  Forall is_high es → Forall is_high pes → Forall is_low fes →
  enqueue_all es {| queue_ := pes ++ fes; state := w |} = Done m' →
  ∃ l, keep_all es w = Done l ∧ Forall is_high l ∧ m' = {| queue_ := (pes ++ l) ++ fes; state := w |}.
Proof.
  induction es as [|e es IH]; intros pes fes w m' He Hp Hf E; cbn [enqueue_all keep_all] in *.
  { injection E as <-. exists []. rewrite app_nil_r. auto. }
  apply Forall_cons in He as [He Hes]. unfold enqueue in E. cbn [state queue_] in E.
  destruct (keeps e w) as [[]|]; cbn [mbind outcome_bind mret outcome_ret] in *; [| | discriminate].
  - rewrite enqueue_high in E by assumption.
    replace (pes ++ e :: fes)%list with ((pes ++ [e]) ++ fes)%list in E by (rewrite <- app_assoc; reflexivity).
    apply IH in E as (l & E & Hl & ->); [| assumption | apply Forall_app; auto | assumption].
    exists (e :: l). rewrite E. split; [reflexivity |]. split; [auto |]. rewrite <- !app_assoc. reflexivity.
  - apply IH in E as (l & -> & Hl & ->); [| assumption..]. exists l. auto.
Qed.

Lemma enqueue_all_fault es : ∀ m f, enqueue_all es m = Fault f → keep_all es (state m) = Fault f.
Proof.
  induction es as [|e es IH]; intros m f E; cbn [enqueue_all keep_all] in *; [discriminate |].
  unfold enqueue in E. destruct (keeps e (state m)) as [[]|]; cbn [mbind outcome_bind mret outcome_ret] in *.
  - apply IH in E. cbn [state] in E. rewrite E. reflexivity.
  - apply IH in E. rewrite E. reflexivity.
  - congruence.
Qed.

Lemma process_fault t e q w f pes fes :
  process t e {| queue_ := q; state := w |} = Fault f → serial_execute t e pes fes w = Fault f.
Proof.
  unfold process, serial_execute. cbn [state queue_]. destruct (execute e (at_time t w)) as [[[] w']|]; cbn [mbind outcome_bind]; [| congruence].
  intros E. apply enqueue_all_fault in E. cbn [state] in E. rewrite E. reflexivity.
Qed.

Lemma process_serial t e pes fes w m' :
  Forall is_high pes → Forall is_low fes → process t e {| queue_ := pes ++ fes; state := w |} = Done m' →
  ∃ l w', Forall is_high l ∧ m' = {| queue_ := (pes ++ l) ++ fes; state := w' |} ∧
    ∀ fes', serial_execute t e pes fes' w = Done {| protocol_events := pes ++ l; framework_events := fes'; serial_state := w' |}.
Proof.
  intros Hp Hf. unfold process, serial_execute. cbn [state queue_].
  destruct (execute e (at_time t w)) as [[[] w']|]; cbn [mbind outcome_bind]; [| discriminate]. intros E.
  apply enqueue_all_serial in E as (l & -> & Hl & ->); [| apply enqueued_high | assumption..].
  exists l, w'. split; [exact Hl |]. split; [reflexivity |]. reflexivity.
Qed.

(** Arrivals are framework events. *)
Definition arrivals_low : list label → Prop := Forall (fun l => match l with Arrive e => is_low e | Step _ => True end).

(** Where a module that started with these queues is, or how it stopped. *)
Definition matches_serial (ls : list label) (pes fes : list (module_event P)) (w : world X) : Prop :=
  let m := {| queue_ := pes ++ fes; state := w |} in
  let serial ts := serial_run ts {| protocol_events := pes; framework_events := fes ++ accepted ls m; serial_state := w |} in
  match run ls m with
  | Done m' => ∃ ts s, ts `sublist_of` times ls ∧ serial ts = Done s ∧
      queue_ m' = (protocol_events s ++ framework_events s)%list ∧ state m' = serial_state s
  | Fault f => (∃ e w', Arrive e ∈ ls ∧ keeps e w' = Fault f) ∨ ∃ ts, ts `sublist_of` times ls ∧ serial ts = Fault f
  end.

(** An execution that both make. *)
Lemma matches_step t e ls pes fes pes' fes' w :
  (∀ x s, serial_step t {| protocol_events := pes; framework_events := fes ++ x; serial_state := w |} = s →
     s = serial_execute t e pes' (fes' ++ x) w) →
  Queues.dequeue (pes ++ fes) = Some (e, pes' ++ fes')%list → Forall is_high pes' → Forall is_low fes' →
  (∀ pes fes w, Forall is_high pes → Forall is_low fes → matches_serial ls pes fes w) →
  matches_serial (Step t :: ls) pes fes w.
Proof.
  intros Hs Hd Hp Hf IH. unfold matches_serial. cbn [run step accepted accepts times omap list_omap queue_ state]. fold times. rewrite Hd.
  destruct (process t e {| queue_ := pes' ++ fes'; state := w |}) as [m'|f] eqn:E; cbn [mbind outcome_bind].
  - apply process_serial in E as (l & w' & Hl & -> & Es); [| assumption..].
    specialize (IH (pes' ++ l)%list fes' w'). unfold matches_serial in IH. destruct (run ls _) as [m'|f].
    + destruct IH as (ts & s & Ht & E1 & H1); [apply Forall_app; auto | assumption |]. exists (t :: ts), s. split; [apply sublist_skip, Ht |].
      split; [| exact H1]. cbn [serial_run]. rewrite (Hs _ _ eq_refl), Es. exact E1.
    + destruct IH as [(e' & w'' & Hin & Ek) | (ts & Ht & E1)]; [apply Forall_app; auto | assumption | |].
      * left. exists e', w''. split; [apply list_elem_of_further, Hin | exact Ek].
      * right. exists (t :: ts). split; [apply sublist_skip, Ht |]. cbn [serial_run]. rewrite (Hs _ _ eq_refl), Es. exact E1.
  - right. exists [t]. split; [apply sublist_skip, sublist_nil_l |]. cbn [serial_run]. rewrite (Hs _ _ eq_refl).
    rewrite (process_fault _ _ _ _ _ _ _ E). reflexivity.
Qed.

Lemma run_serial ls : arrivals_low ls → ∀ pes fes w, Forall is_high pes → Forall is_low fes → matches_serial ls pes fes w.
Proof.
  induction ls as [|l ls IH]; intros Hls pes fes w Hp Hf.
  { exists [], {| protocol_events := pes; framework_events := fes; serial_state := w |}. cbn. rewrite app_nil_r. split; [constructor |]. auto. }
  apply Forall_cons in Hls as [Hl Hls]. specialize (IH Hls). destruct l as [e|t].
  - unfold matches_serial. cbn [run step accepted accepts times omap list_omap queue_ state]. fold times. unfold enqueue. cbn [state queue_].
    assert (∀ x, Forall (fun x => is_high x ∨ is_low x) (x ++ fes) ↔ Forall (fun x => is_high x ∨ is_low x) x) as Hall.
    { intros x. rewrite Forall_app. split; [tauto |]. intros. split; [assumption |]. apply (Forall_impl _ _ _ Hf). auto. }
    destruct (keeps e w) as [b|f] eqn:Ek; cbn [mbind outcome_bind mret outcome_ret];
      [| left; exists e, w; split; [apply list_elem_of_here | exact Ek]].
    assert (matches_serial ls pes (if b then fes ++ [e] else fes) w) as H1
      by (apply IH; [assumption |]; destruct b; [apply Forall_app; auto | assumption]).
    unfold matches_serial in H1. destruct b.
    + rewrite enqueue_low; [| exact Hl | apply Hall, (Forall_impl _ _ _ Hp); auto]. rewrite <- !app_assoc in *. cbn [app] in *.
      destruct (run ls _); [exact H1 |].
      destruct H1 as [(e' & w' & Hin & E) | H1]; [left; exists e', w'; split; [apply list_elem_of_further, Hin | exact E] | right; exact H1].
    + cbn [app]. destruct (run ls _); [exact H1 |].
      destruct H1 as [(e' & w' & Hin & E) | H1]; [left; exists e', w'; split; [apply list_elem_of_further, Hin | exact E] | right; exact H1].
  - destruct pes as [|e pes]; [destruct fes as [|e fes] |].
    + specialize (IH [] [] w Hp Hf). unfold matches_serial in *. cbn [run step accepted accepts times omap list_omap queue_ app Queues.dequeue]
        in *. fold times. cbn [mbind outcome_bind mret outcome_ret]. destruct (run ls _).
      * destruct IH as (ts & s & Ht & H1). exists ts, s. split; [apply sublist_cons, Ht | exact H1].
      * destruct IH as [(e' & w' & Hin & E) | (ts & Ht & H1)]; [left; exists e', w'; split; [apply list_elem_of_further, Hin | exact E] |].
        right. exists ts. split; [apply sublist_cons, Ht | exact H1].
    + apply Forall_cons in Hf as [He Hf]. apply (matches_step t e ls [] (e :: fes) [] fes w); auto.
    + apply Forall_cons in Hp as [He Hp]. apply (matches_step t e ls (e :: pes) fes pes fes w); auto.
Qed.

(** C19: a module runs its events to completion. Whenever framework events arrive while the
    module's thread works, the module is where the serial machine is that was given the events
    it accepted, in order of arrival, and executes at the same times: no framework event is
    handled while a protocol event that an earlier one caused waits, and its queue holds what
    the serial machine has left. The module stops only where the serial machine stops, or when
    an event without a socket arrives. *)
Theorem module_is_serial ls w :
  arrivals_low ls → matches_serial ls [] [] w.
Proof. intros H1. apply run_serial; [exact H1 | constructor..]. Qed.
End Loop.

(** The protocol events of the TCP protocols; SimpleUDP has none. *)
Definition tcp_event (e : event) : option (module_event tcp_packet) :=
  match e with
  | SendPacketEvent s p => Some (Send s p)
  | ResendPacketEvent s reason => Some (Resend s reason)
  | ConnectionInitiatedEvent s new_socket listen => Some (ConnectionInitiated s new_socket listen)
  | ConnectionEstablishedEvent s new_socket => Some (ConnectionEstablished s new_socket)
  | DeleteSocketEvent s => Some (DeleteSocket s)
  | ReceiveBufferNotEmptyEvent s => Some (ReceiveBufferNotEmpty s)
  | ReceiveBufferNotFullEvent s => Some (ReceiveBufferNotFull s)
  | SendBufferNotEmptyEvent s => Some (SendBufferNotEmpty s)
  | SendBufferNotFullEvent s => Some (SendBufferNotFull s)
  | _ => None
  end.

Lemma tcp_event_high e e' : tcp_event e = Some e' → is_high e'.
Proof. destruct e; intros [= <-]; reflexivity. Qed.

(** A socket call, and a close that arrives while it waits. *)
Definition sample_labels : list (label (P := tcp_packet)) :=
  [Arrive (LibrarySocket sample_event); Arrive (LibraryClose sample_event); Step 1; Step 2; Step 3].

Lemma module_is_serial_witness :
  arrivals_low sample_labels ∧ accepted (H := sample_module) tcp_event sample_labels {| queue_ := []; state := listening_world |} =
    [LibrarySocket sample_event; LibraryClose sample_event] ∧
  matches_serial (H := sample_module) tcp_event sample_labels [] [] listening_world.
Proof.
  assert (arrivals_low sample_labels) as Ha by (repeat constructor).
  split; [exact Ha |]. split; [vm_compute; reflexivity |].
  apply (module_is_serial (H := sample_module) tcp_event tcp_event_high); exact Ha.
Defined.
