(* ===== verification/BackEnd.v ===== *)
(** * The back end of the front-end library

    classes WiFuTransportBackEndTranslator, ObjectPool and LibraryEvent
    (transport/src/WiFuTransportBackEndTranslator.cc, transport/headers/ObjectPool.h,
    events/framework_events/LibraryEvent.cc and its subclasses): a message of the
    front end becomes an event object taken from a pool and given to the dispatcher;
    the response to the call puts the object back. Objects are shared, so they live in
    a heap; the message an object holds is a record of the fields of the message
    structs (MessageStructDefinitions.h), of which each class reads its own. *)
From Stdlib Require Import String.
From stdpp Require Import gmap.
From S2P Require Import Prelude Inet AddressPort Sockets Events Protocol Dispatcher.

Definition POOL_INITIAL_SIZE : nat := 10.
Definition SOCK_STREAM : Z := 1.
Definition SOCK_DGRAM : Z := 2.
Definition EPROTONOSUPPORT : Z := 93.

Definition WIFU_SOCKET : Z := 1.
Definition WIFU_BIND : Z := 2.
Definition WIFU_LISTEN : Z := 3.
Definition WIFU_ACCEPT : Z := 4.
Definition WIFU_SEND : Z := 5.
Definition WIFU_SENDTO : Z := 6.
Definition WIFU_RECV : Z := 7.
Definition WIFU_RECVFROM : Z := 8.
Definition WIFU_CONNECT : Z := 9.
Definition WIFU_GETSOCKOPT : Z := 10.
Definition WIFU_SETSOCKOPT : Z := 11.
Definition WIFU_CLOSE : Z := 12.

(** GenericMessage, FrontEndMessage and their extensions. *)
Record message := {
  message_type : Z;
  fd : Z;
  source : string;
  m_domain : Z;
  m_type : Z;
  m_protocol : Z;
  m_addr : sockaddr_in;
  m_n : Z;
  m_secondfd : Z;
  m_buffer_length : Z;
  m_data : list Z;
  m_level_optname : Z * Z;
  m_optval : list Z * Z }.

Definition with_protocol (protocol : Z) (m : message) : message :=
  {| message_type := message_type m; fd := fd m; source := source m; m_domain := m_domain m; m_type := m_type m;
     m_protocol := protocol; m_addr := m_addr m; m_n := m_n m; m_secondfd := m_secondfd m;
     m_buffer_length := m_buffer_length m; m_data := m_data m; m_level_optname := m_level_optname m; m_optval := m_optval m |}.

(** ** Event objects and their pools *)

Inductive event_class :=
| SocketEvent | BindEvent | ListenEvent | AcceptEvent | SendEvent | ReceiveEvent | ConnectEvent
| GetSocketOptionEvent | SetSocketOptionEvent | CloseEvent.

#[export] Instance event_class_eq_dec : EqDecision event_class.
Proof. solve_decision. Defined.

(** A LibraryEvent: its socket, the message in its buffer, and AddressEvent's [address_]. *)
Record library_object := {
  class : event_class;
  socket_ : option nat;
  buffer : option message;
  address_ : option address_port }.

Definition new_object (c : event_class) : library_object := {| class := c; socket_ := None; buffer := None; address_ := None |}.
Definition set_socket (s : nat) (o : library_object) : library_object :=
  {| class := class o; socket_ := Some s; buffer := buffer o; address_ := address_ o |}.
Definition save_buffer (m : message) (o : library_object) : library_object :=
  {| class := class o; socket_ := socket_ o; buffer := Some m; address_ := address_ o |}.

(** [AddressEvent::get_address]: computed from the message once. *)
Definition get_address (o : library_object) : outcome (address_port * library_object) :=
  match address_ o with
  | Some a => mret (a, o)
  | None =>
      m ← deref (buffer o);
      let a := AddressPort_of_sockaddr (m_addr m) in
      mret (a, {| class := class o; socket_ := socket_ o; buffer := buffer o; address_ := Some a |})
  end.

Record pool := { object_list_ : list nat; size_ : nat }.

(** [objects]: the heap of event objects; [next]: the first free pointer; [sent]: what went to
    the front end; [dispatched]: the events given to the dispatcher. *)
Record back_end := {
  objects : gmap nat library_object;
  next : nat;
  pools : event_class → pool;
  event_map_ : gmap Z nat;
  heap : Sockets.heap;
  sockets : Sockets.collection;
  sent : list response;
  dispatched : list nat }.

Definition with_objects (o : gmap nat library_object) (n : nat) (p : event_class → pool) (b : back_end) : back_end :=
  {| objects := o; next := n; pools := p; event_map_ := event_map_ b; heap := heap b; sockets := sockets b; sent := sent b;
     dispatched := dispatched b |}.
Definition with_sockets (n : nat) (h : Sockets.heap) (l : Sockets.collection) (b : back_end) : back_end :=
  {| objects := objects b; next := n; pools := pools b; event_map_ := event_map_ b; heap := h; sockets := l; sent := sent b;
     dispatched := dispatched b |}.

Definition set_pool (c : event_class) (p : pool) (ps : event_class → pool) : event_class → pool :=
  fun c' => if decide (c' = c) then p else ps c'.

(** [grow(num)] of one pool. *)
Fixpoint grow (num : nat) (c : event_class) (b : back_end) : back_end :=
  match num with
  | O => b
  | S num =>
      let p := pools b c in
      grow num c
        (with_objects (<[next b := new_object c]> (objects b)) (S (next b))
           (set_pool c {| object_list_ := object_list_ p ++ [next b]; size_ := S (size_ p) |} (pools b)) b)
  end.

Definition get (c : event_class) (b : back_end) : outcome (nat * back_end) :=
  let b := match object_list_ (pools b c) with [] => grow (size_ (pools b c) * 2 - size_ (pools b c)) c b | _ => b end in
  let p := pools b c in
  match object_list_ p with
  | item :: l => mret (item, with_objects (objects b) (next b) (set_pool c {| object_list_ := l; size_ := size_ p |} (pools b)) b)
  | [] => Fault OutOfBounds
  end.

Definition release (c : event_class) (item : nat) (b : back_end) : back_end :=
  let p := pools b c in
  with_objects (objects b) (next b) (set_pool c {| object_list_ := object_list_ p ++ [item]; size_ := size_ p |} (pools b)) b.

(** The back end as its constructor leaves it. *)
Definition all_classes : list event_class :=
  [SocketEvent; BindEvent; ListenEvent; AcceptEvent; SendEvent; ReceiveEvent; ConnectEvent; GetSocketOptionEvent; SetSocketOptionEvent;
   CloseEvent].
Definition initial : back_end :=
  foldl (fun b c => grow POOL_INITIAL_SIZE c b)
    {| objects := ∅; next := 0; pools := fun _ => {| object_list_ := []; size_ := 0 |}; event_map_ := ∅; heap := ∅; sockets := ∅;
       sent := []; dispatched := [] |} all_classes.

(** ** Messages and responses *)

(** The cases of the two switches. *)
Definition class_of (message_type : Z) : option event_class :=
  match message_type with
  | 7 | 8 => Some ReceiveEvent
  | 5 | 6 => Some SendEvent
  | 1 => Some SocketEvent
  | 2 => Some BindEvent
  | 3 => Some ListenEvent
  | 4 => Some AcceptEvent
  | 9 => Some ConnectEvent
  | 10 => Some GetSocketOptionEvent
  | 11 => Some SetSocketOptionEvent
  | 12 => Some CloseEvent
  | _ => None
  end.

(** The protocol the case WIFU_SOCKET writes into the message. *)
Definition socket_message (m : message) : message :=
  if m_type m =? SOCK_DGRAM then with_protocol UDP m else if m_type m =? SOCK_STREAM then with_protocol TCP_TAHOE m else m.

Definition refusal (m : message) : response :=
  {| res_socket := 0; res_message_type := message_type m; res_fd := i32 (fd m); res_return_value := -1; res_errno := EPROTONOSUPPORT;
     res_length := sizeof_GenericResponseMessage; res_destination := source m; res_addr := None; res_buffer := [] |}.

Definition send_to_wedge (r : response) (b : back_end) : back_end :=
  {| objects := objects b; next := next b; pools := pools b; event_map_ := event_map_ b; heap := heap b; sockets := sockets b;
     sent := sent b ++ [r]; dispatched := dispatched b |}.

(** The end of [receive], for the event taken from the pool. *)
Definition dispatch_event (e : nat) (s : nat) (m : message) (b : back_end) : outcome back_end :=
  sk ← deref (heap b !! s);
  o ← deref (objects b !! e);
  mret {| objects := <[e := save_buffer m (set_socket s o)]> (objects b); next := next b; pools := pools b;
          event_map_ := <[get_socket_id sk := e]> (event_map_ b); heap := heap b; sockets := sockets b; sent := sent b;
          dispatched := dispatched b ++ [e] |}.

(** ** What an event object means

    The event of the module's queue that a protocol reads off the object when it executes it. *)
Definition library_part (s : nat) (m : message) : library_event :=
  {| le_socket := s; le_message_type := message_type m; le_fd := i32 (fd m); le_source := source m |}.

Definition get_back_log (m : message) : Z := m_n m.
Definition get_data_length (m : message) : Z := m_buffer_length m.
Definition get_data (m : message) : list Z := m_data m.
Definition get_level_name_pair (m : message) : Z * Z := m_level_optname m.
Definition get_value_length_pair (m : message) : list Z * Z := m_optval m.

Definition module_event_of {P} (o : library_object) : outcome (module_event P) :=
  s ← deref (socket_ o);
  m ← deref (buffer o);
  let e := library_part s m in
  match class o with
  | SocketEvent => mret (LibrarySocket e)
  | BindEvent => mret (LibraryBind e (m_addr m))
  | ListenEvent => mret (LibraryListen {| lse_event := e; lse_back_log := get_back_log m |})
  | AcceptEvent => mret (LibraryAccept e)
  | SendEvent =>
      mret (LibrarySend {| se_event := e; se_addr := m_addr m; se_data := take (Z.to_nat (get_data_length m)) (get_data m) |})
  | ReceiveEvent => mret (LibraryReceive {| re_event := e; re_data_length := get_data_length m |})
  | ConnectEvent => '(a, _) ← get_address o; mret (LibraryConnect {| ce_event := e; ce_address := a |})
  | GetSocketOptionEvent => mret (LibraryGetSocketOption e (get_level_name_pair m))
  | SetSocketOptionEvent => mret (LibrarySetSocketOption e (get_level_name_pair m) (get_value_length_pair m))
  | CloseEvent => mret (LibraryClose e)
  end.

(** A protocol reads the address of an event. *)
Definition read_address (e : nat) (b : back_end) : outcome (address_port * back_end) :=
  o ← deref (objects b !! e);
  '(a, o) ← get_address o;
  mret (a, with_objects (<[e := o]> (objects b)) (next b) (pools b) b).

Section BackEnd.
(** What [main] set up. *)
Context (system : Dispatcher.system).

Definition receive (m : message) (b : back_end) : outcome back_end :=
  socket ← get_by_id (i32 (fd m)) (heap b) (sockets b);
  match class_of (message_type m) with
  | None => Fault WiFuException
  | Some SocketEvent =>
      let m := socket_message m in
      if is_supported (m_domain m) (m_type m) (m_protocol m) system then
        '(e, b) ← get SocketEvent b;
        let s := next b in
        '(h, l) ← Sockets.push s
          (<[s := new_Socket (fd m) (m_domain m) (m_type m) (m_protocol m) default_address_port default_address_port]> (heap b)) (sockets b);
        dispatch_event e s m (with_sockets (S (next b)) h l b)
      else mret (send_to_wedge (refusal m) b)
  | Some AcceptEvent =>
      '(e, b) ← get AcceptEvent b;
      s ← deref socket;
      sk ← deref (heap b !! s);
      dispatch_event e s m (with_sockets (next b) (<[s := set_second_socket_id (m_secondfd m) sk]> (heap b)) (sockets b) b)
  | Some c =>
      '(e, b) ← get c b;
      match socket with Some s => dispatch_event e s m b | None => Fault AssertionFailure end
  end.

(** [s] is the response's socket. *)
Definition imodule_library_response (s : nat) (r : response) (b : back_end) : outcome back_end :=
  sk ← deref (heap b !! s);
  match event_map_ b !! get_socket_id sk with
  | None => Fault AssertionFailure
  | Some original =>
      let b := send_to_wedge r b in
      o ← deref (objects b !! original);
      m ← deref (buffer o);
      match class_of (message_type m) with None => Fault WiFuException | Some c => mret (release c original b) end
  end.
End BackEnd.

(** ** Calls and their objects *)

(** The message as the call's object keeps it. *)
Definition stored (m : message) : message :=
  match class_of (message_type m) with Some SocketEvent => socket_message m | _ => m end.

Definition refused (system : Dispatcher.system) (m : message) : bool :=
  match class_of (message_type m) with
  | Some SocketEvent => let m := socket_message m in negb (is_supported (m_domain m) (m_type m) (m_protocol m) system)
  | _ => false
  end.

(** The front end makes one call at a time on a descriptor, with a known message type, on a
    descriptor whose socket is in the collection, or for a new one. [calls]: the calls that
    wait for their response, by descriptor. *)
Definition callable (b : back_end) (calls : gmap Z message) (m : message) : Prop :=
  calls !! fd m = None ∧
  match class_of (message_type m) with
  | None => False
  | Some SocketEvent => ∃ r, get_by_id (i32 (fd m)) (heap b) (sockets b) = Done r
  | Some _ => ∃ s sk, get_by_id (i32 (fd m)) (heap b) (sockets b) = Done (Some s) ∧ heap b !! s = Some sk ∧ get_socket_id sk = fd m
  end.

(** The back end among front ends that keep to this and protocols that answer each call once
    and change sockets as they like. *)
Inductive reachable (system : Dispatcher.system) : back_end → gmap Z message → Prop :=
| r_start : reachable system initial ∅
| r_call b calls m b' : reachable system b calls → callable b calls m → receive system m b = Done b' →
    reachable system b' (if refused system m then calls else <[fd m := stored m]> calls)
| r_answer b calls s sk m r b' : reachable system b calls → heap b !! s = Some sk → calls !! get_socket_id sk = Some m →
    imodule_library_response s r b = Done b' → reachable system b' (delete (get_socket_id sk) calls)
| r_read b calls e a b' : reachable system b calls → read_address e b = Done (a, b') → reachable system b' calls
| r_sockets b calls n h l : reachable system b calls → (next b ≤ n)%nat → reachable system (with_sockets n h l b) calls.

(** Objects in the pools are free, and an object serves one call. *)
Record inv (b : back_end) (calls : gmap Z message) : Prop := {
  i_fresh : ∀ p o, objects b !! p = Some o → (p < next b)%nat;
  i_pool : ∀ c p, p ∈ object_list_ (pools b c) → ∃ o, objects b !! p = Some o ∧ class o = c;
  i_nodup : ∀ c, NoDup (object_list_ (pools b c));
  i_size : ∀ c, (1 ≤ size_ (pools b c))%nat;
  i_calls : ∀ id m, calls !! id = Some m → ∃ p o, event_map_ b !! id = Some p ∧ objects b !! p = Some o ∧ buffer o = Some m ∧
    class_of (message_type m) = Some (class o) ∧ ∀ c, p ∉ object_list_ (pools b c);
  i_inj : ∀ id id' p, is_Some (calls !! id) → is_Some (calls !! id') → event_map_ b !! id = Some p → event_map_ b !! id' = Some p → id = id' }.

Lemma set_pool_eq c p ps : set_pool c p ps c = p.
Proof. unfold set_pool. rewrite decide_True by reflexivity. reflexivity. Qed.
Lemma set_pool_ne c c' p ps : c' ≠ c → set_pool c p ps c' = ps c'.
Proof. intros. unfold set_pool. rewrite decide_False by assumption. reflexivity. Qed.

(** Nothing but objects, pools and the pointer supply changes. *)
Definition same_calls (b b' : back_end) : Prop :=
  event_map_ b' = event_map_ b ∧ heap b' = heap b ∧ sockets b' = sockets b ∧ sent b' = sent b ∧ dispatched b' = dispatched b.

Lemma grow_spec num c : ∀ b calls,
  inv b calls →
  inv (grow num c b) calls ∧ same_calls b (grow num c b) ∧
  (length (object_list_ (pools (grow num c b) c)) = length (object_list_ (pools b c)) + num)%nat.
Proof.
  induction num as [|num IH]; intros b calls Hi; cbn [grow]; [split; [exact Hi |]; split; [repeat split | lia] |].
  set (b1 := with_objects _ _ _ b). assert (inv b1 calls) as Hi1.
  { destruct Hi as [Hf Hp Hn Hs Hc Hj]. assert (∀ p o, objects b !! p = Some o → p ≠ next b) as Hne by (intros p o E; apply Hf in E; lia).
    assert (∀ p c', p ∈ object_list_ (pools b1 c') → p ∈ object_list_ (pools b c') ∨ (p = next b ∧ c' = c)) as Hin.
    { intros p c' H. subst b1. cbn [pools with_objects] in H. destruct (decide (c' = c)) as [-> | Hcc].
      - rewrite set_pool_eq in H. cbn in H. apply elem_of_app in H as [H | ->%list_elem_of_singleton]; auto.
      - rewrite set_pool_ne in H by exact Hcc. auto. }
    split.
    - intros p o. subst b1. cbn. rewrite lookup_insert_Some. intros [[<- _] | [_ E]]; [lia |]. apply Hf in E. lia.
    - intros c' p [H | [-> ->]]%Hin.
      + destruct (Hp c' p H) as (o & E & Ho). exists o. split; [| exact Ho]. subst b1. cbn. rewrite lookup_insert_ne; [exact E |].
        apply Hne in E. congruence.
      + subst b1. cbn. rewrite lookup_insert_eq. eexists. split; reflexivity.
    - intros c'. subst b1. cbn. destruct (decide (c' = c)) as [-> | Hcc]; [| rewrite set_pool_ne by exact Hcc; apply Hn].
      rewrite set_pool_eq. cbn. apply NoDup_app. split; [apply Hn |]. split; [| apply NoDup_singleton].
      intros p H ->%list_elem_of_singleton. destruct (Hp c _ H) as (o & E & _). exact (Hne _ _ E eq_refl).
    - intros c'. subst b1. cbn. destruct (decide (c' = c)) as [-> | Hcc]; [rewrite set_pool_eq; cbn; lia |].
      rewrite set_pool_ne by exact Hcc. apply Hs.
    - intros id m Hm. destruct (Hc id m Hm) as (p & o & E1 & E2 & E3 & E4 & E5). exists p, o. split; [exact E1 |].
      split; [subst b1; cbn; rewrite lookup_insert_ne; [exact E2 |]; apply Hne in E2; congruence |].
      split; [exact E3 |]. split; [exact E4 |]. intros c' [H | [-> ->]]%Hin; [exact (E5 c' H) | exact (Hne _ _ E2 eq_refl)].
    - exact Hj. }
  destruct (IH b1 calls Hi1) as (H1 & H2 & H3). split; [exact H1 |]. split; [exact H2 |]. rewrite H3. subst b1. cbn.
  rewrite set_pool_eq. cbn. rewrite length_app. cbn. lia.
Qed.

(** An object of the pool is free: no call waits on it. *)
Lemma get_spec c b calls :
  inv b calls →
  ∃ e b' o, get c b = Done (e, b') ∧ inv b' calls ∧ same_calls b b' ∧ objects b' !! e = Some o ∧ class o = c ∧
    (∀ c', e ∉ object_list_ (pools b' c')) ∧ (∀ id, is_Some (calls !! id) → event_map_ b' !! id ≠ Some e).
Proof.
  intros Hi. unfold get.
  set (b1 := match object_list_ (pools b c) with [] => _ | _ => b end).
  assert (inv b1 calls ∧ same_calls b b1 ∧ object_list_ (pools b1 c) ≠ []) as (Hi1 & Hsame & Hne).
  { subst b1. destruct (object_list_ (pools b c)) as [|p l] eqn:E; [| split; [exact Hi |]; split; [repeat split |]; rewrite E; discriminate].
    destruct (grow_spec (size_ (pools b c) * 2 - size_ (pools b c)) c b calls Hi) as (H1 & H2 & H3).
    split; [exact H1 |]. split; [exact H2 |]. intros H0. rewrite H0, E in H3. pose proof (i_size _ _ Hi c). cbn in H3. lia. }
  clearbody b1. destruct (object_list_ (pools b1 c)) as [|e l] eqn:El; [contradiction |].
  destruct Hi1 as [Hf Hp Hn Hs Hc Hj]. destruct (Hp c e) as (o & Eo & Ho); [rewrite El; apply list_elem_of_here |].
  exists e. eexists. exists o. split; [reflexivity |].
  assert (∀ p c', p ∈ object_list_ (set_pool c {| object_list_ := l; size_ := size_ (pools b1 c) |} (pools b1) c') →
    p ∈ object_list_ (pools b1 c')) as Hin.
  { intros p c'. destruct (decide (c' = c)) as [-> | Hcc]; [rewrite set_pool_eq, El; apply list_elem_of_further | rewrite set_pool_ne by exact Hcc; auto]. }
  split; [split |].
  - exact Hf.
  - intros c' p H. apply Hp, Hin, H.
  - intros c'. cbn. destruct (decide (c' = c)) as [-> | Hcc]; [| rewrite set_pool_ne by exact Hcc; apply Hn].
    rewrite set_pool_eq. cbn. specialize (Hn c). rewrite El in Hn. apply NoDup_cons in Hn. apply Hn.
  - intros c'. cbn. destruct (decide (c' = c)) as [-> | Hcc]; [rewrite set_pool_eq; apply Hs | rewrite set_pool_ne by exact Hcc; apply Hs].
  - intros id m Hm. destruct (Hc id m Hm) as (p & o' & E1 & E2 & E3 & E4 & E5). exists p, o'. repeat (split; [assumption |]).
    intros c' H. exact (E5 c' (Hin _ _ H)).
  - exact Hj.
  - split; [exact Hsame |]. split; [exact Eo |]. split; [exact Ho |]. split.
    + intros c' H. cbn in H. destruct (decide (c' = c)) as [-> | Hcc].
      * rewrite set_pool_eq in H. specialize (Hn c). rewrite El in Hn. apply NoDup_cons in Hn as [Hn _]. exact (Hn H).
      * rewrite set_pool_ne in H by exact Hcc. destruct (Hp c' e H) as (o' & Eo' & Ho'). congruence.
    + intros id [m Hm] E. destruct (Hc id m Hm) as (p & o' & E1 & E2 & E3 & E4 & E5). cbn in E. assert (p = e) as -> by congruence.
      apply (E5 c). rewrite El. apply list_elem_of_here.
Qed.

Lemma inv_sockets n h l b calls : (next b ≤ n)%nat → inv b calls → inv (with_sockets n h l b) calls.
Proof. intros Hn [Hf Hp Hd Hs Hc Hj]. split; try assumption. intros p o E. apply Hf in E. cbn. lia. Qed.

(** An object taken from a pool becomes the one of a call. *)
Lemma dispatch_event_spec e s sk m b calls o :
  inv b calls → heap b !! s = Some sk → objects b !! e = Some o → class_of (message_type m) = Some (class o) →
  calls !! get_socket_id sk = None → (∀ c, e ∉ object_list_ (pools b c)) → (∀ id, is_Some (calls !! id) → event_map_ b !! id ≠ Some e) →
  ∃ b', dispatch_event e s m b = Done b' ∧ inv b' (<[get_socket_id sk := m]> calls) ∧
    dispatched b' = (dispatched b ++ [e])%list ∧ sent b' = sent b ∧ objects b' !! e = Some (save_buffer m (set_socket s o)) ∧
    event_map_ b' !! get_socket_id sk = Some e.
Proof.
  intros [Hf Hp Hn Hs Hc Hj] Hsk Ho Hm Hnone Hfree Hunused. unfold dispatch_event. rewrite Hsk, Ho. cbn [deref mbind outcome_bind mret outcome_ret].
  eexists. split; [reflexivity |]. split; [| cbn; rewrite !lookup_insert_eq; auto]. split.
  - intros p o'. cbn. rewrite lookup_insert_Some. intros [[<- _] | [_ E]]; [exact (Hf _ _ Ho) | exact (Hf _ _ E)].
  - intros c p H. cbn in *. destruct (Hp c p H) as (o' & E & Hc'). exists o'. split; [| exact Hc'].
    rewrite lookup_insert_ne; [exact E |]. intros <-. exact (Hfree c H).
  - exact Hn.
  - exact Hs.
  - intros id m'. cbn. rewrite lookup_insert_Some. intros [[<- <-] | [Hne Hm']].
    + exists e, (save_buffer m (set_socket s o)). rewrite !lookup_insert_eq. auto.
    + destruct (Hc id m' Hm') as (p & o' & E1 & E2 & E3 & E4 & E5). exists p, o'. rewrite lookup_insert_ne by exact Hne.
      split; [exact E1 |]. split; [| auto]. rewrite lookup_insert_ne; [exact E2 |]. intros <-. exact (Hunused id ltac:(eauto) E1).
  - intros id id' p. cbn. rewrite !lookup_insert_is_Some. intros Hid Hid' E E'.
    destruct (decide (get_socket_id sk = id)) as [<- | Hne]; destruct (decide (get_socket_id sk = id')) as [<- | Hne']; [reflexivity | | |].
    + rewrite lookup_insert_eq in E. rewrite lookup_insert_ne in E' by exact Hne'. destruct Hid' as [? | [_ Hid']]; [congruence |].
      exfalso. apply (Hunused id' Hid'). congruence.
    + rewrite lookup_insert_eq in E'. rewrite lookup_insert_ne in E by exact Hne. destruct Hid as [? | [_ Hid]]; [congruence |].
      exfalso. apply (Hunused id Hid). congruence.
    + rewrite lookup_insert_ne in E, E' by assumption. destruct Hid as [? | [_ Hid]]; [congruence |]. destruct Hid' as [? | [_ Hid']]; [congruence |].
      exact (Hj id id' p Hid Hid' E E').
Qed.

(** A call that gets an event. *)
Definition received (b b' : back_end) (m : message) : Prop :=
  ∃ e s o, dispatched b' = (dispatched b ++ [e])%list ∧ sent b' = sent b ∧ objects b' !! e = Some o ∧ socket_ o = Some s ∧
    buffer o = Some (stored m) ∧ class_of (message_type m) = Some (class o) ∧ event_map_ b' !! fd m = Some e.

(** What is left of a call once its object and its socket are known. *)
Lemma finish_call e s sk m b0 b calls o :
  inv b calls → dispatched b = dispatched b0 → sent b = sent b0 → heap b !! s = Some sk → get_socket_id sk = fd m → objects b !! e = Some o →
  class_of (message_type m) = Some (class o) → calls !! fd m = None → (∀ c, e ∉ object_list_ (pools b c)) →
  (∀ id, is_Some (calls !! id) → event_map_ b !! id ≠ Some e) →
  ∃ b', dispatch_event e s (stored m) b = Done b' ∧ inv b' (<[fd m := stored m]> calls) ∧ received b0 b' m.
Proof.
  intros Hi Hd Hs Hsk Hid Ho Hm Hnone Hf Hu. rewrite <- Hid in *.
  assert (class_of (message_type (stored m)) = class_of (message_type m)) as Hst.
  { unfold stored, socket_message. destruct (class_of (message_type m)) as [[]|] eqn:E; try (rewrite E; reflexivity).
    destruct (m_type m =? SOCK_DGRAM); [exact E | destruct (m_type m =? SOCK_STREAM); exact E]. }
  rewrite <- Hst in Hm.
  destruct (dispatch_event_spec e s sk (stored m) b calls o Hi Hsk Ho Hm Hnone Hf Hu) as (b' & E & Hi' & Hd' & Hs' & Ho' & He').
  exists b'. split; [exact E |]. split; [exact Hi' |]. exists e, s, (save_buffer (stored m) (set_socket s o)). rewrite <- Hst, <- Hid, <- Hd, <- Hs. auto 10.
Qed.

Lemma push_new s m (h : Sockets.heap) (l : Sockets.collection) :
  ∃ h' l' sk, Sockets.push s (<[s := new_Socket (fd m) (m_domain m) (m_type m) (m_protocol m) default_address_port default_address_port]> h) l
    = Done (h', l') ∧ h' !! s = Some sk ∧ get_socket_id sk = fd m.
Proof.
  unfold push. rewrite lookup_insert_eq. cbn [deref mbind outcome_bind]. unfold get_key. cbn.
  do 3 eexists. split; [reflexivity |]. rewrite lookup_insert_eq. split; reflexivity.
Qed.

Lemma socket_message_fd m : fd (socket_message m) = fd m.
Proof. unfold socket_message. destruct (m_type m =? SOCK_DGRAM); [reflexivity |]. destruct (m_type m =? SOCK_STREAM); reflexivity. Qed.

Lemma receive_spec system m b calls :
  inv b calls → callable b calls m →
  ∃ b', receive system m b = Done b' ∧
    if refused system m then b' = send_to_wedge (refusal (stored m)) b ∧ inv b' calls
    else inv b' (<[fd m := stored m]> calls) ∧ received b b' m.
Proof.
  intros Hi [Hnone Hc]. unfold receive, refused.
  assert (∃ r, get_by_id (i32 (fd m)) (heap b) (sockets b) = Done r) as [r Er].
  { destruct (class_of (message_type m)) as [c|]; [| destruct Hc]. destruct c; (exact Hc || (destruct Hc as (s & sk & E & _); eauto)). }
  destruct (class_of (message_type m)) as [c|] eqn:Ec; [| destruct Hc]. rewrite Er. cbn [mbind outcome_bind].
  destruct (get_spec c b calls Hi) as (e & b1 & o & Eg & Hi1 & (Hev & Hhp & Hsk1 & Hst & Hdi) & Ho & Hcl & Hfree & Hun).
  assert (class_of (message_type m) = Some (class o)) as Hmo by congruence.
  assert (stored m = match c with SocketEvent => socket_message m | _ => m end) as Est by (unfold stored; rewrite Ec; destruct c; reflexivity).
  pose proof (λ s sk, finish_call e s sk m b b1 calls o Hi1 Hdi Hst) as Hfin. rewrite Hhp, Est in Hfin.
  destruct c; cbn [mbind outcome_bind]; try rewrite Eg; cbn [mbind outcome_bind];
    try (destruct Hc as (s & sk & E & Hs & Hid); assert (r = Some s) as -> by congruence).
  all: try (destruct (Hfin s sk) as (b' & E' & H'); auto; rewrite Est; exists b'; split; [exact E' | exact H']).
  - destruct (is_supported _ _ _ system); cbn [negb].
    + destruct (push_new (next b1) (socket_message m) (heap b1) (sockets b1)) as (h & l & sk & Ep & Hs & Hid).
      rewrite socket_message_fd in Hid. rewrite Ep. cbn [mbind outcome_bind].
      destruct (finish_call e (next b1) sk m b (with_sockets (S (next b1)) h l b1) calls o) as (b' & E' & H'); auto; [apply inv_sockets; [lia | exact Hi1] |].
      rewrite Est in *. exists b'. split; [exact E' | exact H'].
    + rewrite Est. eexists. split; [reflexivity |]. split; [reflexivity |]. destruct Hi. split; assumption.
  - cbn [deref mbind outcome_bind]. rewrite Hhp, Hs. cbn [deref mbind outcome_bind].
    destruct (finish_call e s (set_second_socket_id (m_secondfd m) sk) m b
      (with_sockets (next b1) (<[s := set_second_socket_id (m_secondfd m) sk]> (heap b)) (sockets b1) b1) calls o) as (b' & E' & H'); auto;
      [apply inv_sockets; [lia | exact Hi1] | cbn; apply lookup_insert_eq |].
    rewrite Est in *. exists b'. split; [exact E' | exact H'].
Qed.

Lemma response_spec s sk r m b calls :
  inv b calls → heap b !! s = Some sk → calls !! get_socket_id sk = Some m →
  ∃ b' c e, imodule_library_response s r b = Done b' ∧ inv b' (delete (get_socket_id sk) calls) ∧
    event_map_ b !! get_socket_id sk = Some e ∧ class_of (message_type m) = Some c ∧ b' = release c e (send_to_wedge r b).
Proof.
  intros [Hf Hp Hn Hs Hc Hj] Hsk Hm. destruct (Hc _ m Hm) as (e & o & E1 & E2 & E3 & E4 & E5).
  exists (release (class o) e (send_to_wedge r b)), (class o), e. unfold imodule_library_response. rewrite Hsk. cbn [deref mbind outcome_bind].
  rewrite E1. cbn [objects send_to_wedge]. rewrite E2. cbn [deref mbind outcome_bind]. rewrite E3. cbn [deref mbind outcome_bind]. rewrite E4.
  split; [reflexivity |]. split; [| auto]. split.
  - exact Hf.
  - intros c p H. cbn in H. destruct (decide (c = class o)) as [-> | Hcc]; [| rewrite set_pool_ne in H by exact Hcc; exact (Hp c p H)].
    rewrite set_pool_eq in H. cbn in H. apply elem_of_app in H as [H | ->%list_elem_of_singleton]; [exact (Hp _ p H) | exists o; auto].
  - intros c. cbn. destruct (decide (c = class o)) as [-> | Hcc]; [| rewrite set_pool_ne by exact Hcc; apply Hn].
    rewrite set_pool_eq. cbn. apply NoDup_app. split; [apply Hn |]. split; [| apply NoDup_singleton].
    intros p H ->%list_elem_of_singleton. exact (E5 _ H).
  - intros c. cbn. destruct (decide (c = class o)) as [-> | Hcc]; [rewrite set_pool_eq; apply Hs | rewrite set_pool_ne by exact Hcc; apply Hs].
  - intros id m'. rewrite lookup_delete_Some. intros [Hne Hm']. destruct (Hc id m' Hm') as (p & o' & F1 & F2 & F3 & F4 & F5).
    exists p, o'. repeat (split; [assumption |]). intros c H. cbn in H.
    destruct (decide (c = class o)) as [-> | Hcc]; [| rewrite set_pool_ne in H by exact Hcc; exact (F5 c H)].
    rewrite set_pool_eq in H. cbn in H. apply elem_of_app in H as [H | ->%list_elem_of_singleton]; [exact (F5 _ H) |].
    apply Hne. apply (Hj _ _ e); eauto.
  - intros id id' p [x Hid]%lookup_delete_is_Some [x' Hid']%lookup_delete_is_Some. apply Hj; assumption.
Qed.

Ltac by_decision := apply (bool_decide_unpack _); vm_compute; exact I.

Lemma initial_inv : inv initial ∅.
Proof.
  split.
  - assert (map_Forall (fun p _ => (p < next initial)%nat) (objects initial)) as H by by_decision. exact H.
  - intros c. assert (Forall (fun p => class <$> objects initial !! p = Some c) (object_list_ (pools initial c))) as H
      by (destruct c; by_decision).
    rewrite Forall_forall in H. intros p Hp. specialize (H p Hp). destruct (objects initial !! p) as [o|]; [| discriminate].
    injection H as H. eauto.
  - intros c. destruct c; by_decision.
  - intros c. destruct c; by_decision.
  - intros id m []%lookup_empty_Some.
  - intros id id' p []%lookup_empty_is_Some.
Qed.

Lemma read_address_inv e a b b' calls : inv b calls → read_address e b = Done (a, b') → inv b' calls.
Proof.
  intros [Hf Hp Hn Hs Hc Hj]. unfold read_address. destruct (objects b !! e) as [o|] eqn:Eo; [| discriminate]. cbn [deref mbind outcome_bind].
  destruct (get_address o) as [[a' o']|] eqn:Ea; [| discriminate]. intros [= _ <-].
  assert (class o' = class o ∧ buffer o' = buffer o) as [Hcl Hb].
  { unfold get_address in Ea. destruct (address_ o); [injection Ea as _ <-; auto |].
    destruct (buffer o); [injection Ea as _ <-; auto | discriminate]. }
  assert (∀ p x, objects b !! p = Some x → ∃ x', <[e := o']> (objects b) !! p = Some x' ∧ class x' = class x ∧ buffer x' = buffer x) as Hkeep.
  { intros p x E. destruct (decide (e = p)) as [<- | Hne]; [rewrite lookup_insert_eq | rewrite lookup_insert_ne by exact Hne; eauto].
    exists o'. assert (x = o) as -> by congruence. auto. }
  split; [| | exact Hn | exact Hs | | exact Hj].
  - intros p x. cbn. rewrite lookup_insert_Some. intros [[<- _] | [_ E]]; [exact (Hf _ _ Eo) | exact (Hf _ _ E)].
  - intros c p H. destruct (Hp c p H) as (x & E & <-). destruct (Hkeep p x E) as (x' & E' & ? & _). exists x'. auto.
  - intros id m Hm. destruct (Hc id m Hm) as (p & x & E1 & E2 & E3 & E4 & E5). destruct (Hkeep p x E2) as (x' & E' & Hc' & Hb').
    exists p, x'. rewrite Hc', Hb'. auto.
Qed.

Lemma reachable_inv system b calls : reachable system b calls → inv b calls.
Proof.
  induction 1 as [| b calls m b' _ IH Hc E | b calls s sk m r b' _ IH Hs Hm E | b calls e a b' _ IH E | b calls n h l _ IH Hn].
  - exact initial_inv.
  - destruct (receive_spec system m b calls IH Hc) as (b'' & E' & H). assert (b'' = b') as <- by congruence.
    destruct (refused system m); apply H.
  - destruct (response_spec s sk r m b calls IH Hs Hm) as (b'' & c & e & E' & H & _). congruence.
  - exact (read_address_inv e a b b' calls IH E).
  - apply inv_sockets; assumption.
Qed.

(** C20: calls and responses. Among front ends that make one call at a time per descriptor,
    whatever protocols do to sockets meanwhile: every such call is accepted and either refused
    with one response, or one event is dispatched, whose object belongs to this call and
    carries its message and a socket; until the response the object keeps that message,
    whatever other calls arrive, even when the pool has to grow; and a response finds its call,
    goes to the front end and puts exactly that object back. *)
Theorem back_end_calls system b calls :
  reachable system b calls →
  (∀ id m, calls !! id = Some m → ∃ e o, event_map_ b !! id = Some e ∧ objects b !! e = Some o ∧ buffer o = Some m) ∧
  (∀ id id' e, is_Some (calls !! id) → is_Some (calls !! id') → event_map_ b !! id = Some e → event_map_ b !! id' = Some e → id = id') ∧
  (∀ m, callable b calls m → ∃ b', receive system m b = Done b' ∧
     if refused system m then b' = send_to_wedge (refusal (stored m)) b else received b b' m) ∧
  (∀ s sk r m, heap b !! s = Some sk → calls !! get_socket_id sk = Some m → ∃ c e,
     event_map_ b !! get_socket_id sk = Some e ∧ class_of (message_type m) = Some c ∧
     imodule_library_response s r b = Done (release c e (send_to_wedge r b))).
Proof.
  intros Hr. pose proof (reachable_inv system b calls Hr) as Hi. split; [| split; [exact (i_inj _ _ Hi) | split]].
  - intros id m Hm. destruct (i_calls _ _ Hi id m Hm) as (e & o & E1 & E2 & E3 & _). eauto.
  - intros m Hc. destruct (receive_spec system m b calls Hi Hc) as (b' & E & H). exists b'. split; [exact E |].
    destruct (refused system m); apply H.
  - intros s sk r m Hs Hm. destruct (response_spec s sk r m b calls Hi Hs Hm) as (b' & c & e & E & _ & He & Hc & ->). eauto.
Qed.

(** ** Concrete calls *)

Definition sample_message (type fd : Z) (addr : sockaddr_in) : message :=
  {| message_type := type; fd := fd; source := "app"; m_domain := 2; m_type := SOCK_STREAM; m_protocol := 0; m_addr := addr; m_n := 5;
     m_secondfd := 0; m_buffer_length := 0; m_data := []; m_level_optname := (0, 0); m_optval := ([], 0) |}.
Definition no_addr : sockaddr_in := {| sin_addr := 0; sin_port := 0 |}.
Definition sample_system : Dispatcher.system := main (fun _ => false).
Definition accepted (s : nat) (fd : Z) (type : Z) : response := default_response s
  {| le_socket := s; le_message_type := type; le_fd := fd; le_source := "app" |} 0 0.

Definition after_socket : back_end :=
  match receive sample_system (sample_message WIFU_SOCKET 3 no_addr) initial with Done b => b | Fault _ => initial end.

Lemma back_end_calls_witness :
  reachable sample_system after_socket {[ 3 := socket_message (sample_message WIFU_SOCKET 3 no_addr) ]} ∧
  (∃ c e, imodule_library_response 100 (accepted 100 3 WIFU_SOCKET) after_socket =
     Done (release c e (send_to_wedge (accepted 100 3 WIFU_SOCKET) after_socket))).
Proof.
  assert (reachable sample_system after_socket {[ 3 := socket_message (sample_message WIFU_SOCKET 3 no_addr) ]}) as Hr.
  { apply (r_call sample_system initial ∅ (sample_message WIFU_SOCKET 3 no_addr) after_socket (r_start _)).
    - split; [reflexivity |]. exists None. vm_compute. reflexivity.
    - vm_compute. reflexivity. }
  split; [exact Hr |].
  assert (∃ sk, heap after_socket !! 100%nat = Some sk ∧ get_socket_id sk = 3) as (sk & Hs & Hid) by (vm_compute; eexists; split; reflexivity).
  destruct (back_end_calls sample_system after_socket _ Hr) as (_ & _ & _ & H).
  destruct (H 100%nat sk (accepted 100 3 WIFU_SOCKET) (socket_message (sample_message WIFU_SOCKET 3 no_addr)) Hs) as (c & e & _ & _ & E);
    [rewrite Hid; reflexivity | exists c, e; exact E].
Defined.

(** A call and its answer; the protocol reads the address of a connect call. *)
Definition round (m : message) (b : back_end) : outcome (option address_port * back_end) :=
  b ← receive sample_system m b;
  let e := default 0%nat (last (dispatched b)) in
  '(a, b) ← (if message_type m =? WIFU_CONNECT then '(a, b) ← read_address e b; mret (Some a, b) else mret (None, b));
  b ← imodule_library_response 100 (accepted 100 (fd m) (message_type m)) b;
  mret (a, b).

Fixpoint rounds (ms : list message) (b : back_end) : outcome (list (option address_port)) :=
  match ms with [] => mret [] | m :: ms => '(a, b) ← round m b; l ← rounds ms b; mret (a :: l) end.

Definition connect_to (port : Z) : message := sample_message WIFU_CONNECT 3 {| sin_addr := 16777343; sin_port := port |}.

(** The object of the eleventh connect call is that of the first, with its address: the call
    to port 11 connects to port 1. *)
Lemma stale_connect_address :
  (l ← rounds (sample_message WIFU_SOCKET 3 no_addr :: map connect_to [1; 2; 3; 4; 5; 6; 7; 8; 9; 10; 11]) initial;
   mret (omap (option_map get_port) l : list Z)) = Done [1; 2; 3; 4; 5; 6; 7; 8; 9; 10; 1].
Proof. vm_compute. reflexivity. Qed.

(** A receive call waits and a send call comes in on the same descriptor: [event_map_] keeps
    only the second, whose object both answers put back, so that it is in the pool twice. *)
Lemma waiting_call_forgotten :
  (b ← receive sample_system (sample_message WIFU_SOCKET 3 no_addr) initial;
   b ← receive sample_system (sample_message WIFU_RECV 3 no_addr) b;
   b ← receive sample_system (sample_message WIFU_SEND 3 no_addr) b;
   b ← imodule_library_response 100 (accepted 100 3 WIFU_SEND) b;
   b ← imodule_library_response 100 (accepted 100 3 WIFU_RECV) b;
   mret (bool_decide (NoDup (object_list_ (pools b SendEvent))))) = Done false.
Proof. vm_compute. reflexivity. Qed.

(** New sockets all have the same key: after a second socket call the first socket is not in
    the collection any more, and its next call fails the assertion. *)
Lemma second_socket_call_aborts :
  (b ← receive sample_system (sample_message WIFU_SOCKET 3 no_addr) initial;
   b ← receive sample_system (sample_message WIFU_SOCKET 4 no_addr) b;
   receive sample_system (sample_message WIFU_BIND 3 no_addr) b) = Fault AssertionFailure.
Proof. vm_compute. reflexivity. Qed.
