(* ===== verification/FrontEnd.v ===== *)
(** * The socket API of the application library

    classes WifuTransportFrontEndTranslator, SocketDataMap and SocketData
    (transport/applib): each call of the API writes a message into a buffer of its socket,
    sends it to the back end and waits at a semaphore; the thread that receives from the back
    end stores the response and posts that semaphore. Any number of application threads run
    these methods at the same time. A step is one operation on what they share: the map, the
    pool, a semaphore, a buffer, the local socket. *)
From Stdlib Require Import String.
From stdpp Require Import gmap.
From S2P Require Import Prelude Inet AddressPort Events BackEnd.

Definition UNIX_SOCKET_MAX_BUFFER_SIZE : Z := 131071.
(** PAYLOAD_SIZE * 2. *)
Definition BUFFER_SIZE : Z := 3000.
Definition EBADF : Z := 9.
Definition sizeof_sockaddr_in : Z := 16.

(** The structs of MessageStructDefinitions.h. *)
Definition sizeof_SocketMessage : Z := 136.
Definition sizeof_AddressMessage : Z := 144.
Definition sizeof_SockOptMessage : Z := 136.
Definition sizeof_ListenMessage : Z := 128.
Definition sizeof_AcceptMessage : Z := 148.
Definition sizeof_DataMessage : Z := 160.
Definition sizeof_FrontEndMessage : Z := 124.

(** ** Calls *)

Inductive call :=
| Socket (domain type protocol : Z)
| Bind (fd : Z) (addr : sockaddr_in) (len : Z)
| GetSockOpt (fd level optname optlen : Z)
| SetSockOpt (fd level optname : Z) (optval : list Z)
| Listen (fd n : Z)
| Accept (fd : Z) (addr : option sockaddr_in)
| SendTo (fd : Z) (buf : list Z) (flags : Z) (addr : option sockaddr_in)
| RecvFrom (fd n flags : Z) (addr : option sockaddr_in)
| Connect (fd : Z) (addr : option sockaddr_in) (len : Z)
| Close (fd : Z).

(** wifu_send and wifu_recv. *)
Definition Send (fd : Z) (buf : list Z) (flags : Z) : call := SendTo fd buf flags None.
Definition Recv (fd n flags : Z) : call := RecvFrom fd n flags None.

(** The descriptor of a call; a socket call uses 0. *)
Definition fd_of (c : call) : Z :=
  match c with
  | Socket _ _ _ => 0
  | Bind fd _ _ | GetSockOpt fd _ _ _ | SetSockOpt fd _ _ _ | Listen fd _ | Accept fd _ | SendTo fd _ _ _
  | RecvFrom fd _ _ _ | Connect fd _ _ | Close fd => fd
  end.

Definition message_type_of (c : call) : Z :=
  match c with
  | Socket _ _ _ => WIFU_SOCKET
  | Bind _ _ _ => WIFU_BIND
  | GetSockOpt _ _ _ _ => WIFU_GETSOCKOPT
  | SetSockOpt _ _ _ _ => WIFU_SETSOCKOPT
  | Listen _ _ => WIFU_LISTEN
  | Accept _ _ => WIFU_ACCEPT
  | SendTo _ _ _ _ => WIFU_SENDTO
  | RecvFrom _ _ _ _ => WIFU_RECVFROM
  | Connect _ _ _ => WIFU_CONNECT
  | Close _ => WIFU_CLOSE
  end.

(** The bytes a call writes into its buffer. *)
Definition length_of (c : call) : Z :=
  match c with
  | Socket _ _ _ => sizeof_SocketMessage
  | Bind _ _ _ | Connect _ _ _ => sizeof_AddressMessage
  | GetSockOpt _ _ _ _ => sizeof_SockOptMessage
  | SetSockOpt _ _ _ optval => sizeof_SockOptMessage + Z.of_nat (length optval)
  | Listen _ _ => sizeof_ListenMessage
  | Accept _ _ => sizeof_AcceptMessage
  | SendTo _ buf _ _ => sizeof_DataMessage + Z.of_nat (length buf)
  | RecvFrom _ _ _ _ => sizeof_DataMessage
  | Close _ => sizeof_FrontEndMessage
  end.

(** The fields each method sets; the others are what the buffer held, [m]. *)
Definition write_header (type fd : Z) (file : string) (m : message) : message :=
  {| message_type := type; BackEnd.fd := u32 fd; source := file; m_domain := m_domain m; m_type := m_type m; m_protocol := m_protocol m;
     m_addr := m_addr m; m_n := m_n m; m_secondfd := m_secondfd m; m_buffer_length := m_buffer_length m; m_data := m_data m;
     m_level_optname := m_level_optname m; m_optval := m_optval m |}.
Definition write_socket (domain type protocol : Z) (m : message) : message :=
  {| message_type := message_type m; BackEnd.fd := BackEnd.fd m; source := source m; m_domain := domain; m_type := type; m_protocol := protocol;
     m_addr := m_addr m; m_n := m_n m; m_secondfd := m_secondfd m; m_buffer_length := m_buffer_length m; m_data := m_data m;
     m_level_optname := m_level_optname m; m_optval := m_optval m |}.
Definition write_addr (addr : sockaddr_in) (m : message) : message :=
  {| message_type := message_type m; BackEnd.fd := BackEnd.fd m; source := source m; m_domain := m_domain m; m_type := m_type m;
     m_protocol := m_protocol m; m_addr := addr; m_n := m_n m; m_secondfd := m_secondfd m; m_buffer_length := m_buffer_length m;
     m_data := m_data m; m_level_optname := m_level_optname m; m_optval := m_optval m |}.
Definition write_n (n : Z) (m : message) : message :=
  {| message_type := message_type m; BackEnd.fd := BackEnd.fd m; source := source m; m_domain := m_domain m; m_type := m_type m;
     m_protocol := m_protocol m; m_addr := m_addr m; m_n := n; m_secondfd := m_secondfd m; m_buffer_length := m_buffer_length m;
     m_data := m_data m; m_level_optname := m_level_optname m; m_optval := m_optval m |}.
Definition write_data (n : Z) (data : list Z) (m : message) : message :=
  {| message_type := message_type m; BackEnd.fd := BackEnd.fd m; source := source m; m_domain := m_domain m; m_type := m_type m;
     m_protocol := m_protocol m; m_addr := m_addr m; m_n := m_n m; m_secondfd := m_secondfd m; m_buffer_length := n; m_data := data;
     m_level_optname := m_level_optname m; m_optval := m_optval m |}.
Definition write_option (level optname : Z) (optval : list Z) (optlen : Z) (m : message) : message :=
  {| message_type := message_type m; BackEnd.fd := BackEnd.fd m; source := source m; m_domain := m_domain m; m_type := m_type m;
     m_protocol := m_protocol m; m_addr := m_addr m; m_n := m_n m; m_secondfd := m_secondfd m; m_buffer_length := m_buffer_length m;
     m_data := m_data m; m_level_optname := (level, optname); m_optval := (optval, optlen) |}.

Definition write_address (addr : option sockaddr_in) (m : message) : message :=
  match addr with Some a => write_addr a m | None => m end.

Definition write_message (file : string) (c : call) (m : message) : message :=
  let m := write_header (message_type_of c) (fd_of c) file m in
  match c with
  | Socket domain type protocol => write_socket domain type protocol m
  | Bind _ addr _ => write_addr addr m
  | GetSockOpt _ level optname optlen => write_option level optname (fst (m_optval m)) optlen m
  | SetSockOpt _ level optname optval => write_option level optname optval (Z.of_nat (length optval)) m
  | Listen _ n => write_n n m
  | Accept _ addr => write_address addr m
  | SendTo _ buf _ addr => write_data (Z.of_nat (length buf)) buf (write_address addr m)
  | RecvFrom _ n _ addr => write_data n (m_data m) (write_address addr m)
  | Connect _ addr _ => write_address addr m
  | Close _ => m
  end.

(** What a call gives its caller: the return value, errno if it is set, the bytes and the
    address written through the caller's pointers. *)
Record result := { return_value : Z; error : option Z; out_data : list Z; out_addr : option sockaddr_in }.

Definition plain_result (r : response) : result := {| return_value := res_return_value r; error := None; out_data := []; out_addr := None |}.

(** The end of each method, from the response in the buffer. Writing more through a pointer
    than the caller gave room for is out of bounds, and so is reading past the response. *)
Definition result_of (c : call) (r : response) : outcome result :=
  match c with
  | Bind _ _ _ | Listen _ _ =>
      mret {| return_value := res_return_value r; error := if res_errno r =? 0 then None else Some (res_errno r); out_data := []; out_addr := None |}
  | GetSockOpt _ _ _ optlen =>
      if Z.of_nat (length (res_buffer r)) <=? optlen
      then mret {| return_value := res_return_value r; error := None; out_data := res_buffer r; out_addr := None |} else Fault OutOfBounds
  | Accept _ addr =>
      mret {| return_value := res_return_value r; error := None; out_data := [];
              out_addr := match addr with Some _ => res_addr r | None => None end |}
  | RecvFrom _ n _ addr =>
      if (res_message_type r =? WIFU_RECVFROM) && (0 <? res_return_value r) then
        if (res_return_value r <=? n) && (res_return_value r <=? Z.of_nat (length (res_buffer r)))
        then mret {| return_value := res_return_value r; error := None; out_data := take (Z.to_nat (res_return_value r)) (res_buffer r);
                     out_addr := match addr with Some _ => res_addr r | None => None end |}
        else Fault OutOfBounds
      else mret (plain_result r)
  | Socket _ _ _ | SetSockOpt _ _ _ _ | SendTo _ _ _ _ | Connect _ _ _ | Close _ => mret (plain_result r)
  end.

(** ** Shared state *)

(** SocketData; both buffers are uninitialised at first. *)
Record socket_data := { sem_ : nat; flag_ : nat; receive_payload_ : option response; send_payload_ : message }.

(** The points of the methods between two steps. *)
Inductive phase :=
| Entered (c : call)
| Writing (c : call) (d : nat)
| Sending (c : call) (d : nat)
| Waiting (c : call) (d : nat)
| Reading (c : call) (d : nat)
| AcceptPool (c : call) (d : nat) (r : result)
| AcceptPut (c : call) (d new : nat) (r : result)
| Posting (c : call) (d : nat) (r : result)
| CloseRelease (c : call) (d : nat) (r : result)
| CloseErase (c : call) (r : result)
| SocketPool (c : call)
| SocketPut (c : call) (d : nat)
| SocketWriting (c : call) (d : nat)
| SocketSending (c : call) (d : nat)
| SocketWaiting (c : call)
| SocketGet (c : call)
| SocketErase (c : call) (d : nat) (r : result)
| SocketRename (c : call) (d : nat) (r : result)
| SocketUnlock (c : call) (r : result)
| Returned (r : result).

(** The thread that receives from the back end. *)
Inductive receiving :=
| Idle
| Looking (r : response)
| Flagging (d : nat) (r : response)
| Storing (d : nat) (r : response)
| Signalling (d : nat) (r : response)
| SocketStoring (d : nat) (r : response)
| SocketSignalling (r : response).

Record front_end := {
  objects : gmap nat socket_data;
  next : nat;
  object_list_ : list nat;
  size_ : nat;
  data_ : gmap Z nat;
  socket_signal_ : nat;
  socket_mutex_ : nat;
  sent : list message;
  threads : gmap nat phase;
  receiver : receiving }.

Definition with_objects (f : gmap nat socket_data → gmap nat socket_data) (fe : front_end) : front_end :=
  {| objects := f (objects fe); next := next fe; object_list_ := object_list_ fe; size_ := size_ fe; data_ := data_ fe;
     socket_signal_ := socket_signal_ fe; socket_mutex_ := socket_mutex_ fe; sent := sent fe; threads := threads fe; receiver := receiver fe |}.
Definition with_pool (l : list nat) (fe : front_end) : front_end :=
  {| objects := objects fe; next := next fe; object_list_ := l; size_ := size_ fe; data_ := data_ fe;
     socket_signal_ := socket_signal_ fe; socket_mutex_ := socket_mutex_ fe; sent := sent fe; threads := threads fe; receiver := receiver fe |}.
Definition with_data (f : gmap Z nat → gmap Z nat) (fe : front_end) : front_end :=
  {| objects := objects fe; next := next fe; object_list_ := object_list_ fe; size_ := size_ fe; data_ := f (data_ fe);
     socket_signal_ := socket_signal_ fe; socket_mutex_ := socket_mutex_ fe; sent := sent fe; threads := threads fe; receiver := receiver fe |}.
Definition with_socket (signal mutex : nat) (fe : front_end) : front_end :=
  {| objects := objects fe; next := next fe; object_list_ := object_list_ fe; size_ := size_ fe; data_ := data_ fe;
     socket_signal_ := signal; socket_mutex_ := mutex; sent := sent fe; threads := threads fe; receiver := receiver fe |}.
Definition send_to (m : message) (fe : front_end) : front_end :=
  {| objects := objects fe; next := next fe; object_list_ := object_list_ fe; size_ := size_ fe; data_ := data_ fe;
     socket_signal_ := socket_signal_ fe; socket_mutex_ := socket_mutex_ fe; sent := sent fe ++ [m]; threads := threads fe; receiver := receiver fe |}.
Definition at_phase (t : nat) (p : phase) (fe : front_end) : front_end :=
  {| objects := objects fe; next := next fe; object_list_ := object_list_ fe; size_ := size_ fe; data_ := data_ fe;
     socket_signal_ := socket_signal_ fe; socket_mutex_ := socket_mutex_ fe; sent := sent fe; threads := <[t := p]> (threads fe); receiver := receiver fe |}.
Definition with_receiver (r : receiving) (fe : front_end) : front_end :=
  {| objects := objects fe; next := next fe; object_list_ := object_list_ fe; size_ := size_ fe; data_ := data_ fe;
     socket_signal_ := socket_signal_ fe; socket_mutex_ := socket_mutex_ fe; sent := sent fe; threads := threads fe; receiver := r |}.

Definition set_sem (sem : nat) (o : socket_data) : socket_data :=
  {| sem_ := sem; flag_ := flag_ o; receive_payload_ := receive_payload_ o; send_payload_ := send_payload_ o |}.
Definition set_flag (flag : nat) (o : socket_data) : socket_data :=
  {| sem_ := sem_ o; flag_ := flag; receive_payload_ := receive_payload_ o; send_payload_ := send_payload_ o |}.
Definition set_receive_payload (r : response) (o : socket_data) : socket_data :=
  {| sem_ := sem_ o; flag_ := flag_ o; receive_payload_ := Some r; send_payload_ := send_payload_ o |}.
Definition set_send_payload (m : message) (o : socket_data) : socket_data :=
  {| sem_ := sem_ o; flag_ := flag_ o; receive_payload_ := receive_payload_ o; send_payload_ := m |}.

(** ** Steps *)

Section FrontEnd.
(** The file the back end answers to, and what a new buffer contains. *)
Context (file : string) (uninitialised : message).

Definition new_SocketData : socket_data := {| sem_ := 0; flag_ := 1; receive_payload_ := None; send_payload_ := uninitialised |}.

(** [ObjectPool<SocketData>::get] and [release]. *)
Fixpoint grow (num : nat) (fe : front_end) : front_end :=
  match num with
  | O => fe
  | S num =>
      grow num
        {| objects := <[next fe := new_SocketData]> (objects fe); next := S (next fe); object_list_ := object_list_ fe ++ [next fe];
           size_ := S (size_ fe); data_ := data_ fe; socket_signal_ := socket_signal_ fe; socket_mutex_ := socket_mutex_ fe;
           sent := sent fe; threads := threads fe; receiver := receiver fe |}
  end.

Definition get (fe : front_end) : outcome (nat * front_end) :=
  let fe := match object_list_ fe with [] => grow (size_ fe * 2 - size_ fe) fe | _ => fe end in
  match object_list_ fe with d :: l => mret (d, with_pool l fe) | [] => Fault OutOfBounds end.

Definition release (d : nat) (fe : front_end) : front_end := with_pool (object_list_ fe ++ [d]) fe.

Definition no_objects : front_end :=
  {| objects := ∅; next := 0; object_list_ := []; size_ := 0; data_ := ∅; socket_signal_ := 0; socket_mutex_ := 1; sent := [];
     threads := ∅; receiver := Idle |}.
Definition initial : front_end := grow POOL_INITIAL_SIZE no_objects.

(** The call's buffer is written. *)
Definition write_payload (c : call) (d : nat) (fe : front_end) : outcome front_end :=
  o ← deref (objects fe !! d);
  if length_of c <=? UNIX_SOCKET_MAX_BUFFER_SIZE
  then mret (with_objects <[d := set_send_payload (write_message file c (send_payload_ o)) o]> fe) else Fault OutOfBounds.

Definition send_payload (d : nat) (fe : front_end) : outcome front_end :=
  o ← deref (objects fe !! d);
  mret (send_to (send_payload_ o) fe).

(** Up to the first operation on the socket's data. *)
Definition enter (t : nat) (c : call) (fe : front_end) : outcome front_end :=
  let lookup := d ← deref (data_ fe !! fd_of c); mret (at_phase t (Writing c d) fe) in
  let checked :=
    match data_ fe !! fd_of c with
    | None => mret (at_phase t (Returned {| return_value := -1; error := Some EBADF; out_data := []; out_addr := None |}) fe)
    | Some d => mret (at_phase t (Writing c d) fe)
    end in
  match c with
  | Bind _ _ len => if sizeof_sockaddr_in =? len then checked else Fault AssertionFailure
  | Listen _ _ => checked
  | SetSockOpt _ _ _ optval => if Z.of_nat (length optval) <? BUFFER_SIZE then lookup else Fault AssertionFailure
  | Connect _ addr len =>
      match addr with None => Fault AssertionFailure | Some _ => if sizeof_sockaddr_in =? len then lookup else Fault AssertionFailure end
  | _ => lookup
  end.

(** [BinarySemaphore::post]: a [try_wait], then a post. The value goes through no other on the
    way when it was 0, as it is in every reachable state ([posts_find_zero]). *)
Definition post_binary (v : nat) : nat := match v with O => 1 | _ => v end.

(** One step of thread [t]; [None] when it waits at a semaphore or has returned. *)
Definition step_thread (t : nat) (fe : front_end) : outcome (option front_end) :=
  let go p (fe : front_end) : outcome (option front_end) := mret (Some (at_phase t p fe)) in
  match threads fe !! t with
  | None | Some (Returned _) => mret None
  | Some (Entered (Socket _ _ _ as c)) =>
      match socket_mutex_ fe with O => mret None | S n => go (SocketPool c) (with_socket (socket_signal_ fe) n fe) end
  | Some (Entered c) => fe ← enter t c fe; mret (Some fe)
  | Some (Writing c d) => fe ← write_payload c d fe; go (Sending c d) fe
  | Some (Sending c d) => fe ← send_payload d fe; go (Waiting c d) fe
  | Some (Waiting c d) =>
      o ← deref (objects fe !! d);
      match sem_ o with O => mret None | S n => go (Reading c d) (with_objects <[d := set_sem n o]> fe) end
  | Some (Reading c d) =>
      o ← deref (objects fe !! d);
      r ← deref (receive_payload_ o);
      r ← result_of c r;
      match c with Accept _ _ => go (AcceptPool c d r) fe | _ => go (Posting c d r) fe end
  | Some (AcceptPool c d r) => '(new, fe) ← get fe; go (AcceptPut c d new r) fe
  | Some (AcceptPut c d new r) => go (Posting c d r) (with_data <[return_value r := new]> fe)
  | Some (Posting c d r) =>
      o ← deref (objects fe !! d);
      let fe := with_objects <[d := set_flag (S (flag_ o)) o]> fe in
      match c with Close _ => go (CloseRelease c d r) fe | _ => go (Returned r) fe end
  | Some (CloseRelease c d r) => go (CloseErase c r) (release d fe)
  | Some (CloseErase c r) => go (Returned r) (with_data (delete (fd_of c)) fe)
  | Some (SocketPool c) => '(d, fe) ← get fe; go (SocketPut c d) fe
  | Some (SocketPut c d) => go (SocketWriting c d) (with_data <[0 := d]> fe)
  | Some (SocketWriting c d) => fe ← write_payload c d fe; go (SocketSending c d) fe
  | Some (SocketSending c d) => fe ← send_payload d fe; go (SocketWaiting c) fe
  | Some (SocketWaiting c) =>
      match socket_signal_ fe with O => mret None | S n => go (SocketGet c) (with_socket n (socket_mutex_ fe) fe) end
  | Some (SocketGet c) =>
      match data_ fe !! 0 with
      | None => Fault AssertionFailure
      | Some d =>
          o ← deref (objects fe !! d);
          r ← deref (receive_payload_ o);
          r ← result_of c r;
          go (SocketErase c d r) fe
      end
  | Some (SocketErase c d r) => go (SocketRename c d r) (with_data (delete 0) fe)
  | Some (SocketRename c d r) => go (SocketUnlock c r) (with_data <[return_value r := d]> fe)
  | Some (SocketUnlock c r) => go (Returned r) (with_socket (socket_signal_ fe) (post_binary (socket_mutex_ fe)) fe)
  end.

(** [receive] and [set_receive_payload]. *)
Definition store_payload (d : nat) (r : response) (fe : front_end) : outcome front_end :=
  o ← deref (objects fe !! d);
  if res_length r <=? UNIX_SOCKET_MAX_BUFFER_SIZE
  then mret (with_objects <[d := set_receive_payload r o]> fe) else Fault OutOfBounds.

Definition step_receiver (fe : front_end) : outcome (option front_end) :=
  let go p (fe : front_end) : outcome (option front_end) := mret (Some (with_receiver p fe)) in
  match receiver fe with
  | Idle => mret None
  | Looking r =>
      if res_message_type r =? WIFU_SOCKET then d ← deref (data_ fe !! 0); go (SocketStoring d r) fe
      else match data_ fe !! i32 (res_fd r) with
           | None => if res_message_type r =? WIFU_CLOSE then go Idle fe else Fault AssertionFailure
           | Some d => go (Flagging d r) fe
           end
  | Flagging d r =>
      o ← deref (objects fe !! d);
      match flag_ o with O => mret None | S n => go (Storing d r) (with_objects <[d := set_flag n o]> fe) end
  | Storing d r => fe ← store_payload d r fe; go (Signalling d r) fe
  | Signalling d r => o ← deref (objects fe !! d); go Idle (with_objects <[d := set_sem (S (sem_ o)) o]> fe)
  | SocketStoring d r => fe ← store_payload d r fe; go (SocketSignalling r) fe
  | SocketSignalling r => go Idle (with_socket (post_binary (socket_signal_ fe)) (socket_mutex_ fe) fe)
  end.

(** ** Applications and a back end that keep to the rules *)

(** The descriptor a thread works on; that of a socket call is 0 while it has the mutex. *)
Definition call_of (p : phase) : option call :=
  match p with
  | Entered (Socket _ _ _) | Returned _ => None
  | Entered c | Writing c _ | Sending c _ | Waiting c _ | Reading c _ | AcceptPool c _ _ | AcceptPut c _ _ _ | Posting c _ _
  | CloseRelease c _ _ | CloseErase c _ | SocketPool c | SocketPut c _ | SocketWriting c _ | SocketSending c _ | SocketWaiting c
  | SocketGet c | SocketErase c _ _ | SocketRename c _ _ | SocketUnlock c _ => Some c
  end.
Definition on (p : phase) : option Z := fd_of <$> call_of p.
Definition busy (fe : front_end) (fd : Z) : Prop := ∃ t p, threads fe !! t = Some p ∧ on p = Some fd.

Definition is_socket (c : call) : bool := match c with Socket _ _ _ => true | _ => false end.

(** What the methods assert or assume of their arguments. *)
Record well_called (c : call) : Prop := {
  wc_fd : - 2 ^ 31 ≤ fd_of c < 2 ^ 31 ∧ fd_of c ≠ -1;
  wc_socket : fd_of c = 0 ↔ is_socket c = true;
  wc_arguments : match c with
    | Bind _ _ len => len = sizeof_sockaddr_in
    | Connect _ addr len => is_Some addr ∧ len = sizeof_sockaddr_in
    | SetSockOpt _ _ _ optval => Z.of_nat (length optval) < BUFFER_SIZE
    | SendTo _ buf _ _ => Z.of_nat (length buf) ≤ UNIX_SOCKET_MAX_BUFFER_SIZE - sizeof_DataMessage
    | _ => True
    end }.

(** A response that answers message [m]: of its type, no larger than the buffer, with no more
    data than was asked for. *)
Record fits (m : message) (r : response) : Prop := {
  fit_type : res_message_type r = message_type m;
  fit_length : res_length r ≤ UNIX_SOCKET_MAX_BUFFER_SIZE;
  fit_data : message_type m = WIFU_RECVFROM → res_return_value r ≤ m_buffer_length m ∧ res_return_value r ≤ Z.of_nat (length (res_buffer r));
  fit_option : message_type m = WIFU_GETSOCKOPT → Z.of_nat (length (res_buffer r)) ≤ snd (m_optval m) }.

(** Responses that give out a descriptor: -1, or one that is not in use and that no other such
    response on its way has. *)
Definition gives_id (r : response) : Prop := res_message_type r = WIFU_SOCKET ∨ res_message_type r = WIFU_ACCEPT.
Definition new_id (fe : front_end) (answers : gmap Z response) (r : response) : Prop :=
  gives_id r → res_return_value r = -1 ∨
    (0 < res_return_value r ∧ data_ fe !! res_return_value r = None ∧
     ∀ fd r', answers !! fd = Some r' → gives_id r' → res_return_value r' ≠ res_return_value r).

Definition calls_after (p : phase) (fe : front_end) (calls : gmap Z message) : gmap Z message :=
  match p with
  | Sending c d | SocketSending c d => match objects fe !! d with Some o => <[fd_of c := send_payload_ o]> calls | None => calls end
  | _ => calls
  end.
Definition answers_after (p : phase) (answers : gmap Z response) : gmap Z response :=
  match p with
  | Posting (Close _) _ _ => answers
  | Posting c _ _ | CloseErase c _ | SocketUnlock c _ => delete (fd_of c) answers
  | _ => answers
  end.

(** All interleavings of threads that call with valid arguments, each on an open descriptor on
    which no other thread is in a call, with a back end that answers each message once.
    [calls]: the messages without an answer; [answers]: the answers to calls that have not
    returned; both by descriptor. *)
Inductive reachable : front_end → gmap Z message → gmap Z response → Prop :=
| r_initial : reachable initial ∅ ∅
| r_enter fe calls answers t c : reachable fe calls answers → well_called c →
    (match threads fe !! t with None | Some (Returned _) => True | _ => False end) →
    (is_socket c = true ∨ (is_Some (data_ fe !! fd_of c) ∧ ¬ busy fe (fd_of c))) →
    reachable (at_phase t (Entered c) fe) calls answers
| r_step fe calls answers t p fe' : reachable fe calls answers → threads fe !! t = Some p →
    step_thread t fe = Done (Some fe') → reachable fe' (calls_after p fe calls) (answers_after p answers)
| r_deliver fe calls answers m r : reachable fe calls answers → receiver fe = Idle → calls !! res_fd r = Some m → fits m r →
    new_id fe answers r → reachable (with_receiver (Looking r) fe) (delete (res_fd r) calls) (<[res_fd r := r]> answers)
| r_receive fe calls answers fe' : reachable fe calls answers → step_receiver fe = Done (Some fe') → reachable fe' calls answers.

(** ** The invariant

    Every SocketData has one owner: the pool, a descriptor, or the thread that took it from
    the pool. A socket call's object belongs to descriptor 0 while it is in the map there. *)
Inductive owner := Pooled | Open (fd : Z) | Held (t : nat) | Lost.

Definition resting (o : socket_data) : Prop := sem_ o = 0%nat ∧ flag_ o = 1%nat.
Definition taken (o : socket_data) : Prop := sem_ o = 0%nat ∧ flag_ o = 0%nat.

Definition delivering (p : receiving) : option response :=
  match p with
  | Idle => None
  | Looking r | Flagging _ r | Storing _ r | Signalling _ r | SocketStoring _ r | SocketSignalling r => Some r
  end.

(** What a thread on a descriptor can see. *)
Record view := { v_cell : option (nat * socket_data); v_call : option message; v_answer : option response; v_delivery : option receiving;
  v_signal : nat; v_mutex : nat }.

Definition delivery_at (fd : Z) (p : receiving) : option receiving :=
  if decide (res_fd <$> delivering p = Some fd) then Some p else None.

Definition view_at (fe : front_end) (calls : gmap Z message) (answers : gmap Z response) (fd : Z) : view :=
  {| v_cell := d ← data_ fe !! fd; o ← objects fe !! d; Some (d, o); v_call := calls !! fd; v_answer := answers !! fd; v_delivery := delivery_at fd (receiver fe);
     v_signal := if decide (fd = 0) then socket_signal_ fe else 0%nat; v_mutex := if decide (fd = 0) then socket_mutex_ fe else 0%nat |}.

Definition message_of (c : call) (m : message) : Prop := ∃ old, m = write_message file c old.
Definition answer_of (c : call) (r : response) : Prop := ∃ m, message_of c m ∧ fits m r.

Definition unsent (v : view) : Prop := v_call v = None ∧ v_answer v = None ∧ v_delivery v = None ∧ v_signal v = 0%nat ∧ v_mutex v = 0%nat.
Definition sent_call (c : call) (v : view) : Prop :=
  (∃ m, v_call v = Some m ∧ message_of c m) ∧ v_answer v = None ∧ v_delivery v = None ∧ v_signal v = 0%nat ∧ v_mutex v = 0%nat.
Definition answered (c : call) (r : response) (v : view) : Prop :=
  v_call v = None ∧ v_answer v = Some r ∧ answer_of c r ∧ v_mutex v = 0%nat.
Definition delivered (c : call) (r : response) (v : view) : Prop := answered c r v ∧ v_delivery v = None ∧ v_signal v = 0%nat.
Definition finished (c : call) (x : result) (v : view) : Prop := ∃ r, delivered c r v ∧ result_of c r = Done x.

(** How far the receiving thread is with the answer of the object's call. *)
Definition arrival (d : nat) (o : socket_data) (r : response) (v : view) : Prop :=
  match v_delivery v with
  | None => sem_ o = 1%nat ∧ flag_ o = 0%nat ∧ receive_payload_ o = Some r
  | Some (Looking r') => r' = r ∧ resting o
  | Some (Flagging d' r') => d' = d ∧ r' = r ∧ resting o
  | Some (Storing d' r') => d' = d ∧ r' = r ∧ taken o
  | Some (Signalling d' r') => d' = d ∧ r' = r ∧ taken o ∧ receive_payload_ o = Some r
  | _ => False
  end.
Definition socket_arrival (d : nat) (o : socket_data) (r : response) (v : view) : Prop :=
  match v_delivery v with
  | None => v_signal v = 1%nat ∧ receive_payload_ o = Some r
  | Some (Looking r') => r' = r ∧ v_signal v = 0%nat
  | Some (SocketStoring d' r') => d' = d ∧ r' = r ∧ v_signal v = 0%nat
  | Some (SocketSignalling r') => r' = r ∧ v_signal v = 0%nat ∧ receive_payload_ o = Some r
  | _ => False
  end.

(** The object of the descriptor, when the phase knows it. *)
Definition has (d : nat) (v : view) (P : socket_data → Prop) : Prop := ∃ o, v_cell v = Some (d, o) ∧ P o.

Definition phase_ok (p : phase) (v : view) : Prop :=
  match p with
  | Returned _ => True
  | Entered c => is_socket c = false ∧ unsent v ∧ ∃ d, has d v resting
  | Writing c d => is_socket c = false ∧ unsent v ∧ has d v resting
  | Sending c d => is_socket c = false ∧ unsent v ∧ has d v (fun o => resting o ∧ message_of c (send_payload_ o))
  | Waiting c d => is_socket c = false ∧
      has d v (fun o => (sent_call c v ∧ resting o) ∨ ∃ r, answered c r v ∧ v_signal v = 0%nat ∧ arrival d o r v)
  | Reading c d => is_socket c = false ∧ has d v (fun o => taken o ∧ ∃ r, receive_payload_ o = Some r ∧ delivered c r v)
  | AcceptPool c d x | AcceptPut c d _ x => message_type_of c = WIFU_ACCEPT ∧ has d v taken ∧ finished c x v
  | Posting c d x => is_socket c = false ∧ has d v taken ∧ finished c x v
  | CloseRelease c d x => message_type_of c = WIFU_CLOSE ∧ has d v resting ∧ finished c x v
  | CloseErase c x => message_type_of c = WIFU_CLOSE ∧ finished c x v ∧ is_Some (v_cell v)
  | SocketPool c | SocketPut c _ => is_socket c = true ∧ unsent v ∧ v_cell v = None
  | SocketWriting c d => is_socket c = true ∧ unsent v ∧ has d v resting
  | SocketSending c d => is_socket c = true ∧ unsent v ∧ has d v (fun o => resting o ∧ message_of c (send_payload_ o))
  | SocketWaiting c => is_socket c = true ∧
      ∃ d, has d v (fun o => resting o ∧ (sent_call c v ∨ ∃ r, answered c r v ∧ socket_arrival d o r v))
  | SocketGet c => is_socket c = true ∧ ∃ d, has d v (fun o => resting o ∧ ∃ r, receive_payload_ o = Some r ∧ delivered c r v)
  | SocketErase c d x => is_socket c = true ∧ has d v resting ∧ finished c x v
  | SocketRename c _ x | SocketUnlock c x => is_socket c = true ∧ v_cell v = None ∧ finished c x v
  end.

(** An object a thread took from the pool and has not put into the map. *)
Definition held_by (p : phase) : option nat :=
  match p with AcceptPut _ _ new _ => Some new | SocketPut _ d | SocketRename _ d _ => Some d | _ => None end.

(** The descriptor a call gets is not in the map until the call puts it there. *)
Definition id_pending (p : phase) : bool := match p with Posting _ _ _ | CloseRelease _ _ _ | CloseErase _ _ | SocketUnlock _ _ => false | _ => true end.
Definition id_ok (fe : front_end) (p : phase) (v : view) : Prop :=
  ∀ r, id_pending p = true → v_answer v = Some r → gives_id r → res_return_value r = -1 ∨ 0 < res_return_value r ∧ data_ fe !! res_return_value r = None.

Definition erasing (fe : front_end) (fd : Z) : Prop := ∃ t c x, threads fe !! t = Some (CloseErase c x) ∧ fd_of c = fd.

(** The descriptors given out are positive and different. *)
Record ids_ok (answers : gmap Z response) : Prop := {
  ids_positive : ∀ fd r, answers !! fd = Some r → gives_id r → res_return_value r = -1 ∨ 0 < res_return_value r;
  ids_distinct : ∀ fd fd' r r', answers !! fd = Some r → answers !! fd' = Some r' → gives_id r → gives_id r' → fd ≠ fd' →
    res_return_value r = res_return_value r' → res_return_value r = -1 }.

Record inv (own : gmap nat owner) (fe : front_end) (calls : gmap Z message) (answers : gmap Z response) : Prop := {
  i_own : ∀ d, is_Some (own !! d) ↔ is_Some (objects fe !! d);
  i_next : ∀ d o, objects fe !! d = Some o → (d < next fe)%nat;
  i_pool : NoDup (object_list_ fe) ∧ ∀ d, d ∈ object_list_ fe ↔ own !! d = Some Pooled;
  i_size : (1 ≤ size_ fe)%nat;
  i_free : ∀ d, own !! d = Some Pooled ∨ (∃ t, own !! d = Some (Held t)) → ∃ o, objects fe !! d = Some o ∧ resting o;
  i_open : ∀ d fd, own !! d = Some (Open fd) → data_ fe !! fd = Some d ∧ fd ≠ -1;
  i_data : ∀ fd d, data_ fe !! fd = Some d → fd ≠ -1 → own !! d = Some (Open fd) ∨ erasing fe fd;
  i_erasing : ∀ fd d, erasing fe fd → own !! d ≠ Some (Open fd);
  i_quiet : ∀ fd, ¬ busy fe fd → calls !! fd = None ∧ answers !! fd = None ∧
    (fd ≠ -1 → ∀ d, data_ fe !! fd = Some d → ∃ o, objects fe !! d = Some o ∧ resting o);
  i_zero : ¬ busy fe 0 → data_ fe !! 0 = None ∧ socket_signal_ fe = 0%nat ∧ socket_mutex_ fe = 1%nat;
  i_thread : ∀ t p c, threads fe !! t = Some p → call_of p = Some c →
    well_called c ∧ (∀ d, held_by p = Some d → own !! d = Some (Held t)) ∧
    phase_ok p (view_at fe calls answers (fd_of c)) ∧ id_ok fe p (view_at fe calls answers (fd_of c));
  i_unique : ∀ t t' p p' fd, threads fe !! t = Some p → threads fe !! t' = Some p' → on p = Some fd → on p' = Some fd → t = t';
  i_waiting : ∀ t c, threads fe !! t = Some (Entered c) → well_called c;
  i_receiver : ∀ r, delivering (receiver fe) = Some r → busy fe (res_fd r);
  i_ids : ids_ok answers }.

(** *** What a step of one thread leaves alone *)

Definition is_erase (p : phase) : bool := match p with CloseErase _ _ => true | _ => false end.

Lemma phase_ok_ext p v v' :
  (is_erase p = false → v_cell v' = v_cell v) → (is_Some (v_cell v) → is_Some (v_cell v')) → v_call v' = v_call v → v_answer v' = v_answer v →
  v_delivery v' = v_delivery v → v_signal v' = v_signal v → v_mutex v' = v_mutex v → phase_ok p v → phase_ok p v'.
Proof.
  intros Hc Hs H1 H2 H3 H4 H5. destruct v as [cell call answer delivery signal mutex], v' as [cell' call' answer' delivery' signal' mutex'].
  cbn in *. subst. destruct p; cbn in Hc; try (specialize (Hc eq_refl); subst; auto; fail). intros (Hm & Hf & Hcell). cbn in *. auto.
Qed.

Lemma busy_call fe t p c : threads fe !! t = Some p → call_of p = Some c → busy fe (fd_of c).
Proof. intros Ht Hc. exists t, p. unfold on. rewrite Hc. auto. Qed.

Lemma on_call p c : call_of p = Some c → on p = Some (fd_of c).
Proof. unfold on. intros ->. reflexivity. Qed.

Lemma on_inv p fd : on p = Some fd → ∃ c, call_of p = Some c ∧ fd_of c = fd.
Proof. unfold on. destruct (call_of p) as [c|]; [| discriminate]. intros [= <-]. eauto. Qed.

(** The object of a thread's descriptor is the descriptor's own, unless it is being erased. *)
Lemma own_of own fe calls answers t p c d :
  inv own fe calls answers → threads fe !! t = Some p → call_of p = Some c → is_erase p = false → data_ fe !! fd_of c = Some d →
  own !! d = Some (Open (fd_of c)).
Proof.
  intros Hi Ht Hc He Hd. pose proof (i_thread _ _ _ _ Hi t p c Ht Hc) as (Hw & _).
  destruct (i_data _ _ _ _ Hi _ d Hd) as [? | (t' & c' & x & Ht' & Hf)]; [apply Hw | assumption |].
  assert (t' = t) as -> by (eapply (i_unique _ _ _ _ Hi t' t); [exact Ht' | exact Ht | | apply on_call, Hc]; rewrite <- Hf; reflexivity).
  rewrite Ht in Ht'. injection Ht' as ->. discriminate.
Qed.

Lemma busy_insert fe fe' t p p' c fd :
  threads fe !! t = Some p → call_of p = Some c → call_of p' = Some c → threads fe' = <[t := p']> (threads fe) → busy fe' fd ↔ busy fe fd.
Proof.
  intros Ht Hc Hc' E. unfold busy. rewrite E. split; intros (t' & q & Hq & Hon).
  - apply lookup_insert_Some in Hq as [[<- <-] | [Hne Hq]]; [| eauto]. exists t, p. split; [exact Ht |]. unfold on in *. congruence.
  - destruct (decide (t = t')) as [<- | Hne]; [| exists t', q; rewrite lookup_insert_ne by exact Hne; auto].
    exists t, p'. rewrite lookup_insert_eq. split; [reflexivity |]. unfold on in *. congruence.
Qed.

Lemma local_inv own fe fe' calls calls' answers answers' t p p' c :
  inv own fe calls answers → threads fe !! t = Some p → call_of p = Some c → call_of p' = Some c → is_erase p = false → is_erase p' = false →
  threads fe' = <[t := p']> (threads fe) → next fe' = next fe ∧ object_list_ fe' = object_list_ fe ∧ size_ fe' = size_ fe ∧ data_ fe' = data_ fe →
  (∀ d, data_ fe !! fd_of c ≠ Some d → objects fe' !! d = objects fe !! d) → (∀ d, is_Some (objects fe' !! d) ↔ is_Some (objects fe !! d)) →
  (∀ fd, fd ≠ fd_of c → calls' !! fd = calls !! fd ∧ answers' !! fd = answers !! fd ∧ delivery_at fd (receiver fe') = delivery_at fd (receiver fe)) →
  (fd_of c ≠ 0 → socket_signal_ fe' = socket_signal_ fe ∧ socket_mutex_ fe' = socket_mutex_ fe) →
  (∀ r, delivering (receiver fe') = Some r → res_fd r = fd_of c ∨ delivering (receiver fe) = Some r) →
  ids_ok answers' →
  (∀ d, held_by p' = Some d → own !! d = Some (Held t)) → phase_ok p' (view_at fe' calls' answers' (fd_of c)) →
  id_ok fe' p' (view_at fe' calls' answers' (fd_of c)) → inv own fe' calls' answers'.
Proof.
  intros Hi Ht Hc Hc' He He' Eth (En & El & Es & Ed) Hobj Hdom Hoth Hsig Hrec Hids Hheld Hph Hid.
  pose proof (i_thread _ _ _ _ Hi t p c Ht Hc) as (Hwc & _). assert (∀ fd, busy fe' fd ↔ busy fe fd) as Hb by (intros fd; apply (busy_insert fe fe' t p p' c); assumption).
  assert (∀ d, data_ fe !! fd_of c = Some d → own !! d = Some (Open (fd_of c))) as Hmine by (intros d; apply (own_of own fe calls answers t p c); assumption).
  assert (∀ d x, own !! d = Some x → x ≠ Open (fd_of c) → objects fe' !! d = objects fe !! d) as Hkeep.
  { intros d x Hx Hne. apply Hobj. intros Hd%Hmine. congruence. }
  assert (∀ fd, erasing fe' fd ↔ erasing fe fd) as Her.
  { intros fd. unfold erasing. rewrite Eth. split; intros (t' & c' & x & Hq & Hf); exists t', c', x; (split; [| exact Hf]).
    - apply lookup_insert_Some in Hq as [[<- ->] | [_ Hq]]; [discriminate | exact Hq].
    - rewrite lookup_insert_ne; [exact Hq |]. intros <-. rewrite Ht in Hq. injection Hq as ->. discriminate. }
  split.
  - intros d. rewrite Hdom. apply (i_own _ _ _ _ Hi).
  - intros d o Ho. rewrite En. assert (is_Some (objects fe !! d)) as [o' Ho'] by (apply Hdom; eauto). exact (i_next _ _ _ _ Hi d o' Ho').
  - rewrite El. apply (i_pool _ _ _ _ Hi).
  - rewrite Es. apply (i_size _ _ _ _ Hi).
  - intros d Hd. assert (objects fe' !! d = objects fe !! d) as -> by (destruct Hd as [Hd | [t' Hd]]; apply (Hkeep d _ Hd); discriminate).
    apply (i_free _ _ _ _ Hi), Hd.
  - rewrite Ed. apply (i_open _ _ _ _ Hi).
  - intros fd d. rewrite Ed, Her. apply (i_data _ _ _ _ Hi).
  - intros fd d. rewrite Her. apply (i_erasing _ _ _ _ Hi).
  - intros fd Hfd. rewrite Hb in Hfd. assert (fd ≠ fd_of c) as Hne by (intros ->; apply Hfd, (busy_call fe t p c); assumption).
    destruct (Hoth fd Hne) as (-> & -> & _). destruct (i_quiet _ _ _ _ Hi fd Hfd) as (? & ? & Hq). split; [assumption |]. split; [assumption |].
    rewrite Ed. intros H1 d Hd. destruct (i_data _ _ _ _ Hi fd d Hd H1) as [Ho | (t' & c' & x & Ht' & Hf)].
    + rewrite (Hkeep d _ Ho) by congruence. apply (Hq H1 d Hd).
    + destruct Hfd. rewrite <- Hf. apply (busy_call fe t' (CloseErase c' x) c'); [exact Ht' | reflexivity].
  - rewrite Hb, Ed. intros H0. assert (fd_of c ≠ 0) as Hne by (intros E; apply H0; rewrite <- E; apply (busy_call fe t p c); assumption).
    destruct (Hsig Hne) as [-> ->]. apply (i_zero _ _ _ _ Hi H0).
  - intros t' q c0. rewrite Eth, lookup_insert_Some. intros [[<- <-] | [Hne Hq]] Hc0.
    { assert (c0 = c) as -> by congruence. auto. }
    destruct (i_thread _ _ _ _ Hi t' q c0 Hq Hc0) as (Hw & Hh & Hp & Hok). split; [exact Hw |]. split; [exact Hh |].
    assert (fd_of c0 ≠ fd_of c) as Hfd.
    { intros E. apply Hne. apply (i_unique _ _ _ _ Hi t t' p q (fd_of c)); [exact Ht | exact Hq | apply on_call, Hc |]. rewrite <- E. apply on_call, Hc0. }
    destruct (Hoth _ Hfd) as (E1 & E2 & E3). split.
    + eapply phase_ok_ext; [..| exact Hp]; unfold view_at; cbn; rewrite ?Ed, ?E1, ?E2, ?E3; try reflexivity.
      * intros Hne0. destruct (data_ fe !! fd_of c0) as [d|] eqn:Ed0; [| reflexivity]. cbn.
        rewrite (Hkeep d (Open (fd_of c0))); [reflexivity | | congruence]. apply (own_of own fe calls answers t' q c0); assumption.
      * destruct (data_ fe !! fd_of c0) as [d|]; cbn; [| auto]. destruct (objects fe !! d) eqn:Eo; cbn; [| intros [? ?]; discriminate].
        intros _. assert (is_Some (objects fe' !! d)) as [o ->] by (apply Hdom; eauto). eauto.
      * destruct (decide (fd_of c0 = 0)); [| reflexivity]. apply Hsig. congruence.
      * destruct (decide (fd_of c0 = 0)); [| reflexivity]. apply Hsig. congruence.
    + unfold id_ok. unfold view_at. cbn. rewrite E2, Ed. exact Hok.
  - intros t1 t2 p1 p2 fd. rewrite Eth, !lookup_insert_Some. intros H1 H2 O1 O2.
    assert (∀ t0 q, (t = t0 ∧ p' = q) ∨ (t ≠ t0 ∧ threads fe !! t0 = Some q) → on q = Some fd → ∃ q0, threads fe !! t0 = Some q0 ∧ on q0 = Some fd) as Back.
    { intros t0 q [[<- <-] | [_ Hq]] O; [exists p; split; [exact Ht |]; unfold on in *; congruence | eauto]. }
    destruct (Back _ _ H1 O1) as (q1 & ? & ?), (Back _ _ H2 O2) as (q2 & ? & ?). exact (i_unique _ _ _ _ Hi t1 t2 q1 q2 fd ltac:(assumption) ltac:(assumption) ltac:(assumption) ltac:(assumption)).
  - intros t' c0. rewrite Eth, lookup_insert_Some. intros [[_ ->] | [_ Hq]]; [| exact (i_waiting _ _ _ _ Hi t' c0 Hq)].
    destruct c0; cbn in Hc'; try discriminate; injection Hc' as <-; exact Hwc.
  - intros r Hr. rewrite Hb. destruct (Hrec r Hr) as [-> | Hr']; [apply (busy_call fe t p c); assumption | exact (i_receiver _ _ _ _ Hi r Hr')].
  - exact Hids.
Qed.

(** A step that changes at most the object of the thread's own descriptor. *)
Lemma update_inv own fe calls calls' answers t p p' c d o o' :
  inv own fe calls answers → threads fe !! t = Some p → call_of p = Some c → call_of p' = Some c → is_erase p = false → is_erase p' = false →
  v_cell (view_at fe calls answers (fd_of c)) = Some (d, o) → (∀ fd, fd ≠ fd_of c → calls' !! fd = calls !! fd) →
  held_by p' = None → (id_pending p' = true → id_pending p = true) →
  (∀ v, v = view_at fe calls answers (fd_of c) →
     phase_ok p' {| v_cell := Some (d, o'); v_call := calls' !! fd_of c; v_answer := v_answer v; v_delivery := v_delivery v;
                    v_signal := v_signal v; v_mutex := v_mutex v |}) →
  inv own (at_phase t p' (with_objects <[d := o']> fe)) calls' answers.
Proof.
  intros Hi Ht Hc Hc' He He' Hcell Hcalls Hheld Hpend Hph.
  assert (data_ fe !! fd_of c = Some d ∧ objects fe !! d = Some o) as [Hd Ho].
  { cbn in Hcell. destruct (data_ fe !! fd_of c) as [d0|]; [| discriminate]. cbn in Hcell. destruct (objects fe !! d0) eqn:E; [| discriminate].
    cbn in Hcell. injection Hcell as -> ->. auto. }
  pose proof (i_thread _ _ _ _ Hi t p c Ht Hc) as (_ & _ & _ & Hok).
  apply (local_inv own fe _ calls calls' answers answers t p p' c Hi Ht Hc Hc' He He'); try reflexivity.
  - auto.
  - intros d' Hne. cbn. apply lookup_insert_ne. congruence.
  - intros d'. cbn. destruct (decide (d = d')) as [<- | Hne]; [rewrite lookup_insert_eq, Ho | rewrite lookup_insert_ne by exact Hne; reflexivity].
    split; eauto.
  - intros fd Hfd. auto.
  - auto.
  - auto.
  - apply (i_ids _ _ _ _ Hi).
  - rewrite Hheld. discriminate.
  - specialize (Hph _ eq_refl). unfold view_at in *. cbn in *. rewrite Hd. cbn. rewrite lookup_insert_eq. exact Hph.
  - intros r Hp. apply Hok, Hpend, Hp.
Qed.

Lemma with_objects_id d o fe : objects fe !! d = Some o → with_objects <[d := o]> fe = fe.
Proof. intros H. destruct fe. unfold with_objects. cbn in *. rewrite insert_id by exact H. reflexivity. Qed.

Lemma cell_object fe calls answers fd d o :
  v_cell (view_at fe calls answers fd) = Some (d, o) → data_ fe !! fd = Some d ∧ objects fe !! d = Some o.
Proof.
  cbn. destruct (data_ fe !! fd) as [d0|]; cbn; [| discriminate]. destruct (objects fe !! d0) eqn:E; cbn; [| discriminate].
  intros [= -> ->]. auto.
Qed.

(** A step that changes nothing but the thread's phase. *)
Lemma phase_inv own fe calls answers t p p' c d o :
  inv own fe calls answers → threads fe !! t = Some p → call_of p = Some c → call_of p' = Some c → is_erase p = false → is_erase p' = false →
  v_cell (view_at fe calls answers (fd_of c)) = Some (d, o) → held_by p' = None → (id_pending p' = true → id_pending p = true) →
  phase_ok p' (view_at fe calls answers (fd_of c)) → inv own (at_phase t p' fe) calls answers.
Proof.
  intros Hi Ht Hc Hc' He He' Hcell Hheld Hpend Hph. rewrite <- (with_objects_id d o fe) by apply (cell_object _ _ _ _ _ _ Hcell).
  apply (update_inv own fe calls calls answers t p p' c d o o); try assumption; [reflexivity |]. intros v ->. rewrite <- Hcell. exact Hph.
Qed.

Lemma sent_inv own m fe calls answers : inv own fe calls answers → inv own (send_to m fe) calls answers.
Proof. intros []; split; assumption. Qed.

Lemma written_ok c : well_called c → length_of c ≤ UNIX_SOCKET_MAX_BUFFER_SIZE.
Proof.
  intros [_ _ H]. unfold length_of, UNIX_SOCKET_MAX_BUFFER_SIZE, BUFFER_SIZE, sizeof_SocketMessage, sizeof_AddressMessage,
    sizeof_SockOptMessage, sizeof_ListenMessage, sizeof_AcceptMessage, sizeof_DataMessage, sizeof_FrontEndMessage in *. destruct c; lia.
Qed.

Lemma write_message_type c m : message_type (write_message file c m) = message_type_of c.
Proof. destruct c as [| | | | |? []|? ? ? []|? ? ? []|? [] ?|]; reflexivity. Qed.

(** A response that answers a call has a result. *)
Lemma answer_result c r : answer_of c r → ∃ x, result_of c r = Done x ∧ return_value x = res_return_value r.
Proof.
  intros (m & (old & ->) & [Ht Hl Hd Ho]). rewrite write_message_type in *. destruct c; cbn [result_of]; try (eexists; split; reflexivity).
  - specialize (Ho eq_refl). cbn in Ho. rewrite (proj2 (Z.leb_le _ _)) by exact Ho. eexists. split; reflexivity.
  - specialize (Hd eq_refl). assert (m_buffer_length (write_message file (RecvFrom fd n flags addr) old) = n) as Hn by (destruct addr; reflexivity).
    rewrite Hn in Hd. destruct (_ && _); [| eexists; split; reflexivity].
    rewrite !(proj2 (Z.leb_le _ _)) by apply Hd. eexists. split; reflexivity.
Qed.

Lemma thread_frame own (own' : gmap nat owner) fe fe' calls calls' answers answers' t p c :
  inv own fe calls answers → threads fe !! t = Some p → call_of p = Some c →
  (∀ d, own !! d = Some (Held t) → own' !! d = Some (Held t)) →
  (∀ d, own !! d = Some (Open (fd_of c)) → objects fe' !! d = objects fe !! d) → (∀ d, is_Some (objects fe !! d) → is_Some (objects fe' !! d)) →
  data_ fe' !! fd_of c = data_ fe !! fd_of c → calls' !! fd_of c = calls !! fd_of c → answers' !! fd_of c = answers !! fd_of c →
  delivery_at (fd_of c) (receiver fe') = delivery_at (fd_of c) (receiver fe) →
  (fd_of c = 0 → socket_signal_ fe' = socket_signal_ fe ∧ socket_mutex_ fe' = socket_mutex_ fe) →
  (∀ r, id_pending p = true → answers !! fd_of c = Some r → gives_id r → res_return_value r ≠ -1 → data_ fe !! res_return_value r = None →
     data_ fe' !! res_return_value r = None) →
  well_called c ∧ (∀ d, held_by p = Some d → own' !! d = Some (Held t)) ∧
  phase_ok p (view_at fe' calls' answers' (fd_of c)) ∧ id_ok fe' p (view_at fe' calls' answers' (fd_of c)).
Proof.
  intros Hi Ht Hc Hheld Hobj Hdom Ed E1 E2 E3 Hsig Hids. destruct (i_thread _ _ _ _ Hi t p c Ht Hc) as (Hw & Hh & Hp & Hok).
  split; [exact Hw |]. split; [auto |]. split.
  - eapply phase_ok_ext; [..| exact Hp]; unfold view_at; cbn; rewrite ?Ed, ?E1, ?E2, ?E3; try reflexivity.
    + intros Hne0. destruct (data_ fe !! fd_of c) as [d|] eqn:Ed0; [| reflexivity]. cbn.
      rewrite (Hobj d); [reflexivity |]. apply (own_of own fe calls answers t p c); assumption.
    + destruct (data_ fe !! fd_of c) as [d|]; cbn; [| auto]. destruct (objects fe !! d) eqn:Eo; cbn; [| intros [? ?]; discriminate].
      intros _. assert (is_Some (objects fe' !! d)) as [o ->] by eauto. eauto.
    + destruct (decide (fd_of c = 0)); [| reflexivity]. apply Hsig. assumption.
    + destruct (decide (fd_of c = 0)); [| reflexivity]. apply Hsig. assumption.
  - intros r Hpend Ha Hg. cbn in Ha. rewrite E2 in Ha. destruct (Hok r Hpend Ha Hg) as [? | [? Hn]]; [auto |]. destruct (decide (res_return_value r = -1)); [auto |].
    right. split; [assumption |]. apply Hids; assumption.
Qed.

(** Two threads are not on the same descriptor. *)
Lemma other_fd own fe calls answers t t' p p' c c' :
  inv own fe calls answers → threads fe !! t = Some p → threads fe !! t' = Some p' → call_of p = Some c → call_of p' = Some c' → t ≠ t' →
  fd_of c' ≠ fd_of c.
Proof.
  intros Hi Ht Ht' Hc Hc' Hne E. apply Hne. apply (i_unique _ _ _ _ Hi t t' p p' (fd_of c) Ht Ht'); [apply on_call, Hc |]. rewrite <- E. apply on_call, Hc'.
Qed.

(** An object that is free, or that a thread holds, is not one of a descriptor in use. *)
Lemma unheld own fe calls answers fd d :
  inv own fe calls answers → own !! d = Some (Open fd) → own !! d ≠ Some Pooled ∧ ∀ t, own !! d ≠ Some (Held t).
Proof. intros _ ->. split; [discriminate | intros t; discriminate]. Qed.

Lemma erasing_insert fe fe' t p p' fd :
  threads fe !! t = Some p → is_erase p' = false → threads fe' = <[t := p']> (threads fe) → erasing fe' fd → erasing fe fd.
Proof.
  intros Ht He E (t' & c & x & Hq & Hf). rewrite E in Hq. apply lookup_insert_Some in Hq as [[<- ->] | [_ Hq]]; [discriminate |].
  exists t', c, x. auto.
Qed.

Lemma erasing_busy fe fd : erasing fe fd → busy fe fd.
Proof. intros (t & c & x & Ht & <-). apply (busy_call fe t (CloseErase c x) c); [exact Ht | reflexivity]. Qed.

(** Whatever a thread other than a socket call is on is in the map. *)
Lemma busy_mapped own fe calls answers fd : inv own fe calls answers → busy fe fd → fd ≠ 0 → is_Some (data_ fe !! fd).
Proof.
  intros Hi (t & p & Ht & (c & Hc & <-)%on_inv) H0. destruct (i_thread _ _ _ _ Hi t p c Ht Hc) as ([_ Hw _] & _ & Hp & _).
  assert (is_socket c = false) as Hs by (destruct (is_socket c); [destruct H0; apply Hw; reflexivity | reflexivity]).
  assert (∀ d P, has d (view_at fe calls answers (fd_of c)) P → is_Some (data_ fe !! fd_of c)) as Hh.
  { intros d P (o & Hcell & _). destruct (cell_object _ _ _ _ _ _ Hcell). eauto. }
  destruct p as [c0| | | | | | | | | | | | | | | | | | |]; [destruct c0 | ..]; cbn in Hc; injection Hc as <- || discriminate Hc; cbn in Hp;
    repeat match goal with H : _ ∧ _ |- _ => destruct H | H : ∃ _, _ |- _ => destruct H end; eauto; try congruence.
  destruct (data_ fe !! fd_of c0); [eauto |]. cbn in *.
  match goal with H : is_Some None |- _ => destruct H as [? H]; discriminate H end.
Qed.

(** A step that moves one object to another owner. *)
Lemma owner_inv own (own' : gmap nat owner) fe fe' calls answers t p p' c :
  inv own fe calls answers → threads fe !! t = Some p → call_of p = Some c → call_of p' = Some c → threads fe' = <[t := p']> (threads fe) →
  objects fe' = objects fe → next fe' = next fe → size_ fe' = size_ fe → receiver fe' = receiver fe →
  socket_signal_ fe' = socket_signal_ fe → socket_mutex_ fe' = socket_mutex_ fe →
  (∀ d, is_Some (own' !! d) ↔ is_Some (own !! d)) →
  (NoDup (object_list_ fe') ∧ ∀ d, d ∈ object_list_ fe' ↔ own' !! d = Some Pooled) →
  (∀ d, own' !! d = Some Pooled ∨ (∃ t, own' !! d = Some (Held t)) → ∃ o, objects fe !! d = Some o ∧ resting o) →
  (∀ d fd, own' !! d = Some (Open fd) → data_ fe' !! fd = Some d ∧ fd ≠ -1) →
  (∀ fd d, data_ fe' !! fd = Some d → fd ≠ -1 → own' !! d = Some (Open fd) ∨ erasing fe' fd) →
  (∀ fd d, erasing fe' fd → own' !! d ≠ Some (Open fd)) →
  (∀ fd d, ¬ busy fe fd → fd ≠ -1 → data_ fe' !! fd = Some d → data_ fe !! fd = Some d ∨ ∃ o, objects fe !! d = Some o ∧ resting o) →
  (¬ busy fe 0 → data_ fe' !! 0 = data_ fe !! 0) →
  (∀ d t', t' ≠ t → own !! d = Some (Held t') → own' !! d = Some (Held t')) →
  (∀ fd, fd ≠ fd_of c → busy fe fd → data_ fe' !! fd = data_ fe !! fd) →
  (∀ fd r, fd ≠ fd_of c → answers !! fd = Some r → gives_id r → res_return_value r ≠ -1 → data_ fe !! res_return_value r = None →
     data_ fe' !! res_return_value r = None) →
  (∀ d, held_by p' = Some d → own' !! d = Some (Held t)) → phase_ok p' (view_at fe' calls answers (fd_of c)) →
  id_ok fe' p' (view_at fe' calls answers (fd_of c)) → inv own' fe' calls answers.
Proof.
  intros Hi Ht Hc Hc' Eth Eo En Es Er Esg Em Hdom Hpool Hfree Hopen Hdata Herase Hquiet Hzero Hheld Hsame Hids Hh Hph Hid.
  assert (∀ fd, busy fe' fd ↔ busy fe fd) as Hb by (intros fd; apply (busy_insert fe fe' t p p' c); assumption).
  destruct (i_thread _ _ _ _ Hi t p c Ht Hc) as (Hwc & _). split; try assumption.
  - intros d. rewrite Hdom, Eo. apply (i_own _ _ _ _ Hi).
  - rewrite Eo, En. apply (i_next _ _ _ _ Hi).
  - rewrite Es. apply (i_size _ _ _ _ Hi).
  - rewrite Eo. exact Hfree.
  - intros fd Hfd. rewrite Hb in Hfd. destruct (i_quiet _ _ _ _ Hi fd Hfd) as (? & ? & Hq). split; [assumption |]. split; [assumption |].
    intros Hne d Hd. rewrite Eo. destruct (Hquiet fd d Hfd Hne Hd) as [Hd' | ?]; [exact (Hq Hne d Hd') | assumption].
  - rewrite Hb, Esg, Em. intros H0. rewrite (Hzero H0). apply (i_zero _ _ _ _ Hi H0).
  - intros t' q c0. rewrite Eth, lookup_insert_Some. intros [[<- <-] | [Hne Hq]] Hc0.
    { assert (c0 = c) as -> by congruence. auto. }
    pose proof (other_fd own fe calls answers t t' p q c c0 Hi Ht Hq Hc Hc0 Hne) as Hfd.
    apply (thread_frame own own' fe fe' calls calls answers answers t' q c0 Hi Hq Hc0); try reflexivity; rewrite ?Eo, ?Er, ?Esg, ?Em; auto.
    + apply Hsame; [exact Hfd | apply (busy_call fe t' q c0); assumption].
    + intros r _. apply Hids, Hfd.
  - intros t1 t2 p1 p2 fd. rewrite Eth, !lookup_insert_Some. intros H1 H2 O1 O2.
    assert (∀ t0 q, (t = t0 ∧ p' = q) ∨ (t ≠ t0 ∧ threads fe !! t0 = Some q) → on q = Some fd → ∃ q0, threads fe !! t0 = Some q0 ∧ on q0 = Some fd) as Back.
    { intros t0 q [[<- <-] | [_ Hq]] O; [exists p; split; [exact Ht |]; unfold on in *; congruence | eauto]. }
    destruct (Back _ _ H1 O1) as (q1 & A1 & B1), (Back _ _ H2 O2) as (q2 & A2 & B2). exact (i_unique _ _ _ _ Hi t1 t2 q1 q2 fd A1 A2 B1 B2).
  - intros t' c0. rewrite Eth, lookup_insert_Some. intros [[_ ->] | [_ Hq]]; [| exact (i_waiting _ _ _ _ Hi t' c0 Hq)].
    destruct c0; cbn in Hc'; try discriminate; injection Hc' as <-; exact Hwc.
  - intros r. rewrite Er, Hb. apply (i_receiver _ _ _ _ Hi).
  - apply (i_ids _ _ _ _ Hi).
Qed.

(** Nothing of the shared state but the pool differs. *)
Definition same_but_pool (fe fe' : front_end) : Prop :=
  threads fe' = threads fe ∧ data_ fe' = data_ fe ∧ receiver fe' = receiver fe ∧ socket_signal_ fe' = socket_signal_ fe ∧
  socket_mutex_ fe' = socket_mutex_ fe ∧ sent fe' = sent fe.

Lemma free_insert (own : gmap nat owner) d0 x d :
  d0 ≠ d → <[d0 := x]> own !! d = Some Pooled ∨ (∃ t, <[d0 := x]> own !! d = Some (Held t)) → own !! d = Some Pooled ∨ ∃ t, own !! d = Some (Held t).
Proof. intros Hne. rewrite lookup_insert_ne by exact Hne. auto. Qed.

Lemma grow_inv num : ∀ own fe calls answers,
  inv own fe calls answers →
  ∃ own', inv own' (grow num fe) calls answers ∧ same_but_pool fe (grow num fe) ∧
    (length (object_list_ (grow num fe)) = length (object_list_ fe) + num)%nat.
Proof.
  induction num as [|num IH]; intros own fe calls answers Hi; cbn [grow]; [exists own; split; [exact Hi |]; split; [repeat split | lia] |].
  set (fe1 := {| objects := <[next fe := new_SocketData]> (objects fe) |}).
  assert (own !! next fe = None ∧ objects fe !! next fe = None) as [Hno Hno'].
  { assert (objects fe !! next fe = None) as Hn by (destruct (objects fe !! next fe) as [o|] eqn:E; [apply (i_next _ _ _ _ Hi) in E; lia | reflexivity]).
    split; [| exact Hn]. apply eq_None_not_Some. rewrite (i_own _ _ _ _ Hi), Hn. intros [? ?]. discriminate. }
  assert (∀ d x, own !! d = Some x → d ≠ next fe) as Hne by (intros d x Hd ->; congruence).
  assert (inv (<[next fe := Pooled]> own) fe1 calls answers) as Hi1.
  { split; try apply Hi.
    - intros d. cbn. rewrite !lookup_insert_is_Some. pose proof (i_own _ _ _ _ Hi d). tauto.
    - intros d o. cbn. rewrite lookup_insert_Some. intros [[<- _] | [_ E%(i_next _ _ _ _ Hi)]]; lia.
    - cbn. destruct (i_pool _ _ _ _ Hi) as [Hn Hp]. split.
      + apply NoDup_app. split; [exact Hn |]. split; [| apply NoDup_singleton]. intros d Hd%Hp ->%list_elem_of_singleton. congruence.
      + intros d. rewrite elem_of_app, list_elem_of_singleton, Hp, lookup_insert_Some. split; [intros [Hd | ->]; [right; split; [apply Hne in Hd; congruence | exact Hd] | auto] |].
        intros [[<- _] | [_ Hd]]; auto.
    - cbn. lia.
    - intros d Hd. cbn. destruct (decide (next fe = d)) as [<- | Hd']; [rewrite lookup_insert_eq; eexists; split; [reflexivity | split; reflexivity] |].
      rewrite lookup_insert_ne by exact Hd'. exact (i_free _ _ _ _ Hi d (free_insert own _ _ d Hd' Hd)).
    - intros d fd. cbn. rewrite lookup_insert_Some. intros [[_ ?] | [_ Hd]]; [discriminate | exact (i_open _ _ _ _ Hi d fd Hd)].
    - intros fd d Hd H1. cbn in Hd. destruct (i_data _ _ _ _ Hi fd d Hd H1) as [Ho | He]; [left | right; exact He].
      rewrite lookup_insert_ne; [exact Ho |]. apply Hne in Ho. congruence.
    - intros fd d He. rewrite lookup_insert_Some. intros [[_ ?] | [_ Hd]]; [discriminate | exact (i_erasing _ _ _ _ Hi fd d He Hd)].
    - intros fd Hb. destruct (i_quiet _ _ _ _ Hi fd Hb) as (? & ? & Hq). split; [assumption |]. split; [assumption |]. intros H1 d Hd. cbn.
      destruct (Hq H1 d Hd) as (o & Ho & Hr). exists o. split; [| exact Hr]. rewrite lookup_insert_ne; [exact Ho |]. congruence.
    - intros t p c Ht Hc. apply (thread_frame own _ fe fe1 calls calls answers answers t p c Hi Ht Hc); try reflexivity; auto.
      + intros d Hd. rewrite lookup_insert_ne; [exact Hd |]. apply Hne in Hd. congruence.
      + intros d Hd%Hne. cbn. rewrite lookup_insert_ne by congruence. reflexivity.
      + intros d [o Ho]. cbn. rewrite lookup_insert_ne by congruence. eauto. }
  destruct (IH _ fe1 calls answers Hi1) as (own' & H1 & H2 & H3). exists own'. split; [exact H1 |]. split; [exact H2 |]. rewrite H3. cbn. rewrite length_app. cbn. lia.
Qed.

Lemma get_inv own fe calls answers :
  inv own fe calls answers →
  ∃ d fe1 l own1, get fe = Done (d, with_pool l fe1) ∧ inv own1 fe1 calls answers ∧ same_but_pool fe fe1 ∧ object_list_ fe1 = d :: l.
Proof.
  intros Hi. unfold get. set (fe1 := match object_list_ fe with [] => _ | _ => fe end).
  assert (∃ own1, inv own1 fe1 calls answers ∧ same_but_pool fe fe1 ∧ object_list_ fe1 ≠ []) as (own1 & Hi1 & Hs & Hne).
  { subst fe1. destruct (object_list_ fe) as [|d l] eqn:E; [| exists own; split; [exact Hi |]; split; [repeat split | congruence]].
    destruct (grow_inv (size_ fe * 2 - size_ fe) own fe calls answers Hi) as (own1 & H1 & H2 & H3). exists own1. split; [exact H1 |]. split; [exact H2 |].
    intros H0. rewrite H0, E in H3. pose proof (i_size _ _ _ _ Hi). cbn in H3. lia. }
  clearbody fe1. destruct (object_list_ fe1) as [|d l] eqn:E; [contradiction |]. exists d, fe1, l, own1. auto.
Qed.

(** A thread takes an object from the pool. *)
Lemma hold_inv own fe calls answers t p p' c d l :
  inv own fe calls answers → threads fe !! t = Some p → call_of p = Some c → call_of p' = Some c → object_list_ fe = d :: l →
  is_erase p = false → is_erase p' = false →
  held_by p = None → held_by p' = Some d → (id_pending p' = true → id_pending p = true) → phase_ok p' (view_at fe calls answers (fd_of c)) →
  ∃ own', inv own' (at_phase t p' (with_pool l fe)) calls answers.
Proof.
  intros Hi Ht Hc Hc' Hl He He' Hh Hh' Hpend Hph. exists (<[d := Held t]> own). destruct (i_pool _ _ _ _ Hi) as [Hn Hp].
  assert (own !! d = Some Pooled) as Hd by (apply Hp; rewrite Hl; left).
  rewrite Hl in Hn. apply NoDup_cons in Hn as [Hdl Hn].
  apply (owner_inv own _ fe _ calls answers t p p' c Hi Ht Hc Hc'); try reflexivity; auto.
  - intros d'. rewrite lookup_insert_is_Some. destruct (decide (d = d')) as [<- |]; [rewrite Hd; split; eauto | tauto].
  - cbn. split; [exact Hn |]. intros d'. rewrite lookup_insert_Some. specialize (Hp d'). rewrite Hl, elem_of_cons in Hp. split.
    + intros H'. right. split; [intros <-; contradiction | apply Hp; auto].
    + intros [[_ ?] | [Hne H']]; [discriminate |]. apply Hp in H' as [-> | H']; [contradiction | exact H'].
  - intros d' Hd'. destruct (decide (d = d')) as [<- | Hne]; [apply (i_free _ _ _ _ Hi); auto |].
    exact (i_free _ _ _ _ Hi d' (free_insert own _ _ d' Hne Hd')).
  - intros d' fd. rewrite lookup_insert_Some. intros [[_ ?] | [_ H']]; [discriminate | exact (i_open _ _ _ _ Hi d' fd H')].
  - intros fd d' H' H1. cbn in H'. destruct (i_data _ _ _ _ Hi fd d' H' H1) as [Ho | (t' & c' & x & Hq & Hf)].
    + left. rewrite lookup_insert_ne; [exact Ho | congruence].
    + right. exists t', c', x. cbn. rewrite lookup_insert_ne; [auto |]. intros <-. rewrite Ht in Hq. injection Hq as ->. discriminate.
  - intros fd d' He0. rewrite lookup_insert_Some. intros [[_ ?] | [_ H']]; [discriminate |]. revert H'. apply (i_erasing _ _ _ _ Hi).
    exact (erasing_insert fe (at_phase t p' (with_pool l fe)) t p p' fd Ht He' eq_refl He0).
  - intros d' t' Hne H'. rewrite lookup_insert_ne; [exact H' | congruence].
  - intros d' H'. rewrite Hh' in H'. injection H' as <-. apply lookup_insert_eq.
  - intros r H1 H2 H3. destruct (i_thread _ _ _ _ Hi t p c Ht Hc) as (_ & _ & _ & Hok). apply Hok; auto.
Qed.

(** An object that a thread holds comes into the map under [n]. *)
Lemma place_inv own fe calls answers t p p' c d n :
  inv own fe calls answers → threads fe !! t = Some p → call_of p = Some c → call_of p' = Some c → held_by p = Some d → held_by p' = None →
  is_erase p = false → is_erase p' = false → (n = -1 ∨ data_ fe !! n = None ∧ (n = fd_of c ∨ ¬ busy fe n)) → (n = 0 → n = fd_of c) →
  (∀ fd r, fd ≠ fd_of c → answers !! fd = Some r → gives_id r → res_return_value r ≠ -1 → data_ fe !! res_return_value r = None → res_return_value r ≠ n) →
  (∀ o, objects fe !! d = Some o → resting o →
     phase_ok p' (view_at (at_phase t p' (with_data <[n := d]> fe)) calls answers (fd_of c))) →
  id_ok (at_phase t p' (with_data <[n := d]> fe)) p' (view_at (at_phase t p' (with_data <[n := d]> fe)) calls answers (fd_of c)) →
  ∃ own', inv own' (at_phase t p' (with_data <[n := d]> fe)) calls answers.
Proof.
  intros Hi Ht Hc Hc' Hh Hh' He He' Hn H0 Hids Hph Hid. exists (<[d := if decide (n = -1) then Lost else Open n]> own).
  destruct (i_thread _ _ _ _ Hi t p c Ht Hc) as (Hw & Hown & _). specialize (Hown d Hh).
  destruct (i_free _ _ _ _ Hi d) as (o & Ho & Hr); [eauto |].
  apply (owner_inv own _ fe _ calls answers t p p' c Hi Ht Hc Hc'); try reflexivity; auto.
  - intros d'. rewrite lookup_insert_is_Some. destruct (decide (d = d')) as [<- |]; [rewrite Hown; split; eauto | tauto].
  - cbn. destruct (i_pool _ _ _ _ Hi) as [Hnd Hp]. split; [exact Hnd |]. intros d'. rewrite Hp. destruct (decide (d = d')) as [<- | Hne].
    + rewrite lookup_insert_eq, Hown. destruct (decide (n = -1)); split; discriminate.
    + rewrite lookup_insert_ne by exact Hne. reflexivity.
  - intros d' Hd'. destruct (decide (d = d')) as [<- | Hne]; [eauto |]. exact (i_free _ _ _ _ Hi d' (free_insert own _ _ d' Hne Hd')).
  - intros d' fd. cbn. rewrite lookup_insert_Some. intros [[<- Hx] | [Hne H']].
    + destruct (decide (n = -1)); [discriminate |]. injection Hx as <-. rewrite lookup_insert_eq. auto.
    + destruct (i_open _ _ _ _ Hi d' fd H') as [H1 H2]. split; [| exact H2]. rewrite lookup_insert_ne; [exact H1 |].
      intros <-. destruct Hn as [? | [Hn _]]; congruence.
  - intros fd d' H' H1. cbn in H'. apply lookup_insert_Some in H' as [[<- <-] | [Hne H']].
    + left. rewrite lookup_insert_eq, decide_False by exact H1. reflexivity.
    + destruct (i_data _ _ _ _ Hi fd d' H' H1) as [Hop | (t' & c' & x & Hq & Hf)].
      * left. rewrite lookup_insert_ne; [exact Hop | congruence].
      * right. exists t', c', x. cbn. rewrite lookup_insert_ne; [auto |]. intros <-. rewrite Ht in Hq. injection Hq as ->. discriminate.
  - intros fd d' He0. assert (erasing fe fd) as He1 by exact (erasing_insert fe (at_phase t p' (with_data <[n := d]> fe)) t p p' fd Ht He' eq_refl He0).
    rewrite lookup_insert_Some. intros [[_ Hx] | [_ H']]; [| exact (i_erasing _ _ _ _ Hi fd d' He1 H')].
    destruct (decide (n = -1)) as [| Hn1]; [discriminate |]. injection Hx as <-. destruct Hn as [? | [Hn [Hf | Hb]]]; [contradiction | | exact (Hb (erasing_busy _ _ He1))].
    destruct He1 as (t' & c' & x & Hq & Hf'). destruct (i_thread _ _ _ _ Hi t' _ c' Hq eq_refl) as (_ & _ & (_ & _ & (cell & Hcell)) & _).
    destruct cell as [d1 o1]. apply cell_object in Hcell as [Hd1 _]. rewrite Hf' in Hd1. congruence.
  - intros fd d' Hb H1 H'. cbn in H'. apply lookup_insert_Some in H' as [[<- <-] | [_ H']]; [right; eauto | auto].
  - intros Hz. cbn. apply lookup_insert_ne. intros E. apply Hz. rewrite <- E. rewrite H0 by exact E. apply (busy_call fe t p c); assumption.
  - intros d' t' Hne H'. rewrite lookup_insert_ne; [exact H' | congruence].
  - intros fd Hne Hb. cbn. apply lookup_insert_ne. intros <-. destruct Hn as [-> | [_ [? | ?]]]; [| contradiction..].
    destruct Hb as (t' & q & Hq & (c' & Hc0 & Hf)%on_inv). destruct (i_thread _ _ _ _ Hi t' q c' Hq Hc0) as ([[_ Hw'] _ _] & _). contradiction.
  - intros fd r H1 H2 H3 H4 H5. cbn. rewrite lookup_insert_ne; [exact H5 |]. specialize (Hids fd r H1 H2 H3 H4 H5). congruence.
  - intros d' H'. rewrite Hh' in H'. discriminate.
  - apply (Hph o Ho Hr).
Qed.

(** The socket call takes its object out of the map. *)
Lemma unplace_inv own fe calls answers t c d x :
  inv own fe calls answers → threads fe !! t = Some (SocketErase c d x) →
  ∃ own', inv own' (at_phase t (SocketRename c d x) (with_data (delete 0) fe)) calls answers.
Proof.
  intros Hi Ht. exists (<[d := Held t]> own). destruct (i_thread _ _ _ _ Hi t _ c Ht eq_refl) as (Hw & _ & (Hs & (o & Hcell & Hr) & Hfin) & Hok).
  destruct (cell_object _ _ _ _ _ _ Hcell) as [Hd Ho]. assert (fd_of c = 0) as H0 by apply (wc_socket _ Hw), Hs.
  assert (own !! d = Some (Open 0)) as Hown by (rewrite <- H0; apply (own_of own fe calls answers t (SocketErase c d x) c d Hi Ht); auto).
  apply (owner_inv own _ fe _ calls answers t (SocketErase c d x) (SocketRename c d x) c Hi Ht); try reflexivity; auto.
  - intros d'. rewrite lookup_insert_is_Some. destruct (decide (d = d')) as [<- |]; [rewrite Hown; split; eauto | tauto].
  - cbn. destruct (i_pool _ _ _ _ Hi) as [Hnd Hp]. split; [exact Hnd |]. intros d'. rewrite Hp. destruct (decide (d = d')) as [<- | Hne].
    + rewrite lookup_insert_eq, Hown. split; discriminate.
    + rewrite lookup_insert_ne by exact Hne. reflexivity.
  - intros d' Hd'. destruct (decide (d = d')) as [<- | Hne]; [eauto |]. exact (i_free _ _ _ _ Hi d' (free_insert own _ _ d' Hne Hd')).
  - intros d' fd. cbn. rewrite lookup_insert_Some. intros [[_ ?] | [Hne H']]; [discriminate |].
    destruct (i_open _ _ _ _ Hi d' fd H') as [H1 H2]. split; [| exact H2]. rewrite lookup_delete_ne; [exact H1 |]. congruence.
  - intros fd d' H' H1. cbn in H'. apply lookup_delete_Some in H' as [Hne H']. destruct (i_data _ _ _ _ Hi fd d' H' H1) as [Hop | (t' & c' & x' & Hq & Hf)].
    + left. rewrite lookup_insert_ne; [exact Hop | congruence].
    + right. exists t', c', x'. cbn. rewrite lookup_insert_ne; [auto |]. intros <-. rewrite Ht in Hq. discriminate.
  - intros fd d' He0. rewrite lookup_insert_Some. intros [[_ ?] | [_ H']]; [discriminate |]. revert H'. apply (i_erasing _ _ _ _ Hi).
    exact (erasing_insert fe (at_phase t (SocketRename c d x) (with_data (delete 0) fe)) t (SocketErase c d x) (SocketRename c d x) fd Ht eq_refl eq_refl He0).
  - intros fd d' Hb H1 H'. cbn in H'. apply lookup_delete_Some in H' as [_ H']. auto.
  - intros Hz. exfalso. apply Hz. rewrite <- H0. apply (busy_call fe t (SocketErase c d x) c); [exact Ht | reflexivity].
  - intros d' t' Hne H'. rewrite lookup_insert_ne; [exact H' | congruence].
  - intros fd Hne Hb. cbn. apply lookup_delete_ne. congruence.
  - intros fd r H1 H2 H3 H4 H5. cbn. apply lookup_delete_None. auto.
  - intros d' [= <-]. apply lookup_insert_eq.
  - unfold view_at in *. cbn in *. rewrite H0, lookup_delete_eq in *. cbn. auto.
  - intros r H1 H2 H3. cbn in H2. destruct (Hok r eq_refl H2 H3) as [? | [? ?]]; [auto |]. right. split; [assumption |]. cbn. apply lookup_delete_None. auto.
Qed.

(** Closing gives the object back to the pool. *)
Lemma give_inv own fe calls answers t c d x :
  inv own fe calls answers → threads fe !! t = Some (CloseRelease c d x) →
  ∃ own', inv own' (at_phase t (CloseErase c x) (release d fe)) calls answers.
Proof.
  intros Hi Ht. exists (<[d := Pooled]> own). destruct (i_thread _ _ _ _ Hi t _ c Ht eq_refl) as (Hw & _ & (Hs & (o & Hcell & Hr) & Hfin) & Hok).
  destruct (cell_object _ _ _ _ _ _ Hcell) as [Hd Ho].
  assert (own !! d = Some (Open (fd_of c))) as Hown by (apply (own_of own fe calls answers t (CloseRelease c d x) c d Hi Ht); auto).
  apply (owner_inv own _ fe _ calls answers t (CloseRelease c d x) (CloseErase c x) c Hi Ht); try reflexivity; auto.
  - intros d'. rewrite lookup_insert_is_Some. destruct (decide (d = d')) as [<- |]; [rewrite Hown; split; eauto | tauto].
  - cbn. destruct (i_pool _ _ _ _ Hi) as [Hnd Hp]. split.
    + apply NoDup_app. split; [exact Hnd |]. split; [| apply NoDup_singleton]. intros d' Hd'%Hp ->%list_elem_of_singleton. congruence.
    + intros d'. rewrite elem_of_app, list_elem_of_singleton, Hp, lookup_insert_Some. destruct (decide (d = d')) as [<- | Hne]; [tauto |].
      split; [intros [? | ->]; [auto | contradiction] | intros [[? _] | [_ ?]]; auto; congruence].
  - intros d' Hd'. destruct (decide (d = d')) as [<- | Hne]; [eauto |]. exact (i_free _ _ _ _ Hi d' (free_insert own _ _ d' Hne Hd')).
  - intros d' fd. cbn. rewrite lookup_insert_Some. intros [[_ ?] | [Hne H']]; [discriminate | exact (i_open _ _ _ _ Hi d' fd H')].
  - intros fd d' H' H1. cbn in H'. destruct (i_data _ _ _ _ Hi fd d' H' H1) as [Hop | (t' & c' & x' & Hq & Hf)].
    + destruct (decide (d = d')) as [<- | Hne]; [| left; rewrite lookup_insert_ne by exact Hne; exact Hop].
      right. exists t, c, x. cbn. rewrite lookup_insert_eq. split; [reflexivity |]. congruence.
    + right. exists t', c', x'. cbn. rewrite lookup_insert_ne; [auto |]. intros <-. rewrite Ht in Hq. discriminate.
  - intros fd d' (t' & c' & x' & Hq & Hf). rewrite lookup_insert_Some. intros [[_ ?] | [Hne H']]; [discriminate |]. cbn in Hq.
    apply lookup_insert_Some in Hq as [[<- [= <- <-]] | [_ Hq]].
    + destruct (i_open _ _ _ _ Hi d' fd H') as [Hd' _]. congruence.
    + apply (i_erasing _ _ _ _ Hi fd d'); [exists t', c', x'; auto | exact H'].
  - intros d' t' Hne H'. rewrite lookup_insert_ne; [exact H' | congruence].
  - discriminate.
  - split; [exact Hs |]. split; [exact Hfin |]. unfold view_at in *. cbn in *. rewrite Hd. cbn. rewrite Ho. cbn. eauto.
Qed.

(** A call returns. *)
Lemma leave_inv own fe fe' calls answers t p c x :
  inv own fe calls answers → threads fe !! t = Some p → call_of p = Some c → threads fe' = <[t := Returned x]> (threads fe) →
  next fe' = next fe ∧ object_list_ fe' = object_list_ fe ∧ size_ fe' = size_ fe ∧ receiver fe' = receiver fe →
  (∀ d y, own !! d = Some y → y ≠ Open (fd_of c) → objects fe' !! d = objects fe !! d) → (∀ d, is_Some (objects fe' !! d) ↔ is_Some (objects fe !! d)) →
  (∀ fd, fd ≠ fd_of c → data_ fe' !! fd = data_ fe !! fd) →
  (data_ fe' !! fd_of c = data_ fe !! fd_of c ∧ is_erase p = false ∨ data_ fe' !! fd_of c = None ∧ ∀ d, own !! d ≠ Some (Open (fd_of c))) →
  (∀ d, data_ fe' !! fd_of c = Some d → ∃ o, objects fe' !! d = Some o ∧ resting o) →
  v_call (view_at fe calls answers (fd_of c)) = None → v_delivery (view_at fe calls answers (fd_of c)) = None →
  (fd_of c ≠ 0 → socket_signal_ fe' = socket_signal_ fe ∧ socket_mutex_ fe' = socket_mutex_ fe) →
  (fd_of c = 0 → data_ fe' !! 0 = None ∧ socket_signal_ fe' = 0%nat ∧ socket_mutex_ fe' = 1%nat) →
  inv own fe' calls (delete (fd_of c) answers).
Proof.
  intros Hi Ht Hc Eth (En & El & Es & Er) Hobj Hdom Hdata Hmine Hquiet Hcall Hdel Hsig Hzero.
  destruct (i_thread _ _ _ _ Hi t p c Ht Hc) as ([[_ Hw1] _ _] & _).
  assert (∀ t' q, threads fe' !! t' = Some q → call_of q ≠ None → t ≠ t' ∧ threads fe !! t' = Some q) as Hold.
  { intros t' q. rewrite Eth, lookup_insert_Some. intros [[_ <-] | [? ?]] Hq; [destruct Hq; reflexivity | auto]. }
  assert (∀ fd, busy fe' fd ↔ busy fe fd ∧ fd ≠ fd_of c) as Hb.
  { intros fd. split.
    - intros (t' & q & Hq & Hon). destruct (on_inv _ _ Hon) as (c' & Hc' & <-). destruct (Hold t' q Hq ltac:(congruence)) as [Hne Hq'].
      split; [exists t', q; auto |]. exact (other_fd own fe calls answers t t' p q c c' Hi Ht Hq' Hc Hc' Hne).
    - intros [(t' & q & Hq & Hon) Hne]. exists t', q. rewrite Eth, lookup_insert_ne; [auto |]. intros <-. unfold on in Hon. rewrite Ht in Hq.
      injection Hq as <-. rewrite Hc in Hon. cbn in Hon. congruence. }
  assert (∀ fd, erasing fe' fd → erasing fe fd) as Her by (intros fd He; exact (erasing_insert fe fe' t p (Returned x) fd Ht eq_refl Eth He)).
  split.
  - intros d. rewrite Hdom. apply (i_own _ _ _ _ Hi).
  - intros d o Ho. rewrite En. assert (is_Some (objects fe !! d)) as [o' Ho'] by (apply Hdom; eauto). exact (i_next _ _ _ _ Hi d o' Ho').
  - rewrite El. apply (i_pool _ _ _ _ Hi).
  - rewrite Es. apply (i_size _ _ _ _ Hi).
  - intros d Hd. assert (objects fe' !! d = objects fe !! d) as -> by (destruct Hd as [Hd | [t' Hd]]; apply (Hobj d _ Hd); discriminate).
    apply (i_free _ _ _ _ Hi), Hd.
  - intros d fd Hd. destruct (i_open _ _ _ _ Hi d fd Hd) as [H1 H2]. split; [| exact H2]. destruct (decide (fd = fd_of c)) as [-> | Hne]; [| rewrite Hdata; assumption].
    destruct Hmine as [[-> _] | [_ Hno]]; [exact H1 | destruct (Hno d Hd)].
  - intros fd d Hd H1. destruct (decide (fd = fd_of c)) as [-> | Hne].
    + destruct Hmine as [[Em He] | [Em _]]; [| congruence]. rewrite Em in Hd. left. exact (own_of own fe calls answers t p c d Hi Ht Hc He Hd).
    + rewrite Hdata in Hd by exact Hne. destruct (i_data _ _ _ _ Hi fd d Hd H1) as [Ho | (t' & c' & x' & Hq & Hf)]; [auto |].
      right. exists t', c', x'. rewrite Eth, lookup_insert_ne; [auto |]. intros <-. rewrite Ht in Hq. injection Hq as ->. cbn in Hc. congruence.
  - intros fd d He. apply (i_erasing _ _ _ _ Hi), Her, He.
  - intros fd. rewrite Hb. intros Hfd. destruct (decide (fd = fd_of c)) as [-> | Hne].
    + split; [exact Hcall |]. split; [apply lookup_delete_eq |]. intros _ d. apply Hquiet.
    + destruct (i_quiet _ _ _ _ Hi fd ltac:(tauto)) as (? & ? & Hq). rewrite lookup_delete_ne, Hdata by congruence. split; [assumption |]. split; [assumption |].
      intros H1 d Hd. destruct (i_data _ _ _ _ Hi fd d Hd H1) as [Ho | He]; [| destruct Hfd; split; [apply erasing_busy, He | exact Hne]].
      rewrite (Hobj d _ Ho) by congruence. apply (Hq H1 d Hd).
  - rewrite Hb. intros H0. destruct (decide (0 = fd_of c)) as [E | Hne]; [apply Hzero; congruence |].
    destruct (Hsig ltac:(congruence)) as [-> ->]. rewrite Hdata by exact Hne. apply (i_zero _ _ _ _ Hi). tauto.
  - intros t' q c' Hq Hc'. destruct (Hold t' q Hq ltac:(congruence)) as [Hne Hq']. pose proof (other_fd own fe calls answers t t' p q c c' Hi Ht Hq' Hc Hc' Hne) as Hfd.
    apply (thread_frame own own fe fe' calls calls answers _ t' q c' Hi Hq' Hc'); rewrite ?Er; auto.
    + intros d Hd. apply (Hobj d _ Hd). congruence.
    + intros d. apply Hdom.
    + apply lookup_delete_ne. congruence.
    + intros E. apply Hsig. congruence.
    + intros r _ _ _ _ Hn. destruct (decide (res_return_value r = fd_of c)) as [E | Hne']; [rewrite E in * | rewrite Hdata by exact Hne'; exact Hn].
      destruct Hmine as [[Em _] | [Em _]]; congruence.
  - intros t1 t2 p1 p2 fd H1 H2 O1 O2. destruct (on_inv _ _ O1) as (c1 & C1 & _), (on_inv _ _ O2) as (c2 & C2 & _).
    destruct (Hold t1 p1 H1 ltac:(congruence)) as [_ A1], (Hold t2 p2 H2 ltac:(congruence)) as [_ A2]. exact (i_unique _ _ _ _ Hi t1 t2 p1 p2 fd A1 A2 O1 O2).
  - intros t' c0. rewrite Eth, lookup_insert_Some. intros [[_ ?] | [_ Hq]]; [discriminate | exact (i_waiting _ _ _ _ Hi t' c0 Hq)].
  - intros r Hr. rewrite Er in Hr. apply Hb. split; [exact (i_receiver _ _ _ _ Hi r Hr) |]. intros E. cbn in Hdel. unfold delivery_at in Hdel.
    rewrite Hr in Hdel. cbn in Hdel. rewrite decide_True in Hdel by congruence. destruct (receiver fe); discriminate.
  - destruct (i_ids _ _ _ _ Hi) as [Hpos Hdist]. split.
    + intros fd r [_ H1]%lookup_delete_Some. exact (Hpos fd r H1).
    + intros fd fd' r r' [_ H1]%lookup_delete_Some [_ H2]%lookup_delete_Some. exact (Hdist fd fd' r r' H1 H2).
Qed.

Section Steps.
Context (own : gmap nat owner) (fe : front_end) (calls : gmap Z message) (answers : gmap Z response) (t : nat).
Context (Hi : inv own fe calls answers).

(** What a step of thread [t] in phase [p] has to do. *)
Definition steps (p : phase) : Prop :=
  ∃ o, step_thread t fe = Done o ∧
    match o with None => True | Some fe' => ∃ own', inv own' fe' (calls_after p fe calls) (answers_after p answers) end.

Lemma step_writing c d p p' :
  threads fe !! t = Some p → call_of p = Some c → call_of p' = Some c → is_erase p = false → is_erase p' = false → held_by p' = None →
  (id_pending p' = true → id_pending p = true) → has d (view_at fe calls answers (fd_of c)) resting →
  (∀ v o, v = view_at fe calls answers (fd_of c) → resting o → message_of c (send_payload_ o) →
     phase_ok p' {| v_cell := Some (d, o); v_call := v_call v; v_answer := v_answer v; v_delivery := v_delivery v; v_signal := v_signal v; v_mutex := v_mutex v |}) →
  ∃ fe', write_payload c d fe = Done fe' ∧ inv own (at_phase t p' fe') calls answers.
Proof.
  intros Ht Hc Hc' He He' Hh Hp (o & Hcell & Hr) Hph. destruct (cell_object _ _ _ _ _ _ Hcell) as [Hd Ho].
  pose proof (i_thread _ _ _ _ Hi t p c Ht Hc) as (Hw & _).
  unfold write_payload. rewrite Ho. cbn [deref mbind outcome_bind]. rewrite (proj2 (Z.leb_le _ _)) by (apply written_ok, Hw).
  eexists. split; [reflexivity |]. apply (update_inv own fe calls calls answers t p p' c d o); try assumption; [reflexivity |].
  intros v ->. exact (Hph (view_at fe calls answers (fd_of c)) (set_send_payload _ o) eq_refl Hr (ex_intro _ (send_payload_ o) eq_refl)).
Qed.

Lemma step_Writing c d : threads fe !! t = Some (Writing c d) → steps (Writing c d).
Proof.
  intros Ht. pose proof (i_thread _ _ _ _ Hi t _ c Ht eq_refl) as (Hw & _ & (Hs & Hu & Hd) & _).
  destruct (step_writing c d (Writing c d) (Sending c d)) as (fe' & E & Hi'); try reflexivity; auto.
  - intros v o -> Hr Hm. split; [exact Hs |]. split; [exact Hu |]. exists o. auto.
  - exists (Some (at_phase t (Sending c d) fe')). unfold step_thread. rewrite Ht, E. split; [reflexivity | eauto].
Qed.

Lemma step_SocketWriting c d : threads fe !! t = Some (SocketWriting c d) → steps (SocketWriting c d).
Proof.
  intros Ht. pose proof (i_thread _ _ _ _ Hi t _ c Ht eq_refl) as (Hw & _ & (Hs & Hu & Hd) & _).
  destruct (step_writing c d (SocketWriting c d) (SocketSending c d)) as (fe' & E & Hi'); try reflexivity; auto.
  - intros v o -> Hr Hm. split; [exact Hs |]. split; [exact Hu |]. exists o. auto.
  - exists (Some (at_phase t (SocketSending c d) fe')). unfold step_thread. rewrite Ht, E. split; [reflexivity | eauto].
Qed.

Lemma step_Sending c d : threads fe !! t = Some (Sending c d) → steps (Sending c d).
Proof.
  intros Ht. pose proof (i_thread _ _ _ _ Hi t _ c Ht eq_refl) as (Hw & _ & (Hs & Hu & o & Hcell & Hr & Hm) & _).
  destruct (cell_object _ _ _ _ _ _ Hcell) as [Hd Ho]. exists (Some (at_phase t (Waiting c d) (send_to (send_payload_ o) fe))).
  unfold step_thread, send_payload. rewrite Ht, Ho. split; [reflexivity |]. exists own. cbn [calls_after answers_after]. rewrite Ho.
  change (at_phase t (Waiting c d) (send_to (send_payload_ o) fe)) with (send_to (send_payload_ o) (at_phase t (Waiting c d) fe)).
  apply sent_inv. rewrite <- (with_objects_id d o fe) by exact Ho.
  apply (update_inv own fe calls _ answers t _ _ c d o o Hi Ht); try reflexivity; [exact Hcell | intros fd Hfd; apply lookup_insert_ne; congruence |].
  intros v ->. split; [exact Hs |]. exists o. split; [reflexivity |]. left. split; [| exact Hr]. destruct Hu as (_ & U2 & U3 & U4 & U5).
  split; [| repeat split; assumption]. exists (send_payload_ o). cbn. rewrite lookup_insert_eq. auto.
Qed.

Lemma step_SocketSending c d : threads fe !! t = Some (SocketSending c d) → steps (SocketSending c d).
Proof.
  intros Ht. pose proof (i_thread _ _ _ _ Hi t _ c Ht eq_refl) as (Hw & _ & (Hs & Hu & o & Hcell & Hr & Hm) & _).
  destruct (cell_object _ _ _ _ _ _ Hcell) as [Hd Ho]. exists (Some (at_phase t (SocketWaiting c) (send_to (send_payload_ o) fe))).
  unfold step_thread, send_payload. rewrite Ht, Ho. split; [reflexivity |]. exists own. cbn [calls_after answers_after]. rewrite Ho.
  change (at_phase t (SocketWaiting c) (send_to (send_payload_ o) fe)) with (send_to (send_payload_ o) (at_phase t (SocketWaiting c) fe)).
  apply sent_inv. rewrite <- (with_objects_id d o fe) by exact Ho.
  apply (update_inv own fe calls _ answers t _ _ c d o o Hi Ht); try reflexivity; [exact Hcell | intros fd Hfd; apply lookup_insert_ne; congruence |].
  intros v ->. split; [exact Hs |]. exists d, o. split; [reflexivity |]. split; [exact Hr |]. left. destruct Hu as (_ & U2 & U3 & U4 & U5).
  split; [| repeat split; assumption]. exists (send_payload_ o). cbn. rewrite lookup_insert_eq. auto.
Qed.

Lemma step_Waiting c d : threads fe !! t = Some (Waiting c d) → steps (Waiting c d).
Proof.
  intros Ht. pose proof (i_thread _ _ _ _ Hi t _ c Ht eq_refl) as (Hw & _ & (Hs & o & Hcell & Hst) & _).
  destruct (cell_object _ _ _ _ _ _ Hcell) as [Hd Ho]. unfold steps, step_thread. rewrite Ht, Ho. cbn [deref mbind outcome_bind].
  destruct (sem_ o) as [|n] eqn:En; [exists None; split; [reflexivity | exact I] |].
  assert (∃ r, answered c r (view_at fe calls answers (fd_of c)) ∧ v_signal (view_at fe calls answers (fd_of c)) = 0%nat ∧
    v_delivery (view_at fe calls answers (fd_of c)) = None ∧ n = 0%nat ∧ flag_ o = 0%nat ∧ receive_payload_ o = Some r) as (r & Ha & Hsg & Hdl & -> & Hf & Hp).
  { destruct Hst as [[_ [Hr _]] | (r & Ha & Hsg & Harr)]; [congruence |]. exists r. split; [exact Ha |]. split; [exact Hsg |]. unfold arrival in Harr.
    destruct (v_delivery _) as [[]|]; unfold resting, taken in Harr; try tauto; try (exfalso; intuition congruence). destruct Harr as (? & ? & ?). auto with lia. }
  eexists. split; [reflexivity |]. exists own. apply (update_inv own fe calls calls answers t (Waiting c d) (Reading c d) c d o); try reflexivity; try assumption.
  intros v ->. split; [exact Hs |]. eexists. split; [reflexivity |]. split; [split; [reflexivity | exact Hf] |]. exists r. split; [exact Hp |].
  split; [exact Ha |]. split; [exact Hdl | exact Hsg].
Qed.

Lemma step_Reading c d : threads fe !! t = Some (Reading c d) → steps (Reading c d).
Proof.
  intros Ht. pose proof (i_thread _ _ _ _ Hi t _ c Ht eq_refl) as (Hw & _ & (Hs & o & Hcell & Hk & r & Hp & Hdl) & _).
  destruct (cell_object _ _ _ _ _ _ Hcell) as [Hd Ho]. unfold steps, step_thread. rewrite Ht, Ho. cbn [deref mbind outcome_bind].
  rewrite Hp. cbn [deref mbind outcome_bind]. destruct (answer_result c r) as (x & Ex & _); [apply Hdl |]. rewrite Ex. cbn [mbind outcome_bind].
  assert (finished c x (view_at fe calls answers (fd_of c))) as Hfin by (exists r; auto).
  assert (∀ p', call_of p' = Some c → is_erase p' = false → held_by p' = None → phase_ok p' (view_at fe calls answers (fd_of c)) →
    ∃ own', inv own' (at_phase t p' fe) calls answers) as Go.
  { intros p' Hc' He' Hh' Hph. exists own. apply (phase_inv own fe calls answers t _ p' c d o Hi Ht); try assumption; auto. }
  assert (has d (view_at fe calls answers (fd_of c)) taken) as Hhas by (exists o; auto).
  destruct c; (eexists; split; [reflexivity |]; apply Go; try reflexivity; split; [reflexivity || exact Hs | auto]).
Qed.

Lemma step_SocketWaiting c : threads fe !! t = Some (SocketWaiting c) → steps (SocketWaiting c).
Proof.
  intros Ht. pose proof (i_thread _ _ _ _ Hi t _ c Ht eq_refl) as (Hw & _ & (Hs & d & o & Hcell & Hr & Hst) & Hok).
  destruct (cell_object _ _ _ _ _ _ Hcell) as [Hd Ho]. unfold steps, step_thread. rewrite Ht.
  assert (fd_of c = 0) as H0 by apply (wc_socket _ Hw), Hs.
  destruct (socket_signal_ fe) as [|n] eqn:En; [exists None; split; [reflexivity | exact I] |].
  assert (∃ r, answered c r (view_at fe calls answers (fd_of c)) ∧ v_delivery (view_at fe calls answers (fd_of c)) = None ∧ n = 0%nat ∧
    receive_payload_ o = Some r) as (r & (A1 & A2 & A3 & A4) & Hdl & -> & Hp).
  { assert (v_signal (view_at fe calls answers (fd_of c)) = S n) as Hv by (cbn; rewrite decide_True by exact H0; exact En).
    unfold sent_call, socket_arrival in Hst. destruct Hst as [(_ & _ & _ & Hz & _) | (r & Ha & Harr)]; [congruence |]. exists r. split; [exact Ha |].
    destruct (v_delivery _) as [[]|]; try (exfalso; intuition congruence). destruct Harr as [? ?]. split; [reflexivity |]. split; [lia | assumption]. }
  eexists. split; [reflexivity |]. exists own. cbn [calls_after answers_after].
  apply (local_inv own fe _ calls calls answers answers t _ (SocketGet c) c Hi Ht); try reflexivity; try (repeat split; fail).
  - congruence.
  - auto.
  - apply (i_ids _ _ _ _ Hi).
  - discriminate.
  - split; [exact Hs |]. exists d, o. split; [exact Hcell |]. split; [exact Hr |]. exists r. split; [exact Hp |].
    unfold view_at in *. cbn in *. rewrite !decide_True in * by exact H0. split; [| split; [exact Hdl | reflexivity]]. split; [exact A1 |]. auto.
  - exact Hok.
Qed.

Lemma step_SocketGet c : threads fe !! t = Some (SocketGet c) → steps (SocketGet c).
Proof.
  intros Ht. pose proof (i_thread _ _ _ _ Hi t _ c Ht eq_refl) as (Hw & _ & (Hs & d & o & Hcell & Hr & r & Hp & Hdl) & _).
  destruct (cell_object _ _ _ _ _ _ Hcell) as [Hd Ho]. assert (fd_of c = 0) as H0 by apply (wc_socket _ Hw), Hs. rewrite H0 in Hd.
  unfold steps, step_thread. rewrite Ht, Hd, Ho. cbn [deref mbind outcome_bind].
  rewrite Hp. cbn [deref mbind outcome_bind]. destruct (answer_result c r) as (x & Ex & _); [apply Hdl |]. rewrite Ex. cbn [mbind outcome_bind].
  eexists. split; [reflexivity |]. exists own. apply (phase_inv own fe calls answers t _ _ c d o Hi Ht); try reflexivity; [exact Hcell |].
  split; [exact Hs |]. split; [exists o; auto | exists r; auto].
Qed.

Lemma step_AcceptPool c d x : threads fe !! t = Some (AcceptPool c d x) → steps (AcceptPool c d x).
Proof.
  intros Ht. destruct (get_inv own fe calls answers Hi) as (new & fe1 & l & own1 & E & Hi1 & (E1 & E2 & E3 & E4 & E5 & E6) & El).
  unfold steps, step_thread. rewrite Ht, E. cbn [mbind outcome_bind]. eexists. split; [reflexivity |]. rewrite <- E1 in Ht.
  destruct (i_thread _ _ _ _ Hi1 t _ c Ht eq_refl) as (Hw & _ & Hp & _).
  apply (hold_inv own1 fe1 calls answers t _ (AcceptPut c d new x) c new l Hi1 Ht); try reflexivity; [exact El | exact Hp].
Qed.

Lemma step_SocketPool c : threads fe !! t = Some (SocketPool c) → steps (SocketPool c).
Proof.
  intros Ht. destruct (get_inv own fe calls answers Hi) as (new & fe1 & l & own1 & E & Hi1 & (E1 & E2 & E3 & E4 & E5 & E6) & El).
  unfold steps, step_thread. rewrite Ht, E. cbn [mbind outcome_bind]. eexists. split; [reflexivity |]. rewrite <- E1 in Ht.
  destruct (i_thread _ _ _ _ Hi1 t _ c Ht eq_refl) as (Hw & _ & Hp & _).
  apply (hold_inv own1 fe1 calls answers t _ (SocketPut c new) c new l Hi1 Ht); try reflexivity; [exact El | exact Hp].
Qed.

(** The descriptor a call got can be put into the map. *)
Lemma new_descriptor p c r :
  threads fe !! t = Some p → call_of p = Some c → id_pending p = true → gives_id r → answers !! fd_of c = Some r →
  let n := res_return_value r in
  (n = -1 ∨ data_ fe !! n = None ∧ (n = fd_of c ∨ ¬ busy fe n)) ∧ n ≠ 0 ∧
  (∀ fd r', fd ≠ fd_of c → answers !! fd = Some r' → gives_id r' → res_return_value r' ≠ -1 → data_ fe !! res_return_value r' = None → res_return_value r' ≠ n).
Proof.
  intros Ht Hc Hp Hg Ha n. destruct (i_thread _ _ _ _ Hi t p c Ht Hc) as (_ & _ & _ & Hok).
  destruct (Hok r Hp Ha Hg) as [Hn | [Hn Hd]]; subst n.
  - rewrite Hn. split; [auto |]. split; [discriminate |]. auto.
  - split; [right; split; [exact Hd |]; right; intros Hb; destruct (busy_mapped own fe calls answers _ Hi Hb ltac:(lia)) as [? ?]; congruence |].
    split; [lia |]. intros fd r' Hfd Ha' Hg' H1 _ E. apply H1. exact (ids_distinct _ (i_ids _ _ _ _ Hi) fd (fd_of c) r' r Ha' Ha Hg' Hg Hfd E).
Qed.

Lemma finished_value c x v : finished c x v → ∃ r, v_answer v = Some r ∧ return_value x = res_return_value r ∧ res_message_type r = message_type_of c.
Proof.
  intros (r & ((_ & Ha & Hans & _) & _) & Ex). destruct (answer_result c r Hans) as (x' & Ex' & Hv). rewrite Ex in Ex'. injection Ex' as <-.
  exists r. split; [exact Ha |]. split; [exact Hv |]. destruct Hans as (m & (old & ->) & Hf). rewrite (fit_type _ _ Hf). apply write_message_type.
Qed.

Lemma step_AcceptPut c d new x : threads fe !! t = Some (AcceptPut c d new x) → steps (AcceptPut c d new x).
Proof.
  intros Ht. destruct (i_thread _ _ _ _ Hi t _ c Ht eq_refl) as (Hw & Hh & (Hs & (o & Hcell & Hk) & Hfin) & Hok).
  destruct (finished_value c x _ Hfin) as (r & Ha & Hv & Hty). destruct (cell_object _ _ _ _ _ _ Hcell) as [Hd Ho].
  destruct (new_descriptor _ c r Ht eq_refl eq_refl ltac:(right; congruence) Ha) as (Hn & H0 & Hids). rewrite <- Hv in Hn, H0, Hids.
  unfold steps, step_thread. rewrite Ht. eexists. split; [reflexivity |].
  apply (place_inv own fe calls answers t _ (Posting c d x) c new _ Hi Ht); try reflexivity; try assumption; [congruence | |].
  - intros _ _ _. assert (is_socket c = false) as Hns by (destruct c; [discriminate | reflexivity..]).
    assert (return_value x ≠ fd_of c) as Hne by (destruct Hn as [-> | [Hn _]]; [intros E; destruct (wc_fd _ Hw); congruence | congruence]).
    unfold view_at in *. cbn in *. rewrite lookup_insert_ne by exact Hne. split; [exact Hns |]. split; [exists o; auto | exact Hfin].
  - intros r' [=].
Qed.

Lemma step_SocketPut c d : threads fe !! t = Some (SocketPut c d) → steps (SocketPut c d).
Proof.
  intros Ht. destruct (i_thread _ _ _ _ Hi t _ c Ht eq_refl) as (Hw & Hh & (Hs & Hu & Hcell) & Hok). assert (fd_of c = 0) as H0 by apply (wc_socket _ Hw), Hs.
  assert (data_ fe !! 0 = None) as Hn.
  { destruct (data_ fe !! 0) as [d'|] eqn:E; [| reflexivity]. rewrite <- H0 in E.
    pose proof (own_of own fe calls answers t (SocketPut c d) c d' Hi Ht eq_refl eq_refl E) as Ho.
    assert (is_Some (objects fe !! d')) as [o Hobj] by (apply (i_own _ _ _ _ Hi); eauto). cbn in Hcell. rewrite E in Hcell. cbn in Hcell. rewrite Hobj in Hcell. discriminate. }
  unfold steps, step_thread. rewrite Ht. eexists. split; [reflexivity |].
  apply (place_inv own fe calls answers t _ (SocketWriting c d) c d 0 Hi Ht); try reflexivity; auto.
  - intros fd r _ Ha Hg H1 _. destruct (ids_positive _ (i_ids _ _ _ _ Hi) fd r Ha Hg); [contradiction | lia].
  - intros o Ho Hr. split; [exact Hs |]. split; [exact Hu |]. exists o. split; [| exact Hr]. cbn. rewrite H0, lookup_insert_eq. cbn. rewrite Ho. reflexivity.
  - intros r _ Ha Hg. destruct (Hok r eq_refl Ha Hg) as [? | [? ?]]; [auto |]. right. split; [assumption |]. cbn. rewrite lookup_insert_ne by lia. assumption.
Qed.

Lemma step_SocketErase c d x : threads fe !! t = Some (SocketErase c d x) → steps (SocketErase c d x).
Proof.
  intros Ht. unfold steps, step_thread. rewrite Ht. eexists. split; [reflexivity |]. exact (unplace_inv own fe calls answers t c d x Hi Ht).
Qed.

Lemma step_CloseRelease c d x : threads fe !! t = Some (CloseRelease c d x) → steps (CloseRelease c d x).
Proof.
  intros Ht. unfold steps, step_thread. rewrite Ht. eexists. split; [reflexivity |]. exact (give_inv own fe calls answers t c d x Hi Ht).
Qed.

Lemma step_SocketRename c d x : threads fe !! t = Some (SocketRename c d x) → steps (SocketRename c d x).
Proof.
  intros Ht. destruct (i_thread _ _ _ _ Hi t _ c Ht eq_refl) as (Hw & Hh & (Hs & Hcell & Hfin) & Hok).
  destruct (finished_value c x _ Hfin) as (r & Ha & Hv & Hty). assert (fd_of c = 0) as Hz by apply (wc_socket _ Hw), Hs.
  assert (gives_id r) as Hg by (left; destruct c; try discriminate Hs; exact Hty).
  destruct (new_descriptor _ c r Ht eq_refl eq_refl Hg Ha) as (Hn & H0 & Hids). rewrite <- Hv in Hn, H0, Hids.
  unfold steps, step_thread. rewrite Ht. eexists. split; [reflexivity |].
  apply (place_inv own fe calls answers t _ (SocketUnlock c x) c d _ Hi Ht); try reflexivity; try assumption; [contradiction | |].
  - intros _ _ _. assert (return_value x ≠ fd_of c) as Hne by congruence.
    unfold view_at in *. cbn in *. rewrite lookup_insert_ne by exact Hne. auto.
  - intros r' [=].
Qed.

Lemma step_SocketUnlock c x : threads fe !! t = Some (SocketUnlock c x) → steps (SocketUnlock c x).
Proof.
  intros Ht. destruct (i_thread _ _ _ _ Hi t _ c Ht eq_refl) as (Hw & Hh & (Hs & Hcell & r & ((A1 & A2 & A3 & A4) & D1 & D2) & Er) & Hok).
  assert (fd_of c = 0) as Hz by apply (wc_socket _ Hw), Hs.
  assert (data_ fe !! 0 = None) as Hn.
  { destruct (data_ fe !! 0) as [d'|] eqn:E; [| reflexivity]. rewrite <- Hz in E.
    pose proof (own_of own fe calls answers t (SocketUnlock c x) c d' Hi Ht eq_refl eq_refl E) as Ho.
    assert (is_Some (objects fe !! d')) as [o Hobj] by (apply (i_own _ _ _ _ Hi); eauto). cbn in Hcell. rewrite E in Hcell. cbn in Hcell. rewrite Hobj in Hcell. discriminate. }
  unfold steps, step_thread. rewrite Ht. eexists. split; [reflexivity |]. exists own. cbn [calls_after answers_after].
  apply (leave_inv own fe _ calls answers t _ c x Hi Ht); try reflexivity; auto.
  - cbn. rewrite Hz, Hn. discriminate.
  - intros H0. contradiction.
  - intros _. cbn in *. rewrite !decide_True in * by exact Hz. split; [exact Hn |]. split; [exact D2 |]. rewrite A4. reflexivity.
Qed.

Lemma step_CloseErase c x : threads fe !! t = Some (CloseErase c x) → steps (CloseErase c x).
Proof.
  intros Ht. destruct (i_thread _ _ _ _ Hi t _ c Ht eq_refl) as (Hw & Hh & (Hs & (r & ((A1 & A2 & A3 & A4) & D1 & D2) & Er) & Hcell) & Hok).
  assert (fd_of c ≠ 0) as Hz by (intros E; apply (wc_socket _ Hw) in E; destruct c; discriminate).
  unfold steps, step_thread. rewrite Ht. eexists. split; [reflexivity |]. exists own. cbn [calls_after answers_after].
  apply (leave_inv own fe _ calls answers t _ c x Hi Ht); try reflexivity; auto.
  - intros fd Hne. apply lookup_delete_ne. congruence.
  - right. split; [apply lookup_delete_eq |]. intros d. apply (i_erasing _ _ _ _ Hi). exists t, c, x. auto.
  - intros d. cbn. rewrite lookup_delete_eq. discriminate.
  - contradiction.
Qed.

Lemma step_Posting c d x : threads fe !! t = Some (Posting c d x) → steps (Posting c d x).
Proof.
  intros Ht. destruct (i_thread _ _ _ _ Hi t _ c Ht eq_refl) as (Hw & Hh & (Hs & (o & Hcell & [K1 K2]) & Hfin) & Hok).
  pose proof Hfin as (r & ((A1 & A2 & A3 & A4) & D1 & D2) & Er). destruct (cell_object _ _ _ _ _ _ Hcell) as [Hd Ho].
  assert (fd_of c ≠ 0) as Hz by (intros E; apply (wc_socket _ Hw) in E; congruence).
  assert (own !! d = Some (Open (fd_of c))) as Hown by exact (own_of own fe calls answers t (Posting c d x) c d Hi Ht eq_refl eq_refl Hd).
  set (o' := set_flag (S (flag_ o)) o). assert (resting o') as Hr by (split; [exact K1 | cbn; rewrite K2; reflexivity]).
  assert (message_type_of c ≠ WIFU_CLOSE → ∃ own', inv own' (at_phase t (Returned x) (with_objects <[d := o']> fe)) calls (delete (fd_of c) answers)) as Ret.
  { intros _. exists own. apply (leave_inv own fe _ calls answers t _ c x Hi Ht); try reflexivity; auto.
      - intros d' y Hy Hne. cbn. apply lookup_insert_ne. congruence.
    - intros d'. cbn. rewrite lookup_insert_is_Some. destruct (decide (d = d')) as [<- |]; [rewrite Ho; split; eauto | tauto].
    - intros d' Hd'. assert (d' = d) as -> by (cbn in Hd'; congruence). cbn. rewrite lookup_insert_eq. eauto.
    - contradiction. }
  unfold steps, step_thread. rewrite Ht, Ho. cbn [deref mbind outcome_bind]. fold o'.
  destruct c; try (eexists; split; [reflexivity |]; apply Ret; discriminate).
  eexists. split; [reflexivity |]. exists own. cbn [calls_after answers_after].
  apply (update_inv own fe calls calls answers t (Posting (Close fd) d x) (CloseRelease (Close fd) d x) (Close fd) d o o' Hi Ht); try reflexivity; [exact Hcell | discriminate |].
  intros v ->. split; [reflexivity |]. split; [exists o'; auto |]. exists r. exact (conj (conj (conj A1 (conj A2 (conj A3 A4))) (conj D1 D2)) Er).
Qed.

Lemma step_Entered_socket domain type protocol (c := Socket domain type protocol) : threads fe !! t = Some (Entered c) → steps (Entered c).
Proof.
  intros Ht. pose proof (i_waiting _ _ _ _ Hi t c Ht) as Hw. unfold steps, step_thread. rewrite Ht. cbn [c].
  destruct (socket_mutex_ fe) as [|n] eqn:Em; [exists None; auto |]. eexists. split; [reflexivity |]. exists own.
  assert (¬ busy fe 0) as Hb.
  { intros (t' & q & Hq & (c' & Hc' & Hf)%on_inv). destruct (i_thread _ _ _ _ Hi t' q c' Hq Hc') as ([_ Hw' _] & _ & Hp & _).
    assert (is_socket c' = true) as Hs by (apply Hw'; exact Hf).
    assert (v_mutex (view_at fe calls answers (fd_of c')) = 0%nat) as Hm.
    { destruct q as [c0| | | | | | | | | | | | | | | | | | |]; [destruct c0 | ..]; cbn [call_of] in Hc'; injection Hc' as <- || discriminate Hc'; cbn [phase_ok] in Hp;
        unfold has, unsent, finished, delivered, answered, sent_call in Hp;
        repeat match goal with H : _ ∧ _ |- _ => destruct H | H : ∃ _, _ |- _ => destruct H | H : _ ∨ _ |- _ => destruct H end;
        try assumption; try congruence; destruct c'; discriminate. }
    cbn in Hm. rewrite decide_True in Hm by exact Hf. congruence. }
  destruct (i_zero _ _ _ _ Hi Hb) as (Hd0 & Hsg & Hmx). assert (n = 0%nat) as -> by congruence. destruct (i_quiet _ _ _ _ Hi 0 Hb) as (Q1 & Q2 & _).
  set (fe' := at_phase t (SocketPool c) (with_socket (socket_signal_ fe) 0 fe)).
  assert (∀ fd, busy fe' fd ↔ busy fe fd ∨ fd = 0) as Hbusy.
  { intros fd. split.
    - intros (t' & q & Hq & Hon). cbn in Hq. apply lookup_insert_Some in Hq as [[<- <-] | [_ Hq]]; [injection Hon as <-; auto | left; exists t', q; auto].
    - intros [(t' & q & Hq & Hon) | ->]; [| exists t, (SocketPool c); cbn; rewrite lookup_insert_eq; auto]. exists t', q. cbn.
      rewrite lookup_insert_ne; [auto |]. intros <-. rewrite Ht in Hq. injection Hq as <-. discriminate. }
  assert (∀ fd, erasing fe' fd ↔ erasing fe fd) as Her.
  { intros fd. split; intros (t' & c' & x & Hq & Hf); exists t', c', x; (split; [| exact Hf]); cbn in *.
    - apply lookup_insert_Some in Hq as [[_ ?] | [_ Hq]]; [discriminate | exact Hq].
    - rewrite lookup_insert_ne; [exact Hq |]. intros <-. rewrite Ht in Hq. discriminate. }
  split; try apply Hi.
  - intros fd d Hd H1. rewrite Her. exact (i_data _ _ _ _ Hi fd d Hd H1).
  - intros fd d He. apply (i_erasing _ _ _ _ Hi), Her, He.
  - intros fd Hfd. rewrite Hbusy in Hfd. apply (i_quiet _ _ _ _ Hi). tauto.
  - rewrite Hbusy. tauto.
  - intros t' q c' Hq Hc'. cbn in Hq. apply lookup_insert_Some in Hq as [[<- <-] | [Hne Hq]].
    + injection Hc' as <-. split; [exact Hw |]. split; [discriminate |]. split; [| intros r _ Ha; cbn in Ha; congruence].
      assert (delivery_at 0 (receiver fe) = None) as Hdl.
      { unfold delivery_at. destruct (delivering (receiver fe)) as [r|] eqn:E; [| rewrite decide_False by discriminate; reflexivity].
        rewrite decide_False; [reflexivity |]. cbn. intros [= E0]. apply Hb. rewrite <- E0. exact (i_receiver _ _ _ _ Hi r E). }
      split; [reflexivity |]. cbn. rewrite Hd0. split; [| reflexivity]. repeat split; assumption.
    + assert (fd_of c' ≠ 0) as Hf by (intros E; apply Hb; rewrite <- E; apply (busy_call fe t' q c'); assumption).
      apply (thread_frame own own fe fe' calls calls answers answers t' q c' Hi Hq Hc'); try reflexivity; auto. intros E. contradiction.
  - intros t1 t2 p1 p2 fd H1 H2 O1 O2. cbn in H1, H2. apply lookup_insert_Some in H1 as [[<- <-] | [_ H1]]; apply lookup_insert_Some in H2 as [[<- <-] | [_ H2]].
    + reflexivity.
    + injection O1 as <-. destruct Hb. exists t2, p2. auto.
    + injection O2 as <-. destruct Hb. exists t1, p1. auto.
    + exact (i_unique _ _ _ _ Hi t1 t2 p1 p2 fd H1 H2 O1 O2).
  - intros t' c0. cbn. rewrite lookup_insert_Some. intros [[_ ?] | [_ Hq]]; [discriminate | exact (i_waiting _ _ _ _ Hi t' c0 Hq)].
  - intros r Hr. apply Hbusy. left. exact (i_receiver _ _ _ _ Hi r Hr).
Qed.

(** A valid call on an open descriptor passes the checks of its method. *)
Lemma enter_eq c :
  is_socket c = false → threads fe !! t = Some (Entered c) →
  ∃ d o, v_cell (view_at fe calls answers (fd_of c)) = Some (d, o) ∧ resting o ∧ unsent (view_at fe calls answers (fd_of c)) ∧
    step_thread t fe = Done (Some (at_phase t (Writing c d) fe)).
Proof.
  intros Hns Ht. assert (call_of (Entered c) = Some c) as Hc by (destruct c; [discriminate | reflexivity..]).
  destruct (i_thread _ _ _ _ Hi t _ c Ht Hc) as ([Hw1 Hw2 Hargs] & _ & (_ & Hu & d & o & Hcell & Hr) & _). destruct (cell_object _ _ _ _ _ _ Hcell) as [Hd Ho].
  exists d, o. split; [exact Hcell |]. split; [exact Hr |]. split; [exact Hu |].
  assert (enter t c fe = Done (at_phase t (Writing c d) fe)) as E.
  { unfold enter. rewrite Hd. cbn [deref mbind outcome_bind]. destruct c; try reflexivity; cbn beta iota in Hargs.
    - subst. reflexivity.
    - rewrite (proj2 (Z.ltb_lt _ _)) by exact Hargs. reflexivity.
    - destruct Hargs as [[a ->] ->]. reflexivity. }
  unfold step_thread. rewrite Ht, E. destruct c; [discriminate | reflexivity..].
Qed.

Lemma step_Entered c : is_socket c = false → threads fe !! t = Some (Entered c) → steps (Entered c).
Proof.
  intros Hns Ht. destruct (enter_eq c Hns Ht) as (d & o & Hcell & Hr & Hu & E). assert (call_of (Entered c) = Some c) as Hc by (destruct c; [discriminate | reflexivity..]).
  exists (Some (at_phase t (Writing c d) fe)). split; [exact E |]. exists own.
  apply (phase_inv own fe calls answers t (Entered c) (Writing c d) c d o Hi Ht Hc); try reflexivity; [exact Hcell |].
  split; [exact Hns |]. split; [exact Hu |]. exists o. auto.
Qed.

(** Every step of a thread is defined and keeps the invariant. *)
Lemma step_spec p : threads fe !! t = Some p → steps p.
Proof.
  destruct p; intros Ht.
  - destruct (is_socket c) eqn:E; [destruct c; try discriminate E; apply step_Entered_socket, Ht | apply step_Entered; assumption].
  - apply step_Writing, Ht.
  - apply step_Sending, Ht.
  - apply step_Waiting, Ht.
  - apply step_Reading, Ht.
  - apply step_AcceptPool, Ht.
  - apply step_AcceptPut, Ht.
  - apply step_Posting, Ht.
  - apply step_CloseRelease, Ht.
  - apply step_CloseErase, Ht.
  - apply step_SocketPool, Ht.
  - apply step_SocketPut, Ht.
  - apply step_SocketWriting, Ht.
  - apply step_SocketSending, Ht.
  - apply step_SocketWaiting, Ht.
  - apply step_SocketGet, Ht.
  - apply step_SocketErase, Ht.
  - apply step_SocketRename, Ht.
  - apply step_SocketUnlock, Ht.
  - exists None. unfold step_thread. rewrite Ht. auto.
Qed.

End Steps.

(** *** The receiving thread *)

(** While it delivers a response, the thread of the call waits. *)
Lemma delivering_waits own fe calls answers r :
  inv own fe calls answers → delivering (receiver fe) = Some r →
  ∃ t p c d o, threads fe !! t = Some p ∧ call_of p = Some c ∧ fd_of c = res_fd r ∧ is_erase p = false ∧ held_by p = None ∧ id_pending p = true ∧
    v_cell (view_at fe calls answers (fd_of c)) = Some (d, o) ∧ v_delivery (view_at fe calls answers (fd_of c)) = Some (receiver fe) ∧
    well_called c ∧ ((is_socket c = false ∧ p = Waiting c d ∧ v_signal (view_at fe calls answers (fd_of c)) = 0%nat ∧
        ∃ r', answered c r' (view_at fe calls answers (fd_of c)) ∧ arrival d o r' (view_at fe calls answers (fd_of c))) ∨
      (is_socket c = true ∧ p = SocketWaiting c ∧ resting o ∧
        ∃ r', answered c r' (view_at fe calls answers (fd_of c)) ∧ socket_arrival d o r' (view_at fe calls answers (fd_of c)))).
Proof.
  intros Hi Hr. destruct (i_receiver _ _ _ _ Hi r Hr) as (t & p & Ht & (c & Hc & Hf)%on_inv).
  destruct (i_thread _ _ _ _ Hi t p c Ht Hc) as (Hw & _ & Hp & _).
  assert (v_delivery (view_at fe calls answers (fd_of c)) = Some (receiver fe)) as Hdl.
  { cbn. unfold delivery_at. rewrite Hr. cbn. rewrite decide_True by congruence. reflexivity. }
  exists t, p, c. destruct p as [c0| | | | | | | | | | | | | | | | | | |]; [destruct c0 | ..]; cbn [call_of] in Hc; injection Hc as <- || discriminate Hc; cbn [phase_ok] in Hp;
    unfold has, unsent, finished, delivered, sent_call in Hp;
    repeat match goal with H : _ ∧ _ |- _ => destruct H | H : ∃ _, _ |- _ => destruct H | H : _ ∨ _ |- _ => destruct H end;
    try (exfalso; congruence).
  - do 2 eexists. do 6 (split; [eassumption || reflexivity |]). split; [eassumption |]. split; [exact Hdl |]. split; [exact Hw |]. left. eauto 10.
  - do 2 eexists. do 6 (split; [eassumption || reflexivity |]). split; [eassumption |]. split; [exact Hdl |]. split; [exact Hw |]. right. eauto 10.
Qed.

Lemma delivery_elsewhere r q q' fd :
  delivering q = Some r → (delivering q' = Some r ∨ delivering q' = None) → fd ≠ res_fd r → delivery_at fd q' = delivery_at fd q.
Proof.
  intros E E' Hne. unfold delivery_at. rewrite E. cbn. rewrite (decide_False (P := Some (res_fd r) = Some fd)) by congruence.
  destruct E' as [-> | ->]; cbn; rewrite decide_False by congruence; reflexivity.
Qed.

Lemma delivery_here r q : delivering q = Some r → delivery_at (res_fd r) q = Some q.
Proof. intros E. unfold delivery_at. rewrite E. apply decide_True. reflexivity. Qed.

Lemma delivery_idle fd : delivery_at fd Idle = None.
Proof. reflexivity. Qed.

(** A step of the receiving thread for response [r], whose call is thread [t]'s. *)
Lemma receiver_inv own fe calls answers t p c r d o o' q :
  inv own fe calls answers → threads fe !! t = Some p → call_of p = Some c → fd_of c = res_fd r → is_erase p = false → held_by p = None → id_pending p = true →
  v_cell (view_at fe calls answers (fd_of c)) = Some (d, o) → delivering (receiver fe) = Some r → (delivering q = Some r ∨ delivering q = None) →
  (∀ v, v = view_at fe calls answers (fd_of c) →
     phase_ok p {| v_cell := Some (d, o'); v_call := v_call v; v_answer := v_answer v; v_delivery := delivery_at (res_fd r) q;
                   v_signal := v_signal v; v_mutex := v_mutex v |}) →
  inv own (with_receiver q (with_objects <[d := o']> fe)) calls answers.
Proof.
  intros Hi Ht Hc Hf He Hh Hp Hcell Hr Hq Hph. destruct (cell_object _ _ _ _ _ _ Hcell) as [Hd Ho].
  destruct (i_thread _ _ _ _ Hi t p c Ht Hc) as (_ & _ & _ & Hok).
  apply (local_inv own fe _ calls calls answers answers t p p c Hi Ht Hc Hc He He); try reflexivity.
  - cbn. symmetry. apply insert_id, Ht.
  - auto.
  - intros d' Hne. cbn. apply lookup_insert_ne. congruence.
  - intros d'. cbn. rewrite lookup_insert_is_Some. destruct (decide (d = d')) as [<- |]; [rewrite Ho; split; eauto | tauto].
  - intros fd Hfd. split; [reflexivity |]. split; [reflexivity |]. apply (delivery_elsewhere r); try assumption. congruence.
  - auto.
  - intros r' Hr'. cbn in Hr'. left. destruct Hq as [Hq | Hq]; congruence.
  - apply (i_ids _ _ _ _ Hi).
  - rewrite Hh. discriminate.
  - specialize (Hph _ eq_refl). unfold view_at in *. cbn in *. rewrite Hd, Hf in *. cbn. rewrite lookup_insert_eq. exact Hph.
  - exact Hok.
Qed.

Lemma stored_ok own fe calls answers d o c r (v : view) :
  objects fe !! d = Some o → answered c r v → inv own fe calls answers → store_payload d r fe = Done (with_objects <[d := set_receive_payload r o]> fe).
Proof.
  intros Ho (_ & _ & (m & _ & Hf) & _) _. unfold store_payload. rewrite Ho. cbn [deref mbind outcome_bind].
  rewrite (proj2 (Z.leb_le _ _)) by apply (fit_length _ _ Hf). reflexivity.
Qed.

Lemma receiver_step_spec own fe calls answers :
  inv own fe calls answers →
  ∃ o, step_receiver fe = Done o ∧ match o with None => True | Some fe' => inv own fe' calls answers end.
Proof.
  intros Hi. unfold step_receiver. destruct (delivering (receiver fe)) as [r|] eqn:Er.
  2: { destruct (receiver fe); try discriminate. exists None. auto. }
  destruct (delivering_waits own fe calls answers r Hi Er) as (t & p & c & d & o & Ht & Hc & Hf & He & Hh & Hpe & Hcell & Hdl & Hw & Hcase).
  destruct (cell_object _ _ _ _ _ _ Hcell) as [Hd Ho].
  pose proof (λ o' q, receiver_inv own fe calls answers t p c r d o o' q Hi Ht Hc Hf He Hh Hpe Hcell Er) as Upd.
  assert (∀ q, delivering q = Some r → with_receiver q fe = with_receiver q (with_objects <[d := o]> fe)) as Same by (intros; rewrite with_objects_id by exact Ho; reflexivity).
  assert (res_message_type r = message_type_of c ∧ i32 (res_fd r) = fd_of c) as [Hty Hi32].
  { split; [| rewrite <- Hf; destruct Hw as [[? _] _ _]; apply i32_small; lia].
    assert (∃ r', answered c r' (view_at fe calls answers (fd_of c)) ∧ r' = r) as (r' & (_ & _ & (m & (old & ->) & Hfit) & _) & ->).
    { destruct Hcase as [(_ & _ & _ & r' & Ha & Harr) | (_ & _ & _ & r' & Ha & Harr)]; exists r'; (split; [exact Ha |]);
        unfold arrival, socket_arrival in Harr; rewrite Hdl in Harr; destruct (receiver fe); cbn in Er; try discriminate; injection Er as ->; intuition congruence. }
    rewrite (fit_type _ _ Hfit). apply write_message_type. }
  destruct Hcase as [(Hs & -> & Hsg & r' & Ha & Harr) | (Hs & -> & Hrest & r' & Ha & Harr)].
  - unfold arrival in Harr. rewrite Hdl in Harr. destruct Ha as (A1 & A2 & A3 & A4).
    destruct (receiver fe) as [| r0 | d0 r0 | d0 r0 | d0 r0 | d0 r0 | r0] eqn:Eq; cbn in Er; try discriminate; injection Er as ->; try contradiction.
    + destruct Harr as [<- Hr]. assert (res_message_type r ≠ WIFU_SOCKET) as Hns by (rewrite Hty; destruct c; discriminate).
      rewrite (proj2 (Z.eqb_neq _ _)) by exact Hns. rewrite Hi32, Hd. eexists. split; [reflexivity |]. rewrite Same by reflexivity. apply Upd; [auto |].
      intros v ->. split; [exact Hs |]. exists o. split; [reflexivity |]. right. exists r. split; [split; auto |]. split; [exact Hsg |].
      unfold arrival. cbn [v_delivery]. rewrite delivery_here by reflexivity. auto.
    + destruct Harr as (-> & <- & [R1 R2]). rewrite Ho. cbn [deref mbind outcome_bind]. rewrite R2. eexists. split; [reflexivity |]. apply Upd; [auto |].
      intros v ->. split; [exact Hs |]. eexists. split; [reflexivity |]. right. exists r. split; [split; auto |]. split; [exact Hsg |].
      unfold arrival. cbn [v_delivery]. rewrite delivery_here by reflexivity. split; [reflexivity |]. split; [reflexivity |]. split; [exact R1 | reflexivity].
    + destruct Harr as (-> & <- & [R1 R2]). rewrite (stored_ok own fe calls answers d o c r _ Ho (conj A1 (conj A2 (conj A3 A4))) Hi). cbn [mbind outcome_bind].
      eexists. split; [reflexivity |]. apply Upd; [auto |].
      intros v ->. split; [exact Hs |]. eexists. split; [reflexivity |]. right. exists r. split; [split; auto |]. split; [exact Hsg |].
      unfold arrival. cbn [v_delivery]. rewrite delivery_here by reflexivity. split; [reflexivity |]. split; [reflexivity |]. split; [split; assumption | reflexivity].
    + destruct Harr as (-> & <- & [R1 R2] & Rp). rewrite Ho. cbn [deref mbind outcome_bind]. eexists. split; [reflexivity |]. apply Upd; [auto |].
      intros v ->. split; [exact Hs |]. eexists. split; [reflexivity |]. right. exists r. split; [split; auto |]. split; [exact Hsg |].
      unfold arrival. cbn [v_delivery]. rewrite delivery_idle. cbn. rewrite R1. auto.
  - assert (fd_of c = 0) as H0 by apply (wc_socket _ Hw), Hs. rewrite H0 in Hd.
    unfold socket_arrival in Harr. rewrite Hdl in Harr. destruct Ha as (A1 & A2 & A3 & A4).
    destruct (receiver fe) as [| r0 | d0 r0 | d0 r0 | d0 r0 | d0 r0 | r0] eqn:Eq; cbn in Er; try discriminate; injection Er as ->; try contradiction.
    + destruct Harr as [<- Hsg]. assert (res_message_type r = WIFU_SOCKET) as Hns by (rewrite Hty; destruct c; discriminate || reflexivity).
      rewrite Hns. cbn [Z.eqb]. change (WIFU_SOCKET =? WIFU_SOCKET) with true. rewrite Hd. eexists. split; [reflexivity |]. rewrite Same by reflexivity. apply Upd; [auto |].
      intros v ->. split; [exact Hs |]. exists d, o. split; [reflexivity |]. split; [exact Hrest |]. right. exists r. split; [split; auto |].
      unfold socket_arrival. cbn [v_delivery]. rewrite delivery_here by reflexivity. auto.
    + destruct Harr as (-> & <- & Hsg). rewrite (stored_ok own fe calls answers d o c r _ Ho (conj A1 (conj A2 (conj A3 A4))) Hi). cbn [mbind outcome_bind].
      eexists. split; [reflexivity |]. apply Upd; [auto |].
      intros v ->. split; [exact Hs |]. eexists d, _. split; [reflexivity |]. split; [exact Hrest |]. right. exists r. split; [split; auto |].
      unfold socket_arrival. cbn [v_delivery]. rewrite delivery_here by reflexivity. auto.
    + destruct Harr as (<- & Hsg & Rp). eexists. split; [reflexivity |].
      destruct (i_thread _ _ _ _ Hi t _ c Ht Hc) as (_ & _ & _ & Hok).
      apply (local_inv own fe _ calls calls answers answers t (SocketWaiting c) (SocketWaiting c) c Hi Ht Hc Hc He He); try reflexivity.
      * cbn. symmetry. apply insert_id, Ht.
      * auto.
      * intros fd Hfd. split; [reflexivity |]. split; [reflexivity |]. rewrite Eq. apply (delivery_elsewhere r); auto. congruence.
      * congruence.
      * discriminate.
      * apply (i_ids _ _ _ _ Hi).
      * discriminate.
      * split; [exact Hs |]. exists d, o. unfold view_at in *. cbn in *. split; [exact Hcell |]. split; [exact Hrest |]. right. exists r.
        split; [split; [exact A1 |]; split; [exact A2 |]; split; [exact A3 | exact A4] |]. unfold socket_arrival. cbn.
        rewrite decide_True in * by exact H0. rewrite Hsg, delivery_idle. auto.
      * exact Hok.
Qed.

Lemma deliver_inv own fe calls answers m r :
  inv own fe calls answers → receiver fe = Idle → calls !! res_fd r = Some m → fits m r → new_id fe answers r →
  inv own (with_receiver (Looking r) fe) (delete (res_fd r) calls) (<[res_fd r := r]> answers).
Proof.
  intros Hi Eq Hm Hfit Hnew.
  assert (busy fe (res_fd r)) as Hb.
  { destruct (decide (∃ x, calls !! res_fd r = Some x)) as [_ | Hn]; [| destruct Hn; eauto]. apply dec_stable. intros Hn.
    destruct (i_quiet _ _ _ _ Hi _ Hn) as (E & _). congruence. }
  destruct Hb as (t & p & Ht & (c & Hc & Hf)%on_inv). destruct (i_thread _ _ _ _ Hi t p c Ht Hc) as (Hw & Hh & Hp & Hok).
  assert (v_call (view_at fe calls answers (fd_of c)) = Some m) as Hv by (cbn; rewrite Hf; exact Hm).
  assert (v_delivery (view_at fe calls answers (fd_of c)) = None) as Hdl by (cbn; rewrite Eq; reflexivity).
  assert (is_erase p = false ∧ held_by p = None ∧ v_answer (view_at fe calls answers (fd_of c)) = None ∧
    phase_ok p (view_at (with_receiver (Looking r) fe) (delete (res_fd r) calls) (<[res_fd r := r]> answers) (fd_of c))) as (He & Hh' & Ha & Hp').
  { destruct p as [c0| | | | | | | | | | | | | | | | | | |]; [destruct c0 | ..]; cbn [call_of] in Hc; injection Hc as <- || discriminate Hc; cbn [phase_ok] in Hp;
      unfold has, unsent, finished, delivered, answered, sent_call in Hp;
      repeat match goal with H : _ ∧ _ |- _ => destruct H | H : ∃ _, _ |- _ => destruct H | H : _ ∨ _ |- _ => destruct H end;
      try (exfalso; congruence).
    - split; [reflexivity |]. split; [reflexivity |]. split; [assumption |]. split; [assumption |]. eexists. split; [eassumption |]. right. exists r.
      match goal with H : message_of _ ?y |- _ => assert (y = m) as -> by congruence end. unfold arrival, answered. cbn [view_at v_call v_answer v_delivery v_signal v_mutex]. rewrite Hf, lookup_delete_eq, lookup_insert_eq, (delivery_here r) by reflexivity.
      rewrite <- Hf. repeat split; try assumption; try (match goal with H : resting _ |- _ => apply H end). exists m. split; [assumption | exact Hfit].
    - split; [reflexivity |]. split; [reflexivity |]. split; [assumption |]. split; [assumption |]. do 2 eexists. split; [eassumption |]. split; [assumption |]. right. exists r.
      match goal with H : message_of _ ?y |- _ => assert (y = m) as -> by congruence end. unfold socket_arrival, answered. cbn [view_at v_call v_answer v_delivery v_signal v_mutex]. rewrite Hf, lookup_delete_eq, lookup_insert_eq, (delivery_here r) by reflexivity.
      rewrite <- Hf. repeat split; try assumption. exists m. split; [assumption | exact Hfit]. }
  cbn in Ha. rewrite Hf in Ha.
  apply (local_inv own fe _ calls _ answers _ t p p c Hi Ht Hc Hc He He); try reflexivity.
  - cbn. symmetry. apply insert_id, Ht.
  - auto.
  - intros fd Hne. rewrite Hf in Hne. rewrite lookup_delete_ne, lookup_insert_ne by congruence. split; [reflexivity |]. split; [reflexivity |].
    cbn. rewrite Eq. unfold delivery_at. cbn. rewrite !decide_False by congruence. reflexivity.
  - auto.
  - intros r' [= <-]. auto.
  - destruct (i_ids _ _ _ _ Hi) as [Hpos Hdist]. split.
    + intros fd r'. rewrite lookup_insert_Some. intros [[_ <-] | [_ H']] Hg; [| exact (Hpos fd r' H' Hg)]. destruct (Hnew Hg) as [? | [? _]]; auto.
    + intros fd fd' r1 r2. rewrite !lookup_insert_Some. intros [[<- <-] | [N1 H1]] [[<- <-] | [N2 H2]] G1 G2 Hne E.
      * contradiction.
      * destruct (Hnew G1) as [? | (_ & _ & Hd)]; [assumption | destruct (Hd fd' r2 H2 G2); congruence].
      * destruct (Hnew G2) as [? | (_ & _ & Hd)]; [congruence | destruct (Hd fd r1 H1 G1); congruence].
      * exact (Hdist fd fd' r1 r2 H1 H2 G1 G2 Hne E).
  - rewrite Hh'. discriminate.
  - exact Hp'.
  - intros r' _ Hr' Hg. cbn in Hr'. rewrite Hf, lookup_insert_eq in Hr'. injection Hr' as <-. destruct (Hnew Hg) as [? | (? & ? & _)]; auto.
Qed.

(** A thread calls. *)
Lemma enter_inv own fe calls answers t c (fe' := at_phase t (Entered c) fe) :
  inv own fe calls answers → well_called c → (match threads fe !! t with None | Some (Returned _) => True | _ => False end) →
  (is_socket c = true ∨ (is_Some (data_ fe !! fd_of c) ∧ ¬ busy fe (fd_of c))) → inv own fe' calls answers.
Proof.
  intros Hi Hw Hidle Hopen.
  assert (∀ p, threads fe !! t = Some p → call_of p = None) as Hnone by (intros p Hp; rewrite Hp in Hidle; destruct p; try contradiction; reflexivity).
  assert (∀ t' q c', threads fe !! t' = Some q → call_of q = Some c' → t ≠ t') as Hne by (intros t' q c' Hq Hc' <-; rewrite (Hnone q Hq) in Hc'; discriminate).
  assert (call_of (Entered c) = if is_socket c then None else Some c) as Hcall by (destruct c; reflexivity).
  assert (∀ fd, busy fe' fd ↔ busy fe fd ∨ (is_socket c = false ∧ fd = fd_of c)) as Hb.
  { intros fd. split.
    - intros (t' & q & Hq & (c' & Hc' & <-)%on_inv). cbn in Hq. apply lookup_insert_Some in Hq as [[<- <-] | [_ Hq]]; [| left; apply (busy_call fe t' q c'); assumption].
      rewrite Hcall in Hc'. destruct (is_socket c); [discriminate |]. injection Hc' as <-. auto.
    - intros [(t' & q & Hq & (c' & Hc' & <-)%on_inv) | [Hs ->]].
      + apply (busy_call fe' t' q c'); [| exact Hc']. cbn. rewrite lookup_insert_ne; [exact Hq | exact (Hne t' q c' Hq Hc')].
      + apply (busy_call fe' t (Entered c) c); [cbn; apply lookup_insert_eq | rewrite Hcall, Hs; reflexivity]. }
  assert (∀ fd, erasing fe' fd ↔ erasing fe fd) as Her.
  { intros fd. split; intros (t' & c' & x & Hq & Hf); exists t', c', x; (split; [| exact Hf]); cbn in *.
    - apply lookup_insert_Some in Hq as [[_ ?] | [_ Hq]]; [discriminate | exact Hq].
    - rewrite lookup_insert_ne; [exact Hq |]. exact (Hne t' _ c' Hq eq_refl). }
  assert (∀ t' q c', threads fe' !! t' = Some q → call_of q = Some c' → (t' = t ∧ q = Entered c ∧ c' = c ∧ is_socket c = false) ∨ (t ≠ t' ∧ threads fe !! t' = Some q)) as Hth.
  { intros t' q c' Hq Hc'. cbn in Hq. apply lookup_insert_Some in Hq as [[<- <-] | [? ?]]; [left | auto]. rewrite Hcall in Hc'.
    destruct (is_socket c); [discriminate |]. injection Hc' as <-. auto. }
  assert (is_socket c = false → ∃ d, data_ fe !! fd_of c = Some d ∧ ¬ busy fe (fd_of c) ∧ fd_of c ≠ 0) as Hns.
  { intros Hs. destruct Hopen as [? | [[d Hd] Hnb]]; [congruence |]. exists d. split; [exact Hd |]. split; [exact Hnb |]. intros E. apply (wc_socket _ Hw) in E. congruence. }
  split; try apply Hi.
  - intros fd d Hd H1. rewrite Her. exact (i_data _ _ _ _ Hi fd d Hd H1).
  - intros fd d He. apply (i_erasing _ _ _ _ Hi), Her, He.
  - intros fd Hfd. rewrite Hb in Hfd. apply (i_quiet _ _ _ _ Hi). tauto.
  - rewrite Hb. intros H0. apply (i_zero _ _ _ _ Hi). tauto.
  - intros t' q c' Hq Hc'. destruct (Hth t' q c' Hq Hc') as [(-> & -> & -> & Hs) | [Hne' Hq']].
    + destruct (Hns Hs) as (d & Hd & Hnb & H0). destruct (i_quiet _ _ _ _ Hi _ Hnb) as (Q1 & Q2 & Q3).
      destruct (Q3 ltac:(destruct (wc_fd _ Hw); assumption) d Hd) as (o & Ho & Hr).
      split; [exact Hw |]. split; [discriminate |]. split; [| intros r _ Ha; cbn in Ha; congruence].
      assert (delivery_at (fd_of c) (receiver fe) = None) as Hdl.
      { unfold delivery_at. destruct (delivering (receiver fe)) as [r|] eqn:E; [| rewrite decide_False by discriminate; reflexivity].
        rewrite decide_False; [reflexivity |]. cbn. intros [= E0]. apply Hnb. rewrite <- E0. exact (i_receiver _ _ _ _ Hi r E). }
      split; [exact Hs |]. split; [unfold unsent; cbn; rewrite !decide_False by exact H0; auto |]. exists d, o. cbn. rewrite Hd. cbn. rewrite Ho. auto.
    + apply (thread_frame own own fe fe' calls calls answers answers t' q c' Hi Hq' Hc'); try reflexivity; auto.
  - intros t1 t2 p1 p2 fd H1 H2 O1 O2. destruct (on_inv _ _ O1) as (c1 & C1 & F1), (on_inv _ _ O2) as (c2 & C2 & F2).
    destruct (Hth t1 p1 c1 H1 C1) as [(-> & _ & -> & S1) | [_ A1]], (Hth t2 p2 c2 H2 C2) as [(-> & _ & -> & S2) | [_ A2]]; [reflexivity | | |].
    + destruct (Hns S1) as (_ & _ & Hnb & _). destruct Hnb. rewrite F1, <- F2. apply (busy_call fe t2 p2 c2); assumption.
    + destruct (Hns S2) as (_ & _ & Hnb & _). destruct Hnb. rewrite F2, <- F1. apply (busy_call fe t1 p1 c1); assumption.
    + exact (i_unique _ _ _ _ Hi t1 t2 p1 p2 fd A1 A2 O1 O2).
  - intros t' c0. cbn. rewrite lookup_insert_Some. intros [[_ [= <-]] | [_ Hq]]; [exact Hw | exact (i_waiting _ _ _ _ Hi t' c0 Hq)].
  - intros r Hr. apply Hb. left. exact (i_receiver _ _ _ _ Hi r Hr).
Qed.

Lemma front_end_initial_inv : ∃ own, inv own initial ∅ ∅.
Proof.
  assert (∀ n fe, grow (S n) fe = grow n (grow 1 fe)) as E by reflexivity. unfold initial, POOL_INITIAL_SIZE. rewrite E.
  generalize 9%nat. intros n. clear E. set (fe0 := no_objects).
  assert (∀ fd, ¬ busy fe0 fd) as Hb by (intros fd (t & p & Ht & _); cbn in Ht; rewrite lookup_empty in Ht; discriminate).
  assert (inv {[ 0%nat := Pooled ]} (grow 1 fe0) ∅ ∅) as Hi.
  { assert (∀ fd, ¬ busy (grow 1 fe0) fd) as Hb1 by exact Hb. split; cbn.
    - intros d. destruct (decide (d = 0%nat)) as [-> | Hd]; [rewrite lookup_singleton_eq, lookup_insert_eq; split; eauto |].
      rewrite lookup_singleton_ne, lookup_insert_ne, lookup_empty by congruence. split; intros [? ?]; discriminate.
    - intros d o. rewrite lookup_insert_Some, lookup_empty. intros [[<- _] | [_ ?]]; [lia | discriminate].
    - split; [apply NoDup_singleton |]. intros d. rewrite list_elem_of_singleton, lookup_singleton_Some. naive_solver.
    - lia.
    - intros d [Hd | [t Hd]]; apply lookup_singleton_Some in Hd as [<- ?]; [| discriminate]. rewrite lookup_insert_eq. eexists. split; [reflexivity | split; reflexivity].
    - intros d fd Hd. apply lookup_singleton_Some in Hd as [_ ?]. discriminate.
    - intros fd d. rewrite lookup_empty. discriminate.
    - intros fd d He. destruct (Hb1 fd). apply erasing_busy, He.
    - intros fd _. rewrite !lookup_empty. split; [reflexivity |]. split; [reflexivity |]. discriminate.
    - auto.
    - intros t p c. rewrite lookup_empty. discriminate.
    - intros t t' p p' fd. rewrite lookup_empty. discriminate.
    - intros t c. rewrite lookup_empty. discriminate.
    - discriminate.
    - split; intros fd; [intros r | intros fd' r r']; rewrite lookup_empty; discriminate. }
  destruct (grow_inv n _ _ _ _ Hi) as (own & H & _). eauto.
Qed.

Lemma front_end_reachable_inv fe calls answers : reachable fe calls answers → ∃ own, inv own fe calls answers.
Proof.
  induction 1 as [| fe calls answers t c _ [own IH] Hw Ht Ho | fe calls answers t p fe' _ [own IH] Ht E | fe calls answers m r _ [own IH] Er Hm Hf Hn | fe calls answers fe' _ [own IH] E].
  - exact front_end_initial_inv.
  - exists own. apply enter_inv; assumption.
  - destruct (step_spec own fe calls answers t IH p Ht) as (o & E' & Ho). rewrite E in E'. injection E' as <-. exact Ho.
  - exists own. apply (deliver_inv own fe calls answers m r); assumption.
  - destruct (receiver_step_spec own fe calls answers IH) as (o & E' & Ho). rewrite E in E'. injection E' as <-. eauto.
Qed.

(** ** What the callers get *)

(** The answer that a thread's result comes from. *)
Lemma returns_answer own fe calls answers t p c x fe' :
  inv own fe calls answers → threads fe !! t = Some p → call_of p = Some c → step_thread t fe = Done (Some fe') →
  threads fe' !! t = Some (Returned x) → ∃ r, answers !! fd_of c = Some r ∧ result_of c r = Done x.
Proof.
  intros Hi Ht Hc E Hx. destruct (i_thread _ _ _ _ Hi t p c Ht Hc) as (_ & _ & Hp & _).
  assert (∀ q f, step_thread t fe = Done (Some (at_phase t q f)) → q = Returned x) as Q.
  { intros q f E'. rewrite E in E'. injection E' as ->. cbn in Hx. rewrite lookup_insert_eq in Hx. injection Hx as ->. reflexivity. }
  assert (∀ y, finished c y (view_at fe calls answers (fd_of c)) → Returned y = Returned x → ∃ r, answers !! fd_of c = Some r ∧ result_of c r = Done x) as Fin.
  { intros y (r & ((_ & Ha & _) & _) & Er) [= <-]. eauto. }
  destruct p as [c0 | | | | | | | | | | | | | | | | | | |]; cbn [call_of] in Hc; try (injection Hc as <-).
  1: { assert (c0 = c ∧ is_socket c0 = false) as [-> Hs] by (destruct c0; try discriminate Hc; injection Hc as <-; auto).
       destruct (enter_eq own fe calls answers t Hi c Hs Ht) as (d & o & _ & _ & _ & E'). apply Q in E'. discriminate. }
  all: unfold step_thread in E, Q; rewrite Ht in E, Q; cbn [phase_ok] in Hp.
  all: repeat match goal with
    | H : (_ ≫= _) = Done _ |- _ => let y := fresh "y" in let Hy := fresh "Hy" in apply outcome_bind_Done in H as (y & Hy & H); rewrite Hy in Q; cbn [mbind outcome_bind] in Q
    | y : _ * _ |- _ => destruct y
    | H : context [match ?c with Socket _ _ _ => _ | _ => _ end] |- _ => destruct c
    | H : context [match ?n with O => _ | S _ => _ end] |- _ => destruct n
    | H : context [match ?n with Some _ => _ | None => _ end] |- _ => destruct n
    end; try discriminate E.
  all: specialize (Q _ _ eq_refl); try discriminate Q.
  all: eapply Fin; [| exact Q]; apply Hp.
Qed.

(** *** Progress *)

Inductive actor := Receiver | Thread (t : nat).
Definition step (a : actor) (fe : front_end) : outcome (option front_end) :=
  match a with Receiver => step_receiver fe | Thread t => step_thread t fe end.

(** A schedule; an actor that cannot move is passed over. *)
Fixpoint run (l : list actor) (fe : front_end) : outcome front_end :=
  match l with [] => mret fe | a :: l => o ← step a fe; run l (default fe o) end.

Definition receiving_left (q : receiving) : nat :=
  match q with Idle => 0 | Signalling _ _ | SocketSignalling _ => 1 | Storing _ _ | SocketStoring _ _ => 2 | Flagging _ _ => 3 | Looking _ => 4 end.

Lemma run_app l l' fe fe' : run l fe = Done fe' → run (l ++ l') fe = run l' fe'.
Proof.
  revert fe. induction l as [|a l IH]; intros fe; cbn [run app]; [intros [= ->]; reflexivity |].
  destruct (step a fe) as [o|]; [| discriminate]. cbn [mbind outcome_bind]. apply IH.
Qed.

(** The receiving thread is never blocked for longer than it takes itself. *)
Lemma receiver_moves own fe calls answers :
  inv own fe calls answers → receiver fe ≠ Idle →
  ∃ fe', step_receiver fe = Done (Some fe') ∧ threads fe' = threads fe ∧ (receiving_left (receiver fe') < receiving_left (receiver fe))%nat.
Proof.
  intros Hi Hne. destruct (receiver_step_spec own fe calls answers Hi) as (o & E & _).
  destruct o as [fe'|].
  - exists fe'. split; [exact E |]. unfold step_receiver in E. destruct (receiver fe) eqn:Eq; try contradiction;
      repeat match goal with
      | H : (_ ≫= _) = Done _ |- _ => let y := fresh "y" in let Hy := fresh "Hy" in apply outcome_bind_Done in H as (y & Hy & H)
      | H : context [if ?b then _ else _] |- _ => destruct b
      | H : context [match ?n with O => _ | S _ => _ end] |- _ => destruct n
      | H : context [match ?n with Some _ => _ | None => _ end] |- _ => destruct n
      | H : store_payload _ _ _ = Done _ |- _ => unfold store_payload in H
      | H : mret _ = Done _ |- _ => injection H as <-
      end; try discriminate; (split; [reflexivity | cbn; lia]).
  - exfalso. destruct (delivering (receiver fe)) as [r|] eqn:Er; [| destruct (receiver fe); try discriminate; contradiction].
    destruct (delivering_waits own fe calls answers r Hi Er) as (t & p & c & d & o & Ht & Hc & Hf & He & Hh & Hpe & Hcell & Hdl & Hw & Hcase).
    destruct (cell_object _ _ _ _ _ _ Hcell) as [Hd Ho]. unfold step_receiver in E.
    destruct (receiver fe) as [| r0 | d0 r0 | d0 r0 | d0 r0 | d0 r0 | r0] eqn:Eq; try contradiction; cbn [mbind outcome_bind] in E;
      repeat match goal with
      | H : (_ ≫= _) = Done _ |- _ => let y := fresh "y" in let Hy := fresh "Hy" in apply outcome_bind_Done in H as (y & Hy & H)
      | H : context [if ?b then _ else _] |- _ => destruct b
      | H : context [match data_ fe !! ?n with Some _ => _ | None => _ end] |- _ => destruct (data_ fe !! n)
      end; try discriminate.
    destruct Hcase as [(_ & _ & _ & r' & _ & Harr) | (_ & _ & _ & r' & _ & Harr)]; unfold arrival, socket_arrival in Harr; rewrite Hdl in Harr; [| contradiction].
    destruct Harr as (-> & _ & [_ Hfl]). apply deref_Done in Hy. rewrite Ho in Hy. injection Hy as <-. rewrite Hfl in E. discriminate.
Qed.

Lemma receiver_idles fe calls answers :
  reachable fe calls answers →
  ∃ fe', run (repeat Receiver (receiving_left (receiver fe))) fe = Done fe' ∧ reachable fe' calls answers ∧ receiver fe' = Idle ∧ threads fe' = threads fe.
Proof.
  remember (receiving_left (receiver fe)) as n eqn:En. revert fe En. induction n as [n IH] using lt_wf_ind. intros fe En Hr.
  destruct (front_end_reachable_inv fe calls answers Hr) as [own Hi]. destruct (decide (n = 0%nat)) as [-> | Hn].
  { exists fe. split; [reflexivity |]. split; [exact Hr |]. split; [destruct (receiver fe); cbn in En; try lia; reflexivity | reflexivity]. }
  destruct (receiver_moves own fe calls answers Hi) as (fe1 & E & Eth & Hlt); [intros E; rewrite E in En; cbn in En; lia |].
  assert (reachable fe1 calls answers) as Hr1 by (apply (r_receive fe calls answers fe1 Hr E)).
  destruct (IH (receiving_left (receiver fe1)) ltac:(lia) fe1 eq_refl Hr1) as (fe' & Er & Hr' & Hidle & Eth').
  exists fe'. split; [| split; [exact Hr' |]; split; [exact Hidle | congruence]].
  assert (∀ k f, receiver f = Idle → run (repeat Receiver k) f = Done f) as Stay.
  { intros k f Hf. induction k as [|k IHk]; [reflexivity |]. cbn [repeat run step]. unfold step_receiver. rewrite Hf. exact IHk. }
  destruct n as [|n]; [contradiction |]. cbn [repeat run step]. rewrite E. cbn [mbind outcome_bind default].
  replace n with (receiving_left (receiver fe1) + (n - receiving_left (receiver fe1)))%nat by lia.
  rewrite repeat_app, (run_app _ _ _ _ Er). apply Stay, Hidle.
Qed.

Definition phases_left (p : phase) : nat :=
  match p with
  | Waiting _ _ | SocketWaiting _ => 7 | Reading _ _ | SocketGet _ => 6 | AcceptPool _ _ _ | SocketErase _ _ _ => 5
  | AcceptPut _ _ _ _ | SocketRename _ _ _ => 4 | Posting _ _ _ | SocketUnlock _ _ => 3 | CloseRelease _ _ _ => 2 | CloseErase _ _ => 1
  | _ => 0
  end.

(** A thread whose call has been answered moves on. *)
Lemma thread_moves own fe calls answers t p c r :
  inv own fe calls answers → threads fe !! t = Some p → call_of p = Some c → answers !! fd_of c = Some r → receiver fe = Idle →
  ∃ fe' p', step_thread t fe = Done (Some fe') ∧ threads fe' !! t = Some p' ∧ receiver fe' = Idle ∧
    ((call_of p' = Some c ∧ (phases_left p' < phases_left p)%nat ∧ answers_after p answers = answers) ∨ ∃ x, p' = Returned x).
Proof.
  intros Hi Ht Hc Ha Hidle. destruct (i_thread _ _ _ _ Hi t p c Ht Hc) as (_ & _ & Hp & _).
  assert (v_answer (view_at fe calls answers (fd_of c)) = Some r) as Hv by exact Ha.
  assert (v_delivery (view_at fe calls answers (fd_of c)) = None) as Hdl by (cbn; rewrite Hidle; reflexivity).
  destruct (step_spec own fe calls answers t Hi p Ht) as (o & E & _).
  assert (o ≠ None) as Hsome.
  { intros ->. unfold step_thread in E. rewrite Ht in E.
    destruct p as [c0| | | | | | | | | | | | | | | | | | |]; [destruct c0 | ..]; cbn [call_of] in Hc; injection Hc as <- || discriminate Hc; cbn [phase_ok] in Hp;
      unfold unsent in Hp; try (exfalso; destruct Hp as (_ & (_ & Hp & _) & _); congruence).
    all: repeat match goal with
      | H : (_ ≫= _) = Done _ |- _ => let y := fresh "y" in let Hy := fresh "Hy" in apply outcome_bind_Done in H as (y & Hy & H)
      | y : _ * _ |- _ => destruct y
      | H : context [match ?c with Socket _ _ _ => _ | _ => _ end] |- _ => destruct c
      | H : context [match data_ ?f !! ?n with Some _ => _ | None => _ end] |- _ => destruct (data_ f !! n)
      end; try discriminate.
    - destruct Hp as (_ & o & Hcell & [[Hsent _] | (r' & _ & _ & Harr)]); [destruct Hsent as (_ & ? & _); congruence |].
      unfold arrival in Harr. rewrite Hdl in Harr. destruct (cell_object _ _ _ _ _ _ Hcell) as [_ Ho]. apply deref_Done in Hy. rewrite Ho in Hy. injection Hy as <-.
      destruct Harr as [Hs _]. rewrite Hs in E. discriminate.
    - destruct Hp as (Hs & d & o & Hcell & _ & [Hsent | (r' & _ & Harr)]); [destruct Hsent as (_ & ? & _); congruence |].
      unfold socket_arrival in Harr. rewrite Hdl in Harr. destruct Harr as [Hs1 _].
      destruct (i_thread _ _ _ _ Hi t _ _ Ht eq_refl) as (Hw & _). cbn in Hs1. rewrite decide_True in Hs1 by (apply (wc_socket _ Hw), Hs).
      rewrite Hs1 in E. discriminate. }
  destruct o as [fe'|]; [| contradiction]. exists fe'. unfold step_thread in E. rewrite Ht in E.
  assert (∀ q f, Done (Some (at_phase t q f)) = Done (Some fe') → receiver f = receiver fe →
    ((call_of q = Some c ∧ (phases_left q < phases_left p)%nat ∧ answers_after p answers = answers) ∨ ∃ x, q = Returned x) →
    ∃ p', step_thread t fe = Done (Some fe') ∧ threads fe' !! t = Some p' ∧ receiver fe' = Idle ∧
      ((call_of p' = Some c ∧ (phases_left p' < phases_left p)%nat ∧ answers_after p answers = answers) ∨ ∃ x, p' = Returned x)) as Q.
  { intros q f E' Hf Hq. exists q. destruct (step_spec own fe calls answers t Hi p Ht) as (o & E'' & _). unfold step_thread in *. rewrite Ht in *.
    split; [exact E |]. injection E' as <-. cbn. rewrite lookup_insert_eq, Hf. auto. }
  assert (∀ d f, get fe = Done (d, f) → receiver f = receiver fe) as Hget.
  { intros d f Eg. destruct (get_inv own fe calls answers Hi) as (d' & fe1 & l & own1 & Eg' & _ & Hsame & _). rewrite Eg in Eg'. injection Eg' as -> ->. apply Hsame. }
  destruct p as [c0| | | | | | | | | | | | | | | | | | |]; [destruct c0 | ..]; cbn [call_of] in Hc; injection Hc as <- || discriminate Hc; cbn [phase_ok] in Hp;
    unfold unsent in Hp; try (exfalso; destruct Hp as (_ & (_ & Hp & _) & _); congruence).
  all: repeat match goal with
    | H : (_ ≫= _) = Done _ |- _ => let y := fresh "y" in let Hy := fresh "Hy" in apply outcome_bind_Done in H as (y & Hy & H)
    | y : _ * _ |- _ => destruct y
    | H : context [match sem_ ?c with _ => _ end] |- _ => destruct (sem_ c)
    | H : context [match socket_signal_ ?c with _ => _ end] |- _ => destruct (socket_signal_ c)
    | H : context [match ?c with Socket _ _ _ => _ | _ => _ end] |- _ => destruct c
    | H : context [match data_ ?f !! ?n with Some _ => _ | None => _ end] |- _ => destruct (data_ f !! n)
    end; try discriminate.
  all: apply (Q _ _ E); [cbn; try reflexivity; eapply Hget; eassumption | first [right; eexists; reflexivity | left; split; [reflexivity |]; split; [cbn; lia | reflexivity]]].
Qed.

Lemma thread_returns n : ∀ fe calls answers t p c r,
  reachable fe calls answers → threads fe !! t = Some p → call_of p = Some c → answers !! fd_of c = Some r → receiver fe = Idle → phases_left p = n →
  ∃ k fe' x, (k ≤ S n)%nat ∧ run (repeat (Thread t) k) fe = Done fe' ∧ threads fe' !! t = Some (Returned x) ∧ result_of c r = Done x.
Proof.
  induction n as [n IH] using lt_wf_ind. intros fe calls answers t p c r Hr Ht Hc Ha Hidle Hn. destruct (front_end_reachable_inv fe calls answers Hr) as [own Hi].
  destruct (thread_moves own fe calls answers t p c r Hi Ht Hc Ha Hidle) as (fe1 & p1 & E & Ht1 & Hidle1 & Hcase).
  destruct Hcase as [(Hc1 & Hlt & Hans) | [x ->]].
  - pose proof (r_step fe calls answers t p fe1 Hr Ht E) as Hr1. rewrite Hans in Hr1.
    destruct (IH (phases_left p1) ltac:(lia) fe1 _ answers t p1 c r Hr1 Ht1 Hc1 Ha Hidle1 eq_refl) as (k & fe' & x & Hk & Er & Hx & Eres).
    exists (S k), fe', x. split; [lia |]. split; [cbn [repeat run step]; rewrite E; exact Er | auto].
  - destruct (returns_answer own fe calls answers t p c x fe1 Hi Ht Hc E Ht1) as (r' & Ha' & Eres). assert (r' = r) as -> by congruence.
    exists 1%nat, fe1, x. split; [lia |]. split; [cbn [repeat run step]; rewrite E; reflexivity | auto].
Qed.

End FrontEnd.

(** The semaphores of the socket calls are only posted at 0. *)
Lemma posts_find_zero file uninitialised fe calls answers :
  reachable file uninitialised fe calls answers →
  (∀ t c x, threads fe !! t = Some (SocketUnlock c x) → socket_mutex_ fe = 0%nat) ∧
  (∀ r, receiver fe = SocketSignalling r → socket_signal_ fe = 0%nat).
Proof.
  intros Hr. destruct (front_end_reachable_inv file uninitialised fe calls answers Hr) as [own Hi]. split.
  - intros t c x Ht. destruct (i_thread _ _ _ _ _ Hi t _ c Ht eq_refl) as ([_ Hz _] & _ & Hp & _).
    destruct Hp as (Hs & _ & r & (((_ & _ & _ & Hm) & _) & _)). apply Hz in Hs. cbn in Hm. rewrite decide_True in Hm by exact Hs. exact Hm.
  - intros r Hd. destruct (i_receiver _ _ _ _ _ Hi r) as (t & p & Ht & Hon); [rewrite Hd; reflexivity |].
    destruct (on_inv p (res_fd r) Hon) as (c & Hc & Hfd). destruct (i_thread _ _ _ _ _ Hi t p c Ht Hc) as ([_ Hz _] & _ & Hp & _).
    assert (v_delivery (view_at fe calls answers (res_fd r)) = Some (SocketSignalling r)) as Ed.
    { cbn. unfold delivery_at. rewrite Hd. apply decide_True. reflexivity. }
    assert (v_signal (view_at fe calls answers (res_fd r)) = if decide (res_fd r = 0) then socket_signal_ fe else 0%nat) as Es by reflexivity.
    rewrite Hfd in Hp, Hz. destruct (view_at fe calls answers (res_fd r)) as [cell cl an de si mu]. cbn in Ed, Es. subst de.
    destruct p; try discriminate Hc; try (injection Hc as ->); cbn in Hp; unfold unsent, has, finished, delivered, answered, sent_call, arrival, socket_arrival in Hp; cbn in Hp.
    all: try (exfalso; naive_solver).
    all: destruct Hp as (Hs & Hp); apply Hz in Hs; rewrite decide_True in Es by congruence; naive_solver.
Qed.

(** C21: calls do not disturb each other. The threads of the application make calls with valid
    arguments ([well_called]), each on an open descriptor on which no other thread is in a call; the back
    end answers each message once, with an answer that fits the call ([fits]) and gives out
    only positive descriptors that are not in use ([new_id]; the daemon of this repository gives
    0 to every socket call, [sockets_share_identifier]). Then, whatever the interleaving of those
    threads, of the thread that receives and of the answers: no step of any thread
    faults (no null object, failed assertion or overrun buffer); a call that returns gives its
    caller what the answer to its own message says, even while other calls are made, sockets
    opened, accepted and closed and their objects reused; and no two open descriptors share an
    object.

    Without those conditions, in any state: on a descriptor that is not open only bind and
    listen report an error, every other call dereferences a null pointer; a call with more data,
    and an answer longer, than the buffers overruns them; and a datagram of more bytes than
    recvfrom asked for is written past the caller's buffer. *)
Theorem front_end_calls file uninitialised :
  (∀ fe calls answers, reachable file uninitialised fe calls answers →
    (∃ o, step_receiver fe = Done o) ∧ (∀ t, ∃ o, step_thread file uninitialised t fe = Done o) ∧
    (∀ t p c x fe', threads fe !! t = Some p → call_of p = Some c → step_thread file uninitialised t fe = Done (Some fe') →
       threads fe' !! t = Some (Returned x) → ∃ r, answers !! fd_of c = Some r ∧ result_of c r = Done x) ∧
    (∀ fd fd' d, data_ fe !! fd = Some d → data_ fe !! fd' = Some d → fd ≠ -1 → fd' ≠ -1 → ¬ erasing fe fd → ¬ erasing fe fd' → fd = fd')) ∧
  (∀ fe t c, well_called c → is_socket c = false → data_ fe !! fd_of c = None →
     enter t c fe =
       match c with
       | Bind _ _ _ | Listen _ _ => Done (at_phase t (Returned {| return_value := -1; error := Some EBADF; out_data := []; out_addr := None |}) fe)
       | _ => Fault NullDereference
       end) ∧
  (∀ fe c d, is_Some (objects fe !! d) → UNIX_SOCKET_MAX_BUFFER_SIZE < length_of c → write_payload file c d fe = Fault OutOfBounds) ∧
  (∀ fe r d, is_Some (objects fe !! d) → UNIX_SOCKET_MAX_BUFFER_SIZE < res_length r → store_payload d r fe = Fault OutOfBounds) ∧
  (∀ fd n flags addr r, res_message_type r = WIFU_RECVFROM → 0 ≤ n < res_return_value r → result_of (RecvFrom fd n flags addr) r = Fault OutOfBounds).
Proof.
  split; [| split; [| split; [| split]]].
  - intros fe calls answers Hr. destruct (front_end_reachable_inv file uninitialised fe calls answers Hr) as [own Hi]. split; [| split; [| split]].
    + destruct (receiver_step_spec file own fe calls answers Hi) as (o & E & _). eauto.
    + intros t. destruct (threads fe !! t) as [p|] eqn:Ht.
      * destruct (step_spec file uninitialised own fe calls answers t Hi p Ht) as (o & E & _). eauto.
      * exists None. unfold step_thread. rewrite Ht. reflexivity.
    + intros t p c x fe'. apply (returns_answer file uninitialised own fe calls answers t p c x fe' Hi).
    + intros fd fd' d H1 H2 N1 N2 E1 E2. destruct (i_data _ _ _ _ _ Hi fd d H1 N1) as [O1 | ?]; [| contradiction].
      destruct (i_data _ _ _ _ _ Hi fd' d H2 N2) as [O2 | ?]; [congruence | contradiction].
  - intros fe t c [_ _ Ha] Hs Hd. unfold enter. rewrite Hd. destruct c as [| ? ? len | | ? ? ? optval | | | | | ? [addr |] ? |]; try reflexivity; try discriminate Hs.
    + rewrite Ha. reflexivity.
    + rewrite (proj2 (Z.ltb_lt _ _)) by exact Ha. reflexivity.
    + destruct Ha as [_ ->]. reflexivity.
    + destruct Ha as [[? ?] _]. discriminate.
  - intros fe c d [o Ho] Hl. unfold write_payload. rewrite Ho. cbn [deref mbind outcome_bind]. rewrite (proj2 (Z.leb_gt _ _)) by exact Hl. reflexivity.
  - intros fe r d [o Ho] Hl. unfold store_payload. rewrite Ho. cbn [deref mbind outcome_bind]. rewrite (proj2 (Z.leb_gt _ _)) by exact Hl. reflexivity.
  - intros fd n flags addr r Ht Hn. cbn [result_of]. rewrite Ht, Z.eqb_refl, (proj2 (Z.ltb_lt _ _)), (proj2 (Z.leb_gt _ _)) by lia. reflexivity.
Qed.

(** C22: an answered call returns. From any reachable state, when the answer to a call has
    arrived, the receiving thread is done with whatever it delivers after at most four steps
    of its own, and then at most eight steps of the calling thread return what the answer
    says: no other thread is needed. *)
Theorem front_end_call_returns file uninitialised fe calls answers t p c r :
  reachable file uninitialised fe calls answers → threads fe !! t = Some p → call_of p = Some c → answers !! fd_of c = Some r →
  ∃ n k fe' x, (n ≤ 4)%nat ∧ (k ≤ 8)%nat ∧ run file uninitialised (repeat Receiver n ++ repeat (Thread t) k) fe = Done fe' ∧
    threads fe' !! t = Some (Returned x) ∧ result_of c r = Done x.
Proof.
  intros Hr Ht Hc Ha. destruct (receiver_idles file uninitialised fe calls answers Hr) as (fe1 & E1 & Hr1 & Hidle & Eth). rewrite <- Eth in Ht.
  destruct (thread_returns file uninitialised (phases_left p) fe1 calls answers t p c r Hr1 Ht Hc Ha Hidle eq_refl) as (k & fe' & x & Hk & E2 & Hx & Ex).
  exists (receiving_left (receiver fe)), k, fe', x. split; [destruct (receiver fe); cbn; lia |]. split; [destruct p; cbn in Hk; lia |].
  rewrite (run_app file uninitialised _ _ _ _ E1). auto.
Qed.

(** ** A concrete run *)

Definition sample_file : string := "/tmp/LS7".
Definition blank_message : message := sample_message 0 0 no_addr.

(** The schedule, with the messages and answers that wait. *)
Fixpoint track (l : list actor) (x : front_end * gmap Z message * gmap Z response) : outcome (front_end * gmap Z message * gmap Z response) :=
  match l with
  | [] => mret x
  | a :: l =>
      let '(fe, calls, answers) := x in
      o ← step sample_file blank_message a fe;
      match o, a with
      | None, _ => track l x
      | Some fe', Receiver => track l (fe', calls, answers)
      | Some fe', Thread t =>
          match threads fe !! t with
          | Some p => track l (fe', calls_after p fe calls, answers_after p answers)
          | None => track l x
          end
      end
  end.

Lemma track_reachable l : ∀ fe calls answers fe' calls' answers',
  reachable sample_file blank_message fe calls answers → track l (fe, calls, answers) = Done (fe', calls', answers') →
  reachable sample_file blank_message fe' calls' answers'.
Proof.
  induction l as [|a l IH]; intros fe calls answers fe' calls' answers' Hr; cbn [track]; [intros [= <- <- <-]; exact Hr |].
  destruct (step sample_file blank_message a fe) as [o|] eqn:E; [| discriminate]. cbn [mbind outcome_bind].
  destruct o as [fe1|]; [| apply IH, Hr]. destruct a as [|t]; [apply IH, (r_receive _ _ _ _ _ _ Hr E) |].
  destruct (threads fe !! t) as [p|] eqn:Ht; [apply IH, (r_step _ _ _ _ _ _ _ _ Hr Ht E) | apply IH, Hr].
Qed.

Definition sample_socket_call : call := Socket 2 SOCK_STREAM 0.
Definition sample_socket_answer : response := default_response 0 {| le_socket := 0; le_message_type := WIFU_SOCKET; le_fd := 0; le_source := sample_file |} 7 0.

Definition socket_sent : front_end * gmap Z message * gmap Z response :=
  match track (repeat (Thread 1) 5) (at_phase 1 (Entered sample_socket_call) (initial blank_message), ∅, ∅) with
  | Done x => x | Fault _ => (initial blank_message, ∅, ∅) end.
Lemma socket_sent_eq : track (repeat (Thread 1) 5) (at_phase 1 (Entered sample_socket_call) (initial blank_message), ∅, ∅) = Done socket_sent.
Proof. vm_compute. reflexivity. Qed.

Definition socket_answered : front_end := with_receiver (Looking sample_socket_answer) (socket_sent.1.1).

Lemma sample_reachable : reachable sample_file blank_message socket_answered (delete 0 (socket_sent.1.2)) (<[0 := sample_socket_answer]> (socket_sent.2)).
Proof.
  assert (reachable sample_file blank_message (socket_sent.1.1) (socket_sent.1.2) (socket_sent.2)) as Hr.
  { pose proof socket_sent_eq as E. destruct socket_sent as [[fe1 calls1] answers1].
    apply (track_reachable (repeat (Thread 1) 5) (at_phase 1 (Entered sample_socket_call) (initial blank_message)) ∅ ∅); [| exact E].
    assert (threads (initial blank_message) !! 1%nat = None) as Hn by (vm_compute; reflexivity).
    apply r_enter; [apply r_initial | | rewrite Hn; exact I | left; reflexivity]. split; [cbn; lia | split; reflexivity | exact I]. }
  set (m := write_message sample_file sample_socket_call blank_message).
  assert (socket_sent.1.2 !! 0 = Some m) as Hm by (vm_compute; reflexivity).
  apply (r_deliver sample_file blank_message _ _ _ m sample_socket_answer Hr); [vm_compute; reflexivity | exact Hm | |].
  - split; [reflexivity | cbn; unfold UNIX_SOCKET_MAX_BUFFER_SIZE, sizeof_GenericResponseMessage; lia | discriminate | discriminate].
  - intros _. right. split; [cbn; lia |]. split; [vm_compute; reflexivity |]. intros fd r Hr'.
    assert (socket_sent.2 = ∅) as E by (vm_compute; reflexivity). rewrite E, lookup_empty in Hr'. discriminate Hr'.
Qed.

Lemma front_end_call_returns_witness :
  ∃ n k fe' x, run sample_file blank_message (repeat Receiver n ++ repeat (Thread 1) k) socket_answered = Done fe' ∧
    threads fe' !! 1%nat = Some (Returned x) ∧ return_value x = 7.
Proof.
  destruct (front_end_call_returns sample_file blank_message socket_answered _ _ 1 (SocketWaiting sample_socket_call) sample_socket_call sample_socket_answer
    sample_reachable) as (n & k & fe' & x & _ & _ & E & Hx & Ex); [vm_compute; reflexivity | reflexivity | reflexivity |].
  exists n, k, fe', x. injection Ex as <-. auto.
Defined.

Definition enter_bad (c : call) : outcome front_end := enter 1 c (initial blank_message).

Lemma front_end_calls_witness :
  (∃ o, step_receiver socket_answered = Done o ∧ ∃ fe', o = Some fe') ∧ enter_bad (Close 9) = Fault NullDereference.
Proof.
  destruct (front_end_calls sample_file blank_message) as (Hr & Hb & _). split.
  - destruct (Hr socket_answered _ _ sample_reachable) as ((o & E) & _). exists o. split; [exact E |].
    assert (is_Some (match step_receiver socket_answered with Done (Some f) => Some f | _ => None end)) as H by (vm_compute; eauto).
    rewrite E in H. destruct o as [fe'|]; [eauto | destruct H; discriminate].
  - apply (Hb (initial blank_message) 1%nat (Close 9)).
    + split; [cbn; lia | split; discriminate | exact I].
    + reflexivity.
    + vm_compute. reflexivity.
Defined.

(** The back end takes the descriptor of the message for the new socket's identifier, and the
    library always sends 0. *)
Lemma sockets_share_identifier :
  (b ← BackEnd.receive sample_system (write_message sample_file sample_socket_call blank_message) BackEnd.initial;
   mret (omap (fun x => Some (Sockets.get_socket_id x.2)) (map_to_list (BackEnd.heap b)))) = Done [0].
Proof. vm_compute. reflexivity. Qed.
