(* ===== verification/Network.v ===== *)
(** * The network interface (transport/src/NetworkInterface.cc, RawSocketListener.cc, RawSocketSender.cc)

    What the program does with packets between the dispatcher and the raw sockets: it
    completes and sends them, takes received bytes into a new packet, and finds the
    socket a packet is for. The raw sockets themselves are the operating system's; a
    packet on the wire is its bytes. *)
From Stdlib Require Import String Ascii.
From stdpp Require Import gmap sorting strings pretty.
From S2P Require Import Prelude HeaderMem Inet AddressPort Sockets IPPacket WiFuPacket.

(** ** Sending *)

(** [sendto] reads [get_ip_tot_length()] bytes of the array. *)
Definition send (p : wifu_packet) : outcome (list Z * sockaddr_in) :=
  '(dest, p) ← get_dest_address_port p;
  if get_ip_tot_length (ip p) <=? Z.of_nat (length (payload_ (ip p)))
  then mret (slice (payload_ (ip p)) 0 (Z.to_nat (get_ip_tot_length (ip p))), get_network_struct dest)
  else Fault OutOfBounds.

Definition imodule_network_send (p : wifu_packet) : outcome (list Z * sockaddr_in) :=
  send (with_ip (calculate_and_set_ip_checksum (ip p)) p).

(** ** Receiving *)

(** [recv(fd, packet->get_payload(), MTU, 0)] into the packet the factory created. *)
Definition recv (wire : list Z) (packet : wifu_packet) : nat * wifu_packet :=
  let bytes := take MTU wire in
  (length bytes, with_ip (with_payload (bytes ++ drop (length bytes) (payload_ (ip packet))) (ip packet)) packet).

(** One round of [listener]'s loop: the packet given to the callback, if any. *)
Definition listener (wire : list Z) (created : wifu_packet) : option wifu_packet :=
  let '(ret, packet) := recv wire created in
  if negb (Z.of_nat ret =? get_ip_tot_length (ip packet)) then None else Some packet.

(** The socket of the NetworkReceivePacketEvent, if there is one, and the packet. *)
Definition imodule_network_receive (p : wifu_packet) (h : Sockets.heap) (c : Sockets.collection) : outcome (option nat * wifu_packet) :=
  let '(valid, q) := is_valid_ip_checksum (ip p) in
  let p := with_ip q p in
  if negb valid then mret (None, p) else
  '(remote, p) ← get_source_address_port p;
  '(local, p) ← get_dest_address_port p;
  s ← match get_by_local_and_remote_ap local remote c with
      | Some s => mret (Some s)
      | None => get_by_local_ap local h c
      end;
  mret (s, p).

(** ** From one host to another *)

(** The bytes a field lies in. *)
Definition within (n : nat) (f : field) : bool := forallb (fun o => Nat.ltb o n) (offsets f).

Lemma byte_at_wire m bytes n i :
  bytes = slice m 0 n → (n ≤ length m)%nat → (i < n)%nat → ∀ rest, byte_at (bytes ++ rest) i = byte_at m i.
Proof.
  intros -> Hn Hi rest. unfold byte_at. rewrite lookup_app_l by (rewrite length_slice; lia).
  unfold slice. rewrite drop_0, lookup_take_lt by lia. reflexivity.
Qed.

Lemma get_wire f m n rest : (n ≤ length m)%nat → within n f = true → get f (slice m 0 n ++ rest) = get f m.
Proof.
  intros Hn Hf. apply get_ext. intros o Ho. unfold within in Hf. rewrite forallb_forall in Hf.
  apply (byte_at_wire m _ n); [reflexivity | exact Hn |]. apply Nat.ltb_lt, Hf, list_elem_of_In, Ho.
Qed.

Lemma words_ext n m m' : (∀ i, (i < 2 * n)%nat → byte_at m i = byte_at m' i) → words n m = words n m'.
Proof.
  induction n as [|n IH]; intros H; cbn [words]; [reflexivity |]. rewrite IH by (intros; apply H; lia). f_equal.
  unfold get, le16. cbn [get_bytes]. rewrite !H by lia. reflexivity.
Qed.

(** Without the checksum, packets with the same header bytes have the same checksum input. *)
Lemma byte_at_put_check m m' i :
  length m = MTU → length m' = MTU → (i ∉ offsets f_check → byte_at m i = byte_at m' i) →
  byte_at (put f_check 0 m) i = byte_at (put f_check 0 m') i.
Proof.
  intros Hm Hm' H. destruct (decide (i ∈ offsets f_check)) as [Hin | Hout].
  - unfold f_check. rewrite !put_le16_eq. cbn in Hin. rewrite !elem_of_cons, elem_of_nil in Hin.
    destruct Hin as [-> | [-> | []]]; rewrite !byte_at_insert by (rewrite ?length_insert, ?Hm, ?Hm'; unfold MTU; lia); reflexivity.
  - rewrite !byte_at_put by (reflexivity || (rewrite ?Hm, ?Hm'; reflexivity) || exact Hout). auto.
Qed.

(** A packet as it can be on the wire. *)
Record sendable (p : ip_packet) : Prop := {
  s_wf : IPPacket.wf p;
  s_header : 20 <= get_ip_header_length_bytes p <= get_ip_tot_length p;
  s_length : get_ip_tot_length p <= Z.of_nat MTU }.

Lemma header_words_bytes p : IPPacket.wf p → Z.of_nat (2 * header_words p) = get_ip_header_length_bytes p.
Proof.
  intros H. rewrite header_length_bytes by exact H. pose proof (get_field_bound f_ihl p H) as B. change (2 ^ width f_ihl) with 16 in B.
  unfold header_words, get_ip_header_length_words in *. lia.
Qed.

Section Wire.
Context (p : ip_packet) (created : ip_packet) (Hp : sendable p) (Hcreated : IPPacket.wf created).

Let sent := calculate_and_set_ip_checksum p.
Let n := Z.to_nat (get_ip_tot_length p).
Let wire := slice (payload_ sent) 0 n.
Let received := with_payload (wire ++ drop n (payload_ created)) created.

Lemma sent_wf : IPPacket.wf sent.
Proof. unfold sent, calculate_and_set_ip_checksum. do 2 (apply wf_set_field; [reflexivity |]). apply Hp. Qed.

Lemma sent_field f : disjoint f f_check = true → get_field f sent = get_field f p.
Proof.
  intros H. unfold sent, calculate_and_set_ip_checksum, set_ip_checksum.
  rewrite !get_set_other; try reflexivity; try assumption; [apply Hp |]. apply wf_set_field; [reflexivity | apply Hp].
Qed.

Lemma wire_length : length wire = n.
Proof.
  unfold wire. rewrite length_slice. pose proof sent_wf as [-> _]. pose proof (s_length _ Hp). unfold n. lia.
Qed.

Lemma received_wf : IPPacket.wf received.
Proof.
  destruct Hcreated as [Hl Hb]. pose proof sent_wf as [Hl' Hb']. split; cbn.
  - rewrite length_app, wire_length, length_drop, Hl. pose proof (s_length _ Hp). unfold n, MTU in *. lia.
  - apply Forall_app. split; [apply slice_is_byte, Hb' | apply Forall_drop, Hb].
Qed.

Lemma received_byte i : (i < n)%nat → byte_at (payload_ received) i = byte_at (payload_ sent) i.
Proof.
  intros Hi. apply (byte_at_wire _ wire n); [reflexivity | | exact Hi]. pose proof sent_wf as [-> _]. pose proof (s_length _ Hp). unfold n. lia.
Qed.

Lemma received_field f : within n f = true → disjoint f f_check = true → get_field f received = get_field f p.
Proof.
  intros Hw Hd. rewrite <- (sent_field f Hd). apply get_wire; [| exact Hw]. pose proof sent_wf as [-> _]. pose proof (s_length _ Hp). unfold n. lia.
Qed.

Lemma header_within f : field_ok 20 f = true → within n f = true.
Proof.
  unfold field_ok, within. rewrite !andb_true_iff, !forallb_forall. intros [[H _] _] o Ho. specialize (H o Ho).
  rewrite Nat.ltb_lt in *. pose proof (s_header _ Hp). unfold n. lia.
Qed.

Lemma received_valid : fst (is_valid_ip_checksum received) = true.
Proof.
  rewrite is_valid_ip_checksum_eq by apply received_wf. apply Z.eqb_eq.
  assert (get_ip_checksum received = get_ip_checksum sent) as ->.
  { apply get_wire; [| apply header_within; reflexivity]. pose proof sent_wf as [-> _]. pose proof (s_length _ Hp). unfold n. lia. }
  unfold sent. rewrite calculated_checksum by apply Hp. do 2 f_equal.
  assert (header_words received = header_words p) as ->.
  { unfold header_words, get_ip_header_length_words. rewrite received_field; [reflexivity | apply header_within; reflexivity | reflexivity]. }
  apply words_ext. intros i Hi. apply byte_at_put_check; [apply Hp | apply received_wf |]. intros Hout.
  pose proof (header_words_bytes p (s_wf _ Hp)). pose proof (s_header _ Hp).
  rewrite received_byte by (unfold n; lia). unfold sent, calculate_and_set_ip_checksum, set_ip_checksum, set_field, with_payload. cbn [payload_].
  rewrite !byte_at_put; [reflexivity | | exact Hout | | exact Hout]; rewrite ?length_put, (proj1 (s_wf _ Hp)); reflexivity.
Qed.

End Wire.

(** ** The order of the keys *)

Lemma ascii_compare_spec a b : Ascii.compare a b = N.compare (N_of_ascii a) (N_of_ascii b).
Proof. reflexivity. Qed.

Lemma ascii_compare_refl a : Ascii.compare a a = Eq.
Proof. apply N.compare_refl. Qed.

Lemma leb_trans s1 : ∀ s2 s3, String.leb s1 s2 = true → String.leb s2 s3 = true → String.leb s1 s3 = true.
Proof.
  unfold String.leb. induction s1 as [|a s1 IH]; intros [|b s2] [|c s3]; cbn [String.compare]; try (reflexivity || discriminate).
  rewrite !ascii_compare_spec. specialize (IH s2 s3).
  destruct (N.compare_spec (N_of_ascii a) (N_of_ascii b)) as [E|E|E]; destruct (N.compare_spec (N_of_ascii b) (N_of_ascii c)) as [E'|E'|E'];
    intros H1 H2; try discriminate;
    destruct (N.compare_spec (N_of_ascii a) (N_of_ascii c)) as [F|F|F]; try reflexivity; try (exfalso; lia). auto.
Qed.

Lemma leb_app s a b : String.leb (s +:+ a) (s +:+ b) = String.leb a b.
Proof.
  induction s as [|c s IH]; [reflexivity |]. change (String.leb (String c (s +:+ a)) (String c (s +:+ b)) = String.leb a b).
  unfold String.leb in *. cbn [String.compare]. rewrite ascii_compare_refl. exact IH.
Qed.

#[export] Instance key_le_trans : Transitive key_le.
Proof. intros x y z. apply leb_trans. Qed.
#[export] Instance key_le_total : Total key_le.
Proof. intros x y. apply String.leb_total. Qed.

(** The text of a port other than 0 comes after that of 0. *)
Definition after_zero (s : string) : bool := match s with String c _ => (48 <? N_of_ascii c)%N | EmptyString => false end.

Lemma pretty_after_zero x : ∀ s, (0 < x)%N → after_zero (pretty_N_go x s) = true.
Proof.
  induction (N.lt_wf_0 x) as [x _ IH]; intros s Hx. rewrite pretty_N_go_step by lia.
  destruct (N.eq_0_gt_0_cases (x / 10)) as [E | Hd]; [| apply IH; [apply N.div_lt; lia | exact Hd]].
  rewrite E, pretty_N_go_0. assert (x < 10)%N as Hlt by (apply N.div_small_iff in E; lia). rewrite N.mod_small by exact Hlt.
  destruct x as [|x]; [lia |]. do 4 (destruct x as [x|x|]; try reflexivity; try lia).
Qed.

Lemma port_text_after_zero port : 0 < port → after_zero (port_text port) = true.
Proof. intros H. unfold port_text, pretty, pretty_N. rewrite decide_False by lia. apply pretty_after_zero. lia. Qed.

Lemma no_remote_first local remote :
  0 < get_port remote → String.leb (make_key local default_address_port) (make_key local remote) = true.
Proof.
  intros H. unfold make_key. rewrite leb_app. unfold to_s. pose proof (port_text_after_zero _ H) as Ha. unfold get_port in Ha.
  destruct (port_text (port_ remote)) as [|c s]; [discriminate |]. cbn in Ha. apply N.ltb_lt in Ha.
  change (String.leb (String "0" " 0.0.0.0") (String c (s +:+ " " +:+ address_ remote)) = true).
  unfold String.leb. cbn [String.compare]. rewrite ascii_compare_spec. change (N_of_ascii "0") with 48%N. rewrite (proj2 (N.compare_lt_iff _ _)) by exact Ha. reflexivity.
Qed.

(** [accept] finds the socket with the first key among those the visitor likes. *)
Lemma accept_first likes (f : socket → bool) h c :
  coherent h c → (∀ k p s, c !! k = Some p → h !! p = Some s → likes s = Done (f s)) →
  ∃ r, accept likes h c = Done r ∧
    match r with
    | Some p => ∃ k s, c !! k = Some p ∧ h !! p = Some s ∧ f s = true ∧
        ∀ k' p' s', c !! k' = Some p' → h !! p' = Some s' → f s' = true → String.leb k k' = true
    | None => ∀ k p s, c !! k = Some p → h !! p = Some s → f s = false
    end.
Proof.
  intros Hc Hl. unfold accept.
  assert (StronglySorted key_le (traversal c)) as Hs by (apply (StronglySorted_merge_sort key_le)).
  assert (∀ l, (∀ k p, (k, p) ∈ l → c !! k = Some p) → StronglySorted key_le l → ∃ r, visit likes h l = Done r ∧
    match r with
    | Some p => ∃ k s, (k, p) ∈ l ∧ h !! p = Some s ∧ f s = true ∧
        ∀ k' p' s', (k', p') ∈ l → h !! p' = Some s' → f s' = true → String.leb k k' = true
    | None => ∀ k p s, (k, p) ∈ l → h !! p = Some s → f s = false
    end) as V.
  { clear Hs. induction l as [|[k p] l IH]; intros Hin Hs; cbn [visit].
    { exists None. split; [reflexivity |]. intros k p s []%not_elem_of_nil. }
    assert (c !! k = Some p) as Hk by (apply Hin; left). destruct (Hc k p Hk) as (s & Hps & _). rewrite Hps. cbn [deref mbind outcome_bind].
    rewrite (Hl k p s Hk Hps). cbn [mbind outcome_bind]. apply StronglySorted_inv in Hs as [Hs Hfirst]. rewrite Forall_forall in Hfirst.
    destruct (f s) eqn:E.
    - exists (Some p). split; [reflexivity |]. exists k, s. split; [left |]. split; [exact Hps |]. split; [exact E |].
      intros k' p' s' [[= -> ->] | Hin']%elem_of_cons _ _; [destruct (String.leb_total k k); assumption | exact (Hfirst _ Hin')].
    - destruct IH as (r & -> & Hr); [intros; apply Hin; right; assumption | exact Hs |]. exists r. split; [reflexivity |]. destruct r as [p'|].
      + destruct Hr as (k' & s' & H1 & H2 & H3 & H4). exists k', s'. split; [right; exact H1 |]. split; [exact H2 |]. split; [exact H3 |].
        intros k2 p2 s2 [[= -> ->] | Hin']%elem_of_cons Hs2 Hf2; [congruence | eauto].
      + intros k' p' s' [[= -> ->] | Hin']%elem_of_cons Hs'; [congruence | eauto]. }
  destruct (V (traversal c)) as (r & E & Hr); [intros; apply elem_of_traversal; assumption | exact Hs |]. exists r. split; [exact E |].
  destruct r as [p|].
  - destruct Hr as (k & s & H1 & H2 & H3 & H4). exists k, s. split; [apply elem_of_traversal, H1 |]. split; [exact H2 |]. split; [exact H3 |].
    intros k' p' s' Hk'. apply H4. apply elem_of_traversal, Hk'.
  - intros k p s Hk. apply (Hr k p s). apply elem_of_traversal, Hk.
Qed.

(** ** Demultiplexing *)

Definition local_of (p : ip_packet) : address_port := AddressPort_of_sockaddr {| sin_addr := get_ip_destination_address p; sin_port := get_field f_dport p |}.
Definition remote_of (p : ip_packet) : address_port := AddressPort_of_sockaddr {| sin_addr := get_ip_source_address p; sin_port := get_field f_sport p |}.

(** A packet whose address-ports were not asked for yet. *)
Definition fresh (p : wifu_packet) : Prop := IPPacket.wf (ip p) ∧ source_ p = None ∧ dest_ p = None.

Lemma port_u16 p f : IPPacket.wf p → f = f_sport ∨ f = f_dport → u16 (get_field f p) = get_field f p.
Proof. intros Hwf [-> | ->]; apply u16_small; [exact (get_field_bound f_sport p Hwf) | exact (get_field_bound f_dport p Hwf)]. Qed.

(** The socket has the packet's destination as its local address-port, or its port on every
    address. *)
Definition bound_to (local : address_port) (s : socket) : bool :=
  match local_ s with
  | Some a => (get_port local =? get_port a) && (String.eqb (get_address local) (get_address a) || String.eqb (get_address a) "0.0.0.0"%string)
  | None => false
  end.

Lemma receive_eq p h c :
  fresh p → fst (is_valid_ip_checksum (ip p)) = true →
  ∃ p', ip p' = snd (is_valid_ip_checksum (ip p)) ∧ imodule_network_receive p h c =
    s ← (match c !! make_key (local_of (ip p)) (remote_of (ip p)) with
         | Some s => mret (Some s) | None => get_by_local_ap (local_of (ip p)) h c end);
    mret (s, p').
Proof.
  intros (Hwf & Hs & Hd) Hv. unfold imodule_network_receive. unfold is_valid_ip_checksum in Hv |- *. cbn [fst snd] in Hv |- *. rewrite Hv. cbn [negb].
  set (q := set_ip_checksum _ _).
  assert (IPPacket.wf q) as Hq by (unfold q, calculate_and_set_ip_checksum; do 3 (apply wf_set_field; [reflexivity |]); exact Hwf).
  assert (∀ f, disjoint f f_check = true → get_field f q = get_field f (ip p)) as Hf.
  { intros f H. unfold q, calculate_and_set_ip_checksum, set_ip_checksum. rewrite !get_set_other; try reflexivity; try assumption.
    all: repeat (apply wf_set_field; [reflexivity |]); exact Hwf. }
  unfold get_source_address_port, get_source_port, get_ip_source_address_s, get_ip_source_address. cbn [source_ with_ip ip]. rewrite Hs, !Hf by reflexivity.
  rewrite new_AddressPort_ntop by apply (get_field_bound f_saddr _ Hwf). cbn [mbind outcome_bind mret outcome_ret].
  unfold get_dest_address_port, get_destination_port, get_ip_destination_address_s, get_ip_destination_address. cbn [dest_ ip with_ip]. rewrite Hd, !Hf by reflexivity.
  rewrite new_AddressPort_ntop by apply (get_field_bound f_daddr _ Hwf). cbn [mbind outcome_bind mret outcome_ret].
  rewrite !port_u16 by auto. unfold get_by_local_and_remote_ap, local_of, remote_of, get_ip_source_address, get_ip_destination_address.
  eexists. split; [| reflexivity]. reflexivity.
Qed.

Lemma matches_bound local h c :
  coherent h c → ∀ k p s, c !! k = Some p → h !! p = Some s → matches_local local s = Done (bound_to local s).
Proof.
  intros Hc k p s Hk Hs. destruct (Hc k p Hk) as (s' & Hs' & Hkey & _). assert (s' = s) as -> by congruence.
  unfold matches_local, bound_to, get_key, get_local_address_port in *. destruct (local_ s); [reflexivity | discriminate].
Qed.

(** The key of a socket bound to exactly this address-port. *)
Lemma key_of_bound local h c k p s a :
  coherent h c → c !! k = Some p → h !! p = Some s → local_ s = Some a → AddressPort.equal a local = true → k = make_key local (remote_ s).
Proof.
  intros Hc Hk Hs Ha He. destruct (Hc k p Hk) as (s' & Hs' & Hkey & _). assert (s' = s) as -> by congruence.
  unfold get_key, get_local_address_port in Hkey. rewrite Ha in Hkey. cbn in Hkey. injection Hkey as <-.
  unfold make_key. rewrite (equal_to_s _ _ He). reflexivity.
Qed.

(** C25: every packet reaches the right socket. A packet with a wrong header checksum is
    dropped. A valid one goes to the socket of its connection, if there is one; otherwise to
    the first, in the order of their keys, of the sockets bound to its destination, and to none
    if there is none. In particular a listening socket gets the packets of new connections
    although the sockets of other connections are bound to the same address-port. *)
Theorem network_demultiplexes p h c (local := local_of (ip p)) (remote := remote_of (ip p)) :
  fresh p → coherent h c →
  ∃ r p', imodule_network_receive p h c = Done (r, p') ∧
    (fst (is_valid_ip_checksum (ip p)) = false → r = None) ∧
    (fst (is_valid_ip_checksum (ip p)) = true →
      (∀ s, c !! make_key local remote = Some s → r = Some s) ∧
      (c !! make_key local remote = None →
        match r with
        | Some s => ∃ k sk, c !! k = Some s ∧ h !! s = Some sk ∧ bound_to local sk = true ∧
            ∀ k' s' sk', c !! k' = Some s' → h !! s' = Some sk' → bound_to local sk' = true → String.leb k k' = true
        | None => ∀ k s sk, c !! k = Some s → h !! s = Some sk → bound_to local sk = false
        end ∧
        ∀ k l skl a, c !! k = Some l → h !! l = Some skl → local_ skl = Some a → AddressPort.equal a local = true →
          remote_ skl = default_address_port →
          (∀ k' s sk, c !! k' = Some s → h !! s = Some sk → bound_to local sk = true → s ≠ l →
             ∃ a', local_ sk = Some a' ∧ AddressPort.equal a' local = true ∧ 0 < get_port (remote_ sk)) →
          r = Some l)).
Proof.
  intros Hp Hc. destruct (fst (is_valid_ip_checksum (ip p))) eqn:Hv.
  2: { unfold imodule_network_receive. destruct (is_valid_ip_checksum (ip p)) as [v q]. cbn in Hv. subst v. cbn [negb].
       do 2 eexists. split; [reflexivity |]. split; [reflexivity | discriminate]. }
  destruct (receive_eq p h c Hp Hv) as (p' & _ & ->). fold local remote.
  destruct (accept_first (matches_local local) (bound_to local) h c Hc (matches_bound local h c Hc)) as (r & E & Hr).
  destruct (c !! make_key local remote) as [s|]; cbn [mbind outcome_bind mret outcome_ret].
  { do 2 eexists. split; [reflexivity |]. split; [discriminate |]. intros _. split; [intros s' [= <-]; reflexivity | discriminate]. }
  unfold get_by_local_ap. rewrite E. cbn [mbind outcome_bind]. exists r, p'. split; [reflexivity |]. split; [discriminate |].
  intros _. split; [discriminate |]. intros _. split; [exact Hr |]. intros k l skl a Hk Hl Ha He Hrem Hothers.
  assert (bound_to local skl = true) as Hbl.
  { unfold bound_to. rewrite Ha. unfold AddressPort.equal in He. apply andb_true_iff in He as [E1%String.eqb_eq E2%Z.eqb_eq].
    unfold get_port, get_address. rewrite E1, E2, Z.eqb_refl, String.eqb_refl. reflexivity. }
  destruct r as [s|]; [| rewrite (Hr k l skl Hk Hl) in Hbl; discriminate]. f_equal.
  destruct Hr as (ks & sk & Hks & Hsk & Hb & Hmin). destruct (decide (s = l)) as [-> | Hne]; [reflexivity |]. exfalso.
  destruct (Hothers ks s sk Hks Hsk Hb Hne) as (a' & Ha' & He' & Hport).
  pose proof (key_of_bound local h c ks s sk a' Hc Hks Hsk Ha' He') as ->. pose proof (key_of_bound local h c k l skl a Hc Hk Hl Ha He) as ->.
  pose proof (Hmin _ l skl Hk Hl Hbl) as H1. rewrite Hrem in *. pose proof (no_remote_first local (remote_ sk) Hport) as H2.
  rewrite (String.leb_antisym _ _ H1 H2) in Hks. congruence.
Qed.

(** What the listener of the other host makes of packet [p]: a fresh packet with a valid
    checksum and the same bytes within the length, the checksum field apart. *)
Record crossed (p q : wifu_packet) : Prop := {
  cr_fresh : fresh q;
  cr_valid : fst (is_valid_ip_checksum (ip q)) = true;
  cr_field : ∀ f, within (Z.to_nat (get_ip_tot_length (ip p))) f = true → disjoint f f_check = true → get_field f (ip q) = get_field f (ip p);
  cr_bytes : ∀ off len, 12 <= Z.of_nat off → Z.of_nat (off + len) <= get_ip_tot_length (ip p) →
    slice (payload_ (ip q)) off len = slice (payload_ (ip p)) off len }.

Lemma crossing p created :
  fresh p → sendable (ip p) → fresh created →
  ∃ wire q, imodule_network_send p = Done (wire, get_network_struct (local_of (ip p))) ∧ listener wire created = Some q ∧ crossed p q.
Proof.
  intros (Hwf & Hs & Hd) Hsend (Hcw & Hcs & Hcd). unfold imodule_network_send, send.
  pose proof (sent_wf (ip p) Hsend) as Hsw. set (sent := calculate_and_set_ip_checksum (ip p)) in *.
  assert (get_ip_tot_length sent = get_ip_tot_length (ip p)) as Htl by (apply (sent_field (ip p) Hsend); reflexivity).
  unfold get_dest_address_port, get_destination_port, get_ip_destination_address_s, get_ip_destination_address. cbn [dest_ with_ip ip]. rewrite Hd.
  rewrite !(sent_field (ip p) Hsend) by reflexivity. rewrite new_AddressPort_ntop by apply (get_field_bound f_daddr _ Hwf).
  cbn [mbind outcome_bind mret outcome_ret ip with_ip]. rewrite Htl, (proj1 Hsw).
  rewrite (proj2 (Z.leb_le _ _) (s_length _ Hsend)). rewrite port_u16 by auto.
  set (n := Z.to_nat (get_ip_tot_length (ip p))). set (wire := slice (payload_ sent) 0 n).
  set (received := with_payload (wire ++ drop n (payload_ (ip created))) (ip created)).
  pose proof (received_wf (ip p) (ip created) Hsend Hcw) as Hrw. pose proof (wire_length (ip p) Hsend) as Hwl.
  pose proof (λ f, received_field (ip p) (ip created) Hsend f) as Hrf. pose proof (header_within (ip p) Hsend) as Hhw.
  fold sent n wire received in Hrw, Hwl, Hrf, Hhw.
  assert (listener wire created = Some (with_ip received created)) as El.
  { unfold listener, recv. rewrite take_ge by (rewrite Hwl; pose proof (s_length _ Hsend); unfold n; lia). rewrite Hwl.
    cbn [ip with_ip]. fold received. change (get_ip_tot_length received) with (get_field f_tot_len received).
    rewrite Hrf by (reflexivity || (apply Hhw; reflexivity)). change (get_field f_tot_len (ip p)) with (get_ip_tot_length (ip p)).
    unfold n. rewrite Z2Nat.id by (pose proof (s_header _ Hsend); lia). rewrite Z.eqb_refl. reflexivity. }
  exists wire, (with_ip received created). split; [reflexivity |]. split; [exact El |].
  split; [split; [exact Hrw | split; assumption] | exact (received_valid (ip p) (ip created) Hsend Hcw) | exact Hrf |].
  intros off len Ho Hl. apply list_eq. intros i. unfold slice. destruct (decide (i < len)%nat) as [Hi | Hi];
    [| rewrite !lookup_take_ge by lia; reflexivity].
  rewrite !lookup_take_lt, !lookup_drop by exact Hi. cbn [ip with_ip]. unfold received. cbn [payload_ with_payload].
  rewrite lookup_app_l by (rewrite Hwl; unfold n; lia). unfold wire, slice. rewrite drop_0, lookup_take_lt by (unfold n; lia).
  unfold sent, calculate_and_set_ip_checksum, set_ip_checksum, set_field, with_payload. cbn [payload_].
  rewrite !lookup_put; [reflexivity |..]; cbn; rewrite !elem_of_cons, elem_of_nil; lia.
Qed.

(** C26: a packet survives the wire. What [imodule_network_send] writes, the listener of the
    other host accepts, and it arrives with a valid checksum and otherwise every field and
    byte as it was, addressed by its destination; so [imodule_network_receive] there goes by
    the addresses and ports the sender set. *)
Theorem network_round_trip p created :
  fresh p → sendable (ip p) → 24 <= get_ip_tot_length (ip p) → fresh created →
  ∃ wire q, imodule_network_send p = Done (wire, get_network_struct (local_of (ip p))) ∧ listener wire created = Some q ∧ fresh q ∧
    fst (is_valid_ip_checksum (ip q)) = true ∧
    (∀ f, within (Z.to_nat (get_ip_tot_length (ip p))) f = true → disjoint f f_check = true → get_field f (ip q) = get_field f (ip p)) ∧
    (∀ off len, 12 <= Z.of_nat off → Z.of_nat (off + len) <= get_ip_tot_length (ip p) →
       slice (payload_ (ip q)) off len = slice (payload_ (ip p)) off len) ∧
    local_of (ip q) = local_of (ip p) ∧ remote_of (ip q) = remote_of (ip p).
Proof.
  intros Hp Hsend H24 Hcreated. destruct (crossing p created Hp Hsend Hcreated) as (wire & q & E & El & [Hq Hv Hf Hb]).
  exists wire, q. split; [exact E |]. split; [exact El |]. split; [exact Hq |]. split; [exact Hv |]. split; [exact Hf |]. split; [exact Hb |].
  assert (∀ f, field_ok 24 f = true → within (Z.to_nat (get_ip_tot_length (ip p))) f = true) as H24'.
  { unfold field_ok, within. intros f. rewrite !andb_true_iff, !forallb_forall. intros [[H _] _] o Ho. specialize (H o Ho).
    rewrite Nat.ltb_lt in *. lia. }
  unfold local_of, remote_of, get_ip_source_address, get_ip_destination_address.
  rewrite !Hf by (reflexivity || (apply H24'; reflexivity)). split; reflexivity.
Qed.

(** ** A concrete packet and collection *)

(** 24 bytes from 10.0.0.9, port 5000, to 10.0.0.1, port 80. *)
Definition sample_ip : ip_packet :=
  set_field f_dport 80 (set_field f_sport 5000 (set_ip_destination_address 167772161 (set_ip_source_address 167772169
    (set_ip_header_length_words 5 (set_ip_tot_length 24 zero_packet))))).
Definition sample : wifu_packet := {| ip := sample_ip; source_ := None; dest_ := None |}.
Definition blank : wifu_packet := {| ip := zero_packet; source_ := None; dest_ := None |}.

Lemma sample_ip_wf : IPPacket.wf sample_ip.
Proof. unfold sample_ip. do 5 (apply wf_set_field; [reflexivity |]). apply wf_set_ip_tot_length, wf_zero_packet. Qed.

Lemma sample_fresh : fresh sample.
Proof. split; [apply sample_ip_wf | split; reflexivity]. Qed.
Lemma blank_fresh : fresh blank.
Proof. split; [apply wf_zero_packet | split; reflexivity]. Qed.
Lemma sample_sendable : sendable sample_ip.
Proof.
  assert (get_ip_header_length_bytes sample_ip = 20) as Hh by (vm_compute; reflexivity).
  assert (get_ip_tot_length sample_ip = 24) as Ht by (vm_compute; reflexivity).
  split; [apply sample_ip_wf | rewrite Hh, Ht; lia | rewrite Ht; unfold MTU; lia].
Qed.

Lemma network_round_trip_witness :
  ∃ wire q, imodule_network_send sample = Done (wire, {| sin_addr := 167772161; sin_port := 80 |}) ∧ length wire = 24%nat ∧
    listener wire blank = Some q ∧ fst (is_valid_ip_checksum (ip q)) = true ∧ get_source_port q = 5000.
Proof.
  destruct (network_round_trip sample blank sample_fresh sample_sendable) as (wire & q & E & El & _ & Hv & Hf & _);
    [vm_compute; discriminate | exact blank_fresh |].
  exists wire, q. split; [exact E |]. split; [| split; [exact El |]; split; [exact Hv |]].
  - assert (is_Some (match imodule_network_send sample with Done (w, _) => Some w | _ => None end)) as [w' Ew] by (vm_compute; eexists; reflexivity).
    assert (length <$> (match imodule_network_send sample with Done (w, _) => Some w | _ => None end) = Some 24%nat) as Hl
      by (vm_compute; reflexivity).
    rewrite E in Hl. injection Hl as Hl. exact Hl.
  - unfold get_source_port. rewrite Hf by (vm_compute; reflexivity). vm_compute. reflexivity.
Defined.

(** A listening socket on 10.0.0.1:80 and a connection of it. *)
Definition sample_sockets : outcome (Sockets.heap * Sockets.collection) :=
  let local := address_port_of 167772161 80 in
  let h := {[ 1%nat := new_Socket 3 2 1 6 local default_address_port; 2%nat := new_Socket 4 2 1 6 local (address_port_of 167772170 4000) ]} in
  '(h, c) ← Sockets.push 2 h ∅; Sockets.push 1 h c.
Definition sample_pair : Sockets.heap * Sockets.collection := match sample_sockets with Done x => x | Fault _ => (∅, ∅) end.

Lemma sample_pair_coherent : coherent (fst sample_pair) (snd sample_pair).
Proof.
  assert (map_Forall (fun k p => match fst sample_pair !! p with
    | Some s => (match get_key s with Done k' => k = k' | Fault _ => False end) ∧ observed_ s = true | None => False end) (snd sample_pair)) as H
    by (apply map_Forall_to_list; vm_compute; repeat (constructor; [split; reflexivity |]); constructor).
  intros k p Hk. specialize (H k p Hk). cbn in H. destruct (fst sample_pair !! p) as [s|]; [| destruct H]. exists s. split; [reflexivity |].
  destruct H as [H1 H2]. destruct (get_key s); [subst; auto | destruct H1].
Qed.

(** The packet as it arrives goes to the listening socket. *)
Definition sample_arrived : wifu_packet := {| ip := calculate_and_set_ip_checksum sample_ip; source_ := None; dest_ := None |}.

Lemma sample_arrived_fresh : fresh sample_arrived.
Proof. split; [apply sent_wf, sample_sendable | split; reflexivity]. Qed.

Lemma network_demultiplexes_witness :
  ∃ p', imodule_network_receive sample_arrived (fst sample_pair) (snd sample_pair) = Done (Some 1%nat, p').
Proof.
  destruct (network_demultiplexes sample_arrived (fst sample_pair) (snd sample_pair) sample_arrived_fresh sample_pair_coherent)
    as (r & p' & Er & _ & H).
  exists p'. rewrite Er. do 2 f_equal.
  destruct H as [_ H2]; [vm_compute; reflexivity |]. destruct H2 as [_ H3]; [vm_compute; reflexivity |].
  apply (H3 (make_key (address_port_of 167772161 80) default_address_port) 1%nat
    (add_observer (new_Socket 3 2 1 6 (address_port_of 167772161 80) default_address_port)) (address_port_of 167772161 80)).
  1-4: vm_compute; reflexivity.
  1: reflexivity.
  intros k s sk Hk Hs _ Hne.
  assert (map_Forall (fun k s => s = 1%nat ∨ s = 2%nat) (snd sample_pair)) as Hall
    by (apply map_Forall_to_list; vm_compute; repeat (constructor; [auto |]); constructor).
  destruct (Hall k s Hk) as [-> | ->]; [contradiction |].
  assert (fst sample_pair !! 2%nat = Some (add_observer (new_Socket 4 2 1 6 (address_port_of 167772161 80) (address_port_of 167772170 4000)))) as E2
    by (vm_compute; reflexivity).
  assert (sk = add_observer (new_Socket 4 2 1 6 (address_port_of 167772161 80) (address_port_of 167772170 4000))) as -> by congruence.
  eexists. split; [reflexivity |]. split; vm_compute; reflexivity.
Defined.

(** With IP options the ports are read where a header of five words ends: a valid packet with
    a sixth word is not addressed by its ports. *)
Lemma options_read_as_ports :
  let p := set_field (be16 24) 5000 (set_field (be16 26) 80 (set_ip_header_length_words 6 (set_ip_tot_length 28 zero_packet))) in
  local_of p = address_port_of 0 0.
Proof. vm_compute. reflexivity. Qed.
