(* ===== verification/Receiver.v ===== *)
(** * The receiving side of a transfer

    TCPTahoe's receive path as a whole: a connection in ESTABLISHED with nothing of its own
    outstanding takes segments in any order, with repetitions, while the application makes
    receive calls (TCPTahoe::icontext_receive_packet, icontext_receive,
    icontext_receive_buffer_not_empty, with the reliability context, the connection manager
    and the congestion control they call). The reliability context is any one that meets the
    interface [DeliveringState]: Tahoe's own or the delayed-acknowledgement one. *)
From stdpp Require Import gmap strings.
From S2P Require Import Prelude SeqMath Double HeaderMem Inet AddressPort Sockets IPPacket TCPOptions WiFuPacket TCPPacket PacketBuffer.
From S2P Require Import Events Outstanding Congestion Reliability Stamps DelayedAck ConnManager BackLog ProtocolState Tahoe.

(** ** The interface of a reliability context that delivers *)

Section Result.
Context {C : Type} `{Reliability C} (ack : nat → handler C unit) `{!Acknowledger ack}.
Context (base : Z) (pos : packet_ref → Z) (stream : Z → Z).

(** What [handle_data] did with segment [r]: RCV.NXT moved from [f] over what is now
    continuous to the first gap [e]. *)
Record took (a f e : Z) (r : packet_ref) (w w' : env C) : Prop := {
  took_receiving : receiving ack base pos stream a e w';
  took_order : f ≤ e;
  took_all : ∀ x, f ≤ x < e → x ∈ held pos f (rc (ctx w)) ∨ pos r ≤ x < finish pos r;
  took_gap : ¬ (e ∈ held pos f (rc (ctx w)) ∨ pos r ≤ e < finish pos r);
  took_held : ∀ x, x ∈ held pos e (rc (ctx w')) ↔ e ≤ x ∧ (x ∈ held pos f (rc (ctx w)) ∨ pos r ≤ x < finish pos r);
  took_buffer : receive_buffer_ (sock w') = (receive_buffer_ (sock w) ++ stretch stream f e)%list;
  took_sock : sock w' = with_buffers (receive_buffer_ (sock w')) (send_buffer_ (sock w)) (sock w);
  took_odc : odc (rc (ctx w')) = odc (rc (ctx w)) ∧ receive_event_ (rc (ctx w')) = receive_event_ (rc (ctx w));
  took_trace : ∃ t, trace (io w') = (trace (io w) ++ t)%list ∧ Forall (fun x => silent x = true) t }.

Lemma delivered_took a f e s r w w1 w' t :
  delivered ack base pos stream a f e s r w w1 → rc (ctx w') = rc (ctx w1) → sock w' = sock w1 → ack_ok (ctx w') →
  trace (io w') = (trace (io w1) ++ t)%list → Forall (fun x => silent x = true) t → took a f e r w w'.
Proof.
  intros [Hr Hfe Hb Hall Hgap Hheld Hs Hsk _ (Ho & _ & He) Ht] Hrc Hsock Hk Ht' Hsil.
  split; rewrite ?Hrc, ?Hsock; try assumption.
  - apply (receiving_ext ack base pos stream a e w1); assumption.
  - intros x Hx. specialize (Hall x). rewrite elem_of_interval, elem_of_union, elem_of_interval in Hall.
    destruct (Hall Hx); [left; assumption | right; lia].
  - rewrite elem_of_union, elem_of_interval in Hgap. intros [Hin | Hin]; apply Hgap; [left; exact Hin | right; lia].
  - intros x. rewrite Hheld, elem_of_difference, elem_of_union, !elem_of_interval. unfold held.
    rewrite elem_of_pending. split; [intros ([(? & ?) | ?] & ?) | intros (? & [(? & ?) | ?])].
    + split; [lia | left; auto].
    + split; [lia | right; lia].
    + split; [left; auto | lia].
    + split; [right; lia | lia].
  - auto.
  - rewrite Ht', Ht, <- app_assoc. eexists. split; [reflexivity |]. apply Forall_app. split; [| exact Hsil].
    destruct (decide _); repeat constructor.
Qed.

End Result.

Class DeliveringState (C : Type) `{ReliabilityState C} := {
  dl_ack : nat → handler C unit;
  dl_acknowledger :: Acknowledger dl_ack;
  dl_data : nat → packet_ref → handler C unit;
  dl_receive_packet : ∀ s r, rs_receive_packet s r = Reliability.state_receive_packet dl_ack dl_data s r;
  dl_receive : ∀ e, rs_receive e = Reliability.state_receive dl_ack e;
  dl_receive_buffer_not_empty : rs_receive_buffer_not_empty = Reliability.state_receive_buffer_not_empty dl_ack;
  dl_delivers : ∀ base pos stream a f r s w,
    receiving dl_ack base pos stream a f w → Z.of_nat (length (receive_buffer_ (sock w))) < 2 ^ 30 →
    placed base pos f r → PacketBuffer.carries pos stream r → finish pos r ≤ a + MAX_TCP_RECEIVE_WINDOW_SIZE →
    ∃ e w', dl_data s r w = Done (tt, w') ∧ took dl_ack base pos stream a f e r w w' }.

Lemma acknowledged_took {C} `{Reliability C} (ack : nat → handler C unit) `{!Acknowledger ack} base pos stream a f e s r w w1 :
  delivered ack base pos stream a f e s r w w1 → ∃ w', ack s w1 = Done (tt, w') ∧ took ack base pos stream a f e r w w'.
Proof.
  intros Hd. pose proof (del_receiving _ _ _ _ _ _ _ _ _ _ _ Hd) as Hr1.
  destruct (ack_spec s w1 (rcv_local _ _ _ _ _ _ _ Hr1) (rcv_ack _ _ _ _ _ _ _ Hr1)) as (w' & t & E & Hk & Hrc & Hsk & _ & Ht & Hsil).
  exists w'. split; [exact E |]. apply (delivered_took ack base pos stream a f e s r w w1 w' t); assumption.
Qed.

#[export] Program Instance tahoe_delivers : DeliveringState rc_context := {|
  dl_ack := base_create_and_dispatch_ack; dl_data := base_handle_data base_create_and_dispatch_ack;
  dl_receive_packet := fun _ _ => eq_refl; dl_receive := fun _ => eq_refl; dl_receive_buffer_not_empty := eq_refl |}.
Next Obligation.
  intros base pos stream a f r s w Hr Hb Hp Hc He.
  destruct (handle_data_core base_create_and_dispatch_ack base pos stream a f r s w Hr Hb Hp Hc He) as (e & w1 & E & Hd).
  destruct (acknowledged_took _ base pos stream a f e s r w w1 Hd) as (w' & E' & Ht).
  exists e, w'. split; [exact (eq_trans E E') | exact Ht].
Qed.

#[export] Program Instance delayed_delivers : DeliveringState delayed_context := {|
  dl_ack := create_and_dispatch_ack; dl_data := DelayedAck.handle_data;
  dl_receive_packet := fun _ _ => eq_refl; dl_receive := fun _ => eq_refl; dl_receive_buffer_not_empty := eq_refl |}.
Next Obligation.
  intros base pos stream a f r s w Hr Hb Hp Hc He.
  set (w0 := {| ctx := set_delay_count (get_delay_based_on_seq_num (get_tcp_sequence_number (pkt r)) (ctx w)) (ctx w);
                sock := sock w; io := io w |}).
  assert (receiving create_and_dispatch_ack base pos stream a f w0) as Hr0.
  { apply (receiving_ext _ base pos stream a f w w0 Hr); [reflexivity | reflexivity |]. destruct (rcv_ack _ _ _ _ _ _ _ Hr). split; auto. }
  destruct (handle_data_core create_and_dispatch_ack base pos stream a f r s w0 Hr0 Hb Hp Hc He) as (e & w1 & E & Hd).
  destruct (acknowledged_took _ base pos stream a f e s r w0 w1 Hd) as (w' & E' & Ht).
  exists e, w'. split; [unfold DelayedAck.handle_data; run; exact (eq_trans E E') | destruct Ht; split; assumption].
Qed.

(** ** The receiver *)

(** The stream position of a segment, by its sequence number, near position [f0]. *)
Definition stream_position (base f0 : Z) (r : packet_ref) : Z := f0 + i32 (seq_of r - seq_at base f0).

Lemma stream_position_seq base f0 r : is_u32 (seq_of r) → seq_of r = seq_at base (stream_position base f0 r).
Proof. unfold stream_position, seq_at. intros. word_lia. Qed.

Lemma stream_position_at base f0 x r : seq_of r = seq_at base x → - 2 ^ 31 ≤ x - f0 < 2 ^ 31 → stream_position base f0 r = x.
Proof. unfold stream_position, seq_at. intros ->. word_lia. Qed.

(** The bytes the application gets from the responses among some effects. *)
Definition answers (t : list effect) : list Z :=
  concat (map (fun x => match x with Dispatch (ResponseEvent r) => res_buffer r | _ => [] end) t).

Lemma answers_app t t' : answers (t ++ t') = (answers t ++ answers t')%list.
Proof. unfold answers. rewrite map_app. apply concat_app. Qed.

Lemma answers_silent t : Forall (fun x => silent x = true) t → answers t = [].
Proof.
  induction 1 as [|x t Hx _ IH]; [reflexivity |]. unfold answers in *. cbn [map concat]. rewrite IH.
  destruct x as [e | [] | | ]; try reflexivity; discriminate Hx.
Qed.

(** Send sequence variables of a side that has sent everything and got every acknowledgement. *)
Definition idle (v : Z) (o : outstanding) : Prop := snd_una_ o = v ∧ snd_nxt_ o = v ∧ snd_max_ o = v.

(** The congestion control of such a side. *)
Record resting (v : Z) (g : cc_context) : Prop := {
  rest_idle : idle v (Congestion.odc g);
  rest_mss : get_mss g = MSS;
  rest_windows : windows_ok g;
  rest_probe : 0 ≤ probe_timer_duration_ g }.

Lemma no_longer_idle v : less_than v v = false ∧ less_than_or_equal v v = true.
Proof. unfold less_than_or_equal. rewrite less_than_irrefl, Z.eqb_refl. auto. Qed.

(** An acknowledgement that acknowledges nothing new leaves the congestion control at rest:
    at most the send window and the probe timer change. *)
Lemma resting_receive v s p (w : env cc_context) :
  resting v (ctx w) → send_buffer_ (sock w) = [] → wf p → (is_tcp_ack p = true → get_tcp_ack_number p = v) →
  ∃ w' tr, Congestion.state_receive_packet s p w = Done (tt, w') ∧ resting v (ctx w') ∧ sock w' = sock w ∧
    trace (io w') = (trace (io w) ++ tr)%list ∧ Forall (fun x => silent x = true) tr.
Proof.
  intros [(Hu & Hn & Hm) Hmss [Hwnd Hcwnd] Hprobe] Hbuf Hp Hack. destruct (no_longer_idle v) as [Hlt Hle].
  unfold Congestion.state_receive_packet. run. destruct (is_tcp_ack p).
  2: { cbn [andb]. run. exists w, []. rewrite app_nil_r. split; [reflexivity |]. split; [| auto]. split; [split; [exact Hu | split; [exact Hn | exact Hm]] | exact Hmss | split; [exact Hwnd | exact Hcwnd] | exact Hprobe]. }
  rewrite (Hack eq_refl). unfold Outstanding.get_snd_una, Outstanding.get_snd_max, between_equal, between_equal_right.
  rewrite Hu, Hm, Hlt, Hle. cbn [andb]. run. cbn [Congestion.set_snd_una Congestion.with_odc Congestion.odc Outstanding.set_snd_una snd_una_].
  unfold Outstanding.get_snd_nxt. cbn [Outstanding.set_snd_una snd_nxt_]. rewrite Hn, Hlt. run.
  set (g := update_send_window p _).
  assert (resting v g ∧ probe_timer_ g = probe_timer_ (ctx w)) as [Hg Hpt].
  { unfold g, update_send_window. set (g0 := Congestion.set_snd_una v (ctx w)).
    assert (resting v g0) as [Hi0 Hm0 [Hw0 Hc0] Hp0] by (split; [split; [reflexivity | split; [exact Hn | exact Hm]] | exact Hmss | split; [exact Hwnd | exact Hcwnd] | exact Hprobe]).
    destruct (_ || _); (split; [| reflexivity]); split; try assumption; [split; [| exact Hc0] | split; assumption].
    cbn [Congestion.set_send_window snd_wnd_]. pose proof (u16_range (get_tcp_receive_window_size p)). unfold is_u16 in *. lia. }
  clearbody g. destruct Hg as [Hi0 Hm0 Hw0 Hp0]. pose proof Hi0 as (Hu0 & Hn0 & Hmx0).
  assert (get_num_outstanding g = 0) as Hout
    by (unfold get_num_outstanding, Outstanding.get_num_outstanding, Outstanding.get_snd_nxt, Outstanding.get_snd_una; rewrite Hu0, Hn0, Z.sub_diag; reflexivity).
  rewrite Hout. destruct (Z.leb_spec (get_max_allowed_to_send g) 0) as [Hz | Hz].
  - destruct (probe_timer_ g) as [timer|] eqn:Et.
    + run. eexists _, []. rewrite app_nil_r. split; [reflexivity |]. split; [split; assumption | auto].
    + rewrite new_timeout_Done by exact Hp0. run. eexists _, [_]. split; [reflexivity |]. split; [split; assumption |].
      split; [reflexivity |]. split; [reflexivity |]. repeat constructor.
  - assert (∀ g' i, resting v g' → send_packets s {| ctx := g'; sock := sock w; io := i |}
      = Done (tt, {| ctx := g'; sock := sock w; io := i |})) as Hsend.
    { intros g' i [(Hu1 & Hn1 & _) _ _ _]. unfold send_packets, can_send_more, send_buffer_size. run. cbn [send_packets_loop]. unfold can_send_more, send_buffer_size. run.
      unfold get_send_buffer. rewrite Hbuf. unfold get_num_outstanding, Outstanding.get_num_outstanding, Outstanding.get_snd_nxt, Outstanding.get_snd_una.
      rewrite Hu1, Hn1, Z.sub_diag. reflexivity. }
    destruct (probe_timer_ g) as [timer|] eqn:Et; run; rewrite Hsend by (split; first [assumption | cbn; unfold INITIAL_PROBE_TIMEOUT_DURATION; lia]).
    + eexists _, [_]. split; [reflexivity |]. split; [split; try assumption; cbn; unfold INITIAL_PROBE_TIMEOUT_DURATION; lia |].
      split; [reflexivity |]. split; [reflexivity |]. repeat constructor.
    + eexists _, []. rewrite app_nil_r. split; [reflexivity |]. split; [split; assumption | auto].
Qed.

(** A waiting call asks for a size an application can ask for. *)
Definition patient (c : rc_context) : Prop := ∀ e, receive_event_ c = Some e → 0 ≤ re_data_length e < 2 ^ 63.

Section Receiver.
Context `{DeliveringState C}.
(** The peer's stream, RCV.NXT and the position the application has read to when we start
    ([f0], [a0]), where the segments end ([L]), and what this side sent and got acknowledged
    up to ([v]). *)
Context (base f0 a0 L v : Z) (stream : Z → Z).
Abbreviation pos := (stream_position base f0).
Abbreviation receiving := (Reliability.receiving (dl_ack (C := C)) base pos stream).
Abbreviation took := (took (dl_ack (C := C)) base pos stream).

(** A data segment of the stream as it arrives. *)
Record arriving (r : packet_ref) : Prop := {
  ar_segment : segment_ok (pkt r);
  ar_checksum : is_valid_tcp_checksum (pkt r) = Done (true, pkt r);
  ar_ack : is_tcp_ack (pkt r) = true → get_tcp_ack_number (pkt r) = v;
  ar_flags : is_tcp_syn (pkt r) = false ∧ is_tcp_fin (pkt r) = false;
  ar_length : 0 < len_of r ≤ MSS;
  ar_option : ∃ ts os, get_option TCPOPT_TIMESTAMP (pkt r) = Done (ts, TCPPacket.with_options os (pkt r));
  ar_carries : PacketBuffer.carries pos stream r;
  ar_place : f0 - 2 ^ 29 ≤ pos r ∧ finish pos r ≤ L }.

Lemma idle_handle_ack s p (w : env C) :
  idle v (odc (rc (ctx w))) → (is_tcp_ack p = true → get_tcp_ack_number p = v) → handle_ack (dl_ack (C := C)) s p w = Done (true, w).
Proof.
  intros (Hu & Hn & Hm) Hack. destruct (no_longer_idle v) as [Hlt Hle]. unfold handle_ack. destruct (is_tcp_ack p); [| reflexivity].
  cbn [negb]. run_rc. rewrite (Hack eq_refl). unfold get_snd_una, get_snd_nxt, get_snd_max, Outstanding.get_snd_una, Outstanding.get_snd_nxt, Outstanding.get_snd_max.
  rewrite Hu, Hn, Hm. unfold between_equal_right, between_equal_left. rewrite Hlt, Hle. reflexivity.
Qed.

Lemma receiving_echo a f x w w' :
  receiving a f w → ctx w' = update_rc (set_echo_reply x) (ctx w) → sock w' = sock w → receiving a f w'.
Proof.
  intros [] Hc Hs. split; rewrite ?Hc, ?Hs; unfold held in *; rewrite ?rc_update; rc_simpl; auto.
  apply ack_ok_stable; [reflexivity | assumption].
Qed.

(** The reliability context's part of receiving a segment. *)
Lemma reliability_receives a f s r (w : env C) :
  receiving a f w → idle v (odc (rc (ctx w))) → Z.of_nat (length (receive_buffer_ (sock w))) < 2 ^ 30 → arriving r →
  placed base pos f r → finish pos r ≤ a + MAX_TCP_RECEIVE_WINDOW_SIZE →
  ∃ e w', rs_receive_packet s r w = Done (tt, w') ∧ took a f e r w w'.
Proof.
  intros Hr Hi Hb [_ _ Hack [Hsyn Hfin] Hlen (ts & os & Eo) Hc _] Hp He. rewrite dl_receive_packet.
  destruct r as [x p]. cbn [pkt] in *. unfold Reliability.state_receive_packet. cbn [pkt address]. run_rc. rewrite Eo. run_rc.
  set (w1 := match ts with Some o => {| ctx := update_rc (set_echo_reply (get_timestamp o)) (ctx w); sock := sock w; io := io w |} | None => w end).
  assert (update_echo_reply ts w = Done (tt, w1)) as E1 by (destruct ts; [reflexivity | destruct w; reflexivity]).
  rewrite E1. run_rc.
  assert (receiving a f w1) as Hr1 by (unfold w1; destruct ts; [eapply receiving_echo; [exact Hr | reflexivity | reflexivity] | exact Hr]).
  assert (odc (rc (ctx w1)) = odc (rc (ctx w)) ∧ receive_event_ (rc (ctx w1)) = receive_event_ (rc (ctx w)) ∧ sock w1 = sock w ∧ io w1 = io w ∧
    held pos f (rc (ctx w1)) = held pos f (rc (ctx w))) as (Ho & He1 & Hs & Hio & Hh) by (unfold w1; destruct ts; unfold held; rc_simpl; auto).
  rewrite idle_handle_ack by (rewrite ?Ho; assumption). run_rc. unfold handle_control_bits_and_data. cbn [pkt].
  change (is_tcp_syn (TCPPacket.with_options os p)) with (is_tcp_syn p). change (is_tcp_fin (TCPPacket.with_options os p)) with (is_tcp_fin p).
  change (get_data_length_bytes (TCPPacket.with_options os p)) with (get_data_length_bytes p). rewrite Hsyn, Hfin.
  cbn [orb]. rewrite (proj2 (Z.ltb_lt 0 _)) by apply Hlen.
  destruct (dl_delivers base pos stream a f {| address := x; pkt := TCPPacket.with_options os p |} s w1 Hr1)
    as (e & w' & E & Ht); [rewrite Hs; exact Hb | destruct Hp; split; assumption | exact Hc | exact He |].
  exists e, w'. split; [exact E |]. destruct Ht as [T1 T2 T3 T4 T5 T6 T7 T8 T9]. rewrite Ho, He1, Hs, Hio, Hh in *. split; assumption.
Qed.

(** ** The state of the connection *)

Record receiver (s c : nat) (a f : Z) (k : container C) (sk : socket) (t : world (tahoe C)) : Prop := {
  rv_attached : attached s c k sk t;
  rv_state : current_ (connection_manager_ k) = Established;
  rv_close : saved_close_event_ k = None;
  rv_receiving : receiving a f {| ctx := reliability_ k; sock := sk; io := tio t |};
  rv_idle : idle v (odc (rc (reliability_ k)));
  rv_resting : resting v (congestion_control_ k);
  rv_send_buffer : send_buffer_ sk = [];
  rv_start : f0 ≤ f ≤ L ∧ a0 ≤ a;
  rv_patient : patient (rc (reliability_ k));
  rv_gap : f ∉ held pos f (rc (reliability_ k));
  rv_held : ∀ x, x ∈ held pos f (rc (reliability_ k)) → x < L;
  rv_buffer : Z.of_nat (length (receive_buffer_ sk)) < 2 ^ 29 + (f - f0) }.

(** The segments take at most half of the window that was advertised. *)
Context (Hroom : a0 ≤ f0 ≤ L ∧ L ≤ a0 + 2 ^ 15 - 1).

Lemma receiver_placed s c a f k sk t r : receiver s c a f k sk t → arriving r → placed base pos f r.
Proof.
  intros Hv [Hseg _ _ _ Hlen _ _ Hpl]. pose proof (rv_start _ _ _ _ _ _ _ Hv) as [Hf Ha]. unfold finish in Hpl.
  split; [| unfold half_window; lia | unfold half_window; lia | lia].
  apply stream_position_seq. apply (get_field_bound f_seq). apply Hseg.
Qed.

(** A segment that still has something new is inside the window. *)
Lemma receiver_accepts s c a f k sk t r :
  receiver s c a f k sk t → arriving r → f < finish pos r → is_valid_sequence_number (rc (reliability_ k)) (pkt r) = true.
Proof.
  intros Hv Har Hnew. pose proof Har as [_ _ _ _ Hlen _ _ Hpl]. pose proof (receiver_placed _ _ _ _ _ _ _ _ Hv Har) as Hp.
  pose proof (rv_receiving _ _ _ _ _ _ _ Hv) as Hr. pose proof (rv_start _ _ _ _ _ _ _ Hv) as [Hf Ha].
  assert (Z.of_nat (base.size (held pos f (rc (reliability_ k)))) ≤ L - f) as Hsz.
  { rewrite <- (size_interval f L) by lia. apply inj_le, subseteq_size. intros x Hx. apply elem_of_interval.
    pose proof (rv_held _ _ _ _ _ _ _ Hv x Hx). apply elem_of_pending in Hx as [Hx _]. lia. }
  pose proof (rcv_wnd _ _ _ _ _ _ _ Hr) as Hw. cbn [ctx] in Hw. unfold MAX_TCP_RECEIVE_WINDOW_SIZE, USHRT_MAX in Hw.
  pose proof (rcv_order _ _ _ _ _ _ _ Hr). pose proof (rcv_next _ _ _ _ _ _ _ Hr) as Hn. cbn [ctx] in Hn. unfold is_valid_sequence_number. rewrite Hn.
  change (get_tcp_sequence_number (pkt r)) with (seq_of r). change (get_data_length_bytes (pkt r)) with (len_of r).
  rewrite (placed_seq _ _ _ _ Hp). destruct (seq_at base f =? 0); [reflexivity |].
  unfold finish, MSS in *. rewrite !(proj2 (Z.ltb_lt 0 _)) by lia. cbn [andb].
  replace (u32 (seq_at base (pos r) + len_of r - 1)) with (seq_at base (pos r + len_of r - 1))
    by (rewrite <- (Z.add_sub_assoc (seq_at base (pos r))), seq_at_add; f_equal; lia).
  rewrite seq_at_add, !between_equal_left_positions by lia. lia.
Qed.

(** RCV.NXT moved from [f] to [e] by taking in [r]. *)
Record progress (f e : Z) (k k' : container C) (r : packet_ref) : Prop := {
  pg_order : f ≤ e;
  pg_all : ∀ x, f ≤ x < e → x ∈ held pos f (rc (reliability_ k)) ∨ pos r ≤ x < finish pos r;
  pg_gap : ¬ (e ∈ held pos f (rc (reliability_ k)) ∨ pos r ≤ e < finish pos r);
  pg_held : ∀ x, x ∈ held pos e (rc (reliability_ k')) ↔ e ≤ x ∧ (x ∈ held pos f (rc (reliability_ k)) ∨ pos r ≤ x < finish pos r) }.

(** Nothing new: the segment is old. *)
Lemma no_progress s c a f k sk t r : receiver s c a f k sk t → finish pos r ≤ f → progress f f k k r.
Proof.
  intros Hv Hold. pose proof (rv_gap _ _ _ _ _ _ _ Hv). split; [lia | lia | intros [? | ?]; [contradiction | lia] |].
  intros x. split; [intros Hx; pose proof Hx as Hx'; apply elem_of_pending in Hx' as [? _]; auto | intros (? & [? | ?]); [assumption | lia]].
Qed.

Lemma established_receives s p (w : env cm_context) :
  current_ (ctx w) = Established → is_tcp_syn p = false → is_tcp_fin p = false → ConnManager.icontext_receive_packet s p w = Done (tt, w).
Proof.
  intros Hst Hsyn Hfin. unfold ConnManager.icontext_receive_packet. run. rewrite Hst.
  unfold EstablishedState.state_receive_packet. rewrite Hsyn, Hfin. reflexivity.
Qed.

(** What is not about segments does not depend on the contexts besides the reliability one. *)
Lemma receiver_world s c a f k sk t k' t' :
  receiver s c a f k sk t → attached s c k' sk t' → reliability_ k' = reliability_ k → connection_manager_ k' = connection_manager_ k →
  saved_close_event_ k' = saved_close_event_ k → resting v (congestion_control_ k') → receiver s c a f k' sk t'.
Proof.
  intros [] Ha Er Em Ec Hr. split; rewrite ?Er, ?Em, ?Ec; try assumption.
  eapply receiving_ext; [exact rv_receiving0 | reflexivity | reflexivity |]. exact (rcv_ack _ _ _ _ _ _ _ rv_receiving0).
Qed.

Lemma took_receiver s c a f e k sk t r w' t' :
  receiver s c a f k sk t → arriving r → took a f e r {| ctx := reliability_ k; sock := sk; io := tio t |} w' →
  attached s c (set_reliability (ctx w') k) (sock w') t' →
  receiver s c a e (set_reliability (ctx w') k) (sock w') t' ∧ progress f e k (set_reliability (ctx w') k) r.
Proof.
  intros Hv Har [T1 T2 T3 T4 T5 T6 T7 (To & Te) _] Ha. pose proof Hv as [_ Hst Hcl Hr Hi Hre Hsb [Hf Ha0] Hpat Hg Hh Hb].
  pose proof (ar_place _ Har) as Hpl. cbn [ctx sock] in *. split; [| split; assumption].
  assert (e ≤ L) as HeL.
  { destruct (decide (e = f)) as [-> | Hne]; [lia |]. destruct (T3 (e - 1) ltac:(lia)) as [Hx%Hh | Hx]; lia. }
  split; cbn [set_reliability connection_manager_ saved_close_event_ reliability_ congestion_control_]; try assumption.
  - apply (receiving_ext _ _ _ _ _ _ w'); [exact T1 | reflexivity | reflexivity |]. exact (rcv_ack _ _ _ _ _ _ _ T1).
  - rewrite To. exact Hi.
  - rewrite T7. exact Hsb.
  - lia.
  - unfold patient. rewrite Te. exact Hpat.
  - rewrite T5. intros [_ Hx]. contradiction.
  - intros x [_ [Hx | Hx]]%T5; [auto | lia].
  - rewrite T6, length_app, Nat2Z.inj_add, length_stretch by lia. lia.
Qed.

Lemma idle_acknowledged rcx p :
  idle v (odc rcx) → (is_tcp_ack p = true → get_tcp_ack_number p = v) →
  is_tcp_ack p && negb (is_valid_ack_number rcx p) = false ∧ is_duplicate_ack rcx p = false.
Proof.
  intros (Hu & Hn & Hm) Hack. destruct (no_longer_idle v) as [Hlt Hle]. unfold is_valid_ack_number, is_duplicate_ack. destruct (is_tcp_ack p); [| auto].
  rewrite (Hack eq_refl). unfold get_snd_una, get_snd_nxt, get_snd_max, Outstanding.get_snd_una, Outstanding.get_snd_nxt, Outstanding.get_snd_max.
  rewrite Hu, Hn, Hm. unfold between_equal, between_equal_left. rewrite Hlt, Hle. cbn [andb]. rewrite andb_false_r. auto.
Qed.

(** A segment inside the window, handed to all three contexts. *)
Lemma receives_accepted s c a f k sk t r :
  receiver s c a f k sk t → arriving r → is_valid_sequence_number (rc (reliability_ k)) (pkt r) = true →
  ∃ e k' sk' t' tr, icontext_receive_packet s r t = Done (tt, t') ∧ receiver s c a e k' sk' t' ∧ progress f e k k' r ∧
    trace (tio t') = (trace (tio t) ++ tr)%list ∧ Forall (fun x => silent x = true) tr.
Proof.
  intros Hv Har Hseq. pose proof Hv as [Ha Hst Hcl Hr Hi Hre Hsb [Hf Ha0] _ _ _ Hb]. pose proof (receiver_placed _ _ _ _ _ _ _ _ Hv Har) as Hp.
  pose proof Har as [Hsg Hck Hack [Hsyn Hfin] Hlen _ _ Hpl]. destruct (idle_acknowledged _ _ Hi Hack) as [Hok Hdup].
  destruct (reliability_receives a f s r _ Hr Hi ltac:(cbn [sock]; lia) Har Hp
    ltac:(unfold MAX_TCP_RECEIVE_WINDOW_SIZE, USHRT_MAX; lia)) as (e & w1 & E1 & Ht).
  destruct (took_trace _ _ _ _ _ _ _ _ _ _ Ht) as (tr1 & Htr1 & Hs1). cbn [io] in Htr1.
  assert (observed_ (sock w1) = observed_ sk) as Hob by (rewrite (took_sock _ _ _ _ _ _ _ _ _ _ Ht); reflexivity).
  destruct (call_step reliability_ set_reliability s c k sk _ t tt w1 tr1 Ha E1 Htr1 (silent_plain _ Hs1) Hob) as (t1 & C1 & Ha1 & Hio1).
  destruct (took_receiver s c a f e k sk t r w1 t1 Hv Har Ht Ha1) as [Hv1 Hprog]. set (k1 := set_reliability (ctx w1) k) in *.
  destruct (call_step connection_manager_ set_connection_manager s c k1 (sock w1) (ConnManager.icontext_receive_packet s (pkt r)) t1 tt
    {| ctx := connection_manager_ k1; sock := sock w1; io := tio t1 |} [] Ha1
    ltac:(apply established_receives; [exact Hst | exact Hsyn | exact Hfin]) ltac:(symmetry; apply app_nil_r) ltac:(constructor) eq_refl)
    as (t2 & C2 & Ha2 & Hio2). cbn [ctx sock io] in Ha2, Hio2. set (k2 := set_connection_manager (connection_manager_ k1) k1) in *.
  destruct (resting_receive v s (pkt r) {| ctx := congestion_control_ k2; sock := sock w1; io := tio t2 |} Hre
    (rv_send_buffer _ _ _ _ _ _ _ Hv1) (segment_wf _ Hsg) Hack) as (w3 & tr3 & E3 & Hre3 & Hsk3 & Htr3 & Hs3). cbn [sock io] in Hsk3, Htr3.
  destruct (call_step congestion_control_ set_congestion_control s c k2 (sock w1) _ t2 tt w3 tr3 Ha2 E3 Htr3 (silent_plain _ Hs3)
    ltac:(rewrite Hsk3; reflexivity)) as (t3 & C3 & Ha3 & Hio3). rewrite Hsk3 in Ha3. set (k3 := set_congestion_control (ctx w3) k2) in *.
  exists e, k3, (sock w1), t3, (tr1 ++ tr3)%list. split; [| split; [| split; [| split]]].
  - destruct r as [x p]. cbn [pkt] in *. unfold icontext_receive_packet. cbv beta iota zeta delta [mbind protocol_bind].
    rewrite (find_container_eq _ _ _ _ _ Ha), (get_container_eq _ _ _ _ _ Ha). unfold plift. cbn [pkt address]. rewrite Hck.
    cbv beta iota zeta delta [mbind outcome_bind mret outcome_ret]. cbn [negb]. rewrite Hok, Hseq, Hfin, Hdup. cbn [negb andb].
    unfold on_reliability, on_connection_manager, on_congestion_control. rewrite C1. cbv beta iota. rewrite C2. cbv beta iota. rewrite C3. cbv beta iota.
    unfold finish_saved_close. cbv beta iota zeta delta [mbind protocol_bind].
    rewrite (get_container_eq _ _ _ _ _ Ha3), (get_sock_eq _ _ _ _ _ Ha3). unfold k3. cbn [set_congestion_control saved_close_event_].
    unfold k2, k1. cbn [set_connection_manager set_reliability saved_close_event_]. rewrite Hcl. reflexivity.
  - apply (receiver_world s c a e k1 (sock w1) t1); try reflexivity; assumption.
  - destruct Hprog. split; assumption.
  - rewrite Hio3, Htr3, Hio2, Hio1, Htr1, <- app_assoc. reflexivity.
  - apply Forall_app. auto.
Qed.

Lemma receives_segment s c a f k sk t r :
  receiver s c a f k sk t → arriving r →
  ∃ e k' sk' t' tr, icontext_receive_packet s r t = Done (tt, t') ∧ receiver s c a e k' sk' t' ∧ progress f e k k' r ∧
    trace (tio t') = (trace (tio t) ++ tr)%list ∧ Forall (fun x => silent x = true) tr.
Proof.
  intros Hv Har. destruct (is_valid_sequence_number (rc (reliability_ k)) (pkt r)) eqn:Hseq; [apply (receives_accepted s c a f k sk t r); assumption |].
  assert (finish pos r ≤ f) as Hold.
  { destruct (decide (finish pos r ≤ f)) as [? | Hn]; [assumption |]. rewrite (receiver_accepts s c a f k sk t r) in Hseq by (assumption || lia). discriminate. }
  pose proof Hv as [Ha Hst _ Hr Hi _ _ _ _ _ _ _]. destruct (idle_acknowledged _ _ Hi (ar_ack _ Har)) as [Hok _].
  destruct (rcv_local _ _ _ _ _ _ _ Hr) as [local Hl]. destruct (dispatch_ack_eq s c k sk t local Ha Hl) as (q & Eq & _).
  eexists f, k, sk, _, [_]. split; [| split; [| split; [apply (no_progress s c a f k sk t r); assumption |]]].
  - destruct r as [x p]. pose proof (ar_checksum _ Har) as Hck. cbn [pkt] in *. unfold icontext_receive_packet. cbv beta iota zeta delta [mbind protocol_bind].
    rewrite (find_container_eq _ _ _ _ _ Ha), (get_container_eq _ _ _ _ _ Ha). unfold plift. cbn [pkt address]. rewrite Hck.
    cbv beta iota zeta delta [mbind outcome_bind mret outcome_ret]. cbn [negb]. rewrite Hok, Hseq, Hst. cbn [negb can_send_ack]. exact Eq.
  - apply (receiver_world s c a f k sk t); try reflexivity; [assumption | destruct Ha; split; assumption | apply Hv].
  - split; [reflexivity |]. repeat constructor.
Qed.

(** ** Reading *)

(** A receive call took the stream from [a] to [b]; [tr] is what it emitted. *)
Record read (a b f : Z) (w w' : env C) (tr : list effect) : Prop := {
  rd_receiving : receiving b f w';
  rd_order : a ≤ b;
  rd_odc : odc (rc (ctx w')) = odc (rc (ctx w));
  rd_patient : patient (rc (ctx w'));
  rd_held : held pos f (rc (ctx w')) = held pos f (rc (ctx w));
  rd_sock : sock w' = sock w ∨ sock w' = with_buffers [] (send_buffer_ (sock w)) (sock w);
  rd_trace : trace (io w') = (trace (io w) ++ tr)%list;
  rd_plain : Forall (fun x => plain x = true) tr;
  rd_answers : answers tr = stretch stream a b }.

Lemma read_nothing a f w w' :
  receiving a f w' → odc (rc (ctx w')) = odc (rc (ctx w)) → patient (rc (ctx w')) → held pos f (rc (ctx w')) = held pos f (rc (ctx w)) → sock w' = sock w → io w' = io w →
  read a a f w w' [].
Proof. intros Hr Ho Hp Hh Hs Hi. split; rewrite ?Hi, ?app_nil_r, ?stretch_nil; auto using Z.le_refl. Qed.

Lemma read_some a f e (w : env C) :
  receiving a f w → patient (rc (ctx w)) → Z.of_nat (length (receive_buffer_ (sock w))) < 2 ^ 30 → 0 ≤ re_data_length e < 2 ^ 63 →
  ∃ b w' tr, create_and_dispatch_received_data (dl_ack (C := C)) e w = Done (tt, w') ∧ read a b f w w' tr.
Proof.
  intros Hr Hpat Hb Hlen. pose proof (rcv_order _ _ _ _ _ _ _ Hr) as Hord.
  destruct (received_data_spec _ _ _ _ a f e w Hr Hb Hlen) as (resp & tr & w' & E & Hresp & Hs & Hr' & Hrc & Hsk & Ht).
  set (n := Z.min (f - a) (re_data_length e)) in *.
  assert (odc (taken n (rc (ctx w)) (sock w)) = odc (rc (ctx w)) ∧ receive_window_ (taken n (rc (ctx w)) (sock w)) = receive_window_ (rc (ctx w)) ∧
    receive_event_ (taken n (rc (ctx w)) (sock w)) = receive_event_ (rc (ctx w))) as (To & Tw & Te)
    by (unfold taken; destruct (_ <=? _); auto).
  exists (a + n), w'. eexists. split; [exact E |]. split; [exact Hr' | lia | rewrite Hrc; exact To | unfold patient; rewrite Hrc, Te; exact Hpat | unfold held; rewrite Hrc, Tw; reflexivity | | exact Ht | |].
  - rewrite Hsk. unfold left_over. destruct (_ <=? _); auto.
  - apply Forall_app. split; [exact (silent_plain _ Hs) | repeat constructor].
  - rewrite answers_app, (answers_silent _ Hs). unfold answers. cbn. rewrite app_nil_r. apply Hresp.
Qed.

(** The world after a call of the reliability context that read. *)
Lemma read_receiver s c a b f k sk t (h : handler C unit) w' tr :
  receiver s c a f k sk t → h {| ctx := reliability_ k; sock := sk; io := tio t |} = Done (tt, w') →
  read a b f {| ctx := reliability_ k; sock := sk; io := tio t |} w' tr →
  ∃ t', on_reliability c s h t = Done (tt, t') ∧ receiver s c b f (set_reliability (ctx w') k) (sock w') t' ∧
    trace (tio t') = (trace (tio t) ++ tr)%list.
Proof.
  intros [Ha Hst Hcl Hr Hi Hre Hsb [Hf Ha0] _ Hg Hh Hb] E [Hr' Hab Ho Hpat Hheld Hsk Ht Hpl _]. cbn [ctx sock io] in *.
  destruct (call_step reliability_ set_reliability s c k sk h t tt w' tr Ha E Ht Hpl ltac:(destruct Hsk as [-> | ->]; reflexivity))
    as (t' & C1 & Ha' & Hio').
  exists t'. split; [exact C1 |]. split; [| rewrite Hio'; exact Ht].
  split; cbn [set_reliability connection_manager_ saved_close_event_ reliability_ congestion_control_]; rewrite ?Ho, ?Hheld; try assumption.
  - apply (receiving_ext _ _ _ _ _ _ w'); [exact Hr' | reflexivity | reflexivity |]. exact (rcv_ack _ _ _ _ _ _ _ Hr').
  - destruct Hsk as [-> | ->]; exact Hsb.
  - lia.
  - destruct Hsk as [-> | ->]; [exact Hb | cbn; lia].
Qed.

(** A receive call, when none is waiting. *)
Lemma calls_receive s c a f k sk t e :
  receiver s c a f k sk t → receive_event_ (rc (reliability_ k)) = None → le_socket (re_event e) = s → 0 ≤ re_data_length e < 2 ^ 63 →
  ∃ b w' t' tr, icontext_receive e t = Done (tt, t') ∧ receiver s c b f (set_reliability (ctx w') k) (sock w') t' ∧
    read a b f {| ctx := reliability_ k; sock := sk; io := tio t |} w' tr ∧ trace (tio t') = (trace (tio t) ++ tr)%list.
Proof.
  intros Hv Hev <- Hlen. pose proof Hv as [Ha _ _ Hr _ _ _ [Hf _] Hpat _ _ Hb]. pose proof (rcv_order _ _ _ _ _ _ _ Hr) as Hord.
  set (w0 := {| ctx := reliability_ k; sock := sk; io := tio t |}) in *.
  assert (∃ b w' tr, Reliability.state_receive (dl_ack (C := C)) e w0 = Done (tt, w') ∧ read a b f w0 w' tr) as (b & w' & tr & E & Hrd).
  { destruct (decide (a = f)) as [Haf | Haf].
    - destruct (receive_waits _ _ _ _ a f e w0 Hr Haf Hev) as (w' & E & He & Hr' & Hio & Hsk & Ho & Hh).
      exists a, w', []. split; [exact E |]. apply read_nothing; try assumption. unfold patient. rewrite He. intros ? [= <-]. exact Hlen.
    - destruct (read_some a f e w0 Hr Hpat ltac:(cbn; lia) Hlen) as (b & w' & tr & E & Hrd). exists b, w', tr. split; [| exact Hrd].
      unfold Reliability.state_receive. run. rewrite (unread_nonempty _ _ _ _ a f w0 Hr) by lia. exact E. }
  rewrite <- dl_receive in E. destruct (read_receiver _ c a b f k sk t _ w' tr Hv E Hrd) as (t' & C1 & Hv' & Ht).
  exists b, w', t', tr. split; [| auto]. unfold icontext_receive. cbv beta iota zeta delta [mbind protocol_bind].
  rewrite (find_container_eq _ _ _ _ _ Ha). exact C1.
Qed.

(** The notification that bytes are readable: a waiting call gets them. *)
Lemma notified s c a f k sk t :
  receiver s c a f k sk t →
  ∃ b w' t' tr, icontext_receive_buffer_not_empty s t = Done (tt, t') ∧ receiver s c b f (set_reliability (ctx w') k) (sock w') t' ∧
    read a b f {| ctx := reliability_ k; sock := sk; io := tio t |} w' tr ∧ trace (tio t') = (trace (tio t) ++ tr)%list.
Proof.
  intros Hv. pose proof Hv as [Ha _ _ Hr _ _ _ [Hf _] Hpat _ _ Hb]. pose proof (rcv_order _ _ _ _ _ _ _ Hr) as Hord.
  set (w0 := {| ctx := reliability_ k; sock := sk; io := tio t |}) in *.
  assert (∃ b w' tr, Reliability.state_receive_buffer_not_empty (dl_ack (C := C)) w0 = Done (tt, w') ∧ read a b f w0 w' tr) as (b & w' & tr & E & Hrd).
  { unfold Reliability.state_receive_buffer_not_empty. run_rc. destruct (receive_event_ (rc (ctx w0))) as [e|] eqn:Ee.
    2: { exists a, w0, []. split; [reflexivity |]. apply read_nothing; auto. }
    destruct (decide (a = f)) as [Haf | Haf].
    { unfold get_receive_buffer. rewrite (rcv_drained _ _ _ _ _ _ _ Hr Haf). exists a, w0, []. split; [reflexivity |].
      apply read_nothing; auto. }
    rewrite (unread_nonempty _ _ _ _ a f w0 Hr) by lia. run_rc.
    destruct (read_some a f e w0 Hr Hpat ltac:(cbn; lia) (Hpat e Ee)) as (b & w' & tr & E & [Hr' Hab Ho _ Hh Hsk Ht Hpl Han]).
    pose proof (receiving_answered _ _ _ _ _ _ w' Hr') as Hr2. rewrite E. run_rc. exists b. eexists _, tr. split; [reflexivity |].
    unfold held in *. split; unfold held, patient; rc_simpl; assumption || discriminate. }
  rewrite <- dl_receive_buffer_not_empty in E. destruct (read_receiver _ c a b f k sk t _ w' tr Hv E Hrd) as (t' & C1 & Hv' & Ht).
  exists b, w', t', tr. split; [| auto]. unfold icontext_receive_buffer_not_empty. cbv beta iota zeta delta [mbind protocol_bind].
  rewrite (find_container_eq _ _ _ _ _ Ha). exact C1.
Qed.

(** ** Schedules

    What reaches the receiver, in any order: segments, receive calls of the application, and
    the module's own notification that bytes are readable. A caller that waits for an answer
    makes no other call. *)
Inductive receiver_input :=
| Arrives (r : packet_ref)
| Calls (e : receive_event)
| Notifies.

Definition take_input (s : nat) (i : receiver_input) : protocol (tahoe C) unit :=
  match i with
  | Arrives r => icontext_receive_packet s r
  | Calls e =>
      c ← find_container s;
      container ← get_container c;
      match receive_event_ (rc (reliability_ container)) with None => icontext_receive e | Some _ => mret tt end
  | Notifies => icontext_receive_buffer_not_empty s
  end.

Fixpoint take_inputs (s : nat) (l : list receiver_input) : protocol (tahoe C) unit :=
  match l with [] => mret tt | i :: l => _ ← take_input s i; take_inputs s l end.

Definition input_ok (s : nat) (i : receiver_input) : Prop :=
  match i with
  | Arrives r => arriving r
  | Calls e => le_socket (re_event e) = s ∧ 0 ≤ re_data_length e < 2 ^ 63
  | Notifies => True
  end.

(** Some segment of the schedule holds position [x]. *)
Definition arrived (l : list receiver_input) (x : Z) : Prop := ∃ r, Arrives r ∈ l ∧ pos r ≤ x < finish pos r.

Lemma arrived_cons i l x :
  arrived (i :: l) x ↔ (match i with Arrives r => pos r ≤ x < finish pos r | _ => False end) ∨ arrived l x.
Proof.
  unfold arrived. setoid_rewrite elem_of_cons. split.
  - intros (r & [<- | Hr] & Hx); [left; exact Hx | right; eauto].
  - intros [Hx | (r & Hr & Hx)]; [| eauto]. destruct i; try contradiction. eauto.
Qed.

(** One input. *)
Lemma take_input_spec s c a f k sk t i :
  receiver s c a f k sk t → input_ok s i →
  ∃ b e k' sk' t' tr, take_input s i t = Done (tt, t') ∧ receiver s c b e k' sk' t' ∧ a ≤ b ∧ f ≤ e ∧
    trace (tio t') = (trace (tio t) ++ tr)%list ∧ answers tr = stretch stream a b ∧
    (∀ x, f ≤ x < e → x ∈ held pos f (rc (reliability_ k)) ∨ arrived [i] x) ∧ ¬ (e ∈ held pos f (rc (reliability_ k)) ∨ arrived [i] e) ∧
    (∀ x, x ∈ held pos e (rc (reliability_ k')) ↔ e ≤ x ∧ (x ∈ held pos f (rc (reliability_ k)) ∨ arrived [i] x)).
Proof.
  intros Hv Hi. assert (∀ x, arrived [i] x ↔ match i with Arrives r => pos r ≤ x < finish pos r | _ => False end) as Hone.
  { intros x. rewrite arrived_cons. split; [intros [? | (r & Hr%not_elem_of_nil & _)]; [assumption | contradiction] | auto]. }
  assert (∀ b w' t' tr (m : protocol (tahoe C) unit), m t = Done (tt, t') → receiver s c b f (set_reliability (ctx w') k) (sock w') t' →
    read a b f {| ctx := reliability_ k; sock := sk; io := tio t |} w' tr → trace (tio t') = (trace (tio t) ++ tr)%list → (∀ x, ¬ arrived [i] x) →
    ∃ b e k' sk' t' tr, m t = Done (tt, t') ∧ receiver s c b e k' sk' t' ∧ a ≤ b ∧ f ≤ e ∧
      trace (tio t') = (trace (tio t) ++ tr)%list ∧ answers tr = stretch stream a b ∧
      (∀ x, f ≤ x < e → x ∈ held pos f (rc (reliability_ k)) ∨ arrived [i] x) ∧ ¬ (e ∈ held pos f (rc (reliability_ k)) ∨ arrived [i] e) ∧
      (∀ x, x ∈ held pos e (rc (reliability_ k')) ↔ e ≤ x ∧ (x ∈ held pos f (rc (reliability_ k)) ∨ arrived [i] x))) as Reading.
  { intros b w' t' tr m E Hv' Hrd Ht Hno. exists b, f, (set_reliability (ctx w') k), (sock w'), t', tr. split; [exact E |]. split; [exact Hv' |].
    split; [apply Hrd |]. split; [lia |]. split; [exact Ht |]. split; [apply Hrd |]. split; [intros; lia |].
    split; [intros [Hx | Hx]; [exact (rv_gap _ _ _ _ _ _ _ Hv Hx) | exact (Hno _ Hx)] |].
    intros x. cbn [set_reliability reliability_]. pose proof (rd_held _ _ _ _ _ _ Hrd) as Hh. cbn [ctx] in Hh. rewrite Hh.
    split; [intros Hx; pose proof Hx as Hx'; apply elem_of_pending in Hx' as [? _]; auto | intros (_ & [Hx | Hx]); [exact Hx | destruct (Hno x Hx)]]. }
  destruct i as [r | e | ]; cbn [take_input input_ok] in *.
  - destruct (receives_segment s c a f k sk t r Hv Hi) as (e & k' & sk' & t' & tr & E & Hv' & [P1 P2 P3 P4] & Ht & Hs).
    exists a, e, k', sk', t', tr. split; [exact E |]. split; [exact Hv' |]. split; [lia |]. split; [exact P1 |]. split; [exact Ht |].
    split; [rewrite stretch_nil; exact (answers_silent _ Hs) |]. split; [intros x Hx; rewrite Hone; auto |]. split; [rewrite Hone; exact P3 |].
    intros x. rewrite Hone. exact (P4 x).
  - destruct Hi as [Hs Hlen]. pose proof (rv_attached _ _ _ _ _ _ _ Hv) as Ha.
    destruct (receive_event_ (rc (reliability_ k))) as [waiting|] eqn:Ee.
    + exists a, f, k, sk, t, []. rewrite app_nil_r, stretch_nil. split; [run_t; rewrite (att_map _ _ _ _ _ Ha), (att_container _ _ _ _ _ Ha), Ee; reflexivity |].
      split; [exact Hv |]. do 2 (split; [lia |]). split; [reflexivity |]. split; [reflexivity |]. split; [intros; lia |]. pose proof (rv_gap _ _ _ _ _ _ _ Hv).
      split; [rewrite Hone; tauto |]. intros x. rewrite Hone.
      split; [intros Hx; pose proof Hx as Hx'; apply elem_of_pending in Hx' as [? _]; auto | tauto].
    + destruct (calls_receive s c a f k sk t e Hv Ee Hs Hlen) as (b & w' & t' & tr & E & Hv' & Hrd & Ht).
      apply (Reading b w' t' tr); try assumption; [| intros x; rewrite Hone; tauto].
      cbv beta iota zeta delta [mbind protocol_bind]. rewrite (find_container_eq _ _ _ _ _ Ha), (get_container_eq _ _ _ _ _ Ha), Ee. exact E.
  - destruct (notified s c a f k sk t Hv) as (b & w' & t' & tr & E & Hv' & Hrd & Ht).
    apply (Reading b w' t' tr); try assumption. intros x. rewrite Hone. tauto.
Qed.

Lemma take_inputs_spec s c l : ∀ a f k sk t,
  receiver s c a f k sk t → Forall (input_ok s) l →
  ∃ b e k' sk' t' tr, take_inputs s l t = Done (tt, t') ∧ receiver s c b e k' sk' t' ∧ a ≤ b ∧ f ≤ e ∧
    trace (tio t') = (trace (tio t) ++ tr)%list ∧ answers tr = stretch stream a b ∧
    (∀ x, f ≤ x < e → x ∈ held pos f (rc (reliability_ k)) ∨ arrived l x) ∧ ¬ (e ∈ held pos f (rc (reliability_ k)) ∨ arrived l e).
Proof.
  induction l as [|i l IH]; intros a f k sk t Hv Hl.
  - exists a, f, k, sk, t, []. rewrite app_nil_r, stretch_nil. split; [reflexivity |]. split; [exact Hv |]. do 2 (split; [lia |]).
    do 2 (split; [reflexivity |]). split; [intros; lia |]. intros [Hx | (r & Hr%not_elem_of_nil & _)]; [| exact Hr].
    exact (rv_gap _ _ _ _ _ _ _ Hv Hx).
  - apply Forall_cons in Hl as [Hi Hl].
    destruct (take_input_spec s c a f k sk t i Hv Hi) as (b1 & e1 & k1 & sk1 & t1 & tr1 & E1 & Hv1 & Hab & Hfe & Ht1 & Ha1 & All1 & Gap1 & Held1).
    destruct (IH b1 e1 k1 sk1 t1 Hv1 Hl) as (b & e & k' & sk' & t' & tr & E & Hv' & Hb & He & Ht & Ha & All & Gap).
    exists b, e, k', sk', t', (tr1 ++ tr)%list. split; [cbn [take_inputs]; cbv beta iota zeta delta [mbind protocol_bind]; rewrite E1; exact E |].
    split; [exact Hv' |]. do 2 (split; [lia |]). split; [rewrite Ht, Ht1, <- app_assoc; reflexivity |].
    split; [rewrite answers_app, Ha1, Ha; symmetry; apply stretch_app; lia |].
    assert (∀ x, arrived (i :: l) x ↔ arrived [i] x ∨ arrived l x) as Hc.
    { intros x. rewrite !arrived_cons. split; [intros [? | ?]; auto | intros [[? | (r & Hr%not_elem_of_nil & _)] | ?]; auto; contradiction]. }
    split.
    + intros x Hx. rewrite Hc. destruct (decide (x < e1)) as [Hlt | Hge]; [destruct (All1 x ltac:(lia)); auto |].
      destruct (All x ltac:(lia)) as [Hh%Held1 | ?]; [| auto]. destruct Hh as [_ [? | ?]]; auto.
    + rewrite Hc. intros Hx. apply Gap. assert (e ∈ held pos f (rc (reliability_ k)) ∨ arrived [i] e ∨ arrived l e) as Hx' by tauto.
      destruct Hx' as [? | [? | ?]]; [left; apply Held1; auto.. | right; assumption].
Qed.

End Receiver.
