(* ===== verification/Transfer.v ===== *)
(** * A transfer from one application to another

    The two ends put together: the bytes an application hands to TCPTahoe on one host are
    cut into segments, numbered, stamped and sealed (Congestion, Reliability, Stamps, Tahoe),
    written to the wire and read from it (Network), possibly in another order, more than
    once, and between receive calls, and put together again on the other host (Receiver). *)
From stdpp Require Import gmap strings.
From S2P Require Import Prelude SeqMath Double HeaderMem Inet AddressPort Sockets IPPacket TCPOptions WiFuPacket TCPPacket PacketBuffer.
From S2P Require Import Events Outstanding Congestion Reliability Stamps DelayedAck ConnManager BackLog ProtocolState Tahoe Network Receiver.

(** ** A segment on the wire *)

(** What the receiving host has of segment [q]: the same bytes up to its length and from the
    addresses on, the same fields but for the IP checksum, and no options parsed yet. *)
Record received_as (q p : tcp_packet) : Prop := {
  ra_wf : TCPPacket.wf p;
  ra_options : options_ p = [];
  ra_field : ∀ f, within (Z.to_nat (get_ip_tot_length (ip_of q))) f = true → disjoint f f_check = true → get_tcp f p = get_tcp f q;
  ra_byte : ∀ i, (12 ≤ i < Z.to_nat (get_ip_tot_length (ip_of q)))%nat → payload_ (ip_of p) !! i = payload_ (ip_of q) !! i }.

(** The listener creates a TCPPacket and the raw bytes are received into it. *)
Definition travel (q created : tcp_packet) (h : Sockets.heap) (c : Sockets.collection) : outcome (option (option nat * tcp_packet)) :=
  '(wire, _) ← imodule_network_send (wifu q);
  match listener wire (wifu created) with
  | None => mret None
  | Some w => '(s, w) ← imodule_network_receive w h c; mret (Some (s, with_wifu w created))
  end.

Record leaving (q : tcp_packet) : Prop := {
  lv_segment : segment_ok q;
  lv_fresh : fresh (wifu q) }.

(** A packet the factory just created. *)
Record blank_segment (p : tcp_packet) : Prop := {
  bl_fresh : fresh (wifu p);
  bl_options : options_ p = [] }.

Lemma restored_field p f :
  IPPacket.wf p → disjoint f f_check = true → get_field f (snd (is_valid_ip_checksum p)) = get_field f p.
Proof.
  intros Hwf H. unfold is_valid_ip_checksum. cbn [snd]. unfold calculate_and_set_ip_checksum, set_ip_checksum.
  rewrite !get_set_other; try reflexivity; try assumption. all: repeat (apply wf_set_field; [reflexivity |]); exact Hwf.
Qed.

Lemma restored_byte p i : (12 ≤ i)%nat → payload_ (snd (is_valid_ip_checksum p)) !! i = payload_ p !! i.
Proof.
  intros Hi. unfold is_valid_ip_checksum. cbn [snd]. unfold calculate_and_set_ip_checksum, set_ip_checksum, set_field, with_payload. cbn [payload_].
  rewrite !lookup_put; [reflexivity |..]; cbn; rewrite !elem_of_cons, elem_of_nil; lia.
Qed.

Lemma restored_wf p : IPPacket.wf p → IPPacket.wf (snd (is_valid_ip_checksum p)).
Proof.
  intros H. unfold is_valid_ip_checksum. cbn [snd]. unfold calculate_and_set_ip_checksum. do 3 (apply wf_set_field; [reflexivity |]). exact H.
Qed.

(** A segment that leaves arrives, at the socket that the collection has for its addresses. *)
Lemma travels q created h c s :
  leaving q → 24 ≤ get_ip_tot_length (ip_of q) → blank_segment created → c !! make_key (local_of (ip_of q)) (remote_of (ip_of q)) = Some s →
  ∃ p, travel q created h c = Done (Some (Some s, p)) ∧ received_as q p.
Proof.
  intros [[Hwf Hihl Hlen] Hf] H24 [Hcf Hco] Hs. unfold IPPacket.wf in *.
  assert (sendable (ip_of q)) as Hsend
    by (split; [exact Hwf | rewrite header_length_bytes, Hihl by exact Hwf; lia | apply Hlen]).
  destruct (crossing (wifu q) (wifu created) Hf Hsend Hcf) as (wire & w & E & El & [Hw Hv Hfd Hb]).
  destruct (receive_eq w h c Hw Hv) as (w' & Eip & Er).
  assert (∀ f, field_ok 24 f = true → within (Z.to_nat (get_ip_tot_length (ip_of q))) f = true) as H24'.
  { unfold field_ok, within. intros f. rewrite !andb_true_iff, !forallb_forall. intros [[H _] _] o Ho. specialize (H o Ho).
    rewrite Nat.ltb_lt in *. lia. }
  assert (local_of (ip w) = local_of (ip_of q) ∧ remote_of (ip w) = remote_of (ip_of q)) as [Hl Hr].
  { unfold local_of, remote_of, get_ip_source_address, get_ip_destination_address.
    rewrite !Hfd by (reflexivity || (apply H24'; reflexivity)). split; reflexivity. }
  exists (with_wifu w' created). split.
  - unfold travel. rewrite E. cbn [mbind outcome_bind]. rewrite El, Er, Hl, Hr, Hs. reflexivity.
  - assert (ip_of (with_wifu w' created) = snd (is_valid_ip_checksum (ip w))) as Ho by exact Eip.
    split; [unfold TCPPacket.wf; rewrite Ho; apply restored_wf, Hw | exact Hco | |].
    + intros f Hw1 Hd. unfold get_tcp. rewrite Ho, restored_field by (apply Hw || exact Hd). apply Hfd; assumption.
    + intros i Hi. rewrite Ho, restored_byte by lia.
      pose proof (Hb 12%nat (Z.to_nat (get_ip_tot_length (ip_of q)) - 12)%nat ltac:(lia) ltac:(unfold ip_of in *; lia)) as Hsl.
      apply (f_equal (.!! (i - 12)%nat)) in Hsl. unfold slice in Hsl. rewrite !lookup_take_lt, !lookup_drop in Hsl by lia.
      replace (12 + (i - 12))%nat with i in Hsl by lia. exact Hsl.
Qed.

(** *** What a received segment keeps *)

Lemma checksum_input_ext p q :
  IPPacket.get_data_length_bytes p = IPPacket.get_data_length_bytes q → byte_at (payload_ p) 9 = byte_at (payload_ q) 9 →
  (∀ i, (12 ≤ i < 20 + Z.to_nat (IPPacket.get_data_length_bytes q))%nat → payload_ p !! i = payload_ q !! i) →
  checksum_input p = checksum_input q.
Proof.
  intros Hn H9 Hb. unfold checksum_input. rewrite Hn. set (n := Z.to_nat _) in *.
  assert (∀ off len, (12 ≤ off)%nat → (off + len ≤ 20 + n)%nat → slice (payload_ p) off len = slice (payload_ q) off len) as Hs.
  { intros off len Ho Hl. apply list_eq. intros i. unfold slice. rewrite !lookup_take, !lookup_drop. case_decide; [apply Hb; lia | reflexivity]. }
  unfold pseudo_header. rewrite H9, !Hs by lia. reflexivity.
Qed.

Section Received.
Context (q p : tcp_packet) (o : tcp_header_option).
Context (Hq : timestamped o q) (Hc : carries o q) (Hp : received_as q p).

Let n := get_ip_tot_length (ip_of q).

Lemma sent_length : n = 52 + get_data_length_bytes q ∧ 52 ≤ n ≤ 1500.
Proof.
  pose proof (ts_data _ _ Hq) as Hd. unfold get_data_length_bytes in *. rewrite (headers_length _ (ts_headers _ _ Hq)) in *.
  unfold get_tcp_header_length_bytes in *. rewrite (ts_offset _ _ Hq) in *. unfold MSS in Hd. fold n in Hd |- *. lia.
Qed.

Lemma kept_field f : field_ok 52 f = true → disjoint f f_check = true → get_tcp f p = get_tcp f q.
Proof.
  intros Hf Hd. apply (ra_field _ _ Hp); [| exact Hd]. fold n. pose proof sent_length. unfold field_ok in Hf.
  rewrite !andb_true_iff, !forallb_forall in Hf. destruct Hf as [[Hf _] _]. unfold within. rewrite forallb_forall. intros x Hx.
  specialize (Hf x Hx). rewrite Nat.ltb_lt in *. lia.
Qed.

Lemma kept_headers : headers_ok p ∧ get_tcp_data_offset p = 8 ∧ get_ip_tot_length (ip_of p) = n ∧ get_data_length_bytes p = get_data_length_bytes q.
Proof.
  pose proof (ts_offset _ _ Hq) as H8. unfold get_tcp_data_offset in *.
  assert (headers_ok p) as Hh.
  { split; [apply Hp | change (get_tcp f_ihl p = 5) | unfold get_tcp_data_offset]; rewrite kept_field by reflexivity; [apply (ts_headers _ _ Hq) | lia]. }
  assert (get_ip_tot_length (ip_of p) = n) as Hn by (change (get_tcp f_tot_len p = n); rewrite kept_field by reflexivity; reflexivity).
  assert (get_tcp f_doff p = 8) as Hd by (rewrite kept_field by reflexivity; exact H8).
  split; [exact Hh |]. split; [exact Hd |]. split; [exact Hn |].
  apply same_length; [apply (ts_headers _ _ Hq) | exact Hh | exact Hn | unfold get_tcp_data_offset; congruence].
Qed.

Lemma kept_slice off len : (12 ≤ off)%nat → Z.of_nat (off + len) ≤ n → slice (payload_ (ip_of p)) off len = slice (payload_ (ip_of q)) off len.
Proof.
  intros Ho Hl. apply list_eq. intros i. unfold slice. rewrite !lookup_take, !lookup_drop. case_decide; [| reflexivity].
  apply (ra_byte _ _ Hp). fold n. lia.
Qed.

Lemma kept_data : data_of p = data_of q.
Proof.
  destruct kept_headers as (Hh & H8 & _ & Hl). destruct sent_length as [Hn _]. pose proof (ts_data _ _ Hq).
  unfold data_of, TCPPacket.get_data. rewrite Hl, !headers_next by (exact Hh || apply Hq). unfold get_tcp_header_length_bytes.
  rewrite H8, (ts_offset _ _ Hq). apply kept_slice; lia.
Qed.

Lemma kept_segment : segment_ok p.
Proof.
  destruct kept_headers as (Hh & _ & Hn & _). destruct sent_length as [_ Hb]. split; [apply Hh | apply Hh | rewrite Hn; unfold MTU; lia].
Qed.

(** The checksum is taken over bytes that all arrive. *)
Lemma kept_checksum : tcp_checksum_of p = tcp_checksum_of q ∧ get_tcp_checksum p = get_tcp_checksum q.
Proof.
  split; [| apply kept_field; reflexivity]. unfold tcp_checksum_of. f_equal.
  pose proof (headers_wf _ (ts_headers _ _ Hq)) as Hwq. pose proof (ra_wf _ _ Hp) as Hwp. unfold TCPPacket.wf in *.
  destruct kept_headers as (_ & _ & Hn & _). destruct sent_length as [_ Hb].
  assert (∀ x, TCPPacket.wf x → ∀ f, disjoint f f_tcp_check = true → get_field f (ip_of (set_tcp_checksum 0 x)) = get_tcp f x) as Hset
    by (intros x Hx f Hf; apply (get_tcp_set_other f f_tcp_check 0 x); first [exact Hx | exact Hf | reflexivity]).
  assert (∀ x, IPPacket.wf (ip_of x) → ∀ i, i ∉ offsets f_tcp_check → payload_ (ip_of (set_tcp_checksum 0 x)) !! i = payload_ (ip_of x) !! i) as Hby
    by (intros x _ i Hi; unfold set_tcp_checksum, set_tcp; rewrite ip_of_with_ip_of; unfold set_field, with_payload; cbn [payload_]; apply lookup_put, Hi).
  assert (∀ x, IPPacket.wf (ip_of x) → ∀ i, i ∈ offsets f_tcp_check → payload_ (ip_of (set_tcp_checksum 0 x)) !! i = Some 0) as Hzero.
  { intros x [Hl _] i Hi. unfold set_tcp_checksum, set_tcp. rewrite ip_of_with_ip_of. unfold set_field, with_payload. cbn [payload_].
    unfold f_tcp_check in *. rewrite put_le16_eq. cbn in Hi. rewrite !elem_of_cons, elem_of_nil in Hi.
    destruct Hi as [-> | [-> | []]]; [rewrite list_lookup_insert_eq | rewrite list_lookup_insert_ne, list_lookup_insert_eq]; try reflexivity;
      rewrite ?length_insert, ?Hl; unfold MTU; lia. }
  assert (IPPacket.get_data_length_bytes (ip_of (set_tcp_checksum 0 p)) = n - 20 ∧ IPPacket.get_data_length_bytes (ip_of (set_tcp_checksum 0 q)) = n - 20) as [Lp Lq].
  { unfold IPPacket.get_data_length_bytes. pose proof (segment_ok_set_checksum 0 p kept_segment) as [Sp Ip _].
    assert (segment_ok q) as Sq by (split; [apply Hq | apply (ts_headers _ _ Hq) | fold n; unfold MTU; lia]).
    pose proof (segment_ok_set_checksum 0 q Sq) as [Sq' Iq _]. rewrite !header_length_bytes, Ip, Iq by assumption.
    unfold get_ip_tot_length. rewrite !Hset by (assumption || reflexivity). change (get_tcp f_tot_len p) with (get_ip_tot_length (ip_of p)).
    rewrite Hn. fold n. unfold n. change (get_tcp f_tot_len q) with (get_ip_tot_length (ip_of q)). lia. }
  apply checksum_input_ext; [congruence | |].
  - pose proof (kept_field (byte 9) eq_refl eq_refl) as H9. unfold get_tcp, get_field, get in H9. cbn [byte get_bytes] in H9.
    unfold byte_at in *. rewrite !Hby by (assumption || (cbn; rewrite !elem_of_cons, elem_of_nil; lia)). lia.
  - intros i Hi. rewrite Lq in Hi. destruct (decide (i ∈ offsets f_tcp_check)) as [Hin | Hout]; [rewrite !Hzero by assumption; reflexivity |].
    rewrite !Hby by assumption. apply (ra_byte _ _ Hp). fold n. lia.
Qed.

Lemma kept_option : get_option TCPOPT_TIMESTAMP p = Done (Some o, TCPPacket.with_options [o] p).
Proof.
  destruct kept_headers as (Hh & H8 & _ & _). destruct sent_length as [_ Hb].
  assert (carries o p) as Hcp.
  { unfold carries in *. unfold get_options_pointer in *. rewrite !headers_next in * by (exact Hh || apply Hq). rewrite <- Hc. change (Z.to_nat sizeof_tcphdr) with 20%nat; apply kept_slice; lia. }
  unfold get_option. rewrite (ra_options _ _ Hp), H8. change (sizeof_tcphdr / 4 <? 8) with true. cbn [andb].
  change (u8 ((8 - sizeof_tcphdr / 4) * 4)) with 12.
  rewrite (carries_parse o p (S MTU) Hcp (ts_ok _ _ Hq) (ts_length _ _ Hq)) by (unfold MTU; lia). cbn [mbind outcome_bind mret outcome_ret].
  cbn [options_ TCPPacket.with_options find_option]. rewrite (ts_kind _ _ Hq), Z.eqb_refl. reflexivity.
Qed.

End Received.

(** ** Segments in flight *)

Section Flight.
Context (base ackno : Z) (stream : Z → Z).

(** Segment [q] carries the stream from position [x] on and acknowledges [ackno]. *)
Record flies (x : Z) (q : tcp_packet) : Prop := {
  fl_option : ∃ o, timestamped o q ∧ carries o q;
  fl_valid : is_valid_tcp_checksum q = Done (true, q);
  fl_seq : get_tcp_sequence_number q = seq_at base x;
  fl_ack : get_tcp_ack_number q = ackno;
  fl_flags : is_tcp_syn q = false ∧ is_tcp_fin q = false;
  fl_length : 0 < get_data_length_bytes q;
  fl_data : data_of q = stretch stream x (x + get_data_length_bytes q);
  fl_fresh : fresh (wifu q) }.

(** Segments one after the other from [x] to [e]. *)
Fixpoint flight (x e : Z) (qs : list tcp_packet) : Prop :=
  match qs with [] => x = e | q :: qs => flies x q ∧ flight (x + get_data_length_bytes q) e qs end.

Lemma flight_position e qs : ∀ x, flight x e qs → x ≤ e ∧ ∀ q, q ∈ qs → ∃ y, x ≤ y ∧ y + get_data_length_bytes q ≤ e ∧ flies y q.
Proof.
  induction qs as [|q qs IH]; intros x; cbn [flight]; [intros ->; split; [lia | intros q []%not_elem_of_nil] |].
  intros [Hq Hqs]. destruct (IH _ Hqs) as [Hx Hall]. pose proof (fl_length _ _ Hq). split; [lia |].
  intros q' [-> | Hin]%elem_of_cons; [exists x; split; [lia | split; [lia | exact Hq]] |].
  destruct (Hall q' Hin) as (y & ? & ? & ?). exists y. split; [lia | auto].
Qed.

Lemma flight_covers e qs : ∀ x, flight x e qs → ∀ i, x ≤ i < e → ∃ q y, q ∈ qs ∧ flies y q ∧ y ≤ i < y + get_data_length_bytes q.
Proof.
  induction qs as [|q qs IH]; intros x; cbn [flight]; [intros -> i Hi; lia |].
  intros [Hq Hqs] i Hi. destruct (decide (i < x + get_data_length_bytes q)) as [Hlt | Hge].
  - exists q, x. split; [left | split; [exact Hq | lia]].
  - destruct (IH _ Hqs i ltac:(lia)) as (q' & y & Hin & Hy & Hi'). exists q', y. split; [right; exact Hin | auto].
Qed.

Lemma flies_leaving x q : flies x q → leaving q ∧ 24 ≤ get_ip_tot_length (ip_of q).
Proof.
  intros [(o & Hq & _) _ _ _ _ _ _ Hf]. destruct (sent_length q o Hq) as [_ Hb].
  split; [split; [split; [apply Hq | apply (ts_headers _ _ Hq) | unfold MTU; lia] | exact Hf] | lia].
Qed.

(** A segment of the flight is what the receiver expects. *)
Lemma flies_arriving f0 L x q r :
  flies x q → received_as q (pkt r) → f0 ≤ x → x + get_data_length_bytes q ≤ L → L ≤ f0 + 2 ^ 15 →
  arriving base f0 L ackno stream r ∧ stream_position base f0 r = x ∧ len_of r = get_data_length_bytes q.
Proof.
  intros [(o & Hq & Hc) Hv Hs Ha [Hsyn Hfin] Hl Hd _] Hp Hx HL Hspan. destruct (kept_headers q (pkt r) o Hq Hp) as (Hh & H8 & Hn & Hlen).
  assert (seq_of r = seq_at base x) as Hseq.
  { unfold seq_of, get_tcp_sequence_number in *. rewrite (kept_field q _ o Hq Hp) by reflexivity. exact Hs. }
  assert (stream_position base f0 r = x) as Hpos by (apply stream_position_at; [exact Hseq | lia]).
  assert (len_of r = get_data_length_bytes q) as Hlr by exact Hlen.
  split; [| auto]. destruct (sent_length q o Hq) as [Hsl Hsb]. pose proof (ts_data _ _ Hq) as Hmss.
  split.
  - exact (kept_segment q _ o Hq Hp).
  - rewrite is_valid_tcp_checksum_eq by exact (kept_segment q _ o Hq Hp). destruct (kept_checksum q _ o Hq Hp) as [-> ->].
    assert (segment_ok q) as Sq by (split; [apply Hq | apply (ts_headers _ _ Hq) | unfold MTU; lia]).
    rewrite is_valid_tcp_checksum_eq in Hv by exact Sq. injection Hv as ->. reflexivity.
  - intros _. unfold get_tcp_ack_number in *. rewrite (kept_field q _ o Hq Hp) by reflexivity. exact Ha.
  - unfold is_tcp_syn, is_tcp_fin, is_tcp in *. rewrite !(kept_field q _ o Hq Hp) by reflexivity. auto.
  - rewrite Hlr. lia.
  - do 2 eexists. exact (kept_option q _ o Hq Hc Hp).
  - apply carries_data; [apply Hp | | rewrite Hlr; lia |].
    + unfold TCPPacket.get_data. rewrite headers_next by exact Hh. unfold get_tcp_header_length_bytes. rewrite H8, Hlr. unfold MSS, MTU in *. lia.
    + rewrite (kept_data q _ o Hq Hp), Hd. unfold finish. rewrite Hpos, Hlr. reflexivity.
  - unfold finish. rewrite Hpos, Hlr. lia.
Qed.

End Flight.

(** ** The sending side *)

Section Sender.
Context `{ReliabilityState C}.
Context (base u : Z).

(** A connection that sends data: [n] bytes outstanding from position [u], with a peer at
    RCV.NXT [ackno]. *)
Record sender (s c : nat) (n m ackno sec ns : Z) (k : container C) (sk : socket) (t : world (tahoe C)) : Prop := {
  sd_attached : attached s c k sk t;
  sd_initialized : initialized_ (rc (reliability_ k)) = true;
  sd_window : window base u n m (odc (rc (reliability_ k)));
  sd_ack : rcv_nxt_ (rc (reliability_ k)) = ackno ∧ is_u32 ackno;
  sd_wnd : is_u16 (rcv_wnd_ (rc (reliability_ k)));
  sd_delay : delay_ok (rto_ (rc (reliability_ k))) sec ns }.

(** What a data segment leaves as it was. *)
Lemma stamped_env_other s sec ns p (w : env C) :
  let r := rc (ctx w) in let r' := rc (ctx (stamped_env s sec ns p (numbered_env p w))) in
  initialized_ r' = initialized_ r ∧ rcv_nxt_ r' = rcv_nxt_ r ∧ rcv_wnd_ r' = rcv_wnd_ r ∧ rto_ r' = rto_ r.
Proof.
  cbv zeta. unfold stamped_env, numbered_env. cbn [ctx]. destruct (0 <? sequence_length p); [unfold started; cbn [ctx]; rewrite rc_update; cbn [timer_ set_snd_nxt with_odc];
    destruct (timer_ (rc (ctx w))) |]; rc_simpl; auto.
Qed.

(** The packets among some effects that go to the network. *)
Definition packets_sent (t : list effect) : list tcp_packet :=
  omap (fun x => match x with Dispatch (NetworkSendPacketEvent _ q) => Some q | _ => None end) t.

Lemma pack_keeps_cache q q' : seal q = Done q' → source_ (wifu q') = source_ (wifu q) ∧ dest_ (wifu q') = dest_ (wifu q).
Proof.
  unfold seal, pack, calculate_and_set_tcp_checksum. intros E.
  apply outcome_bind_Done in E as (q1 & E1 & E). apply outcome_bind_Done in E1 as (m & _ & [= <-]).
  apply outcome_bind_Done in E as ([sum x] & _ & [= <-]). split; reflexivity.
Qed.

Lemma data_segment_length p : data_segment p → sequence_length p = get_data_length_bytes p.
Proof. intros [_ _ _ [Hs Hf] _ _ _]. unfold sequence_length. rewrite Hs, Hf. reflexivity. Qed.

Lemma data_segment_control p b : data_segment p → control_bytes p b = [].
Proof. intros [_ _ _ [Hs Hf] _ _ _]. unfold control_bytes. rewrite Hs, Hf. reflexivity. Qed.

Lemma sends_segment s c n m ackno sec ns k sk t p stream (len := get_data_length_bytes p) :
  sender s c n m ackno sec ns k sk t → data_segment p → n + len < 2 ^ 31 → data_of p = stretch stream (u + n) (u + n + len) →
  ∃ q k' sk' t' tr, icontext_send_packet s p t = Done (tt, t') ∧
    sender s c (n + len) (Z.max m (u + (n + len))) ackno sec ns k' sk' t' ∧
    trace (tio t') = (trace (tio t) ++ tr)%list ∧ packets_sent tr = [q] ∧ flies base ackno stream (u + n) q ∧ get_data_length_bytes q = len.
Proof.
  intros [Ha Hi Hw [Hack Hu] Hwnd Hd] Hp Hn Hdata. pose proof Hp as [Hh Ho H8 [Hsyn Hfin] Hlen Hcount [Hc1 Hc2]].
  assert (outgoing p) as Hout by (split; assumption).
  assert (sequence_length p = len) as Hsl by (apply data_segment_length, Hp).
  destruct (send_packet_eq s c k sk t p base u n m sec ns Ha Hi Hw Hout H8 ltac:(lia) ltac:(rewrite Hsl; exact Hn)
    ltac:(rewrite Hack; exact Hu) Hd ltac:(rewrite Hsyn; discriminate)) as (q & E & Eseal & [Hts Hv Dq Hfq Hlq Hc]).
  set (r := rc (reliability_ k)) in *. set (q1 := stamped _ _ _ _ _ _) in *. set (tb := accounted s c k sk sec ns p q1 t) in *.
  set (w := {| ctx := reliability_ k; sock := sk; io := tio t |}).
  destruct (state_send_packet_stamps base u n m s p w sec ns Hw ltac:(lia) ltac:(rewrite Hsl; exact Hn)) as (Hw' & _ & Ht1). set (t1 := timer_effects s sec ns (0 <? sequence_length p) w) in Ht1.
  destruct (stamped_env_other s sec ns p w) as (O1 & O2 & O3 & O4). rewrite Hsl in Hw'.
  set (w1 := stamped_env s sec ns p (numbered_env p w)) in *.
  destruct (stamped_spec (seq_at base (u + n)) (rcv_nxt_ r) (rcv_wnd_ r) (u32 (now (tio t))) (echo_reply_ r) p
    Hh (seq_at_range _ _) ltac:(rewrite Hack; exact Hu) Hwnd) as (_ & _ & D1 & L1 & Es & Ea & _ & _ & Ey & Ef). fold q1 in D1, L1, Es, Ea, Ey, Ef.
  assert (get_data_length_bytes q = len) as Hq by (rewrite Hlq; exact L1).
  exists q, (set_congestion_control (cc_sent q1 (congestion_control_ k)) (set_reliability (ctx w1) k)), (sock w1),
    (with_io (add_trace [Dispatch (NetworkSendPacketEvent s q)] (tio tb)) tb), (t1 ++ [Dispatch (NetworkSendPacketEvent s q)])%list.
  split; [exact E |]. split; [| split; [| split; [| split; [| exact Hq]]]].
  - split; cbn [set_congestion_control set_reliability reliability_]; rewrite ?O1, ?O2, ?O3, ?O4; auto.
    destruct Ha as [Hm _ _]. split; [exact Hm | apply lookup_insert_eq | apply lookup_insert_eq].
  - transitivity (trace (io w1) ++ [Dispatch (NetworkSendPacketEvent s q)])%list; [reflexivity |].
    rewrite Ht1, <- app_assoc. reflexivity.
  - unfold packets_sent, t1, timer_effects. destruct (0 <? _); [destruct (timer_ _) |]; reflexivity.
  - split.
    + exists (stamped_option (u32 (now (tio t))) (echo_reply_ r)). auto.
    + exact Hv.
    + unfold get_tcp_sequence_number in *. rewrite Hfq by reflexivity. exact Es.
    + unfold get_tcp_ack_number in *. rewrite Hfq by reflexivity. rewrite Ea. exact Hack.
    + unfold is_tcp_syn, is_tcp_fin, is_tcp in *. rewrite !Hfq by reflexivity. split; congruence.
    + lia.
    + rewrite Dq, D1, Hq. exact Hdata.
    + destruct (pack_keeps_cache _ _ Eseal) as [S1 S2]. split; [apply (headers_wf _ (ts_headers _ _ Hts)) |].
      rewrite S1, S2. assert (source_ (wifu q1) = source_ (wifu p) ∧ dest_ (wifu q1) = dest_ (wifu p)) as [-> ->].
      { unfold q1, stamped, numbered. destruct (rcv_nxt_ r =? 0); split; reflexivity. }
      auto.
Qed.

(** The module handles the SendPacketEvents of a list of segments one after the other. *)
Fixpoint send_all (s : nat) (ps : list tcp_packet) : protocol (tahoe C) unit :=
  match ps with [] => mret tt | p :: ps => _ ← icontext_send_packet s p; send_all s ps end.

Lemma packets_sent_app t t' : packets_sent (t ++ t') = (packets_sent t ++ packets_sent t')%list.
Proof. unfold packets_sent. apply omap_app. Qed.

(** Consecutive segments, as the wire gets them. *)
Lemma sends_all s c ackno sec ns stream e ps : ∀ n m k sk t,
  sender s c n m ackno sec ns k sk t → Forall data_segment ps → u + n ≤ e → e - u < 2 ^ 31 →
  concat (map data_of ps) = stretch stream (u + n) e →
  ∃ qs k' sk' t' tr m', send_all s ps t = Done (tt, t') ∧ sender s c (e - u) m' ackno sec ns k' sk' t' ∧
    trace (tio t') = (trace (tio t) ++ tr)%list ∧ packets_sent tr = qs ∧ flight base ackno stream (u + n) e qs.
Proof.
  induction ps as [|p ps IH]; intros n m k sk t Hs Hps Hne He Hcat; cbn [map concat] in Hcat.
  - pose proof (length_stretch stream (u + n) e Hne) as Hl. rewrite <- Hcat in Hl. cbn in Hl.
    assert (u + n = e) as <- by lia. replace (u + n - u) with n by lia.
    exists [], k, sk, t, [], m. rewrite app_nil_r. do 4 (split; [reflexivity || exact Hs |]). reflexivity.
  - apply Forall_cons in Hps as [Hp Hps]. pose proof (ds_length _ Hp) as Hlp. pose proof (ds_data _ Hp) as Hdp. set (len := get_data_length_bytes p) in *.
    assert (u + n + len ≤ e) as Hle.
    { apply (f_equal length) in Hcat. rewrite length_app in Hcat. pose proof (length_stretch stream (u + n) e Hne). lia. }
    rewrite (stretch_app stream (u + n) (u + n + len)) in Hcat by lia.
    apply app_inj_1 in Hcat as [Hd Hcat]; [| pose proof (length_stretch stream (u + n) (u + n + len) ltac:(lia)); lia].
    destruct (sends_segment s c n m ackno sec ns k sk t p stream Hs Hp ltac:(fold len; lia) Hd) as (q & k1 & sk1 & t1 & tr1 & E1 & Hs1 & Ht1 & Hq1 & Hf & Hlq).
    fold len in Hs1, Hlq. rewrite <- Z.add_assoc in Hcat.
    destruct (IH (n + len) _ k1 sk1 t1 Hs1 Hps ltac:(lia) He Hcat) as (qs & k' & sk' & t' & tr & m' & E & Hs' & Ht & Hq & Hfl).
    exists (q :: qs), k', sk', t', (tr1 ++ tr)%list, m'. split; [cbn [send_all]; cbv beta iota zeta delta [mbind protocol_bind]; rewrite E1; exact E |].
    split; [exact Hs' |]. split; [rewrite Ht, Ht1, <- app_assoc; reflexivity |]. split; [rewrite packets_sent_app, Hq1, Hq; reflexivity |].
    cbn [flight]. rewrite Hlq, <- Z.add_assoc. auto.
Qed.

(** The packets among some effects that are queued to be sent. *)
Definition packets_queued (t : list effect) : list tcp_packet :=
  omap (fun x => match x with Enqueue (SendPacketEvent _ p) => Some p | _ => None end) t.

Lemma packets_queued_map s ps : packets_queued (map (fun p => Enqueue (SendPacketEvent s p)) ps) = ps.
Proof. unfold packets_queued. induction ps as [|p ps IH]; [reflexivity |]. cbn. f_equal. exact IH. Qed.

(** The send buffer has bytes: the congestion control queues what the window allows, and the
    queue's events are handled in turn. *)
Definition send_window (s : nat) : protocol (tahoe C) unit :=
  λ t, match icontext_send_buffer_not_empty s t with
       | Done (_, t1) => send_all s (packets_queued (drop (length (trace (tio t))) (trace (tio t1)))) t1
       | Fault f => Fault f
       end.

Lemma queues_window s c n m ackno sec ns k sk t (w := {| ctx := congestion_control_ k; sock := sk; io := tio t |}) :
  sender s c n m ackno sec ns k sk t → sending base u n m w → windows_ok (congestion_control_ k) →
  ∃ ps k' t', icontext_send_buffer_not_empty s t = Done (tt, t') ∧ sender s c n m ackno sec ns k' sk t' ∧ Forall data_segment ps ∧
    trace (tio t') = (trace (tio t) ++ map (fun p => Enqueue (SendPacketEvent s p)) ps)%list ∧
    concat (map data_of ps) = slice (send_buffer_ sk) (Z.to_nat n) (Z.to_nat (send_limit n w - n)).
Proof.
  intros [Ha Hi Hw Hack Hwnd Hd] Hs Hok.
  destruct (send_packets_ok base u n m s w Hs Hok) as (ps & w' & E & _ & Hsk & _ & Hio & Hcat & Hall).
  assert (trace (io w') = (trace (tio t) ++ map (fun p => Enqueue (SendPacketEvent s p)) ps)%list) as Ht by (rewrite Hio; reflexivity).
  destruct (call_step congestion_control_ set_congestion_control s c k sk _ t tt w' _ Ha E Ht) as (t' & C1 & Ha' & Hio').
  { apply Forall_map. apply (Forall_impl _ _ _ Hall). reflexivity. }
  { rewrite Hsk. reflexivity. }
  rewrite Hsk in Ha'. exists ps, (set_congestion_control (ctx w') k), t'. split.
  { unfold icontext_send_buffer_not_empty. cbv beta iota zeta delta [mbind protocol_bind]. rewrite (find_container_eq _ _ _ _ _ Ha). exact C1. }
  split; [split; assumption |]. split; [exact Hall |]. split; [rewrite Hio'; exact Ht | exact Hcat].
Qed.

(** The whole window leaves, in order. *)
Lemma sends_window s c n m ackno sec ns k sk t stream (w := {| ctx := congestion_control_ k; sock := sk; io := tio t |}) (L := u + send_limit n w) :
  sender s c n m ackno sec ns k sk t → sending base u n m w → windows_ok (congestion_control_ k) →
  stretch stream (u + n) L = slice (send_buffer_ sk) (Z.to_nat n) (Z.to_nat (send_limit n w - n)) →
  ∃ t' tr, send_window s t = Done (tt, t') ∧ trace (tio t') = (trace (tio t) ++ tr)%list ∧ flight base ackno stream (u + n) L (packets_sent tr).
Proof.
  intros Hv Hs Hok Hst. destruct (queues_window s c n m ackno sec ns k sk t Hv Hs Hok) as (ps & k1 & t1 & E1 & Hv1 & Hall & Ht1 & Hcat).
  pose proof (window_order _ _ _ _ _ (sending_window _ _ _ _ _ Hs)) as Hord. pose proof (sending_size _ _ _ _ _ Hs) as Hsz. cbn [sock w] in Hsz.
  assert (n ≤ send_limit n w < 2 ^ 31) as Hlim by (unfold send_limit, size_of, TCP_SOCKET_MAX_BUFFER_SIZE in *; cbn [sock w] in *; lia).
  destruct (sends_all s c ackno sec ns stream L ps n m k1 sk t1 Hv1 Hall ltac:(unfold L; lia) ltac:(unfold L; lia) ltac:(rewrite Hst; exact Hcat))
    as (qs & k' & sk' & t' & tr & m' & E & _ & Ht & Hq & Hfl).
  exists t', (map (fun p => Enqueue (SendPacketEvent s p)) ps ++ tr)%list. split.
  { unfold send_window. rewrite E1, Ht1, drop_app_length, packets_queued_map. exact E. }
  split; [rewrite Ht, Ht1, <- app_assoc; reflexivity |]. rewrite packets_sent_app, Hq.
  assert (packets_sent (map (fun p => Enqueue (SendPacketEvent s p)) ps) = []) as -> by (clear; unfold packets_sent; induction ps as [|p ps IH]; [reflexivity | exact IH]).
  exact Hfl.
Qed.

End Sender.

(** ** The transfer *)

(** A schedule at socket [s] of a host with sockets [h] and [coll], fed from the segments [qs]
    that were sent: every segment that arrives is one of them, each of them arrives at least
    once; the order, the repetitions and the application's calls in between are free. *)
Record transmission (h : Sockets.heap) (coll : Sockets.collection) (s : nat) (qs : list tcp_packet) (l : list receiver_input) : Prop := {
  tm_routed : ∀ q, q ∈ qs → coll !! make_key (local_of (ip_of q)) (remote_of (ip_of q)) = Some s;
  tm_from : ∀ r, Arrives r ∈ l → ∃ q created, q ∈ qs ∧ blank_segment created ∧ travel q created h coll = Done (Some (Some s, pkt r));
  tm_all : ∀ q, q ∈ qs → ∃ r created, Arrives r ∈ l ∧ blank_segment created ∧ travel q created h coll = Done (Some (Some s, pkt r));
  tm_calls : ∀ e, Calls e ∈ l → le_socket (re_event e) = s ∧ 0 ≤ re_data_length e < 2 ^ 63 }.

(** The bytes in the socket's receive buffer that the application has not read. *)
Definition unread `{Reliability C} (k : container C) (sk : socket) : list Z :=
  drop (Z.to_nat (receive_index_ (rc (reliability_ k)))) (receive_buffer_ sk).

Lemma stretch_nth a e l : Z.of_nat (length l) = e - a → stretch (fun x => nth (Z.to_nat (x - a)) l 0) a e = l.
Proof.
  intros Hl. unfold stretch. change (map ?f ?l) with (f <$> l). apply list_eq. intros i. rewrite list_lookup_fmap.
  destruct (decide (i < length l)%nat) as [Hi | Hi].
  - rewrite lookup_seqZ_lt by lia. cbn. replace (Z.to_nat _) with i by lia. apply lookup_lt_is_Some in Hi as [x Hx].
    rewrite Hx, (nth_lookup_Some _ _ _ _ Hx). reflexivity.
  - rewrite lookup_seqZ_ge by lia. cbn. symmetry. apply lookup_ge_None. lia.
Qed.

Section Transfer.
Context `{DeliveringState C}.
Context (base f0 a0 L v : Z) (stream : Z → Z).

Lemma receiver_unread s c a f k sk t : receiver (C := C) base f0 a0 L v stream s c a f k sk t → unread k sk = stretch stream a f.
Proof.
  intros Hv. destruct (rcv_unread _ _ _ _ _ _ _ (rv_receiving _ _ _ _ _ _ _ _ _ _ _ _ _ Hv)) as (seen & Hb & Hi). cbn [ctx sock] in *.
  unfold unread. rewrite Hi, Hb, Nat2Z.id. apply drop_app_length.
Qed.

Lemma transmission_travels h coll s qs l x q r created :
  transmission h coll s qs l → q ∈ qs → flies base v stream x q → blank_segment created → travel q created h coll = Done (Some (Some s, pkt r)) →
  received_as q (pkt r).
Proof.
  intros Htm Hin Hfl Hcr E. destruct (flies_leaving _ _ _ _ _ Hfl) as [Hlv H24].
  destruct (travels q created h coll s Hlv H24 Hcr (tm_routed _ _ _ _ _ Htm q Hin)) as (p & E' & Hp).
  rewrite E' in E. injection E as <-. exact Hp.
Qed.

Lemma transmission_delivers h coll s c qs l k sk t :
  receiver (C := C) base f0 a0 L v stream s c a0 f0 k sk t → a0 ≤ f0 ≤ L ∧ L ≤ a0 + 2 ^ 15 - 1 →
  flight base v stream f0 L qs → transmission h coll s qs l →
  ∃ k' sk' t' tr, take_inputs s l t = Done (tt, t') ∧ attached s c k' sk' t' ∧ trace (tio t') = (trace (tio t) ++ tr)%list ∧
    (answers tr ++ unread k' sk' = unread k sk ++ stretch stream f0 L)%list ∧ rcv_nxt_ (rc (reliability_ k')) = seq_at base L.
Proof.
  intros Hv Hroom Hfl Htm. destruct (flight_position base v stream L qs f0 Hfl) as [_ Hpos].
  assert (Forall (input_ok base f0 L v stream s) l) as Hl.
  { apply Forall_forall. intros [r | e |] Hin; cbn [input_ok]; [| apply (tm_calls _ _ _ _ _ Htm), Hin | exact I].
    destruct (tm_from _ _ _ _ _ Htm r Hin) as (q & created & Hq & Hcr & E). destruct (Hpos q Hq) as (x & Hx & HL & Hf).
    pose proof (transmission_travels _ _ _ _ _ x q r created Htm Hq Hf Hcr E) as Hr.
    apply (flies_arriving base v stream f0 L x q r Hf Hr Hx HL). lia. }
  destruct (take_inputs_spec base f0 a0 L v stream Hroom s c l a0 f0 k sk t Hv Hl)
    as (b & e & k' & sk' & t' & tr & E & Hv' & Hb & He & Ht & Han & Hall & Hgap).
  pose proof (rv_start _ _ _ _ _ _ _ _ _ _ _ _ _ Hv') as [HeL _]. pose proof (rv_receiving _ _ _ _ _ _ _ _ _ _ _ _ _ Hv') as Hr'.
  assert (e = L) as ->.
  { destruct (decide (e = L)) as [? | Hne]; [assumption |]. destruct Hgap. right.
    destruct (flight_covers base v stream L qs f0 Hfl e ltac:(lia)) as (q & x & Hq & Hf & Hx).
    destruct (tm_all _ _ _ _ _ Htm q Hq) as (r & created & Hin & Hcr & Et).
    pose proof (transmission_travels _ _ _ _ _ x q r created Htm Hq Hf Hcr Et) as Hr.
    destruct (Hpos q Hq) as (y & Hy & HyL & Hfy). exists r. split; [exact Hin |].
    assert (x = y) as <- by (pose proof (fl_seq _ _ _ _ _ Hf) as S1; pose proof (fl_seq _ _ _ _ _ Hfy) as S2; rewrite S1 in S2; unfold seq_at in S2; revert S2; word_lia).
    destruct (flies_arriving base v stream f0 L x q r Hf Hr Hy HyL ltac:(lia)) as (_ & P & Ln). unfold finish. rewrite P, Ln. exact Hx. }
  pose proof (rcv_order _ _ _ _ _ _ _ Hr') as Hbl.
  exists k', sk', t', tr. split; [exact E |]. split; [apply Hv' |]. split; [exact Ht |]. split.
  - rewrite Han, (receiver_unread s c b L k' sk' t' Hv'), (receiver_unread s c a0 f0 k sk t Hv).
    rewrite <- (stretch_app stream a0 b L), <- (stretch_app stream a0 f0 L) by lia. reflexivity.
  - exact (rcv_next _ _ _ _ _ _ _ Hr').
Qed.

End Transfer.

(** C1: what one application hands over is what the other one gets. The sending host's
    TCPTahoe, told that its send buffer has bytes, cuts the part its windows allow into
    segments, and each leaves for the wire once. Whatever the order in which these segments
    reach the other host, however often each of them arrives (at least once), and however the
    other application's receive calls fall in between, the receiving host's TCPTahoe takes
    every one of them without a fault, the bytes it answered plus those it holds for the next
    call are the ones it held before followed by exactly the sender's bytes, in order, and
    its RCV.NXT is just after the last of them. The unread bytes and the window sent together
    stay below half of the 64 KiB window. *)
Theorem transfer_delivers {C1} `{ReliabilityState C1} {C2} `{DeliveringState C2} base u n m v sec ns s c (k : container C1) sk t
    (w := {| ctx := congestion_control_ k; sock := sk; io := tio t |}) (f0 := u + n) (L := u + send_limit n w) :
  sender base u s c n m v sec ns k sk t → sending base u n m w → windows_ok (congestion_control_ k) →
  ∃ t' sent, send_window s t = Done (tt, t') ∧ trace (tio t') = (trace (tio t) ++ sent)%list ∧
    ∀ h coll a0 stream s2 c2 (k2 : container C2) sk2 t2 l,
      receiver base f0 a0 L v stream s2 c2 a0 f0 k2 sk2 t2 → a0 ≤ f0 → L ≤ a0 + 2 ^ 15 - 1 →
      stretch stream f0 L = slice (send_buffer_ sk) (Z.to_nat n) (Z.to_nat (send_limit n w - n)) →
      transmission h coll s2 (packets_sent sent) l →
      ∃ k2' sk2' t2' tr, take_inputs s2 l t2 = Done (tt, t2') ∧ attached s2 c2 k2' sk2' t2' ∧ trace (tio t2') = (trace (tio t2) ++ tr)%list ∧
        (answers tr ++ unread k2' sk2' = unread k2 sk2 ++ slice (send_buffer_ sk) (Z.to_nat n) (Z.to_nat (send_limit n w - n)))%list ∧
        rcv_nxt_ (rc (reliability_ k2')) = seq_at base L.
Proof.
  intros Hv Hs Hok. destruct (queues_window base u s c n m v sec ns k sk t Hv Hs Hok) as (ps & k1 & t1 & E1 & Hv1 & Hall & Ht1 & Hcat).
  set (bytes := slice _ _ _) in *. pose proof (window_order _ _ _ _ _ (sending_window _ _ _ _ _ Hs)) as Hord.
  assert (f0 ≤ L) as HfL by (unfold f0, L, send_limit; lia).
  pose proof (sending_size _ _ _ _ _ Hs) as Hsz. cbn [sock w] in Hsz.
  assert (Z.of_nat (length bytes) = L - f0) as Hlb.
  { unfold bytes. rewrite length_slice; unfold L, f0, send_limit, size_of, w in *; cbn [sock ctx] in *. clear - Hord. lia. }
  set (own_stream := fun x => nth (Z.to_nat (x - f0)) bytes 0).
  assert (stretch own_stream f0 L = bytes) as Hown by (apply stretch_nth; exact Hlb).
  destruct (sends_window base u s c n m v sec ns k sk t own_stream Hv Hs Hok Hown) as (t' & sent & E & Ht & _).
  exists t', sent. split; [exact E |]. split; [exact Ht |]. intros h coll a0 stream s2 c2 k2 sk2 t2 l Hr Ha HL Hst Htm.
  destruct (sends_window base u s c n m v sec ns k sk t stream Hv Hs Hok Hst) as (t'' & sent' & E' & Ht' & Hfl).
  rewrite E' in E. injection E as ->. rewrite Ht in Ht'. apply app_inv_head in Ht' as <-.
  destruct (transmission_delivers base f0 a0 L v stream h coll s2 c2 _ l k2 sk2 t2 Hr ltac:(lia) Hfl Htm) as (k2' & sk2' & t2' & tr & R1 & R2 & R3 & R4 & R5).
  exists k2', sk2', t2', tr. rewrite Hst in R4. auto.
Qed.

(** ** A concrete transfer

    2000 bytes in two segments, which arrive in reverse order and twice. *)
Definition sample_bytes : list Z := map (fun i => Z.of_nat i mod 251) (seq 0 2000).

Definition sample_variables (x : Z) : outstanding := {| iss_ := 1; mss_ := 1448; snd_nxt_ := x; snd_una_ := x; snd_max_ := x |}.

(** Next to send is [x]; next to receive is [y]. *)
Definition sample_end (x y : Z) : rc_context :=
  {| odc := sample_variables x; initialized_ := true; rcv_nxt_ := y; rcv_wnd_ := MAX_TCP_RECEIVE_WINDOW_SIZE; timer_ := None;
     duplicate_ack_number_ := 0; duplicates_ := 0; receive_window_ := set_first_sequence_number y new_TCPPacketBuffer;
     receive_event_ := None; echo_reply_ := 5; rto_ := INITIAL_RTO; srtt_ := of_Z (-1); rttvar_ := of_Z (-1); receive_index_ := 0 |}.

Definition sample_host (x y : Z) : container rc_context :=
  {| reliability_ := sample_end x y; connection_manager_ := ctx (sample_cm Established ACTIVE_OPEN None None);
     congestion_control_ := Congestion.with_odc (fun _ => sample_variables x) (sample_context 65535);
     saved_send_event_ := None; saved_close_event_ := None; fin_ := None; saved_accept_event_ := None; back_log_ := None |}.

Definition sample_endpoint (buffer : list Z) : socket :=
  with_buffers [] buffer (new_Socket 3 2 1 6 (address_port_of 16909060 80) (address_port_of 84281096 56)).

Definition host_world (k : container rc_context) (sk : socket) : world (tahoe rc_context) :=
  {| sockets_ := {[ 5%nat ]}; own := {| map_ := {[ 5%nat := 6%nat ]}; containers := {[ 6%nat := k ]}; back_logs := ∅ |};
     sockets := {[ 5%nat := sk ]}; socket_collection := ∅; tio := {| next_pointer := 9; now := 2000000; trace := [] |} |}.

Definition sender_world : world (tahoe rc_context) := host_world (sample_host 10 3) (sample_endpoint sample_bytes).
Definition receiver_world : world (tahoe rc_context) := host_world (sample_host 3 10) (sample_endpoint []).

Definition sample_flight : list tcp_packet :=
  match send_window 5 sender_world with Done (_, t) => packets_sent (trace (tio t)) | Fault _ => [] end.

Definition sample_created : tcp_packet := match fresh_TCPPacket with Done p => p | Fault _ => zero_tcp_packet end.

Definition sample_routes : Sockets.collection :=
  list_to_map (map (fun q => (make_key (local_of (ip_of q)) (remote_of (ip_of q)), 5%nat)) sample_flight).

Definition sample_arrival (q : tcp_packet) : packet_ref :=
  {| address := 1; pkt := match travel q sample_created ∅ sample_routes with Done (Some (_, p)) => p | _ => zero_tcp_packet end |}.

Definition sample_call (n : Z) : receive_event :=
  {| re_event := {| le_socket := 5; le_message_type := 9; le_fd := 3; le_source := "app" |}; re_data_length := n |}.

(** The segments in reverse order and again in order, among receive calls. *)
Definition schedule_of {A} (arrival : A → packet_ref) (qs : list A) : list receiver_input :=
  ([Calls (sample_call 100)] ++ map (fun q => Arrives (arrival q)) (rev qs) ++ [Notifies] ++ map (fun q => Arrives (arrival q)) qs ++
   [Calls (sample_call 1500); Notifies])%list.

Lemma schedule_arrives {A} (arrival : A → packet_ref) qs r : Arrives r ∈ schedule_of arrival qs ↔ ∃ q, q ∈ qs ∧ r = arrival q.
Proof.
  unfold schedule_of. rewrite !list_elem_of_In, !in_app_iff, !in_map_iff. setoid_rewrite <- in_rev. setoid_rewrite list_elem_of_In. cbn. split.
  - intros [[? | []] | [(q & [= <-] & Hq) | [[? | []] | [(q & [= <-] & Hq) | [? | [? | []]]]]]]; first [discriminate | eauto].
  - intros (q & Hq & ->). right. left. eauto.
Qed.

Lemma schedule_calls {A} (arrival : A → packet_ref) qs e : Calls e ∈ schedule_of arrival qs → e = sample_call 100 ∨ e = sample_call 1500.
Proof.
  unfold schedule_of. rewrite !list_elem_of_In, !in_app_iff, !in_map_iff. cbn.
  intros [[[= <-] | []] | [(q & ? & _) | [[? | []] | [(q & ? & _) | [[= <-] | [? | []]]]]]]; first [discriminate | auto].
Qed.

Definition sample_schedule : list receiver_input := schedule_of sample_arrival sample_flight.

Lemma sample_sender : sender 0 10 5 6 0 10 3 3 0 (sample_host 10 3) (sample_endpoint sample_bytes) sender_world.
Proof.
  split; try reflexivity.
  - split; apply lookup_singleton_eq || reflexivity.
  - split; try reflexivity. lia.
  - split; [reflexivity | unfold is_u32; cbn; lia].
  - unfold is_u16. cbn. unfold MAX_TCP_RECEIVE_WINDOW_SIZE, USHRT_MAX. lia.
  - apply INITIAL_RTO_delay.
Qed.

Lemma sample_sends : sending 0 10 0 10 {| ctx := congestion_control_ (sample_host 10 3); sock := sample_endpoint sample_bytes; io := tio sender_world |}.
Proof.
  split.
  - eexists. reflexivity.
  - apply Forall_map, Forall_forall. intros i _. unfold is_byte. pose proof (Z.mod_pos_bound (Z.of_nat i) 251 ltac:(lia)). lia.
  - apply Z.leb_le. vm_compute. reflexivity.
  - reflexivity.
  - split; try reflexivity. lia.
Qed.

Lemma sample_receiver stream : receiver 0 10 10 2010 3 stream 5 6 10 10 (sample_host 3 10) (sample_endpoint []) receiver_world.
Proof.
  assert (held (stream_position 0 10) 10 (sample_end 3 10) = ∅) as Hh by reflexivity.
  split; cbn [sample_host reliability_ connection_manager_ saved_close_event_ congestion_control_ sample_endpoint with_buffers send_buffer_ receive_buffer_]; rewrite ?Hh; try reflexivity.
  - split; apply lookup_singleton_eq || reflexivity.
  - split; cbn [ctx sock sample_end rc]; try reflexivity; rewrite ?Hh.
    + eexists. reflexivity.
    + change 10 with (seq_at 0 10). apply inv_fresh.
    + constructor.
    + constructor.
    + exists []. rewrite stretch_nil. split; reflexivity.
    + discriminate.
  - repeat split.
  - split; [repeat split | reflexivity | split; cbn; lia | cbn; lia].
  - lia.
  - intros e. discriminate.
  - apply not_elem_of_empty.
  - intros x []%not_elem_of_empty.
Qed.

Lemma sample_transmission : transmission ∅ sample_routes 5 sample_flight sample_schedule.
Proof.
  assert (Forall (fun q => sample_routes !! make_key (local_of (ip_of q)) (remote_of (ip_of q)) = Some 5%nat ∧
    travel q sample_created ∅ sample_routes = Done (Some (Some 5%nat, pkt (sample_arrival q)))) sample_flight) as Hall.
  { assert (forallb (fun q => match sample_routes !! make_key (local_of (ip_of q)) (remote_of (ip_of q)), travel q sample_created ∅ sample_routes with
      | Some 5%nat, Done (Some (Some 5%nat, _)) => true | _, _ => false end) sample_flight = true) as H by (vm_compute; reflexivity).
    rewrite forallb_forall in H. apply Forall_forall. intros q Hq. apply list_elem_of_In in Hq. specialize (H q Hq). unfold sample_arrival. cbn [pkt].
    destruct (sample_routes !! _) as [[|[|[|[|[|[|]]]]]]|]; try discriminate H.
    destruct (travel q sample_created ∅ sample_routes) as [[[[[|[|[|[|[|[|]]]]]]|] p]|]|]; try discriminate H. split; reflexivity. }
  rewrite Forall_forall in Hall.
  assert (blank_segment sample_created) as Hb.
  { destruct fresh_TCPPacket_spec as (p & E & Hp & _). unfold sample_created. assert (options_ sample_created = [] ∧ source_ (wifu sample_created) = None ∧ dest_ (wifu sample_created) = None) as (Ho & H1 & H2) by (vm_compute; auto).
    unfold sample_created in Ho, H1, H2. rewrite E in *. split; [split; [apply Hp | auto] | exact Ho]. }
  split.
  - intros q Hq. apply Hall, Hq.
  - intros r (q & Hq & ->)%schedule_arrives. exists q, sample_created. split; [exact Hq |]. split; [exact Hb | apply Hall, Hq].
  - intros q Hq. exists (sample_arrival q), sample_created. split; [| split; [exact Hb | apply Hall, Hq]].
    apply schedule_arrives. exists q. split; [exact Hq | reflexivity].
  - intros e [-> | ->]%schedule_calls; (split; [reflexivity | cbn; lia]).
Qed.

Lemma transfer_delivers_witness :
  ∃ (k' : container rc_context) sk' t' tr, take_inputs 5 sample_schedule receiver_world = Done (tt, t') ∧ trace (tio t') = tr ∧
    (answers tr ++ unread k' sk')%list = sample_bytes ∧ rcv_nxt_ (rc (reliability_ k')) = 2010.
Proof.
  destruct (transfer_delivers (C2 := rc_context) 0 10 0 10 3 3 0 5 6 (sample_host 10 3) (sample_endpoint sample_bytes) sender_world sample_sender sample_sends)
    as (t1 & sent & E1 & Hs & Hall); [split; cbn; lia |].
  assert (packets_sent sent = sample_flight) as Hq by (unfold sample_flight; rewrite E1, Hs; reflexivity).
  assert (send_limit 0 {| ctx := congestion_control_ (sample_host 10 3); sock := sample_endpoint sample_bytes; io := tio sender_world |} = 2000)
    as Hlim by (vm_compute; reflexivity).
  rewrite Hlim, Hq in Hall.
  destruct (Hall ∅ sample_routes 10 (fun x => nth (Z.to_nat (x - 10)) sample_bytes 0) 5%nat 6%nat (sample_host 3 10) (sample_endpoint []) receiver_world sample_schedule)
    as (k' & sk' & t' & tr & E & _ & Ht & Hb & Hn).
  - apply sample_receiver.
  - lia.
  - lia.
  - apply stretch_nth. vm_compute. reflexivity.
  - apply sample_transmission.
  - exists k', sk', t', tr. split; [exact E |]. split; [exact Ht |]. split; [refine (eq_trans Hb _); vm_compute; reflexivity | refine (eq_trans Hn _); vm_compute; reflexivity].
Defined.
