(* ===== verification/PacketLog.v ===== *)
(** * The packet log (PacketLogger.cc, PacketLoggerItem.cc, PacketLogReader.cc, NetworkTrace.cc)

    Network puts every packet it sends or receives into a log, which is flushed to a pcap file
    when enough packets wait or a timer fires. The reader makes a trace of packets from such a
    file. The file is its bytes; whether it can be opened is given at each attempt. An item of
    the log is a pointer to a packet: what is written is what the packet holds when the log is
    flushed. *)
From S2P Require Import Prelude.
From S2P Require Import Double.
From S2P Require Import HeaderMem.
From S2P Require Import IPPacket.
From S2P Require Import WiFuPacket.
From S2P Require Import TCPPacket.

Definition SIMPLE_TCP : Z := 206.
Definition FAKE_ETHERNET_HEADER_SIZE : Z := 14.

(** The [n] bytes of a word in memory, in the (little-endian) order of the host. *)
Fixpoint le_bytes (n : nat) (v : Z) : list Z :=
  match n with O => [] | S n => v mod 256 :: le_bytes n (v / 256) end.

(** ** The pcap format *)

(** [PcapFileHeader]: the bytes that [write_file_header] writes. *)
Definition file_header : list Z :=
  le_bytes 4 2712847316 (* 0xa1b2c3d4 *) ++ le_bytes 2 2 ++ le_bytes 2 4 ++ le_bytes 4 0 ++ le_bytes 4 0
  ++ le_bytes 4 USHRT_MAX ++ le_bytes 4 1.

Definition sizeof_PcapFileHeader : nat := 24.
Definition sizeof_PcapPacketHeader : nat := 16.

Definition fake_ethernet_header : list Z := [0; 80; 86; 183; 22; 199; 0; 15; 254; 254; 82; 23; 8; 0].

(** PacketLoggerItem: a packet and the time it was logged. *)
Record item := { packet_ : nat; tv_sec : Z; tv_usec : Z }.

(** The packets by their address. *)
Definition heap := nat → ip_packet.

Definition packet_header (it : item) (tot_length : Z) : list Z :=
  le_bytes 4 (tv_sec it) ++ le_bytes 4 (tv_usec it) ++ le_bytes 4 (tot_length + FAKE_ETHERNET_HEADER_SIZE)
  ++ le_bytes 4 (tot_length + FAKE_ETHERNET_HEADER_SIZE).

(** What is written for one item. The packet's array is read over its total length. *)
Definition record_of (h : heap) (it : item) : outcome (list Z) :=
  let p := h (packet_ it) in
  let tot_length := get_ip_tot_length p in
  if decide (Z.to_nat tot_length ≤ length (payload_ p))%nat
  then Done (packet_header it tot_length ++ fake_ethernet_header ++ slice (payload_ p) 0 (Z.to_nat tot_length))
  else Fault OutOfBounds.

(** ** class PacketLogger

    [flushing]: a thread is in [flush] with the file open. *)

Record logger := {
  fileout_ : list Z;
  lock_ : bool;
  flushing : bool;
  items_ : list item;
  flush_count_ : Z;
  flush_seconds_ : double;
  flush_nanoseconds_ : Z;
  timeout_ : nat;
  timeouts_made : nat;
  dispatched : list (nat * Z * Z) }.

Definition with_file (f : list Z) (l : logger) : logger :=
  {| fileout_ := f; lock_ := lock_ l; flushing := flushing l; items_ := items_ l; flush_count_ := flush_count_ l; flush_seconds_ := flush_seconds_ l;
     flush_nanoseconds_ := flush_nanoseconds_ l; timeout_ := timeout_ l; timeouts_made := timeouts_made l; dispatched := dispatched l |}.

Definition with_lock (b : bool) (l : logger) : logger :=
  {| fileout_ := fileout_ l; lock_ := b; flushing := flushing l; items_ := items_ l; flush_count_ := flush_count_ l; flush_seconds_ := flush_seconds_ l;
     flush_nanoseconds_ := flush_nanoseconds_ l; timeout_ := timeout_ l; timeouts_made := timeouts_made l; dispatched := dispatched l |}.

Definition with_flushing (b : bool) (l : logger) : logger :=
  {| fileout_ := fileout_ l; lock_ := lock_ l; flushing := b; items_ := items_ l; flush_count_ := flush_count_ l;
     flush_seconds_ := flush_seconds_ l; flush_nanoseconds_ := flush_nanoseconds_ l; timeout_ := timeout_ l;
     timeouts_made := timeouts_made l; dispatched := dispatched l |}.

Definition with_items (its : list item) (l : logger) : logger :=
  {| fileout_ := fileout_ l; lock_ := lock_ l; flushing := flushing l; items_ := its; flush_count_ := flush_count_ l; flush_seconds_ := flush_seconds_ l;
     flush_nanoseconds_ := flush_nanoseconds_ l; timeout_ := timeout_ l; timeouts_made := timeouts_made l; dispatched := dispatched l |}.

(** How a call ends: it returns, throws IOError, or waits for the lock (for ever, if the thread
    that holds it has left by an exception). *)
Inductive ending := Returned | Threw | Blocked.

(** A TimeoutEvent is its number; its delay is converted to whole seconds and nanoseconds. *)
Definition dispatch_timeout (l : logger) : outcome logger :=
  seconds ← to_int (flush_seconds_ l);
  Done {| fileout_ := fileout_ l; lock_ := lock_ l; flushing := flushing l; items_ := items_ l; flush_count_ := flush_count_ l; flush_seconds_ := flush_seconds_ l;
          flush_nanoseconds_ := flush_nanoseconds_ l; timeout_ := timeouts_made l; timeouts_made := S (timeouts_made l);
          dispatched := dispatched l ++ [(timeouts_made l, seconds, flush_nanoseconds_ l)] |}.

(** [while (!items_.empty())]: the records, appended to the file. *)
Fixpoint write_items (h : heap) (its : list item) (f : list Z) : outcome (list Z) :=
  match its with
  | [] => Done f
  | it :: its => r ← record_of h it; write_items h its (f ++ r)
  end.

(** [flush] up to the loop. The lock is not given back when the file cannot be opened. *)
Definition begin_flush (opens : bool) (l : logger) : ending * logger :=
  if negb (lock_ l) then (Blocked, l)
  else if negb opens then (Threw, with_lock false l)
  else (Returned, with_flushing true (with_lock false l)).

(** The rest of [flush]; what is written is what the packets hold now. *)
Definition finish_flush (h : heap) (l : logger) : outcome logger :=
  f ← write_items h (items_ l) (fileout_ l);
  l ← dispatch_timeout (with_items [] (with_file f l));
  Done (with_lock true (with_flushing false l)).

Definition flush (h : heap) (opens : bool) (l : logger) : outcome (ending * logger) :=
  match begin_flush opens l with
  | (Returned, l) => l ← finish_flush h l; Done (Returned, l)
  | (e, l) => Done (e, l)
  end.

(** The critical section of [log], and whether it calls [flush] after it. *)
Definition log_item (it : item) (l : logger) : ending * bool * logger :=
  if flush_count_ l <? 0 then (Returned, false, l)
  else if negb (lock_ l) then (Blocked, false, l)
  else
    let l := with_items (items_ l ++ [it]) l in
    (Returned, flush_count_ l <=? Z.of_nat (length (items_ l)), l).

Definition log (h : heap) (it : item) (opens : bool) (l : logger) : outcome (ending * logger) :=
  let '(e, should_flush, l) := log_item it l in
  if should_flush then flush h opens l else Done (e, l).

Definition set_flush_threshold (count : Z) (l : logger) : logger :=
  {| fileout_ := fileout_ l; lock_ := lock_ l; flushing := flushing l; items_ := items_ l; flush_count_ := count; flush_seconds_ := flush_seconds_ l;
     flush_nanoseconds_ := flush_nanoseconds_ l; timeout_ := timeout_ l; timeouts_made := timeouts_made l; dispatched := dispatched l |}.

Definition set_flush_timeout (timeout : double) (l : logger) : outcome logger :=
  let '(fraction, seconds) := modf timeout in
  nanoseconds ← to_long (dmul fraction (of_Z NANOSECONDS_IN_SECONDS));
  Done {| fileout_ := fileout_ l; lock_ := lock_ l; flushing := flushing l; items_ := items_ l; flush_count_ := flush_count_ l; flush_seconds_ := seconds;
          flush_nanoseconds_ := nanoseconds; timeout_ := timeout_ l; timeouts_made := timeouts_made l; dispatched := dispatched l |}.

(** [init()]: a new file with a header, and a new lock. *)
Definition init (opens : bool) (l : logger) : ending * logger :=
  if negb opens then (Threw, l) else (Returned, with_lock true (with_file file_header l)).

(** Neither the file nor the semaphore is protected here: [reset] takes no lock, and closes and
    opens the stream that a thread in [flush] is writing to. *)
Definition reset (opens : bool) (l : logger) : outcome (ending * logger) :=
  if flushing l then Fault DataRace
  else
    let '(e, l) := init opens l in
    match e with
    | Returned => l ← dispatch_timeout l; Done (Returned, l)
    | _ => Done (e, l)
    end.

Definition imodule_timer_fired (h : heap) (e : nat) (opens : bool) (l : logger) : outcome (ending * logger) :=
  if Nat.eqb (timeout_ l) e then flush h opens l else Done (Returned, l).

(** The constructor; [timeout_] is a null pointer, which no event equals. *)
Definition new_logger (opens : bool) : ending * logger :=
  init opens {| fileout_ := []; lock_ := false; flushing := false; items_ := []; flush_count_ := 1; flush_seconds_ := of_Z 1; flush_nanoseconds_ := 0;
                timeout_ := 0; timeouts_made := 1; dispatched := [] |}.

(** ** class PacketLogReader *)

(** An [ifstream]: the rest of the file from the read position, and whether a read has failed. *)
Record reader := { rest_ : list Z; failed : bool; packet_payload_ : list Z }.

(** [filein_.read(buffer, n)]: the new bytes of the buffer's front, or fewer and the end-of-file
    and fail flags. *)
Definition read (n : nat) (buffer : list Z) (r : reader) : list Z * reader :=
  if failed r then (buffer, r)
  else
    let got := take n (rest_ r) in
    (got ++ drop (length got) buffer,
     {| rest_ := drop n (rest_ r); failed := Nat.ltb (length (rest_ r)) n; packet_payload_ := packet_payload_ r |}).

(** [log_length_ - tellg() > sizeof(PcapPacketHeader)] and no flag set. *)
Definition more_packets_to_read (r : reader) : bool :=
  negb (failed r) && Nat.ltb sizeof_PcapPacketHeader (length (rest_ r)).

Definition get_new_packet (protocol : Z) : outcome tcp_packet :=
  if (protocol =? SIMPLE_TCP) || (protocol =? TCP_TAHOE) then fresh_TCPPacket
  else if protocol =? 0 then Fault PacketProtocolNotSetException
  else Fault WiFuException.

(** One round of the loop. [memcpy] copies as many bytes as the {e new} packet is long. *)
Definition read_packet (r : reader) : outcome (tcp_packet * reader) :=
  let '(header, r) := read sizeof_PcapPacketHeader (replicate sizeof_PcapPacketHeader 0) r in
  let incl_len := get (Bytes [8; 9; 10; 11]%nat) header in
  if incl_len <=? Z.of_nat MTU + FAKE_ETHERNET_HEADER_SIZE then
    let '(payload, r) := read (Z.to_nat incl_len) (packet_payload_ r) r in
    let r := {| rest_ := rest_ r; failed := failed r; packet_payload_ := payload |} in
    let ip := drop (Z.to_nat FAKE_ETHERNET_HEADER_SIZE) payload in
    packet ← get_new_packet (get f_protocol ip);
    copied ← memcpy (payload_ (ip_of packet)) 0 (slice ip 0 (Z.to_nat (get_ip_tot_length (ip_of packet))));
    Done (with_ip_of (with_payload copied (ip_of packet)) packet, r)
  else Fault MalformedPacketException.

(** Every round takes at least 16 bytes, so the file's length is fuel enough. *)
Fixpoint read_packets (fuel : nat) (r : reader) (trace : list tcp_packet) : outcome (list tcp_packet) :=
  match fuel with
  | O => Done trace
  | S fuel =>
      if more_packets_to_read r
      then '(p, r) ← read_packet r; read_packets fuel r (trace ++ [p])
      else Done trace
  end.

(** [get_trace()]; [buffer] is what the reader's payload array held. *)
Definition get_trace (opens : bool) (file buffer : list Z) : outcome (list tcp_packet) :=
  if negb opens then Fault IOError
  else if Nat.ltb sizeof_PcapFileHeader (length file)
  then
    let '(_, r) := read sizeof_PcapFileHeader (replicate sizeof_PcapFileHeader 0)
                     {| rest_ := file; failed := false; packet_payload_ := buffer |} in
    read_packets (length file) r []
  else Done [].

(** ** class NetworkTrace *)

Definition add_packet (p : tcp_packet) (trace : list tcp_packet) : list tcp_packet := trace ++ [p].
Definition get_length (trace : list tcp_packet) : nat := length trace.
Definition equal_size_traces (one two : list tcp_packet) : bool := Nat.eqb (length one) (length two).

(** [operator==] *)
Definition trace_equal (one two : list tcp_packet) : bool :=
  equal_size_traces one two && forallb (fun '(a, b) => TCPPacket.equal a b) (combine one two).

(** ** Whole runs of the log

    What all threads do, in the order in which it happens: a [log] call is its critical section
    and, when it says so, a flush that others may precede; a flush (of a call, of the timer or
    of the destructor) begins, and finishes later, with the packets as they are then; between
    the two any other thread may run. *)
Inductive op :=
| LogItem (it : item)
| Flush (opens : bool)
| TimerFired (e : nat) (opens : bool)
| Finish (h : heap)
| Reset (opens : bool)
| SetThreshold (count : Z)
| SetTimeout (timeout : double).

(** The op's effect, and what the current file should hold in the end: every item that was
    logged while logging was on; after a reset, those that still wait. *)
Definition run_op (o : op) (l : logger) (history : list item) : outcome (logger * list item) :=
  match o with
  | LogItem it =>
      let '(_, _, l') := log_item it l in
      Done (l', if (0 <=? flush_count_ l) && lock_ l then history ++ [it] else history)
  | Flush opens => Done (snd (begin_flush opens l), history)
  | TimerFired e opens => Done (if Nat.eqb (timeout_ l) e then snd (begin_flush opens l) else l, history)
  | Finish h => l' ← (if flushing l then finish_flush h l else Done l); Done (l', history)
  | Reset opens => '(_, l') ← reset opens l; Done (l', if opens then items_ l else history)
  | SetThreshold count => Done (set_flush_threshold count l, history)
  | SetTimeout timeout => l ← set_flush_timeout timeout l; Done (l, history)
  end.

Fixpoint run (ops : list op) (l : logger) (history : list item) : outcome (logger * list item) :=
  match ops with
  | [] => Done (l, history)
  | o :: ops => '(l, history) ← run_op o l history; run ops l history
  end.

(** The two halves are the whole: with nothing between them, a [Flush] and its [Finish] are [flush]. *)
Lemma flush_run h opens l history :
  flushing l = false → run [Flush opens; Finish h] l history = ('(_, l) ← flush h opens l; Done (l, history)).
Proof.
  intros Hf. unfold flush. cbn [run run_op mbind outcome_bind]. unfold begin_flush.
  destruct (lock_ l); cbn [negb snd mbind outcome_bind]; [| rewrite Hf; reflexivity].
  destruct opens; cbn [negb snd mbind outcome_bind flushing with_lock with_flushing]; [| rewrite Hf; reflexivity].
  destruct (finish_flush h _); reflexivity.
Qed.

Definition seconds_ok (l : logger) : Prop := ∃ s, to_int (flush_seconds_ l) = Done s.

(** A timeout whose parts convert to integers. *)
Definition op_ok (o : op) : Prop :=
  match o with
  | SetTimeout d => (∃ n, to_long (dmul (fst (modf d)) (of_Z NANOSECONDS_IN_SECONDS)) = Done n) ∧ ∃ s, to_int (snd (modf d)) = Done s
  | _ => True
  end.

Lemma Z2Nat_le_nat z n : z ≤ Z.of_nat n → (Z.to_nat z ≤ n)%nat.
Proof. lia. Qed.

(** ** Reading *)

Lemma length_le_bytes n v : length (le_bytes n v) = n.
Proof. revert v. induction n; intros; cbn; auto. Qed.

Lemma read_exact n a b buffer payload :
  length a = n →
  read n buffer {| rest_ := a ++ b; failed := false; packet_payload_ := payload |}
  = (a ++ drop n buffer, {| rest_ := b; failed := false; packet_payload_ := payload |}).
Proof.
  intros <-. unfold read. cbn [failed rest_]. rewrite take_app_length, drop_app_length, length_app.
  replace (Nat.ltb (length a + length b) (length a)) with false by (symmetry; apply Nat.ltb_ge; lia). reflexivity.
Qed.

Lemma get_packet_header it tot :
  0 ≤ tot ≤ Z.of_nat MTU → get (Bytes [8; 9; 10; 11]%nat) (packet_header it tot) = tot + 14.
Proof.
  intros Ht. unfold packet_header, FAKE_ETHERNET_HEADER_SIZE. cbn -[Z.div Z.modulo Z.mul Z.add]. unfold byte_at. cbn -[Z.div Z.modulo Z.mul Z.add].
  unfold MTU in Ht. Z.div_mod_to_equations. lia.
Qed.

Lemma get_protocol_prefix m n rest :
  (9 < n <= length m)%nat → get f_protocol (slice m 0 n ++ rest) = get f_protocol m.
Proof.
  intros Hn. unfold get, f_protocol, byte. cbn [get_bytes]. f_equal.
  unfold byte_at. rewrite lookup_app_l by (rewrite length_slice; lia). fold (byte_at (slice m 0 n) 9). rewrite byte_at_slice by lia. reflexivity.
Qed.

(** A new packet is 40 bytes long. *)
Lemma fresh_TCPPacket_length :
  ∃ p, fresh_TCPPacket = Done p ∧ get_ip_tot_length (ip_of p) = 40 ∧ length (payload_ (ip_of p)) = MTU
       ∧ drop 40 (payload_ (ip_of p)) = replicate (MTU - 40) 0.
Proof. exists sample_segment. split; [vm_compute; reflexivity |]. repeat split; vm_compute; reflexivity. Qed.

(** The packet of an item, as it is in [h]. *)
Definition packet_in (x : heap * item) : ip_packet := fst x (packet_ (snd x)).

(** The protocols the reader makes a packet for. *)
Definition known (x : heap * item) : bool :=
  (get_ip_protocol (packet_in x) =? SIMPLE_TCP) || (get_ip_protocol (packet_in x) =? TCP_TAHOE).

(** A packet with an IP header, and with both headers if it is a TCP segment. *)
Record writable (x : heap * item) : Prop := {
  wr_wf : IPPacket.wf (packet_in x);
  wr_length : 20 ≤ get_ip_tot_length (packet_in x) ≤ Z.of_nat MTU;
  wr_segment : known x = true → 40 ≤ get_ip_tot_length (packet_in x) }.

Definition record_for (x : heap * item) : list Z :=
  packet_header (snd x) (get_ip_tot_length (packet_in x)) ++ fake_ethernet_header
  ++ slice (payload_ (packet_in x)) 0 (Z.to_nat (get_ip_tot_length (packet_in x))).

Lemma record_of_eq x : writable x → record_of (fst x) (snd x) = Done (record_for x).
Proof.
  intros [[Hl _] Ht _]. unfold record_of. cbv zeta. fold (packet_in x). rewrite decide_True by (rewrite Hl; lia). reflexivity.
Qed.

Definition records (xs : list (heap * item)) : list Z := concat (map record_for xs).

Lemma records_app xs ys : records (xs ++ ys) = records xs ++ records ys.
Proof. unfold records. rewrite map_app, concat_app. reflexivity. Qed.

Lemma write_items_eq h its f :
  Forall (fun it => writable (h, it)) its → write_items h its f = Done (f ++ records (map (pair h) its)).
Proof.
  intros Hw. revert f. induction Hw as [| it its Hi _ IH]; intros f; cbn; [rewrite app_nil_r; reflexivity |].
  pose proof (record_of_eq (h, it) Hi) as E. cbn [fst snd] in E. rewrite E. cbn [mbind outcome_bind]. rewrite IH, <- app_assoc. reflexivity.
Qed.

(** ** The file is the history *)

Section Run.

(** What is logged, and the packets at the flushes. *)
Variables (logs : item → Prop) (packets : heap → Prop).
Hypothesis all_writable : ∀ h it, packets h → logs it → writable (h, it).

Definition op_allowed (o : op) : Prop :=
  op_ok o ∧ match o with LogItem it => logs it | Finish h => packets h | _ => True end.

(** The file and the waiting items together are the history; what is in the file was logged. *)
Definition log_inv (l : logger) (history : list item) (flushed : list (heap * item)) : Prop :=
  seconds_ok l ∧ history = map snd flushed ++ items_ l ∧ fileout_ l = file_header ++ records flushed ∧
  Forall (fun x => packets (fst x) ∧ logs (snd x)) flushed ∧ Forall logs (items_ l).

Lemma dispatch_timeout_eq l :
  seconds_ok l → ∃ l', dispatch_timeout l = Done l' ∧ fileout_ l' = fileout_ l ∧ items_ l' = items_ l ∧ seconds_ok l'.
Proof. intros [s E]. unfold dispatch_timeout. rewrite E. eexists. split; [reflexivity |]. repeat split. exists s. exact E. Qed.

Lemma begin_flush_inv opens l history flushed :
  log_inv l history flushed → log_inv (snd (begin_flush opens l)) history flushed.
Proof. unfold begin_flush. destruct (lock_ l), opens; cbn [negb snd]; auto. Qed.

Lemma finish_flush_inv h l history flushed :
  packets h → log_inv l history flushed →
  ∃ l', finish_flush h l = Done l' ∧ log_inv l' history (flushed ++ map (pair h) (items_ l)).
Proof.
  intros Hh (Hs & Eh & Ef & HF & Hi). unfold finish_flush.
  rewrite write_items_eq by (eapply Forall_impl; [exact Hi |]; intros it Hit; exact (all_writable h it Hh Hit)). cbn [mbind outcome_bind].
  destruct (dispatch_timeout_eq (with_items [] (with_file (fileout_ l ++ records (map (pair h) (items_ l))) l)) Hs) as (l' & E & Ef' & Ei & Es).
  rewrite E. cbn [mbind outcome_bind]. eexists. split; [reflexivity |]. split; [exact Es |].
  cbn [items_ fileout_ with_lock with_flushing]. rewrite Ei, Ef'. cbn [fileout_ items_ with_items with_file].
  rewrite map_app, map_map, map_id, app_nil_r, Ef, records_app, <- app_assoc. split; [exact Eh | split; [reflexivity | split; [| constructor]]].
  apply Forall_app. split; [exact HF |]. apply Forall_map. eapply Forall_impl; [exact Hi |]. auto.
Qed.

(** An op keeps the invariant, unless it is a reset during a flush. *)
Lemma run_op_inv o l history flushed :
  op_allowed o → log_inv l history flushed →
  match run_op o l history with
  | Done (l', history') => ∃ flushed', log_inv l' history' flushed'
  | Fault e => e = DataRace ∧ flushing l = true ∧ ∃ opens, o = Reset opens
  end.
Proof.
  intros [Ho Ha] Hi. pose proof Hi as (Hs & Hh & Hf & HF & Hl). destruct o; cbn [run_op op_ok] in *.
  - unfold log_item. destruct (Z.ltb_spec (flush_count_ l) 0) as [Ec | Ec].
    { rewrite (proj2 (Z.leb_gt 0 _)) by exact Ec. eauto. }
    rewrite (proj2 (Z.leb_le 0 _)) by exact Ec. destruct (lock_ l); cbn [negb andb]; [| eauto].
    exists flushed. split; [exact Hs |]. cbn [items_ with_items fileout_]. rewrite Hh, <- app_assoc. split; [reflexivity |].
    split; [exact Hf | split; [exact HF |]]. apply Forall_app. auto.
  - exists flushed. apply begin_flush_inv, Hi.
  - exists flushed. destruct (Nat.eqb _ _); [apply begin_flush_inv |]; exact Hi.
  - destruct (flushing l); cbn [mbind outcome_bind]; [| eexists; exact Hi]. destruct (finish_flush_inv h l history flushed Ha Hi) as (l' & -> & Hl'). eexists. exact Hl'.
  - unfold reset, init. destruct (flushing l); cbn [mbind outcome_bind]; [eauto |]. destruct opens; cbn [negb mbind outcome_bind]; [| eauto].
    destruct (dispatch_timeout_eq (with_lock true (with_file file_header l)) Hs) as (l' & E & Ef & Ei & Es).
    rewrite E. cbn [mbind outcome_bind]. exists []. split; [exact Es |]. rewrite Ei, Ef.
    split; [reflexivity |]. split; [symmetry; apply app_nil_r | split; [constructor | exact Hl]].
  - exists flushed. exact Hi.
  - destruct Ho as [[n En] [s Es]]. unfold set_flush_timeout. destruct (modf timeout) as [fraction seconds]. cbn [fst snd] in *.
    rewrite En. cbn [mbind outcome_bind]. exists flushed. split; [exists s; exact Es | auto].
Qed.

Lemma run_inv ops l history flushed :
  Forall op_allowed ops → log_inv l history flushed →
  match run ops l history with
  | Done (l', history') => ∃ flushed', log_inv l' history' flushed'
  | Fault e => e = DataRace ∧ ∃ before opens after l1 history1,
      ops = before ++ Reset opens :: after ∧ run before l history = Done (l1, history1) ∧ flushing l1 = true
  end.
Proof.
  intros Ho. revert l history flushed. induction Ho as [| o ops Ho _ IH]; intros l history flushed Hi; cbn [run]; [eauto |].
  pose proof (run_op_inv o l history flushed Ho Hi) as H1. destruct (run_op o l history) as [[l1 h1] | e] eqn:E; cbn [mbind outcome_bind].
  - destruct H1 as [flushed1 H1]. specialize (IH l1 h1 flushed1 H1). destruct (run ops l1 h1) as [[l' h'] | e]; [exact IH |].
    destruct IH as (-> & before & opens & after & l2 & h2 & -> & Er & Hf). split; [reflexivity |].
    exists (o :: before), opens, after, l2, h2. split; [reflexivity |]. cbn [run]. rewrite E. auto.
  - destruct H1 as (-> & Hf & opens & ->). split; [reflexivity |]. exists [], opens, ops, l, history. auto.
Qed.

End Run.

(** ** The reader on what the logger wrote *)

(** The packet in the trace: the logged packet's first 40 bytes and nothing else. *)
Definition read_back (x : heap * item) (p : tcp_packet) : Prop :=
  payload_ (ip_of p) = take 40 (payload_ (packet_in x)) ++ replicate (MTU - 40) 0.

(** What the reader throws at a packet of another protocol. *)
Definition refusal (x : heap * item) : fault :=
  if get_ip_protocol (packet_in x) =? 0 then PacketProtocolNotSetException else WiFuException.

Lemma length_record_for x : writable x → length (record_for x) = (30 + Z.to_nat (get_ip_tot_length (packet_in x)))%nat.
Proof.
  intros [[Hl _] Ht _]. unfold record_for, packet_header. rewrite !length_app, !length_le_bytes, length_slice, Hl.
  cbn [length fake_ethernet_header]. lia.
Qed.

Lemma read_packet_record x rest buffer :
  writable x → (1514 <= length buffer)%nat →
  let r := {| rest_ := record_for x ++ rest; failed := false; packet_payload_ := buffer |} in
  if known x then
    ∃ p buffer', read_packet r = Done (p, {| rest_ := rest; failed := false; packet_payload_ := buffer' |})
      ∧ length buffer' = length buffer ∧ read_back x p
  else read_packet r = Fault (refusal x).
Proof.
  intros [[Hl Hb] Ht Hseg] Hbuf. cbv zeta. unfold read_packet, record_for. remember (get_ip_tot_length (packet_in x)) as tot eqn:Etot.
  rewrite <- (app_assoc (packet_header (snd x) tot)), read_exact by (unfold packet_header; rewrite !length_app, !length_le_bytes; reflexivity).
  cbv beta iota zeta. change (drop sizeof_PcapPacketHeader (replicate sizeof_PcapPacketHeader 0)) with (@nil Z). rewrite app_nil_r.
  rewrite get_packet_header by lia. unfold FAKE_ETHERNET_HEADER_SIZE in *.
  rewrite (proj2 (Z.leb_le _ _)) by lia.
  remember (slice (payload_ (packet_in x)) 0 (Z.to_nat tot)) as body eqn:Ebody.
  assert (length body = Z.to_nat tot) as Hbody by (rewrite Ebody, length_slice, Hl; lia).
  rewrite read_exact by (rewrite length_app, Hbody; cbn [length fake_ethernet_header]; lia).
  cbv beta iota zeta. cbn [rest_ failed packet_payload_].
  rewrite <- !app_assoc. change (Z.to_nat 14) with (length fake_ethernet_header). rewrite drop_app_length.
  assert (get f_protocol (body ++ drop (Z.to_nat (tot + 14)) buffer) = get_ip_protocol (packet_in x)) as Ep.
  { rewrite Ebody, get_protocol_prefix by lia. reflexivity. }
  rewrite Ep. unfold get_new_packet, refusal, known in *. destruct ((get_ip_protocol (packet_in x) =? SIMPLE_TCP) || (get_ip_protocol (packet_in x) =? TCP_TAHOE)).
  2: { destruct (get_ip_protocol (packet_in x) =? 0); reflexivity. }
  specialize (Hseg eq_refl).
  assert (slice (body ++ drop (Z.to_nat (tot + 14)) buffer) 0 40 = take 40 (payload_ (packet_in x))) as Hs.
  { unfold slice in *. rewrite drop_0, take_app_le by lia. rewrite Ebody, drop_0, take_take. f_equal. lia. }
  destruct fresh_TCPPacket_length as (p & -> & Hlen & Hpl & Hd). cbn [mbind outcome_bind].
  rewrite Hlen. change (Z.to_nat 40) with 40%nat. rewrite Hs.
  assert (length (take 40 (payload_ (packet_in x))) = 40%nat) as H40 by (rewrite length_take, Hl; reflexivity).
  rewrite memcpy_fits by (rewrite H40, Hpl; unfold MTU; lia). cbn [mbind outcome_bind].
  do 2 eexists. split; [reflexivity |]. split.
  - rewrite !length_app, Hbody, length_drop. cbn [length fake_ethernet_header]. unfold MTU in Ht. lia.
  - unfold read_back. rewrite H40. cbn [take Nat.add app]. rewrite Hd. reflexivity.
Qed.

(** The trace of the packets before the first one of another protocol; that one ends the reading. *)
Definition trace_of (xs : list (heap * item)) (ps : list tcp_packet) (o : outcome (list tcp_packet)) : Prop :=
  match List.find (fun x => negb (known x)) xs with
  | None => ∃ trace, o = Done (ps ++ trace) ∧ Forall2 read_back xs trace
  | Some x => o = Fault (refusal x)
  end.

Lemma read_packets_records xs fuel buffer trace :
  Forall writable xs → (1514 <= length buffer)%nat → (length xs < fuel)%nat →
  trace_of xs trace (read_packets fuel {| rest_ := records xs; failed := false; packet_payload_ := buffer |} trace).
Proof.
  unfold trace_of. revert fuel buffer trace. induction xs as [| x xs IH]; intros fuel buffer trace Hl Hbuf Hf; (destruct fuel; [cbn in Hf; lia |]); cbn [read_packets].
  - exists []. rewrite app_nil_r. split; [reflexivity | constructor].
  - apply Forall_cons in Hl as [Hi Hl]. unfold records. cbn [map concat List.find]. fold (records xs).
    assert (more_packets_to_read {| rest_ := record_for x ++ records xs; failed := false; packet_payload_ := buffer |} = true) as ->.
    { unfold more_packets_to_read. cbn [failed rest_ negb andb]. apply Nat.ltb_lt. rewrite length_app, (length_record_for x Hi).
      unfold sizeof_PcapPacketHeader. lia. }
    pose proof (read_packet_record x (records xs) buffer Hi Hbuf) as E. cbv zeta in E. destruct (known x) eqn:Ek; cbn [negb]; [| rewrite E; reflexivity].
    destruct E as (p & buffer' & E & Hb' & Hp). rewrite E. cbn [mbind outcome_bind].
    specialize (IH fuel buffer' (trace ++ [p]) Hl ltac:(lia) ltac:(cbn in Hf; lia)).
    destruct (List.find _ xs); [exact IH |]. destruct IH as (ps & E' & Hps).
    exists (p :: ps). rewrite E', <- app_assoc. split; [reflexivity | constructor; assumption].
Qed.

Lemma length_records xs : Forall writable xs → (length xs <= length (records xs))%nat.
Proof.
  induction 1 as [| x xs Hi _ IH]; [reflexivity |]. unfold records in *. cbn [map concat length].
  rewrite length_app, (length_record_for x Hi). lia.
Qed.

Lemma get_trace_records xs buffer :
  Forall writable xs → (1514 <= length buffer)%nat → trace_of xs [] (get_trace true (file_header ++ records xs) buffer).
Proof.
  intros Hl Hb. unfold get_trace. cbn [negb]. pose proof (length_records xs Hl) as Hn.
  rewrite read_exact by reflexivity. cbv beta iota zeta.
  rewrite length_app. change (length file_header) with 24%nat. unfold sizeof_PcapFileHeader.
  destruct xs as [| x xs]; [exists []; split; [reflexivity | constructor] |].
  replace (Nat.ltb 24 (24 + length (records (x :: xs)))) with true
    by (symmetry; apply Nat.ltb_lt; cbn [length] in Hn; lia).
  apply (read_packets_records (x :: xs) _ buffer []); [exact Hl | exact Hb | lia].
Qed.

Lemma new_logger_inv logs packets l : new_logger true = (Returned, l) → log_inv logs packets l [] [].
Proof.
  intros [= <-]. split; [exists 1; reflexivity |]. cbn. split; [reflexivity |]. split; [reflexivity | split; constructor].
Qed.


Definition sample_tahoe : ip_packet := set_ip_protocol TCP_TAHOE (ip_of sample_segment).
Definition sample_heap : heap := fun _ => sample_tahoe.
Definition sample_item (n : nat) : item := {| packet_ := n; tv_sec := 1300000000 + Z.of_nat n; tv_usec := 5 |}.

(** A first packet is logged; a flush fails and leaves the lock taken, so the next packet is not
    logged and the reset frees it; the first packet is written with the third. *)
Definition sample_ops : list op :=
  [SetThreshold 2; LogItem (sample_item 1); Flush false; LogItem (sample_item 2); Reset true;
   LogItem (sample_item 3); Flush true; Finish sample_heap; LogItem (sample_item 4)].

(** A datagram of UDP is logged, and a reset comes during the flush. *)
Definition udp_heap : heap := fun _ => set_ip_protocol UDP sample_tahoe.
Definition udp_ops : list op := [LogItem (sample_item 1); Flush true; Finish udp_heap].

Lemma sample_writable h it : h = sample_heap ∨ h = udp_heap → writable (h, it).
Proof.
  intros [-> | ->]; (split; [split; [vm_compute; reflexivity | apply (bool_decide_unpack _); vm_compute; exact I] | vm_compute; split; discriminate | vm_compute; discriminate]).
Qed.

Ltac finishes :=
  let h := fresh in let Hin := fresh in
  intros h Hin; repeat (destruct Hin as [Hin | Hin]; [try discriminate Hin; injection Hin as <-; auto |]); destruct Hin.

