(* ===== verification/Utilities.v ===== *)
(** * Strings, options and files (QueryStringParser.cc, OptionParser.cc, Utils.cc)

    The helpers that take text apart: query strings, the results of getopt_long, the lines of
    a file and their tokens. A gcstring is its characters; positions in it are size_t and wrap
    at 2^64. *)
From Stdlib Require Import Ascii.
From stdpp Require Import gmap strings sorting.
From S2P Require Import Prelude.

Abbreviation gcstring := (list ascii).

Definition str (s : string) : gcstring := String.list_ascii_of_string s.

(** ** std::string *)

Definition npos : Z := 2 ^ 64 - 1.

Lemma u64_small x : 0 ≤ x < 2 ^ 64 → u64 x = x.
Proof. intros. apply Z.mod_small. assumption. Qed.

Fixpoint position (c : ascii) (s : gcstring) : option nat :=
  match s with
  | [] => None
  | a :: s => if Ascii.eqb a c then Some O else S <$> position c s
  end.

(** [find_first_of] with one character. *)
Definition find_first_of (s : gcstring) (c : ascii) (pos : Z) : Z :=
  match position c (drop (Z.to_nat pos) s) with Some i => pos + Z.of_nat i | None => npos end.

(** [substr] throws [out_of_range] beyond the end. *)
Definition substr (s : gcstring) (pos len : Z) : outcome gcstring :=
  if pos <=? Z.of_nat (length s)
  then Done (take (Z.to_nat (Z.min len (Z.of_nat (length s)))) (drop (Z.to_nat pos) s))
  else Fault OutOfBounds.

Lemma position_here c a b d : c ∉ b → position c (drop (length a) (a ++ b ++ c :: d)) = Some (length b).
Proof.
  intros Hb. rewrite drop_app_length. induction b as [| x b IH]; cbn.
  - rewrite Ascii.eqb_refl. reflexivity.
  - apply not_elem_of_cons in Hb as [Hx Hb]. rewrite (proj2 (Ascii.eqb_neq x c)) by congruence. rewrite (IH Hb). reflexivity.
Qed.

Lemma find_first_of_here s c a b d :
  s = a ++ b ++ c :: d → c ∉ b → find_first_of s c (Z.of_nat (length a)) = Z.of_nat (length a + length b).
Proof. intros -> Hb. unfold find_first_of. rewrite Nat2Z.id, position_here by assumption. lia. Qed.

Lemma substr_here s a b d :
  s = a ++ b ++ d → substr s (Z.of_nat (length a)) (Z.of_nat (length b)) = Done b.
Proof.
  intros ->. unfold substr. rewrite (proj2 (Z.leb_le _ _)) by (rewrite length_app; lia).
  rewrite Nat2Z.id, drop_app_length. do 2 f_equal.
  rewrite Z.min_l by (rewrite !length_app; lia). rewrite Nat2Z.id. apply take_app_length.
Qed.

(** ** class QueryStringParser *)

Abbreviation gcstring_map := (gmap gcstring gcstring).

Definition NAME_STRING : gcstring := str "name".

(** [std::map::insert]: a key that is there keeps its value. *)
Definition insert_new (k v : gcstring) (m : gcstring_map) : gcstring_map :=
  match m !! k with Some _ => m | None => <[k := v]> m end.

(** The loop after the name; [None] while it has not ended after [fuel] rounds. *)
Fixpoint parse_loop (fuel : nat) (message : gcstring) (end_ : Z) (values : gcstring_map) : option (outcome gcstring_map) :=
  match fuel with
  | O => None
  | S fuel =>
      let begin := u64 (end_ + 1) in
      if Z.of_nat (length message) <=? begin then Some (Done values)
      else
        let end_ := find_first_of message "="%char begin in
        match substr message begin (u64 (end_ - begin)) with
        | Fault e => Some (Fault e)
        | Done key =>
            let begin := u64 (end_ + 1) in
            let end_ := find_first_of message "&"%char begin in
            match substr message begin (u64 (end_ - begin)) with
            | Fault e => Some (Fault e)
            | Done value => parse_loop fuel message end_ (insert_new key value values)
            end
        end
  end.

Definition parse (fuel : nat) (message : gcstring) (values : gcstring_map) : option (outcome gcstring_map) :=
  let end_ := find_first_of message "?"%char 0 in
  if end_ =? npos then Some (Fault WiFuException)
  else
    match substr message 0 end_ with
    | Fault e => Some (Fault e)
    | Done name => parse_loop fuel message end_ (insert_new NAME_STRING name values)
    end.

(** [operator<] of strings: by the characters as unsigned bytes. *)
Fixpoint str_leb (a b : gcstring) : bool :=
  match a, b with
  | [], _ => true
  | _, [] => false
  | x :: a, y :: b => (N_of_ascii x <? N_of_ascii y)%N || (Ascii.eqb x y && str_leb a b)
  end.

Definition key_le (p q : gcstring * gcstring) : Prop := Is_true (str_leb p.1 q.1).

(** The entries in the order in which the map's iterator meets them. *)
Definition in_key_order (m : gcstring_map) : list (gcstring * gcstring) := merge_sort key_le (map_to_list m).

Definition field_text (e : gcstring * gcstring) : gcstring := e.1 ++ ("="%char :: e.2 ++ ["&"%char]).

Definition create (name : gcstring) (values : gcstring_map) : gcstring :=
  name ++ ("?"%char :: concat (map field_text (in_key_order values))).

(** *** What create writes, parse reads *)

Definition field_ok (e : gcstring * gcstring) : Prop := "="%char ∉ e.1 ∧ "&"%char ∉ e.2.

Lemma parse_loop_fields es fuel pre q values :
  Forall field_ok es → (length es < fuel)%nat →
  Z.of_nat (length (pre ++ (q :: concat (map field_text es)))) < npos →
  parse_loop fuel (pre ++ (q :: concat (map field_text es))) (Z.of_nat (length pre)) values
  = Some (Done (foldl (fun m e => insert_new e.1 e.2 m) values es)).
Proof.
  revert fuel pre q values. induction es as [| [k v] es IH]; intros fuel pre q values Hok Hf Hl;
    (destruct fuel as [| fuel]; [cbn in Hf; lia |]); cbn [parse_loop]; pose proof Hl as Hl'; rewrite length_app in Hl'; cbn [length] in Hl'.
  - rewrite u64_small by (unfold npos in *; lia).
    rewrite (proj2 (Z.leb_le _ _)) by (rewrite length_app; cbn [length map concat]; lia). reflexivity.
  - apply Forall_cons in Hok as [[Hk Hv] Hok]. cbn [fst snd] in Hk, Hv.
    remember (pre ++ q :: concat (map field_text ((k, v) :: es))) as message eqn:E.
    assert (message = (pre ++ [q]) ++ k ++ "="%char :: (v ++ "&"%char :: concat (map field_text es))) as E1.
    { rewrite E. cbn [map concat]. unfold field_text at 1. cbn [fst snd]. rewrite <- !app_assoc. cbn. rewrite <- app_assoc. reflexivity. }
    assert (message = (pre ++ q :: k ++ ["="%char]) ++ v ++ "&"%char :: concat (map field_text es)) as E2.
    { rewrite E1. rewrite <- !app_assoc. cbn. rewrite <- app_assoc. reflexivity. }
    assert (message = (pre ++ q :: k ++ "="%char :: v) ++ "&"%char :: concat (map field_text es)) as E3.
    { rewrite E2. rewrite <- !app_assoc. cbn. rewrite <- !app_assoc. reflexivity. }
    assert (length message = length pre + 1 + length k + 1 + length v + 1 + length (concat (map field_text es)))%nat as Hlen.
    { rewrite E3. rewrite length_app. cbn [length]. rewrite length_app. cbn [length]. rewrite length_app. cbn [length]. lia. }
    replace (Z.of_nat (length pre) + 1) with (Z.of_nat (length (pre ++ [q]))) by (rewrite length_app; cbn [length]; lia).
    assert (length (pre ++ [q]) = length pre + 1)%nat as L1 by (rewrite length_app; reflexivity).
    assert (length (pre ++ q :: k ++ ["="%char]) = length pre + 2 + length k)%nat as L2
      by (rewrite length_app; cbn [length]; rewrite length_app; cbn [length]; lia).
    assert (length (pre ++ q :: k ++ "="%char :: v) = length pre + 2 + length k + length v)%nat as L3
      by (rewrite length_app; cbn [length]; rewrite length_app; cbn [length]; lia).
    rewrite u64_small by (unfold npos in *; lia).
    rewrite (proj2 (Z.leb_gt _ _)) by lia.
    rewrite (find_first_of_here message "="%char _ k _ E1 Hk).
    replace (Z.of_nat (length (pre ++ [q]) + length k) - Z.of_nat (length (pre ++ [q]))) with (Z.of_nat (length k)) by lia.
    rewrite u64_small by (unfold npos in *; lia). rewrite (substr_here message _ k _ E1).
    replace (Z.of_nat (length (pre ++ [q]) + length k) + 1) with (Z.of_nat (length (pre ++ q :: k ++ ["="%char]))) by lia.
    rewrite u64_small by (unfold npos in *; lia).
    rewrite (find_first_of_here message "&"%char _ v _ E2 Hv).
    replace (Z.of_nat (length (pre ++ q :: k ++ ["="%char]) + length v) - Z.of_nat (length (pre ++ q :: k ++ ["="%char])))
      with (Z.of_nat (length v)) by lia.
    rewrite u64_small by (unfold npos in *; lia). rewrite (substr_here message _ v _ E2).
    replace (length (pre ++ q :: k ++ ["="%char]) + length v)%nat with (length (pre ++ q :: k ++ "="%char :: v)) by lia.
    rewrite E3. rewrite IH; [reflexivity | exact Hok | cbn in Hf; lia |]. rewrite <- E3. exact Hl.
Qed.

Lemma lookup_insert_new k v m k' :
  insert_new k v m !! k' = match m !! k' with Some x => Some x | None => if decide (k = k') then Some v else None end.
Proof.
  unfold insert_new. destruct (m !! k) as [x |] eqn:E.
  - destruct (m !! k') eqn:E'; [reflexivity |]. case_decide; congruence.
  - destruct (decide (k = k')) as [-> | Hne]; [rewrite lookup_insert_eq, E; reflexivity |].
    rewrite lookup_insert_ne by assumption. destruct (m !! k'); reflexivity.
Qed.

Lemma lookup_insert_all es m k :
  foldl (fun m e => insert_new e.1 e.2 m) m es !! k
  = match m !! k with Some x => Some x | None => (list_to_map es : gcstring_map) !! k end.
Proof.
  revert m. induction es as [| [k' v] es IH]; intros m; cbn [foldl].
  { rewrite list_to_map_nil, lookup_empty. destruct (m !! k); reflexivity. }
  rewrite IH, lookup_insert_new, list_to_map_cons. cbn [fst snd]. destruct (m !! k); [reflexivity |].
  destruct (decide (k' = k)) as [-> | Hne]; [rewrite lookup_insert_eq; reflexivity | rewrite lookup_insert_ne by assumption; reflexivity].
Qed.

Lemma in_key_order_permutation m : in_key_order m ≡ₚ map_to_list m.
Proof. apply merge_sort_Permutation. Qed.

(** What [create] makes of a name and a map, [parse] takes apart into the same name and map, in
    as many rounds as there are entries. A name must be free of '?', keys of '=', values of '&';
    an entry for the key "name" loses against the message's name. *)
Theorem query_round_trip name values fuel :
  "?"%char ∉ name → (∀ k v, values !! k = Some v → "="%char ∉ k ∧ "&"%char ∉ v) →
  Z.of_nat (length (create name values)) < npos → (size values < fuel)%nat →
  parse fuel (create name values) ∅ = Some (Done (<[NAME_STRING := name]> values)).
Proof.
  intros Hn Hv Hl Hf. unfold parse.
  pose proof (find_first_of_here (create name values) "?"%char [] name (concat (map field_text (in_key_order values))) eq_refl Hn) as E.
  change (Z.of_nat (length (@nil ascii))) with 0 in E. rewrite E. cbn [length Nat.add].
  assert (Z.of_nat (length name) < npos) as Hname by (unfold create in Hl; rewrite length_app in Hl; lia).
  rewrite (proj2 (Z.eqb_neq _ _)) by lia.
  pose proof (substr_here (create name values) [] name ("?"%char :: concat (map field_text (in_key_order values))) eq_refl) as S.
  change (Z.of_nat (length (@nil ascii))) with 0 in S. rewrite S.
  unfold create in *. pose proof (in_key_order_permutation values) as Hp.
  rewrite parse_loop_fields; [| | | exact Hl].
  - do 2 f_equal. apply map_eq. intros k. rewrite lookup_insert_all, lookup_insert_new, lookup_empty.
    destruct (decide (NAME_STRING = k)) as [<- | Hne]; [rewrite lookup_insert_eq; reflexivity |].
    rewrite lookup_insert_ne by assumption. rewrite (list_to_map_proper (in_key_order values) (map_to_list values)).
    + rewrite list_to_map_to_list. reflexivity.
    + rewrite Hp. apply NoDup_fst_map_to_list.
    + exact Hp.
  - apply Forall_forall. intros [k v] H. rewrite Hp in H. apply elem_of_map_to_list in H. exact (Hv k v H).
  - rewrite Hp, length_map_to_list. exact Hf.
Qed.

Definition sample_values : gcstring_map := <[str "file" := str "listener"]> (<[str "n" := str "a=b"]> (<[NAME_STRING := str "lost"]> ∅)).

Lemma query_round_trip_witness :
  create (str "wifu_socket") sample_values = str "wifu_socket?file=listener&n=a=b&name=lost&"
  ∧ parse 4 (create (str "wifu_socket") sample_values) ∅ = Some (Done (<[NAME_STRING := str "wifu_socket"]> sample_values)).
Proof.
  split; [vm_compute; reflexivity |]. apply query_round_trip.
  - apply (bool_decide_unpack _). vm_compute. exact I.
  - apply map_Forall_to_list. apply (bool_decide_unpack _). vm_compute. exact I.
  - vm_compute. reflexivity.
  - vm_compute. lia.
Defined.

(** A message whose last value is not closed by '&' is read again from its start, for ever: the
    position after the end wraps to 0. *)
Lemma parse_hangs fuel : parse fuel (str "wifu_socket?file=listener") ∅ = None.
Proof.
  destruct fuel as [| fuel]; [reflexivity |].
  assert (∀ n m, m !! str "wifu_socket?file" = Some (str "listener") →
                 parse_loop n (str "wifu_socket?file=listener") npos m = None) as L.
  { induction n as [| n IH]; intros m Hm; [reflexivity |].
    change (parse_loop (S n) (str "wifu_socket?file=listener") npos m)
      with (parse_loop n (str "wifu_socket?file=listener") npos (insert_new (str "wifu_socket?file") (str "listener") m)).
    apply IH. rewrite lookup_insert_new, Hm. reflexivity. }
  change (parse (S fuel) (str "wifu_socket?file=listener") ∅)
    with (parse_loop fuel (str "wifu_socket?file=listener") npos
            (insert_new (str "file") (str "listener") (insert_new NAME_STRING (str "wifu_socket") ∅))).
  destruct fuel as [| fuel]; [reflexivity |].
  change (parse_loop (S fuel) (str "wifu_socket?file=listener") npos ?m)
    with (parse_loop fuel (str "wifu_socket?file=listener") npos (insert_new (str "wifu_socket?file") (str "listener") m)).
  apply L. rewrite lookup_insert_new. destruct (_ !! _) eqn:E.
  - exfalso. vm_compute in E. discriminate.
  - rewrite decide_True by reflexivity. reflexivity.
Qed.

(** ** class OptionParser

    As in WiFu Core the command line is what [getopt_long] says of it; here the maps are keyed
    by the names' characters. *)
Record long_option := { opt_name : gcstring; has_arg : bool }.
Record getopt_result := { got_char : Z; got_index : Z; optarg : gcstring }.

Record option_parser := { present_ : gmap gcstring bool; argument_ : gcstring_map }.

Definition new_OptionParser : option_parser := {| present_ := ∅; argument_ := ∅ |}.

(** One result of [getopt_long] that is not the end. *)
Definition parse_result (long_options : list long_option) (r : getopt_result) (o : option_parser) : outcome option_parser :=
  if got_index r =? -1 then Done o
  else if got_char r =? 63 (* '?' *) then Done o
  else
    match long_options !! Z.to_nat (got_index r) with
    | None => Fault OutOfBounds
    | Some e =>
        Done {| present_ := <[opt_name e := true]> (present_ o);
                argument_ := if has_arg e then <[opt_name e := optarg r]> (argument_ o) else argument_ o |}
    end.

Fixpoint parse_options (long_options : list long_option) (results : list getopt_result) (o : option_parser) : outcome option_parser :=
  match results with
  | [] => Done o
  | r :: results =>
      if got_char r =? -1 then Done o
      else o ← parse_result long_options r o; parse_options long_options results o
  end.

(** [operator[]] of a map: a new entry is false, or empty. *)
Definition present (option : gcstring) (o : option_parser) : bool := default false (present_ o !! option).
Definition argument (option : gcstring) (o : option_parser) : gcstring := default [] (argument_ o !! option).

(** The entry of the table that a result stands for. *)
Definition entry_of (long_options : list long_option) (r : getopt_result) : option long_option :=
  if (got_index r =? -1) || (got_char r =? 63) then None else long_options !! Z.to_nat (got_index r).

Definition names (long_options : list long_option) (results : list getopt_result) : list gcstring :=
  omap (fun r => opt_name <$> entry_of long_options r) results.

Lemma parse_result_present long_options r o o' name :
  parse_result long_options r o = Done o' →
  present name o' = present name o || bool_decide (opt_name <$> entry_of long_options r = Some name).
Proof.
  unfold parse_result, entry_of. destruct (got_index r =? -1); cbn [orb]; [intros [= ->]; rewrite orb_false_r; reflexivity |].
  destruct (got_char r =? 63); [intros [= ->]; rewrite orb_false_r; reflexivity |].
  destruct (long_options !! _) as [e |]; [| discriminate]. intros [= <-]. unfold present. cbn [present_ fmap option_fmap option_map].
  destruct (decide (opt_name e = name)) as [<- | Hne].
  - rewrite lookup_insert_eq, bool_decide_eq_true_2 by reflexivity. cbn. rewrite orb_true_r. reflexivity.
  - rewrite lookup_insert_ne by assumption. rewrite bool_decide_eq_false_2 by congruence. rewrite orb_false_r. reflexivity.
Qed.

(** The options that are present after parsing are the ones that getopt_long recognised. *)
Lemma parse_options_present long_options results o o' name :
  Forall (fun r => got_char r ≠ -1) results → parse_options long_options results o = Done o' →
  present name o' = present name o || bool_decide (name ∈ names long_options results).
Proof.
  revert o. induction results as [| r results IH]; intros o Hr E; cbn [parse_options names omap list_omap] in *.
  - injection E as ->. rewrite bool_decide_eq_false_2 by apply not_elem_of_nil. rewrite orb_false_r. reflexivity.
  - apply Forall_cons in Hr as [Hc Hr]. rewrite (proj2 (Z.eqb_neq _ _) Hc) in E.
    apply outcome_bind_Done in E as (o1 & E1 & E). rewrite (IH o1 Hr E), (parse_result_present _ _ _ _ _ E1), <- orb_assoc. f_equal.
    destruct (entry_of long_options r) as [e |]; cbn [fmap option_fmap option_map].
    + fold (names long_options results). destruct (decide (opt_name e = name)) as [<- | Hne].
      * rewrite (bool_decide_eq_true_2 (Some _ = Some _)) by reflexivity. rewrite (bool_decide_eq_true_2 (_ ∈ _ :: _)) by left. reflexivity.
      * rewrite (bool_decide_eq_false_2 (Some _ = _)) by congruence. apply bool_decide_ext. rewrite elem_of_cons. intuition congruence.
    + fold (names long_options results). rewrite (bool_decide_eq_false_2 (None = _)) by discriminate. reflexivity.
Qed.

(** ** Utils *)

(** The results of [getline] up to the one that meets the end of the file. *)
Fixpoint getlines (content line : gcstring) : list gcstring :=
  match content with
  | [] => [line]
  | c :: content => if Ascii.eqb c "010"%char then line :: getlines content [] else getlines content (line ++ [c])
  end.

(** Lines that are not empty and no comments; [None] is a file that cannot be opened. *)
Definition kept_line (s : gcstring) : bool :=
  match s with [] => false | c :: _ => negb (Ascii.eqb c "#"%char) end.

Definition read_file (file : option gcstring) : outcome (list gcstring) :=
  match file with
  | None => Fault IOError
  | Some content => Done (List.filter kept_line (getlines content []))
  end.

Definition is_delimiter (delimiters : gcstring) (c : ascii) : bool := existsb (Ascii.eqb c) delimiters.

(** [strtok] until it returns NULL; [current] is the token being read. *)
Fixpoint tokens (delimiters line current : gcstring) : list gcstring :=
  match line with
  | [] => match current with [] => [] | _ => [current] end
  | c :: line =>
      if is_delimiter delimiters c
      then match current with [] => tokens delimiters line [] | _ => current :: tokens delimiters line [] end
      else tokens delimiters line (current ++ [c])
  end.

Definition tokenize (line delimiters : gcstring) : list gcstring := tokens delimiters line [].

(** [atoi]: white space, a sign, digits; undefined when the value is no [int]. *)
Definition is_space (c : ascii) : bool := Ascii.eqb c " "%char || ((9 <=? N_of_ascii c)%N && (N_of_ascii c <=? 13)%N).

Definition digit (c : ascii) : option Z :=
  let n := Z.of_N (N_of_ascii c) - 48 in if (0 <=? n) && (n <=? 9) then Some n else None.

Fixpoint digits (s : gcstring) (n : Z) : Z :=
  match s with
  | c :: s => match digit c with Some d => digits s (10 * n + d) | None => n end
  | [] => n
  end.

Fixpoint skip_space (s : gcstring) : gcstring :=
  match s with c :: s' => if is_space c then skip_space s' else s | [] => [] end.

Definition atoi (s : gcstring) : outcome Z :=
  let n := match skip_space s with
           | "-"%char :: s => - digits s 0
           | "+"%char :: s => digits s 0
           | s => digits s 0
           end in
  if (- 2 ^ 31 <=? n) && (n <? 2 ^ 31) then Done n else Fault UndefinedConversion.

(** The tokens are the maximal runs of characters that are no delimiters. *)
Lemma tokens_text delimiters line current :
  concat (tokens delimiters line current) = current ++ List.filter (fun c => negb (is_delimiter delimiters c)) line.
Proof.
  revert current. induction line as [| c line IH]; intros current; cbn [tokens List.filter].
  - destruct current; cbn; rewrite ?app_nil_r; reflexivity.
  - destruct (is_delimiter delimiters c); cbn [negb].
    + destruct current; cbn [concat]; rewrite IH; reflexivity.
    + rewrite IH, <- app_assoc. reflexivity.
Qed.

Lemma tokens_wf delimiters line current :
  Forall (fun c => is_delimiter delimiters c = false) current →
  Forall (fun t => t ≠ [] ∧ Forall (fun c => is_delimiter delimiters c = false) t) (tokens delimiters line current).
Proof.
  revert current. induction line as [| c line IH]; intros current Hc; cbn [tokens].
  - destruct current; [constructor |]. apply Forall_singleton. split; [discriminate | exact Hc].
  - destruct (is_delimiter delimiters c) eqn:E.
    + destruct current; [apply IH; constructor |]. constructor; [split; [discriminate | exact Hc] | apply IH; constructor].
    + apply IH. apply Forall_app_2; [exact Hc | repeat constructor; exact E].
Qed.

Lemma tokenize_wf line delimiters :
  concat (tokenize line delimiters) = List.filter (fun c => negb (is_delimiter delimiters c)) line
  ∧ Forall (fun t => t ≠ []) (tokenize line delimiters).
Proof.
  split; [apply tokens_text |].
  apply (Forall_impl _ _ _ (tokens_wf delimiters line [] (Forall_nil_2 _))). intros t [H _]. exact H.
Qed.

Lemma atoi_sample : atoi (str " -42x") = Done (-42) ∧ atoi (str "abc") = Done 0 ∧ atoi (str "4294967295") = Fault UndefinedConversion.
Proof. repeat split. Qed.

(** [Utils::get_current_time_microseconds_64] and its low word. *)
Definition get_current_time_microseconds_64 (tv_sec tv_usec : Z) : Z := u64 (u64 (u64 tv_sec * 1000000) + tv_usec).
Definition get_current_time_microseconds_32 (tv_sec tv_usec : Z) : Z := u32 (get_current_time_microseconds_64 tv_sec tv_usec).

(** The 32-bit clock measures intervals of less than 2^32 microseconds, also across its wrap. *)
Lemma elapsed_32 s1 u1 s2 u2 :
  let t1 := s1 * 1000000 + u1 in let t2 := s2 * 1000000 + u2 in
  t1 <= t2 < t1 + 2 ^ 32 →
  u32 (get_current_time_microseconds_32 s2 u2 - get_current_time_microseconds_32 s1 u1) = t2 - t1.
Proof.
  intros t1 t2 H. unfold get_current_time_microseconds_32, get_current_time_microseconds_64, u32, u64.
  assert (∀ s u, ((s mod 2 ^ 64 * 1000000) mod 2 ^ 64 + u) mod 2 ^ 64 mod 2 ^ 32 = (s * 1000000 + u) mod 2 ^ 32) as E.
  { intros s u. rewrite Zplus_mod_idemp_l, <- (Zplus_mod_idemp_l (s mod 2 ^ 64 * 1000000)), Zmult_mod_idemp_l, Zplus_mod_idemp_l.
    symmetry. apply Znumtheory.Zmod_div_mod; [lia | lia | exists (2 ^ 32); reflexivity]. }
  rewrite !E. rewrite <- Zminus_mod. apply Z.mod_small. unfold t1, t2 in *. lia.
Qed.
