(* ===== verification/Numbers.v ===== *)
(** * Fresh numbers (RandomNumberSet.h, Set.h, SocketManager.cc, PortManager.cc, MockPortManager.cc)

    Sockets take their identifiers and ports from sets of numbers that are in use. [get] draws
    random numbers until one is not in the set; a semaphore keeps two calls of it apart, and the
    set's own semaphore makes each operation of the set one step. Threads are interleaved step by
    step. *)
From stdpp Require Import gmap.
From S2P Require Import Prelude.
From S2P Require Import Utilities.

(** Where a thread is inside [get]. *)
Inductive place :=
| Drawing
| Testing (random : Z)
| Inserting (random : Z)
| Returning (random : Z).

Record number_set := { set_ : gset Z; mutex_ : Z; calls : gmap nat place }.

Definition with_set (x : gset Z) (s : number_set) : number_set := {| set_ := x; mutex_ := mutex_ s; calls := calls s |}.
Definition at_place (t : nat) (p : place) (s : number_set) : number_set :=
  {| set_ := set_ s; mutex_ := mutex_ s; calls := <[t := p]> (calls s) |}.

(** ** class Set *)

Definition insert (obj : Z) (s : number_set) : number_set := with_set ({[obj]} ∪ set_ s) s.
Definition remove (obj : Z) (s : number_set) : number_set := with_set (set_ s ∖ {[obj]}) s.
Definition contains (obj : Z) (s : number_set) : bool := bool_decide (obj ∈ set_ s).
Definition size_ (s : number_set) : Z := Z.of_nat (size (set_ s)).
Definition clear (s : number_set) : number_set := with_set ∅ s.

(** ** class RandomNumberSet *)

Definition new_RandomNumberSet : number_set := {| set_ := ∅; mutex_ := 1; calls := ∅ |}.

(** The constructor of SocketManager takes 0 out. *)
Definition new_SocketManager : number_set := insert 0 new_RandomNumberSet.
Definition new_PortManager : number_set := new_RandomNumberSet.

(** What a thread does next: call [get]; go on in it, [rand()] giving [r] if it is asked; call
    [remove]. *)
Inductive action :=
| Call (t : nat)
| Go (t : nat) (r : Z)
| Remove (n : Z).

(** A number is given out when it enters the set. *)
Inductive event := Given (t : nat) (n : Z) | Removed (n : Z).

(** MockPortManager: the port of the command line, every time. *)
Definition mock_get (o : option_parser) : outcome Z :=
  n ← atoi (if present (str "passive_port") o then argument (str "passive_port") o else str "0"); Done (u16 n).

Section RandomNumberSet.

(** The conversion of the [int] that [rand] returns to the type of the set's numbers. *)
Variable N_of : Z → Z.

Definition get_step (t : nat) (r : Z) (p : place) (s : number_set) : number_set * list event :=
  match p with
  | Drawing => (at_place t (Testing (N_of r)) s, [])
  | Testing random => (at_place t (if contains random s then Drawing else Inserting random) s, [])
  | Inserting random => (at_place t (Returning random) (insert random s), [Given t random])
  | Returning random => ({| set_ := set_ s; mutex_ := mutex_ s + 1; calls := delete t (calls s) |}, [])
  end.

(** [None]: the thread waits for the semaphore, or is not where the action needs it. *)
Definition step (a : action) (s : number_set) : option (number_set * list event) :=
  match a with
  | Call t =>
      match calls s !! t with
      | Some _ => None
      | None => if mutex_ s =? 0 then None
                else Some ({| set_ := set_ s; mutex_ := mutex_ s - 1; calls := <[t := Drawing]> (calls s) |}, [])
      end
  | Go t r => match calls s !! t with Some p => Some (get_step t r p s) | None => None end
  | Remove n => Some (remove n s, [Removed n])
  end.

Fixpoint run (acts : list action) (s : number_set) : option (number_set * list event) :=
  match acts with
  | [] => Some (s, [])
  | a :: acts =>
      match step a s with
      | None => None
      | Some (s, e1) => match run acts s with None => None | Some (s, e2) => Some (s, e1 ++ e2) end
      end
  end.

(** The numbers that were given out and not removed since, oldest first. *)
Definition in_use_after (e : event) (held : list Z) : list Z :=
  match e with
  | Given _ n => held ++ [n]
  | Removed n => List.filter (fun m => negb (m =? n)) held
  end.

Definition in_use (evs : list event) (held : list Z) : list Z := foldl (fun held e => in_use_after e held) held evs.

(** At most one thread is in [get], and a number it is about to insert is not in the set. *)
Definition calls_ok (s : number_set) : Prop :=
  (mutex_ s = 1 ∧ calls s = ∅)
  ∨ (mutex_ s = 0 ∧ ∃ t p, calls s = {[t := p]} ∧ match p with Inserting n => n ∉ set_ s | _ => True end).

Definition set_inv (s : number_set) (held : list Z) : Prop :=
  calls_ok s ∧ NoDup held ∧ ∀ n, n ∈ set_ s ↔ n ∈ held.

Lemma calls_at t p s : calls_ok s → calls s !! t = Some p → mutex_ s = 0 ∧ calls s = {[t := p]} ∧ match p with Inserting n => n ∉ set_ s | _ => True end.
Proof.
  intros [[_ E] | (M & t' & p' & E & H)] Ht; rewrite E in Ht; [discriminate |].
  apply lookup_singleton_Some in Ht as [-> ->]. auto.
Qed.

Lemma step_inv a s s' evs held :
  set_inv s held → step a s = Some (s', evs) → set_inv s' (in_use evs held).
Proof.
  intros (Hc & Hn & Hs) E. destruct a as [t | t r | n]; cbn [step] in E.
  - destruct (calls s !! t) eqn:Et; [discriminate |]. destruct (mutex_ s =? 0) eqn:Em; [discriminate |]. injection E as <- <-.
    apply Z.eqb_neq in Em. destruct Hc as [[M C] | [M _]]; [| lia].
    split; [| split; [exact Hn | exact Hs]]. right. cbn. split; [lia |]. exists t, Drawing. rewrite C. auto.
  - destruct (calls s !! t) as [p |] eqn:Et; [| discriminate]. injection E as E.
    destruct (calls_at t p s Hc Et) as (M & C & H).
    assert (∀ p' s1, calls s1 = calls s → mutex_ s1 = mutex_ s → (match p' with Inserting n => n ∉ set_ s1 | _ => True end) → calls_ok (at_place t p' s1)) as Hat.
    { intros p' s1 C1 M1 H1. right. cbn. split; [lia |]. exists t, p'. rewrite C1, C, insert_singleton_eq. auto. }
    destruct p as [| random | random | random]; cbn [get_step] in E; injection E as <- <-.
    + split; [apply Hat; auto | auto].
    + split; [| auto]. apply Hat; [reflexivity | reflexivity |]. unfold contains. case_bool_decide; [exact I | assumption].
    + split; [apply Hat; auto |]. cbn [in_use foldl in_use_after].
      assert (random ∉ held) as Hr by (rewrite <- Hs; exact H).
      split; [apply NoDup_app; split; [exact Hn |]; split; [intros x Hx ->%list_elem_of_singleton; contradiction | apply NoDup_singleton] |].
      intros n. cbn [set_ at_place insert with_set]. rewrite elem_of_app, list_elem_of_singleton, <- Hs. set_solver.
    + split; [| auto]. left. cbn. rewrite C, delete_singleton_eq. split; [lia | reflexivity].
  - injection E as <- <-. cbn [in_use foldl in_use_after]. split; [| split].
    + destruct Hc as [Hc | (M & t & p & C & H)]; [left; exact Hc | right]. cbn. split; [exact M |]. exists t, p. split; [exact C |].
      destruct p; auto. set_solver.
    + apply NoDup_ListNoDup, List.NoDup_filter, NoDup_ListNoDup, Hn.
    + intros m. cbn [set_ remove with_set]. rewrite list_elem_of_In, filter_In, <- list_elem_of_In, <- Hs.
      rewrite negb_true_iff, Z.eqb_neq. set_solver.
Qed.

Lemma actions_inv acts s s' evs held :
  set_inv s held → run acts s = Some (s', evs) → set_inv s' (in_use evs held).
Proof.
  revert s evs held. induction acts as [| a acts IH]; intros s evs held Hi E; cbn [run] in E; [injection E as <- <-; exact Hi |].
  destruct (step a s) as [[s1 e1] |] eqn:E1; [| discriminate]. destruct (run acts s1) as [[s2 e2] |] eqn:E2; [| discriminate].
  injection E as <- <-. unfold in_use. rewrite foldl_app. apply (IH s1 e2 _ (step_inv _ _ _ _ _ Hi E1) E2).
Qed.

(** When every number is taken, [get] draws for ever and keeps the semaphore. *)
Definition stuck (t : nat) (s : number_set) : Prop :=
  mutex_ s = 0 ∧ (∀ r, N_of r ∈ set_ s)
  ∧ (calls s = {[t := Drawing]} ∨ ∃ r, calls s = {[t := Testing (N_of r)]}).

Lemma get_stuck acts t s s' evs :
  stuck t s → Forall (fun a => match a with Remove _ => False | _ => True end) acts →
  run acts s = Some (s', evs) → stuck t s' ∧ evs = [].
Proof.
  revert s evs. induction acts as [| a acts IH]; intros s evs Hst Ha E; cbn [run] in E; [injection E as <- <-; auto |].
  apply Forall_cons in Ha as [Ha Has]. destruct (step a s) as [[s1 e1] |] eqn:E1; [| discriminate].
  destruct (run acts s1) as [[s2 e2] |] eqn:E2; [| discriminate]. injection E as <- <-.
  destruct Hst as (M & F & C). assert (stuck t s1 ∧ e1 = []) as [Hst ->].
  { destruct a as [u | u r | n]; cbn [step] in E1; [| | contradiction].
    - destruct (calls s !! u); [discriminate |]. rewrite M in E1. discriminate.
    - destruct (calls s !! u) as [p |] eqn:Eu; [| discriminate]. injection E1 as E1.
      destruct C as [C | [x C]]; rewrite C in Eu; apply lookup_singleton_Some in Eu as [<- <-]; cbn [get_step] in E1; injection E1 as <- <-;
        (split; [| reflexivity]); (split; [exact M |]); (split; [exact F |]); cbn [at_place calls]; rewrite C, insert_singleton_eq.
      + right. eauto.
      + unfold contains. rewrite bool_decide_eq_true_2 by apply F. left. reflexivity. }
  destruct (IH s1 e2 Hst Has E2) as [Hs ->]. auto.
Qed.

(** A call that draws a free number returns it. *)
Lemma get_returns t r s :
  mutex_ s = 1 → calls s = ∅ → N_of r ∉ set_ s →
  run [Call t; Go t r; Go t 0; Go t 0; Go t 0] s
  = Some ({| set_ := {[N_of r]} ∪ set_ s; mutex_ := 1; calls := ∅ |}, [Given t (N_of r)]).
Proof.
  intros M C H. cbn [run step]. rewrite C, lookup_empty, M. cbn [Z.eqb]. cbn [calls mutex_ set_].
  rewrite lookup_insert_eq. cbn [get_step at_place calls]. rewrite lookup_insert_eq. cbn [get_step at_place calls]. unfold contains. cbn [set_].
  rewrite bool_decide_eq_false_2 by exact H. rewrite !lookup_insert_eq. cbn [get_step at_place insert with_set calls set_ mutex_].
  rewrite lookup_insert_eq. cbn [get_step set_ mutex_ calls app]. do 2 f_equal. f_equal.
  apply map_eq. intros i. destruct (decide (t = i)) as [<- | Hne]; [apply lookup_delete_eq |].
  rewrite lookup_delete_ne by assumption. cbn [calls at_place insert with_set]. rewrite !lookup_insert_ne by assumption. reflexivity.
Qed.

End RandomNumberSet.

(** C40: Under every interleaving of threads that take numbers and give them back, a set of random
    numbers never gives out a number that is in use: the numbers given out and not removed since
    are all different, and they are what the set holds besides those it held at first. *)
Theorem numbers_distinct N_of s acts s' evs :
  calls s = ∅ → mutex_ s = 1 → run N_of acts s = Some (s', evs) →
  NoDup (in_use evs (elements (set_ s))) ∧ ∀ n, n ∈ set_ s' ↔ n ∈ in_use evs (elements (set_ s)).
Proof.
  intros C M E. destruct (actions_inv N_of acts s s' evs (elements (set_ s))) as (_ & Hn & Hs); [| exact E | split; assumption].
  split; [left; auto |]. split; [apply NoDup_elements | intros n; rewrite elem_of_elements; reflexivity].
Qed.

(** Two threads take identifiers while 5 is taken: the second waits, draws 5 and 0 in vain, and
    after 5 was removed it is given out again. *)
Definition sample_actions : list action :=
  [Call 1; Go 1 5; Go 1 0; Go 1 0; Go 1 0; Call 2; Go 2 65541; Go 2 0; Go 2 0; Remove 5; Go 2 65536; Go 2 0; Go 2 0; Go 2 5; Go 2 0; Go 2 0]%nat.

Lemma numbers_distinct_witness :
  ∃ s evs, run u16 sample_actions new_SocketManager = Some (s, evs)
    ∧ evs = [Given 1 5; Removed 5; Given 2 5] ∧ NoDup (in_use evs (elements (set_ new_SocketManager))).
Proof.
  destruct (run u16 sample_actions new_SocketManager) as [[s evs] |] eqn:E; [| exfalso; vm_compute in E; discriminate].
  exists s, evs. split; [reflexivity |].
  split; [| apply (numbers_distinct u16 new_SocketManager sample_actions s evs); [reflexivity | reflexivity | exact E]].
  assert (snd <$> run u16 sample_actions new_SocketManager = Some [Given 1 5; Removed 5; Given 2 5]) as V by (vm_compute; reflexivity).
  rewrite E in V. injection V as V. exact V.
Defined.
