(* ===== verification/WedgeTables.v ===== *)
(** * The tables of the kernel module (wedge/wifu_wedge.c)

    The module stands in for the kernel's internet sockets: each call of an application becomes a
    message to the daemon over netlink, and the daemon's answer ends the call. This file holds
    the table of sockets, the table of calls that wait, and what the module does with a message
    from the daemon. A slot is free when its identifier is -1 as an unsigned number. *)
From stdpp Require Import gmap.
From S2P Require Import Prelude.
From S2P Require Import HeaderMem.

Definition MAX_SOCKETS : nat := 100.
Definition MAX_CALLS : nat := 100.
Definition MAX_CALL_TYPES : nat := 22.
Definition ACK : Z := 200.
Definition NACK : Z := 6666.
Definition ENOMEM : Z := 12.

(** The types of calls, and the two messages that are only a number. *)
Definition WIFU_SOCKET : Z := 1.
Definition WIFU_BIND : Z := 2.
Definition WIFU_LISTEN : Z := 3.
Definition WIFU_ACCEPT : Z := 4.
Definition WIFU_SENDTO : Z := 6.
Definition WIFU_RECVFROM : Z := 8.
Definition WIFU_CONNECT : Z := 9.
Definition WIFU_GETSOCKOPT : Z := 10.
Definition WIFU_SETSOCKOPT : Z := 11.
Definition WIFU_CLOSE : Z := 12.
Definition getname_call : Z := 6.
Definition ioctl_call : Z := 7.
Definition poll_call : Z := 13.
Definition mmap_call : Z := 14.
Definition shutdown_call : Z := 16.
Definition sendpage_call : Z := 18.
Definition daemon_start_call : Z := 19.
Definition daemon_stop_call : Z := 20.

(** [struct wifu_wedge_call]; [buf] points into the message that answered, whose bytes these
    were when the answer came. *)
Record wedge_call := {
  running : Z;
  call_id : Z;
  call_type : Z;
  call_sock_id : Z;
  call_sock_index : Z;
  wait_sem : Z;
  reply : bool;
  ret : Z;
  msg : Z;
  buf : list Z;
  len : Z }.

(** [struct wifu_wedge_socket]. A [struct sock] is its address. *)
Record wedge_socket := {
  socket_running : Z;
  sock_id : Z;
  sk : Z;
  threads : list Z;
  release_flag : bool;
  sk_new : option Z }.

Definition free_call : Z := 2 ^ 32 - 1.
Definition free_socket : Z := 2 ^ 64 - 1.

Definition with_call_id (n : Z) (c : wedge_call) : wedge_call :=
  {| running := running c; call_id := n; call_type := call_type c; call_sock_id := call_sock_id c; call_sock_index := call_sock_index c;
     wait_sem := wait_sem c; reply := reply c; ret := ret c; msg := msg c; buf := buf c; len := len c |}.
Definition with_wait_sem (n : Z) (c : wedge_call) : wedge_call :=
  {| running := running c; call_id := call_id c; call_type := call_type c; call_sock_id := call_sock_id c; call_sock_index := call_sock_index c;
     wait_sem := n; reply := reply c; ret := ret c; msg := msg c; buf := buf c; len := len c |}.
Definition with_sock_id (n : Z) (s : wedge_socket) : wedge_socket :=
  {| socket_running := socket_running s; sock_id := n; sk := sk s; threads := threads s; release_flag := release_flag s; sk_new := sk_new s |}.
Definition with_threads (l : list Z) (s : wedge_socket) : wedge_socket :=
  {| socket_running := socket_running s; sock_id := sock_id s; sk := sk s; threads := l; release_flag := release_flag s; sk_new := sk_new s |}.
Definition with_release_flag (b : bool) (s : wedge_socket) : wedge_socket :=
  {| socket_running := socket_running s; sock_id := sock_id s; sk := sk s; threads := threads s; release_flag := b; sk_new := sk_new s |}.
Definition with_sk_new (x : option Z) (s : wedge_socket) : wedge_socket :=
  {| socket_running := socket_running s; sock_id := sock_id s; sk := sk s; threads := threads s; release_flag := release_flag s; sk_new := x |}.

(** The array element at an index that may be -1. *)
Definition at_index {A} (l : list A) (i : Z) : outcome A :=
  if i <? 0 then Fault OutOfBounds else match l !! Z.to_nat i with Some x => Done x | None => Fault OutOfBounds end.

Definition set_index {A} (i : Z) (x : A) (l : list A) : list A := <[Z.to_nat i := x]> l.

(** The first slot that a loop over an array stops at, or -1. *)
Definition first_index {A} (p : A → bool) (l : list A) : Z :=
  match list_find (fun x => p x = true) l with Some (i, _) => Z.of_nat i | None => -1 end.

(** ** The table of calls *)

Definition wedge_calls_init (calls : list wedge_call) : list wedge_call := map (with_call_id free_call) calls.

Definition new_call (id sock_id sock_index type : Z) : wedge_call → wedge_call := fun c =>
  {| running := 1; call_id := u32 id; call_type := type; call_sock_id := u32 sock_id; call_sock_index := sock_index;
     wait_sem := 0; reply := false; ret := 0; msg := msg c; buf := buf c; len := len c |}.

Definition wedge_calls_insert (id sock_id sock_index type : Z) (calls : list wedge_call) : Z * list wedge_call :=
  let i := first_index (fun c => call_id c =? free_call) calls in
  match at_index calls i with
  | Done c => (i, set_index i (new_call id sock_id sock_index type c) calls)
  | Fault _ => (-1, calls)
  end.

Definition waits_for (sock_id type : Z) (c : wedge_call) : bool :=
  negb (call_id c =? free_call) && (call_sock_id c =? u32 sock_id) && (call_type c =? type).

Definition wedge_calls_find (sock_id type : Z) (calls : list wedge_call) : Z := first_index (waits_for sock_id type) calls.

Definition wedge_calls_remove (id : Z) (calls : list wedge_call) : Z * list wedge_call :=
  let i := first_index (fun c => call_id c =? u32 id) calls in
  match at_index calls i with
  | Done c => (1, set_index i (with_call_id free_call c) calls)
  | Fault _ => (-1, calls)
  end.

(** [up(&wedge_calls[i].wait_sem)] *)
Definition up_wait_sem (i : Z) (calls : list wedge_call) : outcome (list wedge_call) :=
  c ← at_index calls i; Done (set_index i (with_wait_sem (wait_sem c + 1) c) calls).

(** ** The table of sockets *)

Definition wedge_sockets_init (sockets : list wedge_socket) : list wedge_socket := map (with_sock_id free_socket) sockets.

Definition new_socket (id k : Z) : wedge_socket :=
  {| socket_running := 1; sock_id := u32 id; sk := k; threads := replicate MAX_CALL_TYPES 0; release_flag := false; sk_new := None |}.

Definition wedge_sockets_insert (id k : Z) (sockets : list wedge_socket) : Z * list wedge_socket :=
  let i := first_index (fun s => sock_id s =? free_socket) sockets in
  match at_index sockets i with
  | Done _ => (i, set_index i (new_socket id k) sockets)
  | Fault _ => (-1, sockets)
  end.

Definition wedge_sockets_find (id : Z) (sockets : list wedge_socket) : Z := first_index (fun s => sock_id s =? u32 id) sockets.

(** [wedge_sockets[i].threads[type] += d], and the new count. *)
Definition add_thread (i type d : Z) (sockets : list wedge_socket) : outcome (Z * list wedge_socket) :=
  s ← at_index sockets i; n ← at_index (threads s) type;
  Done (i32 (n + d), set_index i (with_threads (set_index type (i32 (n + d)) (threads s)) s) sockets).

(** The low half of the address of a [struct sock]. *)
Definition get_unique_sock_id (k : Z) : Z := i32 k.

(** ** Answers *)

(** The daemon's answer: an [int] for the caller. *)
Definition checkConfirmation (c : wedge_call) : Z :=
  if ret c =? ACK then if len c =? 0 then 0 else -1
  else if ret c =? NACK then i32 (- msg c)
  else -1.

(** The size of the response to a call, for the types of messages the module knows. *)
Definition sizeof_response (type : Z) : option Z :=
  if existsb (Z.eqb type) [WIFU_SOCKET; WIFU_BIND; WIFU_LISTEN; WIFU_SENDTO; WIFU_CONNECT; WIFU_SETSOCKOPT; WIFU_CLOSE] then Some 20
  else if type =? WIFU_GETSOCKOPT then Some 24
  else if (type =? WIFU_ACCEPT) || (type =? WIFU_RECVFROM) then Some 40
  else None.

Definition int_at (o : nat) (m : list Z) : Z := get (Bytes [o; 1 + o; 2 + o; 3 + o]%nat) m.

Definition answered (return_value n : Z) (rest : list Z) (c : wedge_call) : wedge_call :=
  {| running := running c; call_id := call_id c; call_type := call_type c; call_sock_id := call_sock_id c; call_sock_index := call_sock_index c;
     wait_sem := wait_sem c + 1; reply := true; ret := ACK; msg := return_value; buf := rest; len := n |}.

(** A response from the daemon. The slot is used whether one was found or not. *)
Definition take_response (m : list Z) (calls : list wedge_call) : outcome (list wedge_call) :=
  if Nat.ltb (length m) 4 then Fault OutOfBounds
  else
    match sizeof_response (int_at 0 m) with
    | None => Done calls
    | Some n =>
        if Nat.ltb (length m) 16 then Fault OutOfBounds
        else
          let i := wedge_calls_find (int_at 8 m) (int_at 0 m) calls in
          c ← at_index calls i;
          Done (set_index i (answered (int_at 12 m) (i32 (Z.of_nat (length m) - n)) (drop (Z.to_nat n) m) c) calls)
    end.

(** ** Facts about the tables *)

Section First.
Context {A : Type} (p : A → bool).

Lemma first_index_none l : first_index p l = -1 ↔ ∀ x, x ∈ l → p x = false.
Proof.
  unfold first_index. destruct (list_find _ l) as [[i x] |] eqn:E.
  - apply list_find_Some in E as (Hi & Hx & _). split; [lia |]. intros H. exfalso.
    rewrite (H x) in Hx by (eapply list_elem_of_lookup_2, Hi). discriminate.
  - split; [| reflexivity]. intros _ x Hx.
    rewrite list_find_None, Forall_forall in E. specialize (E x Hx). destruct (p x); [contradiction | reflexivity].
Qed.

Lemma first_index_some l i :
  first_index p l = Z.of_nat i ↔ (∃ x, l !! i = Some x ∧ p x = true) ∧ ∀ j y, l !! j = Some y → (j < i)%nat → p y = false.
Proof.
  unfold first_index. destruct (list_find _ l) as [[j x] |] eqn:E.
  - pose proof (proj1 (list_find_Some _ _ _ _) E) as (Hj & Hx & Hlt). split.
    + intros ->%Nat2Z.inj. split; [eauto |]. intros k y Hk Hki. specialize (Hlt k y Hk Hki). destruct (p y); [contradiction | reflexivity].
    + intros [[y [Hy Hpy]] Hb]. f_equal. destruct (Nat.lt_trichotomy i j) as [H | [H | H]]; [| auto |].
      * exfalso. apply (Hlt i y Hy H), Hpy.
      * exfalso. rewrite (Hb j x Hj H) in Hx. discriminate.
  - split; [lia |]. intros [[x [Hx Hp]] _]. exfalso. rewrite list_find_None, Forall_forall in E.
    apply (E x); [eapply list_elem_of_lookup_2, Hx | exact Hp].
Qed.

Lemma first_index_cases l : first_index p l = -1 ∨ ∃ i x, first_index p l = Z.of_nat i ∧ l !! i = Some x ∧ p x = true.
Proof.
  unfold first_index. destruct (list_find _ l) as [[i x] |] eqn:E; [right | left; reflexivity].
  apply list_find_Some in E as (Hi & Hx & _). eauto.
Qed.

Lemma at_index_nat (l : list A) i : at_index l (Z.of_nat i) = match l !! i with Some x => Done x | None => Fault OutOfBounds end.
Proof. unfold at_index. rewrite (proj2 (Z.ltb_ge _ _)), Nat2Z.id by lia. reflexivity. Qed.

Lemma at_index_done (l : list A) i x : at_index l i = Done x → 0 ≤ i ∧ l !! Z.to_nat i = Some x.
Proof.
  unfold at_index. destruct (i <? 0) eqn:E; [discriminate |]. apply Z.ltb_ge in E.
  destruct (l !! Z.to_nat i); [intros [= ->]; auto | discriminate].
Qed.

End First.

(** *** The table of calls *)

Lemma wedge_calls_insert_spec id sock_id sock_index type calls :
  (wedge_calls_insert id sock_id sock_index type calls = (-1, calls) ∧ ∀ c, c ∈ calls → call_id c ≠ free_call)
  ∨ ∃ i c, wedge_calls_insert id sock_id sock_index type calls = (Z.of_nat i, <[i := new_call id sock_id sock_index type c]> calls)
           ∧ calls !! i = Some c ∧ call_id c = free_call.
Proof.
  unfold wedge_calls_insert. destruct (first_index_cases (fun c => call_id c =? free_call) calls) as [E | (i & c & E & Hi & Hc)]; rewrite E.
  - left. split; [reflexivity |]. intros c Hc. apply Z.eqb_neq. exact (proj1 (first_index_none _ _) E c Hc).
  - right. exists i, c. rewrite at_index_nat, Hi. unfold set_index. rewrite Nat2Z.id. apply Z.eqb_eq in Hc. auto.
Qed.

Lemma waits_for_spec sock_id type c :
  waits_for sock_id type c = true ↔ call_id c ≠ free_call ∧ call_sock_id c = u32 sock_id ∧ call_type c = type.
Proof. unfold waits_for. rewrite !andb_true_iff, negb_true_iff, Z.eqb_neq, !Z.eqb_eq. tauto. Qed.

(** A call that was inserted is found, unless another call of its socket and type waits in an
    earlier slot. *)
Lemma wedge_calls_find_inserted id sock_id sock_index type calls i c :
  wedge_calls_insert id sock_id sock_index type calls = (Z.of_nat i, <[i := new_call id sock_id sock_index type c]> calls) →
  calls !! i = Some c → u32 id ≠ free_call → (∀ d, d ∈ calls → waits_for sock_id type d = false) →
  wedge_calls_find sock_id type (<[i := new_call id sock_id sock_index type c]> calls) = Z.of_nat i.
Proof.
  intros _ Hi Hid Hn. apply first_index_some. split.
  - exists (new_call id sock_id sock_index type c). rewrite list_lookup_insert_eq by (eapply lookup_lt_Some, Hi).
    split; [reflexivity |]. apply waits_for_spec. auto.
  - intros j y Hj Hlt. rewrite list_lookup_insert_ne in Hj by lia. apply Hn. eapply list_elem_of_lookup_2, Hj.
Qed.

(** The identifier -1 also marks a slot as free: the call that counts to 2^32 - 1 does not hold its
    slot. *)
Lemma call_count_wraps calls c d :
  calls = [c; d] → call_id c = free_call →
  wedge_calls_insert 7 1 0 WIFU_BIND (snd (wedge_calls_insert free_call 2 0 WIFU_LISTEN calls))
  = (0, [new_call 7 1 0 WIFU_BIND (new_call free_call 2 0 WIFU_LISTEN c); d]).
Proof.
  intros -> Hc. unfold wedge_calls_insert at 2. unfold first_index. cbn [list_find]. rewrite decide_True by (rewrite Hc; reflexivity).
  reflexivity.
Qed.

(** *** Answers *)

(** What a response does to the table: the first call of its socket and type takes it. *)
Lemma take_response_spec m calls calls' :
  take_response m calls = Done calls' →
  calls' = calls ∨ ∃ i c n, calls !! i = Some c ∧ waits_for (int_at 8 m) (int_at 0 m) c = true ∧ sizeof_response (int_at 0 m) = Some n
                            ∧ calls' = <[i := answered (int_at 12 m) (i32 (Z.of_nat (length m) - n)) (drop (Z.to_nat n) m) c]> calls.
Proof.
  unfold take_response. destruct (Nat.ltb _ 4); [discriminate |]. destruct (sizeof_response _) as [n |]; [| intros [= ->]; auto].
  destruct (Nat.ltb _ 16); [discriminate |]. intros E. right.
  apply outcome_bind_Done in E as (c & Ec & E). injection E as <-.
  unfold wedge_calls_find in *. destruct (first_index_cases (waits_for (int_at 8 m) (int_at 0 m)) calls) as [F | (i & x & F & Hi & Hx)];
    rewrite F in Ec |- *; [discriminate |].
  rewrite at_index_nat, Hi in Ec. injection Ec as <-. unfold set_index. rewrite Nat2Z.id. eauto 10.
Qed.

(** A response to a call that no longer waits writes before the table. *)
Lemma late_response m calls :
  (16 <= length m)%nat → sizeof_response (int_at 0 m) ≠ None →
  (∀ c, c ∈ calls → waits_for (int_at 8 m) (int_at 0 m) c = false) → take_response m calls = Fault OutOfBounds.
Proof.
  intros Hl Hs Hn. unfold take_response. rewrite (proj2 (Nat.ltb_ge _ 4)) by lia.
  destruct (sizeof_response _) as [n |]; [| contradiction]. rewrite (proj2 (Nat.ltb_ge _ 16)) by lia.
  unfold wedge_calls_find. rewrite (proj2 (first_index_none _ _) Hn). reflexivity.
Qed.

(** The confirmation reads the length of what follows the response and not its return value: a
    call that the daemon refused succeeds. *)
Lemma confirmation_hides_errors v rest c : checkConfirmation (answered v 0 rest c) = 0.
Proof. reflexivity. Qed.

(** The call types of [getname] and [sendmsg] are the same number. *)
Lemma getname_is_sendto : getname_call = WIFU_SENDTO.
Proof. reflexivity. Qed.
