(* ===== verification/WedgeCalls.v ===== *)
(** * The socket calls of the kernel module (wedge/wifu_wedge.c)

    What the module's sixteen calls do differently: the message each sends to the daemon and
    what it makes of the answer. The steps they share are in Wedge. *)
From stdpp Require Import gmap.
From S2P Require Import Prelude.
From S2P Require Import HeaderMem.
From S2P Require Import PacketLog.
From S2P Require Import WedgeTables.

Definition AF_WIFU : Z := 2.

(** ** Messages *)

(** The fields after the socket's name in the structs of MessageStructDefinitionsCStyleForWedge.h. *)
Inductive body :=
| SocketBody (domain type protocol : Z)
| AddressBody (addr : list Z) (addr_len : Z)
| ListenBody (n : Z)
| AcceptBody (secondfd : Z)
| DataBody (addr : list Z) (addr_len buffer_length flags : Z) (data : list Z)
| SockOptBody (level optname optlen : Z) (optval : list Z)
| CloseBody.

Record struct_message := { message_type : Z; message_length : Z; message_fd : Z; message_body : body }.

Record nl_wedge_to_daemon := { hdr_sock_id : Z; hdr_sock_index : Z; hdr_call_type : Z; hdr_call_id : Z; hdr_call_index : Z }.

(** The older calls send a header and the bytes of their arguments. *)
Inductive outgoing :=
| Struct (m : struct_message)
| Raw (h : nl_wedge_to_daemon) (arguments : list Z).

Definition sizeof_SocketMessage : Z := 136.
Definition sizeof_BindMessage : Z := 144.
Definition sizeof_ListenMessage : Z := 128.
Definition sizeof_AcceptMessage : Z := 148.
Definition sizeof_SendToMessage : Z := 160.
Definition sizeof_SetSockOptMessage : Z := 136.
Definition sizeof_CloseMessage : Z := 124.

(** What the kernel and memory do in one step: the address of a new [struct sock], whether memory
    is allocated, whether netlink sends, what an uninitialised pointer holds, whether a signal
    ends a wait, whether copying from or to the application works, and the bytes that now lie
    where an answer was. *)
Record env := {
  new_sk : option Z;
  allocated : bool;
  unicast_ok : bool;
  stack_buf : option nat;
  interrupted : bool;
  copied : bool;
  memory : list Z }.

(** A call before it sends: the message, and whether [buf] points to it; or a way out to [end]
    with the slot freed or kept; or a return at once, which keeps the slot and the count. *)
Inductive prepared :=
| Send (in_buf : bool) (m : outgoing)
| GiveUp (rc : Z)
| Leak (rc : Z)
| Bail (rc : Z).

Inductive kind := Ordinary | Creating | Accepting (sock_new : nat) | Releasing.

(** What a call is: its type, what it returns when it is refused at once or no slot is free, the
    message, what it returns and hands out for an answer, or without one. *)
Record handler := {
  kind_of : kind;
  null_checked : bool;
  type_of : Z;
  refused : Z;
  table_full : Z;
  unanswered : Z;
  prepare : nl_wedge_to_daemon → option Z → env → outcome prepared;
  result_of : env → wedge_call → outcome (Z * list Z) }.

(** [kzalloc] is not checked. *)
Definition struct_send (e : env) (m : struct_message) : outcome prepared :=
  if allocated e then Done (Send false (Struct m)) else Fault NullDereference.

(** [kmalloc] is. *)
Definition raw_send (e : env) (full : Z) (h : nl_wedge_to_daemon) (arguments : list Z) : outcome prepared :=
  if allocated e then Done (Send true (Raw h arguments)) else Done (GiveUp full).

Definition fd_of (h : nl_wedge_to_daemon) : Z := u32 (hdr_sock_id h).

Definition confirm (_ : env) (c : wedge_call) : outcome (Z * list Z) := Done (checkConfirmation c, []).

(** [memcpy(&message->addr, addr, addr_len)]: 16 bytes fit the field, 20 the struct. *)
Definition address_body (addr : list Z) : outcome body :=
  if Nat.leb (length addr) 20 then Done (AddressBody (take 16 (addr ++ replicate 16 0)) (Z.of_nat (length addr))) else Fault OutOfBounds.

(** ** Reading an answer's bytes *)

Definition int_of (m : list Z) (o : nat) : outcome Z :=
  if Nat.leb (o + 4) (length m) then Done (i32 (int_at o m)) else Fault OutOfBounds.

(** [memcpy(to, m + o, n)] with an [int] length: a negative one is huge. *)
Definition bytes_of (m : list Z) (o : nat) (n : Z) : outcome (list Z) :=
  if (0 <=? n) && Nat.leb (o + Z.to_nat n) (length m) then Done (slice m o (Z.to_nat n)) else Fault OutOfBounds.

(** A copy into a buffer with some room. *)
Definition fits (n : Z) (room : option Z) : outcome unit :=
  match room with Some r => if n <=? r then Done tt else Fault OutOfBounds | None => Done tt end.

(** ** The calls *)

Definition wifu_create (type protocol : Z) : handler :=
  {| kind_of := Creating; null_checked := true; type_of := WIFU_SOCKET; refused := -1; table_full := - ENOMEM; unanswered := -1;
     prepare := fun h _ e =>
       struct_send e {| message_type := WIFU_SOCKET; message_length := sizeof_SocketMessage; message_fd := fd_of h;
                        message_body := SocketBody AF_WIFU type protocol |};
     result_of := confirm |}.

Definition wifu_bind (addr : list Z) : handler :=
  {| kind_of := Ordinary; null_checked := true; type_of := WIFU_BIND; refused := -1; table_full := - ENOMEM; unanswered := -1;
     prepare := fun h _ e =>
       b ← address_body addr;
       struct_send e {| message_type := WIFU_BIND; message_length := sizeof_BindMessage; message_fd := fd_of h; message_body := b |};
     result_of := confirm |}.

Definition wifu_listen (backlog : Z) : handler :=
  {| kind_of := Ordinary; null_checked := true; type_of := WIFU_LISTEN; refused := -1; table_full := - ENOMEM; unanswered := -1;
     prepare := fun h _ e =>
       struct_send e {| message_type := WIFU_LISTEN; message_length := sizeof_ListenMessage; message_fd := fd_of h;
                        message_body := ListenBody backlog |};
     result_of := confirm |}.

Definition wifu_connect (addr : list Z) : handler :=
  {| kind_of := Ordinary; null_checked := true; type_of := WIFU_CONNECT; refused := -1; table_full := - ENOMEM; unanswered := -1;
     prepare := fun h _ e =>
       b ← address_body addr;
       struct_send e {| message_type := WIFU_CONNECT; message_length := sizeof_BindMessage; message_fd := fd_of h; message_body := b |};
     result_of := confirm |}.

Definition wifu_accept (sock_new : nat) : handler :=
  {| kind_of := Accepting sock_new; null_checked := true; type_of := WIFU_ACCEPT; refused := -1; table_full := - ENOMEM; unanswered := -1;
     prepare := fun h k e =>
       struct_send e {| message_type := WIFU_ACCEPT; message_length := sizeof_AcceptMessage; message_fd := fd_of h;
                        message_body := AcceptBody (match k with Some k => get_unique_sock_id k | None => 0 end) |};
     result_of := confirm |}.

(** The name and its length come from the answer's bytes; [addr] has the room of a
    sockaddr_storage. *)
Definition getname_reply (e : env) (c : wedge_call) : outcome (Z * list Z) :=
  if ret c =? ACK then
    if 4 <=? len c then
      n ← int_of (memory e) 0; name ← bytes_of (memory e) 4 n;
      if n <=? 128 then Done (if 4 + n =? len c then 0 else -1, name) else Fault OutOfBounds
    else Done (-1, [])
  else if ret c =? NACK then Done (i32 (- msg c), [])
  else Done (-1, []).

Definition wifu_getname (peer : Z) : handler :=
  {| kind_of := Ordinary; null_checked := true; type_of := getname_call; refused := -1; table_full := - ENOMEM; unanswered := -1;
     prepare := fun h _ e => raw_send e (- ENOMEM) h (le_bytes 4 peer);
     result_of := getname_reply |}.

(** The lengths of the parts are added in an unsigned int. [msg_name] may be longer than the
    address field: what follows it is written afterwards. *)
Definition sendto_body (name : list Z) (iov : list (list Z)) (sk_flags : Z) : outcome body :=
  let data := concat iov in
  if Z.of_nat (length data) <? 2 ^ 32 then
    if Nat.leb (length name) (36 + length data)
    then Done (DataBody (take 16 (name ++ replicate 16 0)) (Z.of_nat (length name)) (Z.of_nat (length data)) (i32 sk_flags) data)
    else Fault OutOfBounds
  else Fault OutOfBounds.

Definition sendmsg_reply (_ : env) (c : wedge_call) : outcome (Z * list Z) :=
  Done (if ret c =? ACK then if len c =? 0 then i32 (msg c) else -1
        else if ret c =? NACK then i32 (- msg c)
        else -1, []).

Definition wifu_sendmsg (name : list Z) (iov : list (list Z)) (sk_flags : Z) : handler :=
  {| kind_of := Ordinary; null_checked := true; type_of := WIFU_SENDTO; refused := -1; table_full := - ENOMEM; unanswered := -1;
     prepare := fun h _ e =>
       b ← sendto_body name iov sk_flags;
       struct_send e {| message_type := WIFU_SENDTO; message_length := u32 (sizeof_SendToMessage + Z.of_nat (length (concat iov)));
                        message_fd := fd_of h; message_body := b |};
     result_of := sendmsg_reply |}.

(** The name is copied over the fields that follow the address, which were written before; only
    its length is written after. *)
Definition recvfrom_body (name : list Z) (n flags : Z) : outcome body :=
  if Nat.leb (length name) 36 then
    let fields := replicate 20 0 ++ le_bytes 8 n ++ le_bytes 4 flags ++ replicate 4 0 in
    let m := name ++ drop (length name) fields in
    Done (DataBody (take 16 m) (Z.of_nat (length name)) (get (Bytes [20; 21; 22; 23; 24; 25; 26; 27]%nat) m) (i32 (int_at 28 m)) [])
  else Fault OutOfBounds.

(** [copy_to_user] of [n] bytes over the parts of the application's buffer: what fits. *)
Definition to_user (room n : Z) (m : list Z) (o : nat) : outcome (list Z) := bytes_of m o (Z.min room n).

(** An answer's bytes are read as a name, data and control data, each after its length. The name
    goes to a buffer with the room [name_room]; without a buffer, to a new one. The data is skipped
    only as far as it fits the application's buffer. [rc] is set by the data's length, and again
    when the lengths do not add up. *)
Definition recvmsg_parts (name_room control_room : option Z) (iov_room : Z) (m : list Z) (total : Z) : outcome (Z * list Z) :=
  namelen ← int_of m 0;
  _ ← bytes_of m 4 namelen;
  _ ← fits namelen name_room;
  let o := (4 + Z.to_nat namelen)%nat in
  buf_len ← int_of m o;
  '(rc, data) ← (if 0 <=? buf_len then _ ← bytes_of m (o + 4) buf_len; d ← to_user iov_room buf_len m (o + 4)%nat; Done (buf_len, d)
                 else Done (-1, []));
  let o := (o + 4 + length data)%nat in
  controllen ← int_of m o;
  _ ← bytes_of m (o + 4) controllen;
  _ ← fits controllen control_room;
  Done (if Z.of_nat (o + 4 + Z.to_nat controllen) =? total then rc else -1, data).

Definition recvmsg_reply (name_room control_room : option Z) (iov_room : Z) (e : env) (c : wedge_call) : outcome (Z * list Z) :=
  if ret c =? ACK then
    if 0 <=? len c then recvmsg_parts name_room control_room iov_room (memory e) (len c) else Done (-1, [])
  else if ret c =? NACK then Done (if msg c =? 0 then -1 else i32 (- msg c), [])
  else Done (-1, []).

Definition wifu_recvmsg (name : list Z) (control_room : option Z) (n iov_room flags : Z) : handler :=
  {| kind_of := Ordinary; null_checked := true; type_of := WIFU_RECVFROM; refused := -1; table_full := - ENOMEM; unanswered := -1;
     prepare := fun h _ e =>
       b ← recvfrom_body name n flags;
       struct_send e {| message_type := WIFU_RECVFROM; message_length := sizeof_SendToMessage; message_fd := fd_of h; message_body := b |};
     result_of := recvmsg_reply (match name with [] => None | _ => Some (Z.of_nat (length name)) end) control_room iov_room |}.

(** *** ioctl *)

Definition SIOCGIFCONF : Z := 35090 (* 0x8912 *).
Definition FIONREAD : Z := 21531 (* 0x541B *).
Definition SIOCGSTAMP : Z := 35078 (* 0x8906 *).
(** SIOCGIFADDR, SIOCGIFDSTADDR, SIOCGIFBRDADDR, SIOCGIFNETMASK. *)
Definition address_commands : list Z := [35093; 35095; 35097; 35099].
(** TIOCOUTQ, SIOCADDRT, SIOCDELRT, SIOCSIFADDR, SIOCSIFDSTADDR, SIOCSIFBRDADDR, SIOCSIFNETMASK. *)
Definition plain_commands : list Z := [21521; 35083; 35084; 35094; 35096; 35098; 35100].

Definition is_command (cmd : Z) (l : list Z) : bool := existsb (Z.eqb cmd) l.

(** The fields of [struct ifconf] and [struct ifreq] that the call reads. *)
Record ioctl_arg := { ifc_len : Z; ifc_buf_null : bool; ifr_name : list Z }.

Definition ioctl_prepare (cmd : Z) (a : ioctl_arg) (h : nl_wedge_to_daemon) (e : env) : outcome prepared :=
  if cmd =? SIOCGIFCONF then
    if copied e then raw_send e (- ENOMEM) h (le_bytes 4 cmd ++ le_bytes 4 (if ifc_buf_null a then 0 else ifc_len a)) else Done (Bail (-1))
  else if is_command cmd address_commands then
    if copied e then raw_send e (- ENOMEM) h (le_bytes 4 cmd ++ le_bytes 4 16 ++ take 16 (ifr_name a ++ replicate 16 0)) else Done (Bail (-1))
  else if (cmd =? FIONREAD) || (cmd =? SIOCGSTAMP) || is_command cmd plain_commands then raw_send e (- ENOMEM) h (le_bytes 4 cmd)
  else Done (GiveUp (-1)).

(** An answer that begins with the length of the rest. *)
Definition counted_reply (e : env) (c : wedge_call) (with_count : bool) : outcome (Z * list Z) :=
  if 4 <=? len c then
    n ← int_of (memory e) 0; v ← bytes_of (memory e) 4 n;
    Done (if copied e && (4 + n =? len c) then 0 else -1, (if with_count then le_bytes 4 n else []) ++ v)
  else Done (-1, []).

(** An answer of a fixed size. *)
Definition fixed_reply (e : env) (c : wedge_call) (n : Z) : outcome (Z * list Z) :=
  if len c =? n then v ← bytes_of (memory e) 0 n; Done (if copied e then 0 else -1, v) else Done (-1, []).

Definition ioctl_reply (cmd : Z) (e : env) (c : wedge_call) : outcome (Z * list Z) :=
  if ret c =? ACK then
    if cmd =? SIOCGIFCONF then counted_reply e c true
    else if is_command cmd address_commands then fixed_reply e c 16
    else if cmd =? FIONREAD then fixed_reply e c 4
    else if cmd =? SIOCGSTAMP then counted_reply e c false
    else if is_command cmd plain_commands then Done (if len c =? 0 then 0 else -1, [])
    else Done (-1, [])
  else if ret c =? NACK then Done (i32 (- msg c), [])
  else Done (-1, []).

(** The only call that does not test for a missing [sk]. *)
Definition wifu_ioctl (cmd : Z) (a : ioctl_arg) : handler :=
  {| kind_of := Ordinary; null_checked := false; type_of := ioctl_call; refused := -1; table_full := - ENOMEM; unanswered := -1;
     prepare := fun h _ e => ioctl_prepare cmd a h e;
     result_of := ioctl_reply cmd |}.

Definition wifu_release : handler :=
  {| kind_of := Releasing; null_checked := true; type_of := WIFU_CLOSE; refused := 0; table_full := - ENOMEM; unanswered := -1;
     prepare := fun h _ e =>
       struct_send e {| message_type := WIFU_CLOSE; message_length := sizeof_CloseMessage; message_fd := fd_of h; message_body := CloseBody |};
     result_of := confirm |}.

Definition poll_reply (_ : env) (c : wedge_call) : outcome (Z * list Z) :=
  Done (if (ret c =? ACK) && (len c =? 0) then i32 (msg c) else 0, []).

(** A poll without a table asks for no events. *)
Definition wifu_poll (key : option Z) : handler :=
  {| kind_of := Ordinary; null_checked := true; type_of := poll_call; refused := 0; table_full := 0; unanswered := 0;
     prepare := fun h _ e => raw_send e 0 h (le_bytes 4 (default 0 key));
     result_of := poll_reply |}.

Definition wifu_shutdown (how : Z) : handler :=
  {| kind_of := Ordinary; null_checked := true; type_of := shutdown_call; refused := -1; table_full := - ENOMEM; unanswered := -1;
     prepare := fun h _ e => raw_send e (- ENOMEM) h (le_bytes 4 how);
     result_of := confirm |}.

Definition wifu_mmap : handler :=
  {| kind_of := Ordinary; null_checked := true; type_of := mmap_call; refused := -1; table_full := - ENOMEM; unanswered := -1;
     prepare := fun h _ e => raw_send e (- ENOMEM) h [];
     result_of := confirm |}.

Definition wifu_sendpage : handler :=
  {| kind_of := Ordinary; null_checked := true; type_of := sendpage_call; refused := -1; table_full := - ENOMEM; unanswered := -1;
     prepare := fun h _ e => raw_send e (- ENOMEM) h [];
     result_of := confirm |}.

(** It answers before it looks at anything. *)
Definition wifu_socketpair : Z := -1.

Definition getsockopt_reply (e : env) (c : wedge_call) : outcome (Z * list Z) :=
  if ret c =? ACK then
    if 4 <=? len c then
      n ← int_of (memory e) 0;
      v ← (if 0 <? n then bytes_of (memory e) 4 n else Done []);
      Done (if copied e && (4 + Z.max 0 n =? len c) then 0 else -1, le_bytes 4 n ++ v)
    else Done (-1, [])
  else if ret c =? NACK then Done (i32 (- msg c), [])
  else Done (-1, []).

(** When the length cannot be read, the slot stays taken and the call returns 0. *)
Definition wifu_getsockopt (level optname : Z) (optlen : option Z) (optval : list Z) : handler :=
  {| kind_of := Ordinary; null_checked := true; type_of := WIFU_GETSOCKOPT; refused := -1; table_full := - ENOMEM; unanswered := -1;
     prepare := fun h _ e =>
       match optlen with
       | None => Done (Leak 0)
       | Some n =>
           p ← raw_send e (- ENOMEM) h (le_bytes 4 level ++ le_bytes 4 optname ++ le_bytes 4 n ++ take (Z.to_nat n) optval);
           match p with
           | Send _ _ => Done (if (n <=? 0) || copied e then p else GiveUp (-1))
           | _ => Done p
           end
       end;
     result_of := getsockopt_reply |}.

(** [optval] is read without a check, after the struct; [optlen] is unsigned, the field an int. *)
Definition wifu_setsockopt (level optname : Z) (optval : list Z) : handler :=
  {| kind_of := Ordinary; null_checked := true; type_of := WIFU_SETSOCKOPT; refused := -1; table_full := - ENOMEM; unanswered := -1;
     prepare := fun h _ e =>
       match optval with
       | [] => struct_send e {| message_type := WIFU_SETSOCKOPT; message_length := sizeof_SetSockOptMessage; message_fd := fd_of h;
                                message_body := SockOptBody level optname 0 [] |}
       | _ => Fault OutOfBounds
       end;
     result_of := confirm |}.
