(* ===== verification/Wedge.v ===== *)
(** * The kernel module as a whole (wedge/wifu_wedge.c)

    Any number of threads are in socket calls while the daemon answers. A step is what a thread
    does between two operations that can wait: taking the lock of a [struct sock], taking the
    semaphore of the socket table, waiting for its answer. The sections under the two table
    semaphores do not wait inside, except the loop of [wedge_sockets_remove], which gives the
    semaphore back and takes it again and so has steps of its own.

    Taking a lock and then a table's semaphore is one step: a thread that holds the lock while it
    waits for the semaphore only makes others wait longer. A signal can end a wait. Where a thread
    waits for its answer the module takes it for one; at a table's semaphore it reports the failure
    and goes on without the semaphore, so that two threads are in the table at once: there the run
    ends with the fault [DataRace]. *)
From stdpp Require Import gmap.
From S2P Require Import Prelude.
From S2P Require Import HeaderMem.
From S2P Require Import PacketLog.
From S2P Require Import WedgeTables.
From S2P Require Import WedgeCalls.

(** ** State *)

(** Where a thread is in a call: at the lock and the socket table; at the table of calls; at
    sending; waiting for the answer; woken; at [end]; in [wedge_sockets_remove] at a type; asleep
    there. *)
Inductive place :=
| Locking
| Inserting (i : Z)
| Sending (i ci : Z)
| Waiting (i ci : Z)
| Finishing (i ci : Z)
| Leaving (i rc : Z) (out : list Z)
| Removing (i j rc : Z)
| Napping (i j rc : Z).

(** A thread in a call, on a socket and its [sk]; [t_new] is the [sk_new] of an accept. [since] is
    the number of events when its call entered the table; the program has no such field. *)
Record thread := { t_handler : handler; t_sock : nat; t_sk : Z; t_new : option Z; since : nat; t_place : place }.

Definition at_place (p : place) (th : thread) : thread :=
  {| t_handler := t_handler th; t_sock := t_sock th; t_sk := t_sk th; t_new := t_new th; since := since th; t_place := p |}.

Inductive event :=
| Sent (t : nat) (m : outgoing)
| Answered (m : list Z)
| Woken (t : nat) (th : thread) (c : wedge_call)
| Returned (t : nat) (rc : Z) (out : list Z).

(** Where the handling of [daemon_stop_call] is: taking the socket table's semaphore, at a socket
    and a type, at a call. *)
Inductive stop_place :=
| StopTaking (i j : Z)
| StopAt (i j : Z)
| StopCalls (i : Z).

(** A [struct socket] has an identifier, its [sk] may be missing. [live] are the allocated
    buffers, [sk_live] the allocated [struct sock]s, [locks] those that are locked. *)
Record wedge := {
  wedge_sockets : list wedge_socket;
  wedge_sockets_sem : Z;
  wedge_calls : list wedge_call;
  wedge_calls_sem : Z;
  call_count : Z;
  wifu_daemon_pid : Z;
  link_sem : Z;
  live : gset nat;
  next_ptr : nat;
  socks : gmap nat (option Z);
  sk_live : gset Z;
  locks : gset Z;
  calls : gmap nat thread;
  stopping : option stop_place;
  events : list event }.

Definition with_sockets (x : list wedge_socket) (w : wedge) : wedge :=
  {| wedge_sockets := x; wedge_sockets_sem := wedge_sockets_sem w; wedge_calls := wedge_calls w; wedge_calls_sem :=
     wedge_calls_sem w; call_count := call_count w; wifu_daemon_pid := wifu_daemon_pid w; link_sem := link_sem w; live
     := live w; next_ptr := next_ptr w; socks := socks w; sk_live := sk_live w; locks := locks w; calls := calls w;
     stopping := stopping w; events := events w |}.
Definition with_sockets_sem (x : Z) (w : wedge) : wedge :=
  {| wedge_sockets := wedge_sockets w; wedge_sockets_sem := x; wedge_calls := wedge_calls w; wedge_calls_sem :=
     wedge_calls_sem w; call_count := call_count w; wifu_daemon_pid := wifu_daemon_pid w; link_sem := link_sem w; live
     := live w; next_ptr := next_ptr w; socks := socks w; sk_live := sk_live w; locks := locks w; calls := calls w;
     stopping := stopping w; events := events w |}.
Definition with_wedge_calls (x : list wedge_call) (w : wedge) : wedge :=
  {| wedge_sockets := wedge_sockets w; wedge_sockets_sem := wedge_sockets_sem w; wedge_calls := x; wedge_calls_sem :=
     wedge_calls_sem w; call_count := call_count w; wifu_daemon_pid := wifu_daemon_pid w; link_sem := link_sem w; live
     := live w; next_ptr := next_ptr w; socks := socks w; sk_live := sk_live w; locks := locks w; calls := calls w;
     stopping := stopping w; events := events w |}.
Definition with_calls_sem (x : Z) (w : wedge) : wedge :=
  {| wedge_sockets := wedge_sockets w; wedge_sockets_sem := wedge_sockets_sem w; wedge_calls := wedge_calls w;
     wedge_calls_sem := x; call_count := call_count w; wifu_daemon_pid := wifu_daemon_pid w; link_sem := link_sem w;
     live := live w; next_ptr := next_ptr w; socks := socks w; sk_live := sk_live w; locks := locks w; calls := calls w;
     stopping := stopping w; events := events w |}.
Definition with_call_count (x : Z) (w : wedge) : wedge :=
  {| wedge_sockets := wedge_sockets w; wedge_sockets_sem := wedge_sockets_sem w; wedge_calls := wedge_calls w;
     wedge_calls_sem := wedge_calls_sem w; call_count := x; wifu_daemon_pid := wifu_daemon_pid w; link_sem := link_sem
     w; live := live w; next_ptr := next_ptr w; socks := socks w; sk_live := sk_live w; locks := locks w; calls := calls
     w; stopping := stopping w; events := events w |}.
Definition with_daemon_pid (x : Z) (w : wedge) : wedge :=
  {| wedge_sockets := wedge_sockets w; wedge_sockets_sem := wedge_sockets_sem w; wedge_calls := wedge_calls w;
     wedge_calls_sem := wedge_calls_sem w; call_count := call_count w; wifu_daemon_pid := x; link_sem := link_sem w;
     live := live w; next_ptr := next_ptr w; socks := socks w; sk_live := sk_live w; locks := locks w; calls := calls w;
     stopping := stopping w; events := events w |}.
Definition with_link_sem (x : Z) (w : wedge) : wedge :=
  {| wedge_sockets := wedge_sockets w; wedge_sockets_sem := wedge_sockets_sem w; wedge_calls := wedge_calls w;
     wedge_calls_sem := wedge_calls_sem w; call_count := call_count w; wifu_daemon_pid := wifu_daemon_pid w; link_sem :=
     x; live := live w; next_ptr := next_ptr w; socks := socks w; sk_live := sk_live w; locks := locks w; calls := calls
     w; stopping := stopping w; events := events w |}.
Definition with_socks (x : gmap nat (option Z)) (w : wedge) : wedge :=
  {| wedge_sockets := wedge_sockets w; wedge_sockets_sem := wedge_sockets_sem w; wedge_calls := wedge_calls w;
     wedge_calls_sem := wedge_calls_sem w; call_count := call_count w; wifu_daemon_pid := wifu_daemon_pid w; link_sem :=
     link_sem w; live := live w; next_ptr := next_ptr w; socks := x; sk_live := sk_live w; locks := locks w; calls :=
     calls w; stopping := stopping w; events := events w |}.
Definition with_sk_live (x : gset Z) (w : wedge) : wedge :=
  {| wedge_sockets := wedge_sockets w; wedge_sockets_sem := wedge_sockets_sem w; wedge_calls := wedge_calls w;
     wedge_calls_sem := wedge_calls_sem w; call_count := call_count w; wifu_daemon_pid := wifu_daemon_pid w; link_sem :=
     link_sem w; live := live w; next_ptr := next_ptr w; socks := socks w; sk_live := x; locks := locks w; calls :=
     calls w; stopping := stopping w; events := events w |}.
Definition with_locks (x : gset Z) (w : wedge) : wedge :=
  {| wedge_sockets := wedge_sockets w; wedge_sockets_sem := wedge_sockets_sem w; wedge_calls := wedge_calls w;
     wedge_calls_sem := wedge_calls_sem w; call_count := call_count w; wifu_daemon_pid := wifu_daemon_pid w; link_sem :=
     link_sem w; live := live w; next_ptr := next_ptr w; socks := socks w; sk_live := sk_live w; locks := x; calls :=
     calls w; stopping := stopping w; events := events w |}.
Definition with_calls (x : gmap nat thread) (w : wedge) : wedge :=
  {| wedge_sockets := wedge_sockets w; wedge_sockets_sem := wedge_sockets_sem w; wedge_calls := wedge_calls w;
     wedge_calls_sem := wedge_calls_sem w; call_count := call_count w; wifu_daemon_pid := wifu_daemon_pid w; link_sem :=
     link_sem w; live := live w; next_ptr := next_ptr w; socks := socks w; sk_live := sk_live w; locks := locks w; calls
     := x; stopping := stopping w; events := events w |}.
Definition with_stopping (x : option stop_place) (w : wedge) : wedge :=
  {| wedge_sockets := wedge_sockets w; wedge_sockets_sem := wedge_sockets_sem w; wedge_calls := wedge_calls w;
     wedge_calls_sem := wedge_calls_sem w; call_count := call_count w; wifu_daemon_pid := wifu_daemon_pid w; link_sem :=
     link_sem w; live := live w; next_ptr := next_ptr w; socks := socks w; sk_live := sk_live w; locks := locks w; calls
     := calls w; stopping := x; events := events w |}.
Definition with_events (x : list event) (w : wedge) : wedge :=
  {| wedge_sockets := wedge_sockets w; wedge_sockets_sem := wedge_sockets_sem w; wedge_calls := wedge_calls w;
     wedge_calls_sem := wedge_calls_sem w; call_count := call_count w; wifu_daemon_pid := wifu_daemon_pid w; link_sem :=
     link_sem w; live := live w; next_ptr := next_ptr w; socks := socks w; sk_live := sk_live w; locks := locks w; calls
     := calls w; stopping := stopping w; events := x |}.
Definition with_heap (l : gset nat) (n : nat) (w : wedge) : wedge :=
  {| wedge_sockets := wedge_sockets w; wedge_sockets_sem := wedge_sockets_sem w; wedge_calls := wedge_calls w;
     wedge_calls_sem := wedge_calls_sem w; call_count := call_count w; wifu_daemon_pid := wifu_daemon_pid w; link_sem :=
     link_sem w; live := l; next_ptr := n; socks := socks w; sk_live := sk_live w; locks := locks w; calls := calls w;
     stopping := stopping w; events := events w |}.

Definition set_thread (t : nat) (th : thread) (w : wedge) : wedge := with_calls (<[t := th]> (calls w)) w.
Definition lock_sock (k : Z) (w : wedge) : wedge := with_locks ({[k]} ∪ locks w) w.
Definition release_sock (k : Z) (w : wedge) : wedge := with_locks (locks w ∖ {[k]}) w.
Definition log_event (e : event) (w : wedge) : wedge := with_events (events w ++ [e]) w.

(** The thread leaves the call. *)
Definition return_ (t : nat) (rc : Z) (out : list Z) (w : wedge) : wedge :=
  log_event (Returned t rc out) (with_calls (delete t (calls w)) w).

(** The module's initial state. *)
Definition wifu_wedge_init (sockets : list wedge_socket) (slots : list wedge_call) : wedge :=
  {| wedge_sockets := wedge_sockets_init sockets; wedge_sockets_sem := 1; wedge_calls := wedge_calls_init slots;
     wedge_calls_sem := 1; call_count := 0;
     wifu_daemon_pid := -1; link_sem := 1; live := ∅; next_ptr := 0; socks := ∅; sk_live := ∅; locks := ∅; calls := ∅;
     stopping := None; events := [] |}.

(** ** Memory *)

Definition kmalloc (w : wedge) : nat * wedge := (next_ptr w, with_heap ({[next_ptr w]} ∪ live w) (S (next_ptr w)) w).

(** Freeing a null pointer does nothing. *)
Definition kfree (p : option nat) (w : wedge) : outcome wedge :=
  match p with
  | None => Done w
  | Some a => if bool_decide (a ∈ live w) then Done (with_heap (live w ∖ {[a]}) (next_ptr w) w) else Fault InvalidFree
  end.

(** [nl_send] gives back [link_sem], which nothing takes, and on success the message's memory. *)
Definition nl_send (t : nat) (m : outgoing) (a : nat) (e : env) (w : wedge) : outcome (bool * wedge) :=
  let w := with_link_sem (link_sem w + 1) w in
  if unicast_ok e
  then w ← kfree (Some a) w; Done (true, log_event (Sent t m) w)
  else Done (false, w).

(** [wifu_sk_create]: an address the allocator has free. *)
Definition wifu_sk_create (sock : nat) (k : Z) (w : wedge) : wedge :=
  with_sk_live ({[k]} ∪ sk_live w) (with_socks (<[sock := Some k]> (socks w)) w).

(** [wifu_sk_destroy]: with the last reference the [struct sock] and its lock are gone. *)
Definition wifu_sk_destroy (sock : nat) (w : wedge) : outcome wedge :=
  match socks w !! sock with
  | Some (Some k) => Done (release_sock k (with_sk_live (sk_live w ∖ {[k]}) (with_socks (<[sock := None]> (socks w)) w)))
  | _ => Fault NullDereference
  end.

(** ** The steps of a call

    [None] when the thread has to wait. *)

(** [down_interruptible] on a table's semaphore, before the section [k] under it. When a signal
    makes it fail, only a message is printed and the section runs without the semaphore. *)
Definition with_down (sem : Z) (e : env) (k : outcome (option wedge)) : outcome (option wedge) :=
  if interrupted e then Fault DataRace else if sem <=? 0 then Done None else k.

(** The start of every call, before the lock. A socket that is being created has no [sk] yet. *)
Definition start (t : nat) (h : handler) (sock : nat) (e : env) (w : wedge) : outcome (option wedge) :=
  if wifu_daemon_pid w =? -1 then Done (Some (return_ t (refused h) [] w))
  else
    match kind_of h, socks w !! sock with
    | Creating, _ =>
        match new_sk e with
        | None => Done (Some (return_ t (- ENOMEM) [] w))
        | Some k =>
            if bool_decide (k ∈ sk_live w) then Done None
            else Done (Some (set_thread t {| t_handler := h; t_sock := sock; t_sk := k; t_new := None; since := 0; t_place := Locking |}
                               (wifu_sk_create sock k w)))
        end
    | _, Some (Some k) =>
        Done (Some (set_thread t {| t_handler := h; t_sock := sock; t_sk := k; t_new := None; since := 0; t_place := Locking |} w))
    | _, _ => if null_checked h then Done (Some (return_ t (refused h) [] w)) else Fault NullDereference
    end.

(** The counter of the call's type goes up, and the thread goes on to the table of calls. *)
Definition enter_call (t : nat) (th : thread) (i : Z) (w : wedge) : outcome (option wedge) :=
  '(_, l) ← add_thread i (type_of (t_handler th)) 1 (wedge_sockets w);
  Done (Some (set_thread t (at_place (Inserting i) th) (with_sockets l w))).

(** An accept needs a second [struct sock], which an earlier accept may have left; creating it
    leaves the new [struct socket] without one. *)
Definition accept_new (t : nat) (th : thread) (sock_new : nat) (i : Z) (e : env) (w : wedge) : outcome (option wedge) :=
  s ← at_index (wedge_sockets w) i;
  let with_new k := {| t_handler := t_handler th; t_sock := t_sock th; t_sk := t_sk th; t_new := Some k; since := since th; t_place := t_place th |} in
  match sk_new s with
  | None =>
      match new_sk e with
      | None => Done (Some (return_ t (- ENOMEM) [] (release_sock (t_sk th) w)))
      | Some k =>
          if bool_decide (k ∈ sk_live w) then Done None
          else
            let w := with_socks (<[sock_new := None]> (socks w)) (lock_sock k (wifu_sk_create sock_new k w)) in
            let '(i_new, l) := wedge_sockets_insert (get_unique_sock_id k) k (wedge_sockets w) in
            if i_new =? -1 then w ← wifu_sk_destroy sock_new w; Done (Some w)
            else
              s ← at_index l i;
              enter_call t (with_new k) i (with_sockets (set_index i (with_sk_new (Some k) s) l) w)
      end
  | Some k => if bool_decide (k ∈ locks w) then Done None else enter_call t (with_new k) i (lock_sock k w)
  end.

(** [lock_sock], and the section of the socket table that begins the call. *)
Definition locking (t : nat) (th : thread) (e : env) (w : wedge) : outcome (option wedge) :=
  if bool_decide (t_sk th ∈ locks w) then Done None
  else with_down (wedge_sockets_sem w) e (
    let w := lock_sock (t_sk th) w in
    let id := get_unique_sock_id (t_sk th) in
    match kind_of (t_handler th) with
    | Creating =>
        let '(i, l) := wedge_sockets_insert id (t_sk th) (wedge_sockets w) in
        if i =? -1 then w ← wifu_sk_destroy (t_sock th) w; Done (Some (return_ t (- ENOMEM) [] w))
        else enter_call t th i (with_sockets l w)
    | k =>
        let i := wedge_sockets_find id (wedge_sockets w) in
        match k with
        | Releasing =>
            if i =? -1 then w ← wifu_sk_destroy (t_sock th) w; Done (Some (return_ t 0 [] w))
            else
              s ← at_index (wedge_sockets w) i;
              if release_flag s then Done (Some (return_ t 0 [] w))
              else enter_call t th i (with_sockets (set_index i (with_release_flag true s) (wedge_sockets w)) w)
        | _ =>
            if i =? -1 then Done (Some (return_ t (refused (t_handler th)) [] (release_sock (t_sk th) w)))
            else match k with Accepting sock_new => accept_new t th sock_new i e w | _ => enter_call t th i w end
        end
    end).

(** To [end]: the socket is removed after a failed create and a release. *)
Definition to_end (t : nat) (th : thread) (i rc : Z) (out : list Z) (w : wedge) : wedge :=
  set_thread t (at_place (match kind_of (t_handler th) with
                          | Creating => if rc =? 0 then Leaving i rc out else Napping i 0 rc
                          | Releasing => Napping i 0 rc
                          | _ => Leaving i rc out
                          end) th) w.

(** The section of the table of calls. *)
Definition inserting (t : nat) (th : thread) (i : Z) (e : env) (w : wedge) : outcome (option wedge) :=
  let h := t_handler th in
  with_down (wedge_calls_sem w) e (
  let '(ci, l) := wedge_calls_insert (call_count w) (get_unique_sock_id (t_sk th)) i (type_of h) (wedge_calls w) in
  let w := with_call_count (u32 (call_count w + 1)) (with_wedge_calls l w) in
  if ci =? -1 then Done (Some (to_end t th i (table_full h) [] w))
  else Done (Some (set_thread t {| t_handler := h; t_sock := t_sock th; t_sk := t_sk th; t_new := t_new th; since := length (events w);
                                   t_place := Sending i ci |} w))).

Definition free_slot (ci : Z) (w : wedge) : outcome wedge :=
  c ← at_index (wedge_calls w) ci; Done (with_wedge_calls (set_index ci (with_call_id free_call c) (wedge_calls w)) w).

Definition header_of (th : thread) (i ci : Z) (c : wedge_call) : nl_wedge_to_daemon :=
  {| hdr_sock_id := get_unique_sock_id (t_sk th); hdr_sock_index := i; hdr_call_type := type_of (t_handler th);
     hdr_call_id := call_id c; hdr_call_index := ci |}.

(** [release_sock] before the wait; a create keeps its lock. *)
Definition release_locks (th : thread) (w : wedge) : wedge :=
  match kind_of (t_handler th) with
  | Creating => w
  | _ => release_sock (t_sk th) (match t_new th with Some k => release_sock k w | None => w end)
  end.

(** The message is built and sent, [buf] is freed: in the older calls the message itself, in the
    others a pointer that was never set. *)
Definition sending (t : nat) (th : thread) (i ci : Z) (e : env) (w : wedge) : outcome (option wedge) :=
  c ← at_index (wedge_calls w) ci;
  p ← prepare (t_handler th) (header_of th i ci c) (t_new th) e;
  match p with
  | Send in_buf m =>
      let '(a, w) := kmalloc w in
      '(sent, w) ← nl_send t m a e w;
      w ← kfree (if in_buf then Some a else stack_buf e) w;
      if sent : bool then Done (Some (set_thread t (at_place (Waiting i ci) th) (release_locks th w)))
      else w ← free_slot ci w; Done (Some (to_end t th i (unanswered (t_handler th)) [] w))
  | GiveUp rc => w ← free_slot ci w; Done (Some (to_end t th i rc [] w))
  | Leak rc => Done (Some (to_end t th i rc [] w))
  | Bail rc => Done (Some (return_ t rc [] (release_sock (t_sk th) w)))
  end.

(** [down_interruptible(&wedge_calls[ci].wait_sem)]: a signal is not told from an answer. *)
Definition waiting (t : nat) (th : thread) (i ci : Z) (e : env) (w : wedge) : outcome (option wedge) :=
  c ← at_index (wedge_calls w) ci;
  if 0 <? wait_sem c then
    Done (Some (set_thread t (at_place (Finishing i ci) th) (with_wedge_calls (set_index ci (with_wait_sem (wait_sem c - 1) c) (wedge_calls w)) w)))
  else if interrupted e then Done (Some (set_thread t (at_place (Finishing i ci) th) w))
  else Done None.

Definition locks_needed (th : thread) : gset Z :=
  match kind_of (t_handler th) with
  | Creating => ∅
  | _ => {[t_sk th]} ∪ match t_new th with Some k => {[k]} | None => ∅ end
  end.

(** An accept that succeeds gives the new [struct sock] to the new [struct socket]. *)
Definition accept_done (th : thread) (i rc : Z) (w : wedge) : outcome wedge :=
  match kind_of (t_handler th) with
  | Accepting sock_new =>
      if rc =? 0 then
        s ← at_index (wedge_sockets w) i;
        Done (with_sockets (set_index i (with_sk_new None s) (wedge_sockets w)) (with_socks (<[sock_new := t_new th]> (socks w)) w))
      else Done w
  | _ => Done w
  end.

(** After the wait: [lock_sock] again, the answer is read and the slot freed. *)
Definition finishing (t : nat) (th : thread) (i ci : Z) (e : env) (w : wedge) : outcome (option wedge) :=
  if bool_decide (locks_needed th ## locks w) then
    let read :=
      let w := with_locks (locks_needed th ∪ locks w) w in
      c ← at_index (wedge_calls w) ci;
      '(rc, out) ← (if reply c then result_of (t_handler th) e c else Done (unanswered (t_handler th), []));
      w ← (if reply c then accept_done th i rc w else Done w);
      w ← free_slot ci w;
      Done (Some (to_end t th i rc out (log_event (Woken t th c) w))) in
    match kind_of (t_handler th) with Accepting _ => with_down (wedge_sockets_sem w) e read | _ => read end
  else Done None.

(** [end]: the counter goes down, the locks are released. *)
Definition leaving (t : nat) (th : thread) (i rc : Z) (out : list Z) (e : env) (w : wedge) : outcome (option wedge) :=
  with_down (wedge_sockets_sem w) e (
    '(_, l) ← add_thread i (type_of (t_handler th)) (-1) (wedge_sockets w);
    let w := release_sock (t_sk th) (match t_new th with Some k => release_sock k w | None => w end) in
    Done (Some (return_ t rc out (with_sockets l w)))).

(** [wedge_sockets_remove]: for each type the threads that wait are woken one by one, with a nap
    between; when no call is found the loop goes on without the semaphore, which the caller
    gives back all the same. *)
Definition removing (t : nat) (th : thread) (i j rc : Z) (e : env) (w : wedge) : outcome (option wedge) :=
  if j =? Z.of_nat MAX_CALL_TYPES then
    s ← at_index (wedge_sockets w) i;
    let w := with_sockets_sem (wedge_sockets_sem w + 1) (with_sockets (set_index i (with_sock_id free_socket s) (wedge_sockets w)) w) in
    w ← wifu_sk_destroy (t_sock th) w;
    Done (Some (return_ t (match kind_of (t_handler th) with Releasing => 0 | _ => rc end) [] w))
  else
    s ← at_index (wedge_sockets w) i; n ← at_index (threads s) j;
    if (n <? 1) || ((j =? type_of (t_handler th)) && (n <? 2)) then Done (Some (set_thread t (at_place (Removing i (j + 1) rc) th) w))
    else with_down (wedge_calls_sem w) e (
      let w := with_sockets_sem (wedge_sockets_sem w + 1) w in
      let ci := wedge_calls_find (get_unique_sock_id (t_sk th)) j (wedge_calls w) in
      if ci =? -1 then Done (Some (set_thread t (at_place (Removing i (j + 1) rc) th) w))
      else
        l ← up_wait_sem ci (wedge_calls w);
        Done (Some (set_thread t (at_place (Napping i j rc) th) (with_wedge_calls l w)))).

(** Taking the semaphore of the socket table, at the start of the removal and after a nap. *)
Definition take_sem (t : nat) (th : thread) (i j rc : Z) (e : env) (w : wedge) : outcome (option wedge) :=
  with_down (wedge_sockets_sem w) e
    (Done (Some (set_thread t (at_place (Removing i j rc) th) (with_sockets_sem (wedge_sockets_sem w - 1) w)))).

Definition go (t : nat) (e : env) (w : wedge) : outcome (option wedge) :=
  match calls w !! t with
  | None => Done None
  | Some th =>
      match t_place th with
      | Locking => locking t th e w
      | Inserting i => inserting t th i e w
      | Sending i ci => sending t th i ci e w
      | Waiting i ci => waiting t th i ci e w
      | Finishing i ci => finishing t th i ci e w
      | Leaving i rc out => leaving t th i rc out e w
      | Removing i j rc => removing t th i j rc e w
      | Napping i j rc => take_sem t th i j rc e w
      end
  end.

(** ** The daemon *)

(** [wedge_socket_remove_all], as [wedge_sockets_remove] for every socket, and then
    [wedge_calls_remove_all], which wakes all calls and naps after each with the semaphore of the
    calls in its hands. *)
Definition stop_step (e : env) (w : wedge) : outcome (option wedge) :=
  match stopping w with
  | None => Done None
  | Some (StopTaking i j) =>
      with_down (wedge_sockets_sem w) e
        (Done (Some (with_stopping (Some (StopAt i j)) (with_sockets_sem (wedge_sockets_sem w - 1) w))))
  | Some (StopAt i j) =>
      if i =? Z.of_nat MAX_SOCKETS then
        with_down (wedge_calls_sem w) e
          (Done (Some (with_stopping (Some (StopCalls 0))
                         (with_calls_sem (wedge_calls_sem w - 1) (with_sockets_sem (wedge_sockets_sem w + 1) w)))))
      else
        s ← at_index (wedge_sockets w) i;
        if sock_id s =? free_socket then Done (Some (with_stopping (Some (StopAt (i + 1) 0)) w))
        else if j =? Z.of_nat MAX_CALL_TYPES then
          Done (Some (with_stopping (Some (StopAt (i + 1) 0)) (with_sockets (set_index i (with_sock_id free_socket s) (wedge_sockets w)) w)))
        else
          n ← at_index (threads s) j;
          if n <? 1 then Done (Some (with_stopping (Some (StopAt i (j + 1))) w))
          else with_down (wedge_calls_sem w) e (
            let w := with_sockets_sem (wedge_sockets_sem w + 1) w in
            let ci := wedge_calls_find (sock_id s) j (wedge_calls w) in
            if ci =? -1 then Done (Some (with_stopping (Some (StopAt i (j + 1))) w))
            else l ← up_wait_sem ci (wedge_calls w); Done (Some (with_stopping (Some (StopTaking i j)) (with_wedge_calls l w))))
  | Some (StopCalls i) =>
      if i =? Z.of_nat MAX_CALLS then Done (Some (with_stopping None (with_calls_sem (wedge_calls_sem w + 1) w)))
      else
        c ← at_index (wedge_calls w) i;
        if call_id c =? free_call then Done (Some (with_stopping (Some (StopCalls (i + 1))) w))
        else l ← up_wait_sem i (wedge_calls w); Done (Some (with_stopping (Some (StopCalls (i + 1))) (with_wedge_calls l w)))
  end.

(** A message over netlink from the process [pid]. *)
Definition nl_data_ready (pid : Z) (m : list Z) (e : env) (w : wedge) : outcome (option wedge) :=
  if Nat.eqb (length m) 4 then
    if int_at 0 m =? daemon_start_call then Done (Some (with_daemon_pid pid w))
    else if int_at 0 m =? daemon_stop_call then
      match stopping w with
      | Some _ => Done None
      | None => Done (Some (with_stopping (Some (StopTaking 0 0)) (with_daemon_pid (-1) w)))
      end
    else Done (Some w)
  else with_down (wedge_calls_sem w) e
         (l ← take_response m (wedge_calls w); Done (Some (log_event (Answered m) (with_wedge_calls l w)))).

(** [socket()]: only programs with "createsocket" in their command line get this module's sockets,
    except for raw ones. *)
Inductive family := Inet | WiFu.

Definition wifu_create_splitter (named_createsocket : bool) (type SOCK_RAW : Z) : family :=
  if negb named_createsocket then Inet else if type =? SOCK_RAW then Inet else WiFu.

(** ** Runs *)

Inductive action :=
| Start (t : nat) (h : handler) (sock : nat)
| Go (t : nat)
| Receive (pid : Z) (m : list Z)
| Stop.

(** A thread is in one call at a time. *)
Definition step (a : action) (e : env) (w : wedge) : outcome (option wedge) :=
  match a with
  | Start t h sock => match calls w !! t with Some _ => Done None | None => start t h sock e w end
  | Go t => go t e w
  | Receive pid m => nl_data_ready pid m e w
  | Stop => stop_step e w
  end.

(** [None] when a step of the run would have to wait. *)
Fixpoint run (acts : list (action * env)) (w : wedge) : outcome (option wedge) :=
  match acts with
  | [] => Done (Some w)
  | (a, e) :: acts =>
      w ← step a e w;
      match w with None => Done None | Some w => run acts w end
  end.

Lemma with_down_Done sem e k w : with_down sem e k = Done (Some w) → k = Done (Some w).
Proof. unfold with_down. destruct (interrupted e), (sem <=? 0); (discriminate || auto). Qed.

Lemma with_down_free sem e k : interrupted e = false → 0 < sem → with_down sem e k = k.
Proof. intros He Hs. unfold with_down. rewrite He, (proj2 (Z.leb_gt _ _)) by exact Hs. reflexivity. Qed.

(** ** Answers reach their calls *)

(** An answer that came since a thread's call entered the table, to its socket and type of call,
    and what it left in a slot. *)
Definition answers (th : thread) (c : wedge_call) (evs : list event) : Prop :=
  ∃ k m n, evs !! k = Some (Answered m) ∧ (since th <= k)%nat
    ∧ u32 (int_at 8 m) = u32 (t_sk th) ∧ int_at 0 m = type_of (t_handler th) ∧ sizeof_response (int_at 0 m) = Some n
    ∧ ret c = ACK ∧ msg c = int_at 12 m ∧ len c = i32 (Z.of_nat (length m) - n) ∧ buf c = drop (Z.to_nat n) m.

(** The slot a thread holds. *)
Definition holds (th : thread) : option Z :=
  match t_place th with Sending _ ci | Waiting _ ci | Finishing _ ci => Some ci | _ => None end.

Definition slot_of (l : list wedge_call) (evs : list event) (th : thread) (ci : Z) : Prop :=
  ∃ c, at_index l ci = Done c ∧ call_id c ≠ free_call ∧ call_sock_id c = u32 (t_sk th) ∧ call_type c = type_of (t_handler th)
       ∧ (reply c = true → answers th c evs).

Definition slots_ok (l : list wedge_call) (m : gmap nat thread) (evs : list event) : Prop :=
  (∀ t th ci, m !! t = Some th → holds th = Some ci → slot_of l evs th ci)
  ∧ ∀ t1 t2 th1 th2 ci, m !! t1 = Some th1 → m !! t2 = Some th2 → holds th1 = Some ci → holds th2 = Some ci → t1 = t2.

Definition woken_ok (evs : list event) : Prop := ∀ t th c, Woken t th c ∈ evs → reply c = true → answers th c evs.

Definition since_ok (m : gmap nat thread) (evs : list event) : Prop := ∀ t th, m !! t = Some th → (since th <= length evs)%nat.

Definition wedge_inv (n : Z) (w : wedge) : Prop :=
  slots_ok (wedge_calls w) (calls w) (events w) ∧ since_ok (calls w) (events w) ∧ woken_ok (events w) ∧ 0 <= call_count w <= n.

Lemma answers_later th c evs e : answers th c evs → answers th c (evs ++ e).
Proof. intros (k & m & n & Hk & H). exists k, m, n. split; [apply lookup_app_l_Some, Hk | exact H]. Qed.

Lemma answers_same th th' c c' evs :
  since th' = since th → t_sk th' = t_sk th → t_handler th' = t_handler th →
  ret c' = ret c → msg c' = msg c → len c' = len c → buf c' = buf c → answers th c evs → answers th' c' evs.
Proof. unfold answers. intros -> -> -> -> -> -> ->. auto. Qed.

Lemma at_index_set_same {A} (l : list A) i x y : at_index l i = Done x → at_index (set_index i y l) i = Done y.
Proof.
  intros [Hi Hx]%at_index_done. unfold at_index, set_index. rewrite (proj2 (Z.ltb_ge _ _)) by exact Hi.
  rewrite list_lookup_insert_eq by (eapply lookup_lt_Some, Hx). reflexivity.
Qed.

Lemma at_index_set_other {A} (l : list A) i j x y z :
  at_index l i = Done x → at_index l j = Done z → i ≠ j → at_index (set_index i y l) j = Done z.
Proof.
  intros [Hi Hx]%at_index_done [Hj Hz]%at_index_done Hne. unfold at_index, set_index. rewrite (proj2 (Z.ltb_ge _ _)) by exact Hj.
  rewrite list_lookup_insert_ne by lia. rewrite Hz. reflexivity.
Qed.

Section Slots.
Variables (l : list wedge_call) (m : gmap nat thread) (evs : list event).
Hypothesis H : slots_ok l m evs.

Lemma slots_later e : slots_ok l m (evs ++ e).
Proof.
  destruct H as [Hs Hi]. split; [| exact Hi]. intros t th ci Ht Hh. destruct (Hs t th ci Ht Hh) as (c & ? & ? & ? & ? & Hr).
  exists c. repeat (split; [assumption |]). intros Hc. apply answers_later, Hr, Hc.
Qed.

(** A thread that holds no slot comes or goes. *)
Lemma slots_set t th : holds th = None → slots_ok l (<[t := th]> m) evs.
Proof.
  intros Hn. destruct H as [Hs Hi]. split.
  - intros t' th' ci [[-> ->] | [_ Ht]]%lookup_insert_Some Hh; [congruence | exact (Hs t' th' ci Ht Hh)].
  - intros t1 t2 th1 th2 ci [[-> ->] | [_ H1]]%lookup_insert_Some [[-> ->] | [_ H2]]%lookup_insert_Some; try congruence. apply Hi; assumption.
Qed.

Lemma slots_delete t : slots_ok l (delete t m) evs.
Proof.
  destruct H as [Hs Hi]. split.
  - intros t' th' ci [_ Ht]%lookup_delete_Some. exact (Hs t' th' ci Ht).
  - intros t1 t2 th1 th2 ci [_ H1]%lookup_delete_Some [_ H2]%lookup_delete_Some. exact (Hi t1 t2 th1 th2 ci H1 H2).
Qed.

(** A thread goes on with its slot. *)
Lemma slots_keep t th p :
  m !! t = Some th → holds (at_place p th) = holds th → slots_ok l (<[t := at_place p th]> m) evs.
Proof.
  intros Ht Hh. destruct H as [Hs Hi]. split.
  - intros t' th' ci [[-> <-] | [_ Ht']]%lookup_insert_Some Hci; [| exact (Hs t' th' ci Ht' Hci)].
    rewrite Hh in Hci. destruct (Hs t' th ci Ht Hci) as (c & ? & ? & ? & ? & Hr). exists c. repeat (split; [assumption |]). exact Hr.
  - intros t1 t2 th1 th2 ci [[-> <-] | [_ H1]]%lookup_insert_Some [[-> <-] | [_ H2]]%lookup_insert_Some E1 E2; try reflexivity; rewrite ?Hh in *; eauto.
Qed.

Lemma slots_sem ci c n : at_index l ci = Done c → slots_ok (set_index ci (with_wait_sem n c) l) m evs.
Proof.
  intros Hc. destruct H as [Hs Hi]. split; [| exact Hi]. intros t th ci' Ht Hh. destruct (Hs t th ci' Ht Hh) as (c' & E & Hrest).
  destruct (decide (ci = ci')) as [<- | Hne].
  - rewrite Hc in E. injection E as <-. exists (with_wait_sem n c). split; [apply (at_index_set_same _ _ c), Hc | exact Hrest].
  - exists c'. split; [apply (at_index_set_other _ _ _ c); assumption | exact Hrest].
Qed.

(** A thread gives its slot back. *)
Lemma slots_free t th th' ci c :
  m !! t = Some th → holds th = Some ci → holds th' = None → at_index l ci = Done c →
  slots_ok (set_index ci (with_call_id free_call c) l) (<[t := th']> m) evs.
Proof.
  intros Ht Hh Hn Hc. destruct H as [Hs Hi]. split.
  - intros t1 th1 ci1 [[-> <-] | [Hne H1]]%lookup_insert_Some E1; [congruence |].
    destruct (Hs t1 th1 ci1 H1 E1) as (c1 & Ec & Hrest). exists c1. split; [| exact Hrest].
    apply (at_index_set_other _ _ _ c); [exact Hc | exact Ec |]. intros <-. apply Hne. exact (Hi t t1 th th1 ci Ht H1 Hh E1).
  - intros t1 t2 th1 th2 ci1 [[-> <-] | [_ H1]]%lookup_insert_Some [[-> <-] | [_ H2]]%lookup_insert_Some; try congruence. apply Hi; assumption.
Qed.

(** A call enters the table. *)
Lemma slots_insert t th i c n idx :
  l !! i = Some c → call_id c = free_call → u32 n ≠ free_call → holds th = Some (Z.of_nat i) →
  slots_ok (<[i := new_call n (t_sk th) idx (type_of (t_handler th)) c]> l) (<[t := th]> m) evs.
Proof.
  intros Hi Hc Hn Hh. pose proof (at_index_nat l i) as Ei. rewrite Hi in Ei. destruct H as [Hs Hinj].
  assert (∀ t1 th1 ci1, m !! t1 = Some th1 → holds th1 = Some ci1 → ci1 ≠ Z.of_nat i) as Hfree.
  { intros t1 th1 ci1 H1 E1 ->. destruct (Hs t1 th1 _ H1 E1) as (c1 & Ec & Hid & _). congruence. }
  rewrite <- (Nat2Z.id i) at 1. fold (set_index (Z.of_nat i) (new_call n (t_sk th) idx (type_of (t_handler th)) c) l). split.
  - intros t1 th1 ci1 [[-> <-] | [_ H1]]%lookup_insert_Some E1.
    + rewrite Hh in E1. injection E1 as <-. exists (new_call n (t_sk th) idx (type_of (t_handler th)) c).
      split; [apply (at_index_set_same _ _ c), Ei |]. repeat split; auto. discriminate.
    + destruct (Hs t1 th1 ci1 H1 E1) as (c1 & Ec & Hrest). exists c1. split; [| exact Hrest].
      apply (at_index_set_other _ _ _ c); [exact Ei | exact Ec |]. intros <-. exact (Hfree t1 th1 _ H1 E1 eq_refl).
  - intros t1 t2 th1 th2 ci1 [[-> <-] | [_ H1]]%lookup_insert_Some [[-> <-] | [_ H2]]%lookup_insert_Some E1 E2; try reflexivity.
    + exfalso. apply (Hfree t2 th2 ci1 H2 E2). congruence.
    + exfalso. apply (Hfree t1 th1 ci1 H1 E1). congruence.
    + eauto.
Qed.

(** An answer arrives. *)
Lemma slots_answer msg l' :
  since_ok m evs → take_response msg l = Done l' → slots_ok l' m (evs ++ [Answered msg]).
Proof.
  intros Hsince E. destruct (take_response_spec _ _ _ E) as [-> | (i & c & n & Hi & Hw & Hn & ->)]; [apply slots_later |].
  apply waits_for_spec in Hw as (_ & Hid & Hty). pose proof (at_index_nat l i) as Ei. rewrite Hi in Ei. pose proof slots_later as HL.
  destruct (HL [Answered msg]) as [Hs Hinj]. split; [| exact Hinj]. intros t th ci Ht Hh.
  destruct (Hs t th ci Ht Hh) as (c1 & Ec & Hrest).
  rewrite <- (Nat2Z.id i) at 1. fold (set_index (Z.of_nat i) (answered (int_at 12 msg) (i32 (Z.of_nat (length msg) - n)) (drop (Z.to_nat n) msg) c) l).
  destruct (decide (Z.of_nat i = ci)) as [<- | Hne].
  - rewrite Ei in Ec. injection Ec as <-. destruct Hrest as (Hf & Hsid & Htype & _).
    eexists. split; [apply (at_index_set_same _ _ c), Ei |]. repeat (split; [assumption |]). intros _.
    exists (length evs), msg, n. split; [apply list_lookup_middle; reflexivity |]. split; [exact (Hsince t th Ht) |].
    split; [congruence |]. split; [congruence |]. split; [exact Hn |]. repeat split.
  - exists c1. split; [apply (at_index_set_other _ _ _ c); assumption | exact Hrest].
Qed.

End Slots.

(** *** One lemma for each way a step changes the tables *)

Lemma since_later m evs e : since_ok m evs → since_ok m (evs ++ e).
Proof. intros H t th Ht. rewrite length_app. specialize (H t th Ht). lia. Qed.

Lemma since_set m evs t th : since_ok m evs → (since th <= length evs)%nat → since_ok (<[t := th]> m) evs.
Proof. intros H Hth t' th' [[-> <-] | [_ Ht]]%lookup_insert_Some; [exact Hth | exact (H t' th' Ht)]. Qed.

Lemma since_delete m evs t : since_ok m evs → since_ok (delete t m) evs.
Proof. intros H t' th' [_ Ht]%lookup_delete_Some. exact (H t' th' Ht). Qed.

Lemma woken_later evs e :
  woken_ok evs → (∀ t th c, Woken t th c ∈ e → reply c = true → answers th c evs) → woken_ok (evs ++ e).
Proof.
  intros H He t th c [Hin | Hin]%elem_of_app Hr; apply answers_later; [exact (H t th c Hin Hr) | exact (He t th c Hin Hr)].
Qed.

Definition not_woken (e : event) : Prop := match e with Woken _ _ _ => False | _ => True end.

Lemma woken_quiet evs e : woken_ok evs → Forall not_woken e → woken_ok (evs ++ e).
Proof. intros H He. apply woken_later; [exact H |]. intros t th c Hin _. rewrite Forall_forall in He. destruct (He _ Hin). Qed.

Section Inv.
Variables (n : Z) (w w' : wedge).
Hypothesis I : wedge_inv n w.

Lemma inv_set t th e :
  call_count w' = call_count w →
  wedge_calls w' = wedge_calls w → calls w' = <[t := th]> (calls w) → events w' = events w ++ e → Forall not_woken e →
  holds th = None → (since th <= length (events w))%nat → wedge_inv n w'.
Proof.
  destruct I as (Hs & Hsi & Hw & Hc). unfold wedge_inv. intros Hcount -> -> -> He Hh Hth. split; [| split; [| split; [| rewrite Hcount; exact Hc]]].
  - apply slots_set; [apply slots_later; exact Hs | exact Hh].
  - apply since_later, since_set; assumption.
  - apply woken_quiet; assumption.
Qed.

Lemma inv_delete t e :
  call_count w' = call_count w →
  wedge_calls w' = wedge_calls w → calls w' = delete t (calls w) → events w' = events w ++ e → Forall not_woken e → wedge_inv n w'.
Proof.
  destruct I as (Hs & Hsi & Hw & Hc). unfold wedge_inv. intros Hcount -> -> -> He. split; [| split; [| split; [| rewrite Hcount; exact Hc]]].
  - apply slots_delete, slots_later; exact Hs.
  - apply since_later, since_delete; assumption.
  - apply woken_quiet; assumption.
Qed.

Lemma inv_keep t th p e :
  call_count w' = call_count w →
  wedge_calls w' = wedge_calls w → calls w !! t = Some th → calls w' = <[t := at_place p th]> (calls w) → events w' = events w ++ e →
  Forall not_woken e → holds (at_place p th) = holds th → wedge_inv n w'.
Proof.
  destruct I as (Hs & Hsi & Hw & Hc). unfold wedge_inv. intros Hcount -> Ht -> -> He Hh. split; [| split; [| split; [| rewrite Hcount; exact Hc]]].
  - apply slots_keep; [apply slots_later; exact Hs | exact Ht | exact Hh].
  - apply since_later, since_set; [assumption | exact (Hsi t th Ht)].
  - apply woken_quiet; assumption.
Qed.

Lemma inv_free t th th' ci c e :
  call_count w' = call_count w →
  calls w !! t = Some th → holds th = Some ci → at_index (wedge_calls w) ci = Done c →
  wedge_calls w' = set_index ci (with_call_id free_call c) (wedge_calls w) → calls w' = <[t := th']> (calls w) → holds th' = None →
  since th' = since th → events w' = events w ++ e →
  (∀ t' th1 c', Woken t' th1 c' ∈ e → th1 = th ∧ c' = c) → wedge_inv n w'.
Proof.
  destruct I as (Hs & Hsi & Hw & Hc). unfold wedge_inv. intros Hcount Ht Hh Hci -> -> Hn Hsince -> He. split; [| split; [| split; [| rewrite Hcount; exact Hc]]].
  - apply (slots_free _ _ _ (slots_later _ _ _ Hs e) t th); assumption.
  - apply since_later, since_set; [assumption | rewrite Hsince; exact (Hsi t th Ht)].
  - apply woken_later; [exact Hw |]. intros t' th1 c' Hin Hr. destruct (He t' th1 c' Hin) as [-> ->].
    destruct (proj1 Hs t th ci Ht Hh) as (c1 & E & _ & _ & _ & Ha). rewrite Hci in E. injection E as <-. exact (Ha Hr).
Qed.

(** A semaphore of the table goes up or down. *)
Lemma inv_sem ci c k :
  call_count w' = call_count w →
  at_index (wedge_calls w) ci = Done c → wedge_calls w' = set_index ci (with_wait_sem k c) (wedge_calls w) → calls w' = calls w →
  events w' = events w → wedge_inv n w'.
Proof.
  destruct I as (Hs & Hsi & Hw & Hc). unfold wedge_inv. intros Hcount Hci -> -> ->. split; [apply slots_sem; assumption |]. rewrite Hcount. auto.
Qed.

End Inv.

Lemma wedge_inv_same n w w' :
  wedge_inv n w → call_count w' = call_count w → wedge_calls w' = wedge_calls w → calls w' = calls w → events w' = events w → wedge_inv n w'.
Proof. intros (Hs & Hsi & Hw & Hc) E1 E2 E3 E4. unfold wedge_inv. rewrite E1, E2, E3, E4. auto. Qed.

Lemma inv_more n n' w : wedge_inv n w → n <= n' → wedge_inv n' w.
Proof. intros (Hs & Hsi & Hw & Hc) Hn. split; [exact Hs |]. split; [exact Hsi |]. split; [exact Hw | lia]. Qed.

(** *** Every step keeps the invariant *)

(** The heap, the locks and the like are not what the invariant is about. *)
Definition same_tables (w w' : wedge) : Prop :=
  wedge_calls w' = wedge_calls w ∧ calls w' = calls w ∧ call_count w' = call_count w ∧ events w' = events w.

Lemma kfree_same p w w' : kfree p w = Done w' → same_tables w w'.
Proof. unfold kfree. destruct p; [case_bool_decide; [| discriminate] |]; intros [= <-]; repeat split. Qed.

Lemma kfree_live a w : a ∈ live w → kfree (Some a) w = Done (with_heap (live w ∖ {[a]}) (next_ptr w) w).
Proof. intros H. unfold kfree. rewrite bool_decide_eq_true_2 by exact H. reflexivity. Qed.

Lemma destroy_same sock w w' : wifu_sk_destroy sock w = Done w' → same_tables w w'.
Proof. unfold wifu_sk_destroy. destruct (socks w !! sock) as [[k |] |]; try discriminate. intros [= <-]. repeat split. Qed.

Lemma accept_done_same th i rc w w' : accept_done th i rc w = Done w' → same_tables w w'.
Proof.
  unfold accept_done. destruct (kind_of (t_handler th)); try (intros [= <-]; repeat split).
  destruct (rc =? 0); [| intros [= <-]; repeat split]. intros E. apply outcome_bind_Done in E as (s & _ & E). injection E as <-. repeat split.
Qed.

Lemma release_locks_same th w : same_tables w (release_locks th w).
Proof. unfold release_locks. destruct (kind_of (t_handler th)), (t_new th); repeat split. Qed.

Lemma inv_tables n w w' : wedge_inv n w → same_tables w w' → wedge_inv n w'.
Proof. intros H (E1 & E2 & E3 & E4). exact (wedge_inv_same n w w' H E3 E1 E2 E4). Qed.

Lemma u32_i32 x : u32 (i32 x) = u32 x.
Proof. unfold u32, i32. rewrite Zminus_mod, Zmod_mod, <- Zminus_mod. f_equal. lia. Qed.

Lemma nl_send_spec t m a e w sent w' :
  nl_send t m a e w = Done (sent, w') →
  wedge_calls w' = wedge_calls w ∧ calls w' = calls w ∧ call_count w' = call_count w
  ∧ events w' = events w ++ (if sent then [Sent t m] else []).
Proof.
  unfold nl_send. destruct (unicast_ok e).
  - intros E. apply outcome_bind_Done in E as (w1 & E1 & E). apply kfree_same in E1 as (? & ? & ? & Ee).
    injection E as <- <-. repeat split; try assumption. cbn. rewrite Ee. reflexivity.
  - intros [= <- <-]. cbn. rewrite app_nil_r. repeat split.
Qed.

Section Steps.
Variables (n : Z) (t : nat) (w w' : wedge).
Hypothesis I : wedge_inv n w.

Lemma enter_call_inv th i : (since th <= length (events w))%nat → enter_call t th i w = Done (Some w') → wedge_inv n w'.
Proof.
  intros Hth E. unfold enter_call in E. apply outcome_bind_Done in E as ([k l] & _ & E). injection E as <-.
  apply (inv_set n w _ I t (at_place (Inserting i) th) []); try reflexivity; [cbn; rewrite app_nil_r; reflexivity | constructor | exact Hth].
Qed.

Lemma start_inv h sock e : start t h sock e w = Done (Some w') → wedge_inv n w'.
Proof.
  unfold start. assert (∀ rc out, wedge_inv n (return_ t rc out w)) as Hret.
  { intros. apply (inv_delete n w _ I t [Returned t rc out]); try reflexivity. repeat constructor. }
  assert (∀ th, holds th = None → since th = 0%nat → wedge_inv n (set_thread t th w)) as Hset.
  { intros th Hh H0. apply (inv_set n w _ I t th []); try reflexivity; try assumption; [cbn; rewrite app_nil_r; reflexivity | constructor | lia]. }
  destruct (wifu_daemon_pid w =? -1); [intros [= <-]; apply Hret |].
  assert (∀ k, wedge_inv n (wifu_sk_create sock k w)) as Hc by (intros; apply (inv_tables n w _ I); repeat split).
  destruct (kind_of h), (socks w !! sock) as [[k |] |], (new_sk e) as [k' |]; try case_bool_decide;
    try (destruct (null_checked h)); intros E; try discriminate; injection E as <-; try apply Hret; try (apply Hset; reflexivity);
    (eapply (inv_set n _ _ (Hc _) t _ []); try reflexivity; [cbn; rewrite app_nil_r; reflexivity | constructor | cbn; lia]).
Qed.

End Steps.

Lemma accept_new_inv n t w w' th sock_new i e :
  wedge_inv n w → (since th <= length (events w))%nat → accept_new t th sock_new i e w = Done (Some w') → wedge_inv n w'.
Proof.
  intros I Hth E. unfold accept_new in E. apply outcome_bind_Done in E as (s & _ & E).
  destruct (sk_new s) as [k |].
  - case_bool_decide; [discriminate |]. eapply enter_call_inv; [| | exact E]; [| exact Hth]. apply (inv_tables n w _ I). repeat split.
  - destruct (new_sk e) as [k |].
    2: { injection E as <-. eapply (inv_delete n w _ I t [_]); try reflexivity. repeat constructor. }
    case_bool_decide; [discriminate |]. destruct (wedge_sockets_insert _ _ _) as [i_new l]. destruct (i_new =? -1).
    + apply outcome_bind_Done in E as (w1 & E1 & E). injection E as <-. apply destroy_same in E1. apply (inv_tables n w _ I).
      destruct E1 as (? & ? & ? & ?). repeat split; assumption.
    + apply outcome_bind_Done in E as (s1 & _ & E). eapply enter_call_inv; [| | exact E]; [| exact Hth]. apply (inv_tables n w _ I). repeat split.
Qed.

Lemma locking_inv n t w w' th e :
  wedge_inv n w → (since th <= length (events w))%nat → locking t th e w = Done (Some w') → wedge_inv n w'.
Proof.
  intros I Hth E. unfold locking in E. destruct (bool_decide _); [discriminate |]. apply with_down_Done in E.
  assert (wedge_inv n (lock_sock (t_sk th) w)) as I1 by (apply (inv_tables n w _ I); repeat split).
  assert (∀ w1 rc w2, same_tables w w1 → w2 = return_ t rc [] w1 → wedge_inv n w2) as Hret.
  { intros w1 rc w2 S ->. apply (inv_delete n w1 _ (inv_tables n w w1 I S) t [Returned t rc []]); try reflexivity. repeat constructor. }
  destruct (kind_of (t_handler th)) as [| | sock_new |].
  - destruct (_ =? -1); [injection E as <-; eapply Hret; [| reflexivity]; repeat split |]. exact (enter_call_inv n t _ w' I1 th _ Hth E).
  - destruct (wedge_sockets_insert _ _ _) as [i l]. destruct (i =? -1).
    + apply outcome_bind_Done in E as (w1 & E1 & E). injection E as <-. eapply Hret; [| reflexivity]. apply destroy_same in E1. exact E1.
    + eapply enter_call_inv; [| | exact E]; [| exact Hth]. apply (inv_tables n w _ I). repeat split.
  - destruct (_ =? -1); [injection E as <-; eapply Hret; [| reflexivity]; repeat split |].
    exact (accept_new_inv n t _ w' th sock_new _ e I1 Hth E).
  - destruct (_ =? -1).
    + apply outcome_bind_Done in E as (w1 & E1 & E). injection E as <-. eapply Hret; [| reflexivity]. apply destroy_same in E1. exact E1.
    + apply outcome_bind_Done in E as (s & _ & E). destruct (release_flag s); [injection E as <-; eapply Hret; [| reflexivity]; repeat split |].
      eapply enter_call_inv; [| | exact E]; [| exact Hth]. apply (inv_tables n w _ I). repeat split.
Qed.

Lemma holds_to_end t th i rc out w : ∃ th', calls (to_end t th i rc out w) = <[t := th']> (calls w) ∧ holds th' = None ∧ since th' = since th.
Proof. eexists. split; [reflexivity |]. split; [| reflexivity]. destruct (kind_of (t_handler th)); cbn; [| destruct (rc =? 0) | |]; reflexivity. Qed.

Lemma to_end_inv n t w th i rc out : wedge_inv n w → (since th <= length (events w))%nat → wedge_inv n (to_end t th i rc out w).
Proof.
  intros I Hth. destruct (holds_to_end t th i rc out w) as (th' & E & Hh & Hs).
  apply (inv_set n w _ I t th' []); try assumption; try reflexivity; [cbn; rewrite app_nil_r; reflexivity | constructor | lia].
Qed.

Lemma inserting_inv n t w w' th i e :
  wedge_inv n w → n + 1 < free_call → (since th <= length (events w))%nat → inserting t th i e w = Done (Some w') → wedge_inv (n + 1) w'.
Proof.
  intros I Hn Hth E. unfold inserting in E. apply with_down_Done in E. destruct I as (Hs & Hsi & Hw & Hc).
  assert (u32 (call_count w + 1) = call_count w + 1) as Hu by (unfold free_call in Hn; apply Z.mod_small; lia).
  assert (u32 (call_count w) = call_count w) as Hu0 by (unfold free_call in Hn; apply Z.mod_small; lia).
  destruct (wedge_calls_insert_spec (call_count w) (get_unique_sock_id (t_sk th)) i (type_of (t_handler th)) (wedge_calls w))
    as [[Ei _] | (j & c & Ei & Hj & Hfree)]; rewrite Ei in E.
  - cbn [Z.eqb] in E. injection E as <-. apply to_end_inv; [| exact Hth].
    split; [exact Hs |]. split; [exact Hsi |]. split; [exact Hw |]. cbn [call_count with_call_count with_wedge_calls]. rewrite Hu. lia.
  - rewrite (proj2 (Z.eqb_neq _ _)) in E by lia. injection E as <-.
    split; [| split; [| split; [exact Hw |]]].
    + match goal with |- slots_ok ?l ?m ?evs => change (slots_ok (<[j := new_call (call_count w) (get_unique_sock_id (t_sk th)) i (type_of (t_handler th)) c]> (wedge_calls w)) m (events w)) end.
      replace (new_call (call_count w) (get_unique_sock_id (t_sk th)) i (type_of (t_handler th)) c)
        with (new_call (call_count w) (t_sk th) i (type_of (t_handler th)) c)
        by (unfold new_call, get_unique_sock_id; rewrite u32_i32; reflexivity).
      apply (slots_insert _ _ _ Hs t {| t_handler := t_handler th; t_sock := t_sock th; t_sk := t_sk th; t_new := t_new th;
                                       since := length (events w); t_place := Sending i (Z.of_nat j) |}); try assumption; [| reflexivity].
      rewrite Hu0. unfold free_call in *. lia.
    + apply since_set; [exact Hsi | cbn; lia].
    + cbn [call_count with_call_count with_wedge_calls set_thread with_calls]. rewrite Hu. lia.
Qed.

Lemma free_slot_spec ci w w' :
  free_slot ci w = Done w' →
  ∃ c, at_index (wedge_calls w) ci = Done c ∧ w' = with_wedge_calls (set_index ci (with_call_id free_call c) (wedge_calls w)) w.
Proof. intros E. unfold free_slot in E. apply outcome_bind_Done in E as (c & Ec & E). injection E as <-. eauto. Qed.

(** The slot of a thread is freed and the thread goes to [end]. *)
Lemma free_to_end_inv n t w w1 th ci i rc out :
  wedge_inv n w → calls w !! t = Some th → holds th = Some ci → free_slot ci w = Done w1 → wedge_inv n (to_end t th i rc out w1).
Proof.
  intros I Ht Hh E. destruct (free_slot_spec _ _ _ E) as (c & Hc & ->).
  destruct (holds_to_end t th i rc out (with_wedge_calls (set_index ci (with_call_id free_call c) (wedge_calls w)) w)) as (th' & E' & Hn & Hs).
  apply (inv_free n w _ I t th th' ci c []); try assumption; try reflexivity; [cbn; rewrite app_nil_r; reflexivity |].
  intros ? ? ? Hin. apply elem_of_nil in Hin. contradiction.
Qed.

Lemma inv_events n w w' e :
  wedge_inv n w → wedge_calls w' = wedge_calls w → calls w' = calls w → call_count w' = call_count w → events w' = events w ++ e →
  Forall not_woken e → wedge_inv n w'.
Proof.
  intros (Hs & Hsi & Hw & Hc) E1 E2 E3 E4 He. unfold wedge_inv. rewrite E1, E2, E3, E4.
  split; [apply slots_later, Hs |]. split; [apply since_later, Hsi |]. split; [apply woken_quiet; assumption | exact Hc].
Qed.

Lemma sending_inv n t w w' th i ci e :
  wedge_inv n w → calls w !! t = Some th → t_place th = Sending i ci → sending t th i ci e w = Done (Some w') → wedge_inv n w'.
Proof.
  intros I Ht Hp E. assert (holds th = Some ci) as Hh by (unfold holds; rewrite Hp; reflexivity).
  pose proof I as (_ & Hsi & _). pose proof (Hsi t th Ht) as Hth.
  unfold sending in E. apply outcome_bind_Done in E as (c & Hc & E). apply outcome_bind_Done in E as (p & _ & E).
  destruct p as [in_buf m | rc | rc | rc].
  - cbn [kmalloc] in E. apply outcome_bind_Done in E as ([sent w1] & E1 & E). apply outcome_bind_Done in E as (w2 & E2 & E).
    apply nl_send_spec in E1 as (A1 & A2 & A3 & A4). apply kfree_same in E2 as (B1 & B2 & B3 & B4).
    cbn [wedge_calls calls call_count events with_heap] in A1, A2, A3, A4.
    assert (wedge_inv n w2) as I2.
    { apply (inv_events n w w2 (if sent then [Sent t m] else []) I); try congruence. destruct sent; repeat constructor. }
    assert (calls w2 !! t = Some th) as Ht2 by congruence.
    destruct sent.
    + injection E as <-. pose proof (release_locks_same th w2) as (C1 & C2 & C3 & C4).
      apply (inv_keep n w2 _ I2 t th (Waiting i ci) []); try assumption; [cbn; rewrite C2; reflexivity | cbn; rewrite C4, app_nil_r; reflexivity | constructor |].
      rewrite Hh. reflexivity.
    + apply outcome_bind_Done in E as (w3 & E3 & E). injection E as <-. exact (free_to_end_inv n t w2 w3 th ci _ _ _ I2 Ht2 Hh E3).
  - apply outcome_bind_Done in E as (w3 & E3 & E). injection E as <-. exact (free_to_end_inv n t w w3 th ci _ _ _ I Ht Hh E3).
  - injection E as <-. apply to_end_inv; assumption.
  - injection E as <-. apply (inv_delete n w _ I t [Returned t rc []]); try reflexivity. repeat constructor.
Qed.

Lemma waiting_inv n t w w' th i ci e :
  wedge_inv n w → calls w !! t = Some th → t_place th = Waiting i ci → waiting t th i ci e w = Done (Some w') → wedge_inv n w'.
Proof.
  intros I Ht Hp E. assert (holds (at_place (Finishing i ci) th) = holds th) as Hh by (unfold holds; rewrite Hp; reflexivity).
  unfold waiting in E. apply outcome_bind_Done in E as (c & Hc & E).
  assert (∀ w1, wedge_inv n w1 → calls w1 = calls w → wedge_inv n (set_thread t (at_place (Finishing i ci) th) w1)) as Hset.
  { intros w1 I1 E1. apply (inv_keep n w1 _ I1 t th (Finishing i ci) []); try reflexivity; [rewrite E1; exact Ht | cbn; rewrite app_nil_r; reflexivity | constructor | exact Hh]. }
  destruct (0 <? wait_sem c).
  - injection E as <-. apply Hset; [| reflexivity]. apply (inv_sem n w _ I ci c (wait_sem c - 1)); try reflexivity. exact Hc.
  - destruct (interrupted e); [| discriminate]. injection E as <-. apply Hset; [exact I | reflexivity].
Qed.

Lemma finishing_inv n t w w' th i ci e :
  wedge_inv n w → calls w !! t = Some th → t_place th = Finishing i ci → finishing t th i ci e w = Done (Some w') → wedge_inv n w'.
Proof.
  intros I Ht Hp E. assert (holds th = Some ci) as Hh by (unfold holds; rewrite Hp; reflexivity).
  unfold finishing in E. destruct (bool_decide _); [| discriminate].
  match type of E with context [with_down _ _ ?r] => assert (r = Done (Some w')) as E' by (destruct (kind_of (t_handler th)); try exact E; exact (with_down_Done _ _ _ _ E)) end.
  clear E. rename E' into E.
  apply outcome_bind_Done in E as (c & Hc & E). apply outcome_bind_Done in E as ([rc out] & _ & E).
  apply outcome_bind_Done in E as (w1 & E1 & E). apply outcome_bind_Done in E as (w2 & E2 & E). injection E as <-.
  assert (same_tables w w1) as S.
  { destruct (reply c); [| injection E1 as <-; repeat split]. apply accept_done_same in E1 as (A1 & A2 & A3 & A4). repeat split; assumption. }
  destruct S as (A1 & A2 & A3 & A4). destruct (free_slot_spec _ _ _ E2) as (c1 & Hc1 & ->).
  cbn [wedge_calls with_locks] in Hc. rewrite A1, Hc in Hc1. injection Hc1 as <-.
  destruct (holds_to_end t th i rc out (log_event (Woken t th c) (with_wedge_calls (set_index ci (with_call_id free_call c) (wedge_calls w1)) w1)))
    as (th' & E' & Hn & Hs).
  apply (inv_free n w _ I t th th' ci c [Woken t th c]); try assumption.
  - cbn. rewrite A1. reflexivity.
  - rewrite E'. cbn. rewrite A2. reflexivity.
  - cbn. rewrite A4. reflexivity.
  - intros t' th1 c' Hin. apply list_elem_of_singleton in Hin. injection Hin as -> -> ->. auto.
Qed.

Lemma leaving_inv n t w w' th i rc out e :
  wedge_inv n w → leaving t th i rc out e w = Done (Some w') → wedge_inv n w'.
Proof.
  intros I E. unfold leaving in E. apply with_down_Done in E. apply outcome_bind_Done in E as ([k l] & _ & E). injection E as <-.
  destruct (t_new th); apply (inv_delete n w _ I t [Returned t rc out]); try reflexivity; repeat constructor.
Qed.

Lemma up_wait_sem_inv n w w' ci l :
  wedge_inv n w → up_wait_sem ci (wedge_calls w) = Done l → same_tables w w' → wedge_inv n (with_wedge_calls l w').
Proof.
  intros I E (A1 & A2 & A3 & A4). unfold up_wait_sem in E. apply outcome_bind_Done in E as (c & Hc & E). injection E as <-.
  apply (inv_sem n w _ I ci c (wait_sem c + 1)); try assumption. reflexivity.
Qed.

Lemma removing_inv n t w w' th i j rc e :
  wedge_inv n w → (since th <= length (events w))%nat → removing t th i j rc e w = Done (Some w') → wedge_inv n w'.
Proof.
  intros I Hth E. unfold removing in E. destruct (j =? _).
  - apply outcome_bind_Done in E as (s & _ & E). apply outcome_bind_Done in E as (w1 & E1 & E). injection E as <-.
    apply destroy_same in E1 as (A1 & A2 & A3 & A4). eapply (inv_delete n w _ I t [_]); [exact A3 | exact A1 | cbn; rewrite A2; reflexivity | cbn; rewrite A4; reflexivity |].
    repeat constructor.
  - assert (∀ p w1, wedge_inv n w1 → calls w1 = calls w → events w1 = events w → holds (at_place p th) = None → wedge_inv n (set_thread t (at_place p th) w1)) as Hset.
    { intros p w1 I1 E1 E2 Hh. apply (inv_set n w1 _ I1 t (at_place p th) []); try reflexivity; [cbn; rewrite app_nil_r; reflexivity | constructor | exact Hh |].
      rewrite E2. exact Hth. }
    apply outcome_bind_Done in E as (s & _ & E). apply outcome_bind_Done in E as (k & _ & E).
    destruct (_ || _); [injection E as <-; apply Hset; auto |]. apply with_down_Done in E.
    destruct (_ =? -1); [injection E as <-; apply Hset; try reflexivity; apply (inv_tables n w _ I); repeat split |].
    apply outcome_bind_Done in E as (l & El & E). injection E as <-. apply Hset; try reflexivity.
    apply (up_wait_sem_inv n w _ _ l I El). repeat split.
Qed.

Lemma go_inv n t w w' e : wedge_inv n w → n + 1 < free_call → go t e w = Done (Some w') → wedge_inv (n + 1) w'.
Proof.
  intros I Hn E. unfold go in E. destruct (calls w !! t) as [th |] eqn:Ht; [| discriminate].
  pose proof I as (_ & Hsi & _). pose proof (Hsi t th Ht) as Hth.
  destruct (t_place th) eqn:Hp; [| eapply inserting_inv; eassumption | | | | | |]; (apply (inv_more n); [| lia]).
  - eapply locking_inv; eassumption.
  - eapply sending_inv; eassumption.
  - eapply waiting_inv; eassumption.
  - eapply finishing_inv; eassumption.
  - eapply leaving_inv; eassumption.
  - eapply removing_inv; eassumption.
  - unfold take_sem in E. apply with_down_Done in E. injection E as <-.
    apply (inv_set n w _ I t (at_place (Removing i j rc) th) []); try reflexivity; [cbn; rewrite app_nil_r; reflexivity | constructor | exact Hth].
Qed.

Lemma stop_inv n e w w' : wedge_inv n w → stop_step e w = Done (Some w') → wedge_inv n w'.
Proof.
  intros I E. unfold stop_step in E. destruct (stopping w) as [[i j | i j | i] |]; [| | | discriminate].
  - apply with_down_Done in E. injection E as <-. apply (inv_tables n w _ I). repeat split.
  - destruct (i =? _); [apply with_down_Done in E; injection E as <-; apply (inv_tables n w _ I); repeat split |].
    apply outcome_bind_Done in E as (s & _ & E). destruct (sock_id s =? _); [injection E as <-; apply (inv_tables n w _ I); repeat split |].
    destruct (j =? _); [injection E as <-; apply (inv_tables n w _ I); repeat split |].
    apply outcome_bind_Done in E as (k & _ & E). destruct (k <? 1); [injection E as <-; apply (inv_tables n w _ I); repeat split |].
    apply with_down_Done in E.
    destruct (_ =? -1); [injection E as <-; apply (inv_tables n w _ I); repeat split |].
    apply outcome_bind_Done in E as (l & El & E). injection E as <-.
    apply (inv_tables n (with_wedge_calls l (with_sockets_sem (wedge_sockets_sem w + 1) w))); [| repeat split].
    apply (up_wait_sem_inv n w _ _ l I El). repeat split.
  - destruct (i =? _); [injection E as <-; apply (inv_tables n w _ I); repeat split |].
    apply outcome_bind_Done in E as (c & _ & E). destruct (call_id c =? _); [injection E as <-; apply (inv_tables n w _ I); repeat split |].
    apply outcome_bind_Done in E as (l & El & E). injection E as <-.
    apply (inv_tables n (with_wedge_calls l w)); [| repeat split]. apply (up_wait_sem_inv n w _ _ l I El). repeat split.
Qed.

Lemma receive_inv n pid m e w w' : wedge_inv n w → nl_data_ready pid m e w = Done (Some w') → wedge_inv n w'.
Proof.
  intros I E. unfold nl_data_ready in E. destruct (Nat.eqb _ 4).
  - destruct (_ =? daemon_start_call); [injection E as <-; apply (inv_tables n w _ I); repeat split |].
    destruct (_ =? daemon_stop_call); [destruct (stopping w); [discriminate |] |]; injection E as <-; apply (inv_tables n w _ I); repeat split.
  - apply with_down_Done in E. apply outcome_bind_Done in E as (l & El & E). injection E as <-.
    destruct I as (Hs & Hsi & Hw & Hc). split; [| split; [| split; [| exact Hc]]].
    + exact (slots_answer _ _ _ Hs m l Hsi El).
    + apply since_later, Hsi.
    + apply woken_quiet; [exact Hw | repeat constructor].
Qed.

Lemma step_keeps_inv n a e w w' : wedge_inv n w → n + 1 < free_call → step a e w = Done (Some w') → wedge_inv (n + 1) w'.
Proof.
  intros I Hn E. destruct a as [t h sock | t | pid m |]; cbn [step] in E.
  - apply (inv_more n); [| lia]. destruct (calls w !! t); [discriminate |]. eapply start_inv; eassumption.
  - eapply go_inv; eassumption.
  - apply (inv_more n); [| lia]. eapply receive_inv; eassumption.
  - apply (inv_more n); [| lia]. eapply stop_inv; eassumption.
Qed.

Lemma run_keeps_inv acts n w w' :
  wedge_inv n w → n + Z.of_nat (length acts) < free_call → run acts w = Done (Some w') → wedge_inv (n + Z.of_nat (length acts)) w'.
Proof.
  revert n w. induction acts as [| [a e] acts IH]; intros n w I Hn E; cbn [run length] in *.
  - injection E as <-. apply (inv_more n); [exact I | lia].
  - apply outcome_bind_Done in E as ([w1 |] & E1 & E); [| discriminate].
    apply (inv_more ((n + 1) + Z.of_nat (length acts))); [| lia].
    apply (IH (n + 1) w1); [| lia | exact E]. eapply step_keeps_inv; [exact I | lia | exact E1].
Qed.

Lemma init_inv sockets slots : wedge_inv 0 (wifu_wedge_init sockets slots).
Proof.
  split; [split; intros * Ht; cbn in Ht; rewrite lookup_empty in Ht; discriminate |].
  split; [intros t th Ht; cbn in Ht; rewrite lookup_empty in Ht; discriminate |].
  split; [intros t th c Hin; apply elem_of_nil in Hin; contradiction | cbn; lia].
Qed.

(** C28: Whatever the interleaving of threads in socket calls, messages of the daemon, signals to
    threads that wait for their answers and the removal of sockets: no two calls hold the same
    slot, and a call that was answered has read its answer from a response to its own socket and
    type of call that arrived while it was in the table. (As long as no signal ends a wait for a
    table's semaphore, after which the module goes on without it: that is the fault [DataRace],
    and [run] ends there. And in less than 2^32 - 1 steps: the identifiers of calls count up to the
    mark of a free slot.) *)
Theorem wedge_answers_matched sockets slots acts w :
  Z.of_nat (length acts) < free_call → run acts (wifu_wedge_init sockets slots) = Done (Some w) →
  (∀ t1 t2 th1 th2 ci, calls w !! t1 = Some th1 → calls w !! t2 = Some th2 → holds th1 = Some ci → holds th2 = Some ci → t1 = t2)
  ∧ ∀ t th c, Woken t th c ∈ events w → reply c = true → answers th c (events w).
Proof.
  intros Hn E. destruct (run_keeps_inv acts 0 _ w (init_inv sockets slots) Hn E) as ((_ & Hinj) & _ & Hw & _). auto.
Qed.

(** *** A call by itself *)

Lemma add_thread_spec i type d s c l :
  l !! i = Some s → at_index (threads s) type = Done c →
  add_thread (Z.of_nat i) type d l = Done (i32 (c + d), <[i := with_threads (set_index type (i32 (c + d)) (threads s)) s]> l).
Proof. intros Hi Hc. unfold add_thread. rewrite at_index_nat, Hi. cbn [mbind outcome_bind]. rewrite Hc. cbn. unfold set_index at 1. rewrite Nat2Z.id. reflexivity. Qed.

(** A count that goes up and down again. *)
Lemma threads_restored i type s c l :
  l !! i = Some s → at_index (threads s) type = Done c → - 2 ^ 31 <= c < 2 ^ 31 →
  ∃ l1 n1, add_thread (Z.of_nat i) type 1 l = Done (n1, l1) ∧ ∃ n2, add_thread (Z.of_nat i) type (-1) l1 = Done (n2, l).
Proof.
  intros Hi Hc Hr. do 2 eexists. split; [apply (add_thread_spec i type 1 s c l Hi Hc) |].
  set (s1 := with_threads (set_index type (i32 (c + 1)) (threads s)) s).
  assert (at_index (threads s1) type = Done (i32 (c + 1))) as Hc1 by exact (at_index_set_same _ _ c _ Hc).
  eexists. rewrite (add_thread_spec i type (-1) s1 (i32 (c + 1))); [| apply list_lookup_insert_eq, (lookup_lt_Some _ _ _ Hi) | exact Hc1].
  f_equal. f_equal. rewrite list_insert_insert_eq. unfold s1. cbn [threads with_threads].
  replace (i32 (i32 (c + 1) + -1)) with c by word_lia.
  assert (set_index type c (set_index type (i32 (c + 1)) (threads s)) = threads s) as ->.
  { unfold set_index. rewrite list_insert_insert_eq. apply list_insert_id. apply at_index_done in Hc. apply Hc. }
  apply list_insert_id. rewrite Hi. destruct s; reflexivity.
Qed.

(** The state in which a call starts: the daemon is there, the socket has a [sk] that is not locked
    and is in the table, the semaphores are free. *)
Record ready (w : wedge) (t sock : nat) (k i type : Z) : Prop := {
  ready_pid : wifu_daemon_pid w ≠ -1;
  ready_thread : calls w !! t = None;
  ready_sk : socks w !! sock = Some (Some k);
  ready_lock : k ∉ locks w;
  ready_sems : 0 < wedge_sockets_sem w ∧ 0 < wedge_calls_sem w;
  ready_socket : wedge_sockets_find (get_unique_sock_id k) (wedge_sockets w) = i ∧ i ≠ -1;
  ready_count : ∃ s c, wedge_sockets w !! Z.to_nat i = Some s ∧ at_index (threads s) type = Done c ∧ - 2 ^ 31 <= c < 2 ^ 31 }.

(** Memory is there, netlink sends, the pointer that was never set is null, and no signal comes. *)
Definition good_env (e : env) : Prop := allocated e = true ∧ unicast_ok e = true ∧ stack_buf e = None ∧ interrupted e = false.

Definition slot_free (l : list wedge_call) : Prop := ∃ c, c ∈ l ∧ call_id c = free_call.

(** No call of the socket and type waits. *)
Definition alone (k type : Z) (l : list wedge_call) : Prop := ∀ c, c ∈ l → waits_for k type c = false.

Definition response_to (m : list Z) (k type n : Z) : Prop :=
  (16 <= length m)%nat ∧ u32 (int_at 8 m) = u32 k ∧ int_at 0 m = type ∧ sizeof_response type = Some n.

Definition call_steps (t sock : nat) (h : handler) (e : env) (pid : Z) (m : list Z) : list (action * env) :=
  [(Start t h sock, e); (Go t, e); (Go t, e); (Go t, e); (Receive pid m, e); (Go t, e); (Go t, e); (Go t, e)].

#[local] Ltac world :=
  cbn [wedge_sockets wedge_sockets_sem wedge_calls wedge_calls_sem call_count wifu_daemon_pid link_sem live next_ptr socks sk_live locks
       calls stopping events with_sockets with_sockets_sem with_wedge_calls with_calls_sem with_call_count with_daemon_pid with_link_sem
       with_heap with_socks with_sk_live with_locks with_calls with_stopping with_events set_thread lock_sock release_sock log_event
       return_ t_handler t_sock t_sk t_new since t_place at_place mbind outcome_bind].

Section Call.
Variables (w : wedge) (t sock : nat) (h : handler) (k : Z) (i : nat) (e : env) (pid : Z) (m : list Z) (n : Z).
Variables (c : wedge_call) (j : nat) (msg_out : outgoing) (rc : Z) (out : list Z).
Hypothesis Hkind : kind_of h = Ordinary.
Hypothesis Hready : ready w t sock k (Z.of_nat i) (type_of h).
Hypothesis Henv : good_env e.
Hypothesis Hcount : 0 <= call_count w < free_call.
Hypothesis Hj : wedge_calls w !! j = Some c.
Hypothesis Hfree : call_id c = free_call.
Hypothesis Hfirst : ∀ j' c', wedge_calls w !! j' = Some c' → (j' < j)%nat → call_id c' ≠ free_call.
Hypothesis Halone : alone k (type_of h) (wedge_calls w).
Hypothesis Hm : response_to m k (type_of h) n.

Definition own_thread (p : place) (since : nat) : thread :=
  {| t_handler := h; t_sock := sock; t_sk := k; t_new := None; since := since; t_place := p |}.

Definition own_slot : wedge_call := new_call (call_count w) k (Z.of_nat i) (type_of h) c.
Definition own_answer : wedge_call := answered (int_at 12 m) (i32 (Z.of_nat (length m) - n)) (drop (Z.to_nat n) m) own_slot.

Lemma insert_own :
  wedge_calls_insert (call_count w) (get_unique_sock_id k) (Z.of_nat i) (type_of h) (wedge_calls w)
  = (Z.of_nat j, <[j := own_slot]> (wedge_calls w)).
Proof.
  unfold wedge_calls_insert. assert (first_index (fun c => call_id c =? free_call) (wedge_calls w) = Z.of_nat j) as ->.
  { apply first_index_some. split; [exists c; rewrite Hfree; auto |]. intros j' c' H1 H2. apply Z.eqb_neq, (Hfirst j' c' H1 H2). }
  rewrite at_index_nat, Hj. unfold set_index. rewrite Nat2Z.id. unfold own_slot, new_call, get_unique_sock_id. rewrite u32_i32. reflexivity.
Qed.

Lemma own_id : call_id own_slot ≠ free_call.
Proof. unfold own_slot. cbn [call_id new_call]. unfold u32, free_call in *. rewrite Z.mod_small by lia. lia. Qed.

Lemma own_slot_found l : l = <[j := own_slot]> (wedge_calls w) → take_response m l = Done (<[j := own_answer]> (wedge_calls w)).
Proof.
  intros ->. destruct Hm as (H16 & H8 & H0 & Hn). unfold take_response. rewrite (proj2 (Nat.ltb_ge _ 4)) by lia.
  rewrite H0, Hn, (proj2 (Nat.ltb_ge _ 16)) by lia.
  assert (wedge_calls_find (int_at 8 m) (type_of h) (<[j := own_slot]> (wedge_calls w)) = Z.of_nat j) as ->.
  { unfold wedge_calls_find. apply first_index_some. split.
    - exists own_slot. rewrite list_lookup_insert_eq by (eapply lookup_lt_Some, Hj). split; [reflexivity |].
      apply waits_for_spec. split; [exact own_id |]. split; [symmetry; exact H8 | reflexivity].
    - intros j' c' Hj' Hlt. rewrite list_lookup_insert_ne in Hj' by lia.
      assert (waits_for k (type_of h) c' = false) as Hw by (apply Halone; eapply list_elem_of_lookup_2, Hj').
      unfold waits_for in *. rewrite H8. exact Hw. }
  rewrite at_index_nat, list_lookup_insert_eq by (eapply lookup_lt_Some, Hj). cbn [mbind outcome_bind].
  unfold set_index. rewrite Nat2Z.id, list_insert_insert_eq. reflexivity.
Qed.

Hypothesis Hprep : prepare h (header_of (own_thread Locking 0) (Z.of_nat i) (Z.of_nat j) own_slot) None e = Done (Send false msg_out).
Hypothesis Hres : result_of h e (with_wait_sem 0 own_answer) = Done (rc, out).

Lemma run_cons a acts w0 w1 : step a e w0 = Done (Some w1) → run ((a, e) :: acts) w0 = run acts w1.
Proof. intros E. cbn [run]. rewrite E. reflexivity. Qed.

Lemma wedge_run_app acts1 acts2 w0 w1 : run acts1 w0 = Done (Some w1) → run (acts1 ++ acts2) w0 = run acts2 w1.
Proof.
  revert w0. induction acts1 as [| [a e1] acts1 IH]; intros w0 E; cbn [run app] in *; [injection E as ->; reflexivity |].
  destruct (step a e1 w0) as [[w2 |] | f]; cbn [mbind outcome_bind] in *; try discriminate. apply IH, E.
Qed.

(** The first steps: to the table of calls. *)
Lemma call_enters :
  ∃ l w1, run [(Start t h sock, e); (Go t, e); (Go t, e)] w = Done (Some w1)
    ∧ (∃ x, add_thread (Z.of_nat i) (type_of h) (-1) l = Done (x, wedge_sockets w))
    ∧ calls w1 = <[t := own_thread (Sending (Z.of_nat i) (Z.of_nat j)) (length (events w))]> (calls w)
    ∧ wedge_calls w1 = <[j := own_slot]> (wedge_calls w) ∧ wedge_sockets w1 = l ∧ locks w1 = {[k]} ∪ locks w
    ∧ events w1 = events w ∧ wedge_sockets_sem w1 = wedge_sockets_sem w ∧ wedge_calls_sem w1 = wedge_calls_sem w
    ∧ live w1 = live w ∧ next_ptr w1 = next_ptr w.
Proof.
  destruct Hready as [Hpid Ht Hsk Hlock [Hsem Hcsem] [Hfind Hi] (s & cnt & Hs & Hcnt & Hr)]. rewrite Nat2Z.id in Hs.
  destruct Henv as (_ & _ & _ & Hint).
  destruct (threads_restored i (type_of h) s cnt (wedge_sockets w) Hs Hcnt Hr) as (l & n1 & Hadd & Hback).
  exists l. eexists. split; [| split; [exact Hback |]].
  - etransitivity.
    { apply run_cons. cbn [step]. rewrite Ht. unfold start. rewrite (proj2 (Z.eqb_neq _ _) Hpid), Hkind, Hsk. reflexivity. }
    etransitivity.
    { apply run_cons. cbn [step]. unfold go. world. rewrite lookup_insert_eq. world. unfold locking. world.
      rewrite bool_decide_eq_false_2 by exact Hlock. rewrite with_down_free by assumption. rewrite Hkind.
      world. rewrite Hfind. rewrite (proj2 (Z.eqb_neq _ _) Hi). unfold enter_call. world. rewrite Hadd. reflexivity. }
    etransitivity.
    { apply run_cons. cbn [step]. unfold go. world. rewrite lookup_insert_eq. world. unfold inserting. world.
      rewrite with_down_free by assumption. world. rewrite insert_own. rewrite (proj2 (Z.eqb_neq _ _)) by lia. reflexivity. }
    reflexivity.
  - cbn. rewrite !insert_insert_eq. repeat split.
Qed.

#[local] Ltac own_world := unfold own_thread; world.

(** A whole call. *)
Lemma call_returns :
  ∃ w', run (call_steps t sock h e pid m) w = Done (Some w')
    ∧ events w' = events w ++ [Sent t msg_out; Answered m; Woken t (own_thread (Finishing (Z.of_nat i) (Z.of_nat j)) (length (events w))) (with_wait_sem 0 own_answer); Returned t rc out]
    ∧ calls w' = calls w ∧ wedge_sockets w' = wedge_sockets w ∧ locks w' = locks w
    ∧ wedge_calls w' = <[j := with_call_id free_call (with_wait_sem 0 own_answer)]> (wedge_calls w).
Proof.
  destruct call_enters as (l & w1 & E1 & [x Hback] & Hcalls & Hslots & Hl & Hlocks & Hev & Hsem & Hcsem & Hlive & Hptr).
  destruct Hready as [Hpid Ht Hsk Hlock [Hs0 Hcs0] _ _]. destruct Henv as (Halloc & Huni & Hbuf & Hint). destruct Hm as (H16 & _ & _ & _).
  assert (locks w1 ∖ {[k]} = locks w) as Hun by (rewrite Hlocks; apply set_eq; set_solver).
  assert ((j < length (wedge_calls w))%nat) as Hjlt by (eapply lookup_lt_Some, Hj).
  unfold call_steps. change [(Start t h sock, e); (Go t, e); (Go t, e); (Go t, e); (Receive pid m, e); (Go t, e); (Go t, e); (Go t, e)]
    with ([(Start t h sock, e); (Go t, e); (Go t, e)] ++ [(Go t, e); (Receive pid m, e); (Go t, e); (Go t, e); (Go t, e)]).
  rewrite (wedge_run_app _ _ _ _ E1). eexists. split.
  - etransitivity.
    { apply run_cons. cbn [step]. unfold go. rewrite Hcalls, lookup_insert_eq. own_world.  unfold sending.
      rewrite Hslots, at_index_nat, list_lookup_insert_eq by exact Hjlt. own_world.
      match goal with |- context [prepare ?a ?b ?c' e] =>
        change (prepare a b c' e) with (prepare h (header_of (own_thread Locking 0) (Z.of_nat i) (Z.of_nat j) own_slot) None e) end. rewrite Hprep.
      unfold kmalloc, nl_send. rewrite Huni. own_world. rewrite kfree_live by (cbn; set_solver).
      own_world. rewrite Hbuf. cbn [kfree]. own_world. reflexivity. }
    etransitivity.
    { apply run_cons. cbn [step]. unfold nl_data_ready. rewrite (proj2 (Nat.eqb_neq _ _)) by lia. unfold release_locks. own_world. rewrite Hkind.
      own_world. rewrite Hcsem, with_down_free by assumption. rewrite (own_slot_found _ Hslots). reflexivity. }
    etransitivity.
    { apply run_cons. cbn [step]. unfold go. own_world. rewrite lookup_insert_eq. own_world. unfold waiting. own_world.
      rewrite at_index_nat, list_lookup_insert_eq by exact Hjlt. own_world. reflexivity. }
    etransitivity.
    { apply run_cons. cbn [step]. unfold go. own_world. rewrite lookup_insert_eq. own_world. unfold finishing, locks_needed. own_world. rewrite Hkind. own_world.
      rewrite Hlocks. rewrite bool_decide_eq_true_2 by set_solver.
      unfold set_index. rewrite Nat2Z.id, list_insert_insert_eq.
      rewrite at_index_nat, list_lookup_insert_eq by exact Hjlt. own_world.
      change (with_wait_sem (wait_sem own_answer - 1) own_answer) with (with_wait_sem 0 own_answer).
      cbn [reply with_wait_sem own_answer answered]. change (result_of h e _) with (result_of h e (with_wait_sem 0 own_answer)). rewrite Hres. own_world.
      unfold accept_done, free_slot. own_world. rewrite Hkind. own_world.
      rewrite at_index_nat, list_lookup_insert_eq by exact Hjlt. own_world. unfold to_end. own_world. rewrite Hkind. reflexivity. }
    etransitivity.
    { apply run_cons. cbn [step]. unfold go. own_world. rewrite lookup_insert_eq. own_world. unfold leaving. own_world.
      rewrite Hsem, with_down_free by assumption. rewrite Hl, Hback. own_world. reflexivity. }
    reflexivity.
  - own_world. rewrite Hcalls, Hev. unfold set_index. rewrite Nat2Z.id, list_insert_insert_eq, !insert_insert_eq, <- !app_assoc.
    split; [reflexivity |]. split; [apply delete_insert_id, Ht |]. split; [reflexivity |]. split; [| reflexivity]. apply set_eq. set_solver.
Qed.

End Call.

Lemma map_call_id_insert (l : list wedge_call) j c x : l !! j = Some c → call_id x = call_id c → map call_id (<[j := x]> l) = map call_id l.
Proof.
  intros Hj Hx. change (call_id <$> <[j := x]> l = call_id <$> l). rewrite list_fmap_insert. apply list_insert_id.
  rewrite list_lookup_fmap, Hj. cbn. congruence.
Qed.


(** ** Failing runs *)

(** The older calls (getname, ioctl, poll, shutdown, mmap, sendpage, getsockopt) free their message
    again after netlink has freed it. *)
Lemma raw_call_frees_twice t th i ci e w c m :
  at_index (wedge_calls w) ci = Done c → prepare (t_handler th) (header_of th i ci c) (t_new th) e = Done (Send true m) →
  unicast_ok e = true → sending t th i ci e w = Fault InvalidFree.
Proof.
  intros Hc Hp Hu. unfold sending. rewrite Hc. cbn [mbind outcome_bind]. rewrite Hp. cbn [mbind outcome_bind kmalloc].
  unfold nl_send. rewrite Hu. rewrite kfree_live by (cbn; set_solver). cbn [mbind outcome_bind].
  unfold kfree. cbn [live with_heap log_event with_events with_link_sem]. rewrite bool_decide_eq_false_2 by set_solver. reflexivity.
Qed.

(** The others free a pointer that was never set. *)
Lemma garbage_is_freed t th i ci e w c m a :
  at_index (wedge_calls w) ci = Done c → prepare (t_handler th) (header_of th i ci c) (t_new th) e = Done (Send false m) →
  stack_buf e = Some a → a ∉ live w → a ≠ next_ptr w → sending t th i ci e w = Fault InvalidFree.
Proof.
  intros Hc Hp Hb Ha Hne. unfold sending. rewrite Hc. cbn [mbind outcome_bind]. rewrite Hp. cbn [mbind outcome_bind kmalloc].
  unfold nl_send. destruct (unicast_ok e); [rewrite kfree_live by (cbn; set_solver) |]; cbn [mbind outcome_bind]; rewrite Hb;
    unfold kfree; cbn [live with_heap log_event with_events with_link_sem]; rewrite bool_decide_eq_false_2 by set_solver; reflexivity.
Qed.

(** A second release of a socket returns with the lock taken; whoever calls next waits for ever. *)
Lemma second_release_keeps_lock t th e w s :
  kind_of (t_handler th) = Releasing → t_sk th ∉ locks w → interrupted e = false → 0 < wedge_sockets_sem w →
  at_index (wedge_sockets w) (wedge_sockets_find (get_unique_sock_id (t_sk th)) (wedge_sockets w)) = Done s → release_flag s = true →
  ∃ w', locking t th e w = Done (Some w') ∧ t_sk th ∈ locks w' ∧ calls w' = delete t (calls w).
Proof.
  intros Hk Hl He Hs Hi Hr. unfold locking. rewrite bool_decide_eq_false_2 by exact Hl. rewrite with_down_free by assumption.
  rewrite Hk. cbn [wedge_sockets lock_sock with_locks]. rewrite (proj2 (Z.eqb_neq _ _)); [| intros E; rewrite E in Hi; discriminate].
  rewrite Hi. cbn [mbind outcome_bind]. rewrite Hr. eexists. split; [reflexivity |]. cbn. split; [set_solver | reflexivity].
Qed.

(** While a socket is removed, a thread that has counted itself but has no slot makes the remover
    give the semaphore back and go on without it; at the end it gives it back again. *)
Lemma remover_gives_sem_twice t th i j rc e w s n :
  0 <= j < 22 → at_index (wedge_sockets w) i = Done s → at_index (threads s) j = Done n → 1 <= n → j ≠ type_of (t_handler th) →
  interrupted e = false → 0 < wedge_calls_sem w → wedge_calls_find (get_unique_sock_id (t_sk th)) j (wedge_calls w) = -1 →
  ∃ w', removing t th i j rc e w = Done (Some w') ∧ wedge_sockets_sem w' = wedge_sockets_sem w + 1
        ∧ calls w' = <[t := at_place (Removing i (j + 1) rc) th]> (calls w).
Proof.
  intros Hj Hi Ht Hn Hty He Hc Hf. unfold removing. rewrite (proj2 (Z.eqb_neq _ _)) by (unfold MAX_CALL_TYPES; lia). rewrite Hi. cbn [mbind outcome_bind]. rewrite Ht.
  cbn [mbind outcome_bind]. rewrite (proj2 (Z.ltb_ge n 1)) by lia. rewrite (proj2 (Z.eqb_neq j _)) by exact Hty. cbn [orb andb].
  rewrite with_down_free by assumption. cbn [wedge_calls with_sockets_sem]. rewrite Hf. eexists. split; [reflexivity |]. split; reflexivity.
Qed.

(** ** Sample runs *)

Definition sample_env : env :=
  {| new_sk := Some 4096; allocated := true; unicast_ok := true; stack_buf := None; interrupted := false; copied := true; memory := [] |}.

Definition zero_call : wedge_call :=
  {| running := 0; call_id := 0; call_type := 0; call_sock_id := 0; call_sock_index := 0; wait_sem := 0; reply := false; ret := 0; msg := 0;
     buf := []; len := 0 |}.

Definition sample_init : wedge :=
  wifu_wedge_init (replicate MAX_SOCKETS (new_socket 0 0)) (replicate MAX_CALLS zero_call).

(** A response of 20 bytes. *)
Definition response (type fd return_value : Z) : list Z :=
  le_bytes 4 type ++ le_bytes 4 20 ++ le_bytes 4 fd ++ le_bytes 4 return_value ++ le_bytes 4 0.

(** The daemon registers, and a thread creates the socket 7. *)
Definition sample_create : list (action * env) :=
  map (fun a => (a, sample_env))
    [Receive 99 (le_bytes 4 daemon_start_call); Start 1 (wifu_create 1 6) 7; Go 1; Go 1; Go 1; Receive 99 (response WIFU_SOCKET 4096 0); Go 1; Go 1; Go 1].

(** Two threads call bind and listen on it; the answers come in the other order, and the daemon
    refuses the bind. *)
Definition sample_run : list (action * env) :=
  sample_create ++
  map (fun a => (a, sample_env))
    [Start 1 (wifu_bind (replicate 16 1)) 7; Go 1; Go 1; Go 1; Start 2 (wifu_listen 5) 7; Go 2; Go 2; Go 2;
     Receive 99 (response WIFU_LISTEN 4096 0); Receive 99 (response WIFU_BIND 4096 (2 ^ 32 - 1)); Go 1; Go 1; Go 1; Go 2; Go 2; Go 2].

Definition results (w : wedge) : list (nat * Z) := omap (fun e => match e with Returned t rc _ => Some (t, rc) | _ => None end) (events w).

Lemma wedge_answers_matched_witness :
  ∃ w, run sample_run sample_init = Done (Some w) ∧ results w = [(1%nat, 0); (1%nat, 0); (2%nat, 0)]
    ∧ ∀ t th c, Woken t th c ∈ events w → reply c = true → answers th c (events w).
Proof.
  assert (match run sample_run sample_init with Done (Some w) => results w | _ => [] end = [(1%nat, 0); (1%nat, 0); (2%nat, 0)]) as R by (vm_compute; reflexivity).
  destruct (run sample_run sample_init) as [[w |] | f] eqn:E; [| discriminate R | discriminate R].
  exists w. split; [reflexivity |]. split; [exact R |].
  refine (proj2 (wedge_answers_matched (replicate MAX_SOCKETS (new_socket 0 0)) (replicate MAX_CALLS zero_call) sample_run w _ E)).
  vm_compute. reflexivity.
Defined.

Definition sample_wedge : wedge := match run sample_create sample_init with Done (Some w) => w | _ => sample_init end.

Lemma sample_ready type : 0 <= type < 22 → ready sample_wedge 2 7 4096 0 type.
Proof.
  intros Ht. split.
  - vm_compute. discriminate.
  - vm_compute. reflexivity.
  - vm_compute. reflexivity.
  - assert (bool_decide (4096 ∈ locks sample_wedge) = false) as H by (vm_compute; reflexivity). exact (bool_decide_eq_false_1 _ H).
  - split; vm_compute; reflexivity.
  - split; [vm_compute; reflexivity | discriminate].
  - exists (new_socket 4096 4096), 0. split; [vm_compute; reflexivity |]. split; [| lia].
    unfold at_index. rewrite (proj2 (Z.ltb_ge _ _)) by lia. cbn [threads new_socket]. rewrite lookup_replicate_2 by (unfold MAX_CALL_TYPES; lia). reflexivity.
Qed.

(** A send of three bytes that the daemon takes. *)
Definition sample_sendmsg : handler := wifu_sendmsg [] [[1; 2]; [3]] 0.

