(* ===== verification/CorePacket.v ===== *)
(** * WiFu Core: classes Packet and IPPacket (core/src/packet)

    WiFu Core is the second program of the repository: netfilter hands it the IP packets of
    one host, a handler may change each of them, and a verdict returns it to the kernel. A
    packet here is the received buffer from [payload_] on, the number of its bytes that are
    the packet, and where it came from. A handler may put a shim header between the IP header
    and what follows it; [insert_shim] and [remove_shim] are the operations, and the two
    virtual methods they call ([make_room_for_shim], [cleanup_shim]) are the class
    [Shimmable], which plain IP packets instantiate here and TCP and UDP packets in
    CoreTransport. *)
From stdpp Require Import pretty.
From S2P Require Import Prelude.
From S2P Require Import HeaderMem.
From S2P Require Import Inet.
From S2P Require Import IPPacket.

#[local] Open Scope string_scope.
#[local] Open Scope Z_scope.

(** ** Constants (common/defines.h, packet/wifu_protocol.h, <linux/netfilter.h>) *)

Definition BUF_SIZE : nat := 4096.
Definition TCP : Z := 6.
Definition MAX_IP_LENGTH : Z := 1500.
Definition NUM_WORDS : Z := 4.
Definition WIFU_PROTOCOL : Z := 253.
Definition WIFU_VERSION : Z := 1.
Definition WIFU_LENGTH : Z := 4.
Definition NF_DROP : Z := 0.
Definition NF_ACCEPT : Z := 1.

Definition newline : string := String (Ascii.ascii_of_nat 10) "".
(** [stream << n] *)
Definition show (n : Z) : string := pretty (Z.to_N n).

(** ** Memory reads

    [memcpy]'s source: [len] bytes from [off] on. A negative length is a huge [size_t]. *)
Definition memread (m : mem) (off : nat) (len : Z) : outcome (list Z) :=
  if decide (0 ≤ len ∧ Z.of_nat off + len ≤ Z.of_nat (length m))
  then Done (slice m off (Z.to_nat len)) else Fault OutOfBounds.

(** One byte through a pointer. *)
Definition load (m : mem) (off : nat) : outcome Z :=
  match m !! off with Some b => Done b | None => Fault OutOfBounds end.

(** ** class Packet *)

Inductive Filter := input | output | forward | prerouting | postrouting.

#[export] Instance filter_eq_dec : EqDecision Filter.
Proof. solve_decision. Defined.

(** [payload_] is the memory from the pointer to the end of its buffer. *)
Record packet := {
  id_ : Z;
  payload_length_ : Z;
  payload_ : mem;
  filter_ : Filter;
  preserve_payload_ : bool }.

Definition with_buffer (m : mem) (p : packet) : packet :=
  {| id_ := id_ p; payload_length_ := payload_length_ p; payload_ := m; filter_ := filter_ p;
     preserve_payload_ := preserve_payload_ p |}.

Definition with_length (n : Z) (p : packet) : packet :=
  {| id_ := id_ p; payload_length_ := n; payload_ := payload_ p; filter_ := filter_ p;
     preserve_payload_ := preserve_payload_ p |}.

(** What [nfq_set_verdict] is given: the packet's id, the verdict and the replacement payload. *)
Record verdict := { verdict_id : Z; verdict_code : Z; verdict_payload : option (list Z) }.

(** The call reads [payload_length_] bytes when the payload is used. *)
Definition set_verdict (code : Z) (use_payload : bool) (p : packet) : outcome verdict :=
  if use_payload
  then bytes ← memread (payload_ p) 0 (payload_length_ p);
       Done {| verdict_id := id_ p; verdict_code := code; verdict_payload := Some bytes |}
  else Done {| verdict_id := id_ p; verdict_code := code; verdict_payload := None |}.

Definition accept : packet → outcome verdict := set_verdict NF_ACCEPT true.
Definition accept_payload (use_payload : bool) : packet → outcome verdict := set_verdict NF_ACCEPT use_payload.
Definition drop_packet : packet → outcome verdict := set_verdict NF_DROP false.

Definition id (p : packet) : Z := id_ p.
Definition get_payload_length (p : packet) : Z := payload_length_ p.
Definition get_filter (p : packet) : Filter := filter_ p.

Definition get_filter_s (p : packet) : string :=
  match filter_ p with
  | input => "input"
  | output => "output"
  | forward => "forward"
  | prerouting => "prerouting"
  | postrouting => "postrouting"
  end.

Definition is_output (p : packet) : bool := bool_decide (filter_ p = output).
Definition is_input (p : packet) : bool := bool_decide (filter_ p = input).
Definition is_forward (p : packet) : bool := bool_decide (filter_ p = forward).
Definition is_prerouting (p : packet) : bool := bool_decide (filter_ p = prerouting).
Definition is_postrouting (p : packet) : bool := bool_decide (filter_ p = postrouting).

Definition packet_to_s (p : packet) : string :=
  "netfilter " +:+ get_filter_s p +:+ " " +:+ show (get_payload_length p).

Definition packet_to_s_format : string := "# netfilter filter payload_length".

(** ** class IPPacket: header fields *)

Definition get_field (f : field) (p : packet) : Z := get f (payload_ p).
Definition set_field (f : field) (v : Z) (p : packet) : packet := with_buffer (put f v (payload_ p)) p.

Definition get_ip_version : packet → Z := get_field f_version.
Definition set_ip_version (version : Z) : packet → packet := set_field f_version version.
Definition get_ip_length : packet → Z := get_field f_ihl.
Definition get_ip_length_bytes (p : packet) : Z := u8 (get_ip_length p * NUM_WORDS).
Definition set_ip_length (ihl : Z) : packet → packet := set_field f_ihl ihl.
Definition get_ip_tos : packet → Z := get_field f_tos.
Definition set_ip_tos (tos : Z) : packet → packet := set_field f_tos tos.
Definition get_ip_datagram_length : packet → Z := get_field f_tot_len.
Definition set_ip_datagram_length (length : Z) : packet → packet := set_field f_tot_len length.
Definition get_ip_identifier : packet → Z := get_field f_id.
Definition set_ip_identifier (identifier : Z) : packet → packet := set_field f_id identifier.
Definition get_ip_fragmentation_offset : packet → Z := get_field f_frag_off.
Definition set_ip_fragmentation_offset (frag_off : Z) : packet → packet := set_field f_frag_off frag_off.
Definition get_ip_ttl : packet → Z := get_field f_ttl.
Definition set_ip_ttl (ttl : Z) : packet → packet := set_field f_ttl ttl.
Definition get_ip_protocol : packet → Z := get_field f_protocol.
Definition set_ip_protocol (protocol : Z) : packet → packet := set_field f_protocol protocol.
Definition get_ip_checksum : packet → Z := get_field f_check.
Definition set_ip_checksum (checksum : Z) : packet → packet := set_field f_check checksum.
Definition get_ip_source_address : packet → Z := get_field f_saddr.
Definition set_ip_source_address (saddr : Z) : packet → packet := set_field f_saddr saddr.
Definition get_ip_destination_address : packet → Z := get_field f_daddr.
Definition set_ip_destination_address (daddr : Z) : packet → packet := set_field f_daddr daddr.

Definition get_ip_source_address_s (p : packet) : string := inet_ntop (get_ip_source_address p).
Definition set_ip_source_address_s (saddr : string) (p : packet) : packet :=
  match inet_pton saddr with Some a => set_ip_source_address a p | None => p end.
Definition get_ip_destination_address_s (p : packet) : string := inet_ntop (get_ip_destination_address p).
Definition set_ip_destination_address_s (daddr : string) (p : packet) : packet :=
  match inet_pton daddr with Some a => set_ip_destination_address a p | None => p end.

Definition ip_to_s (p : packet) : string :=
  packet_to_s p +:+ newline +:+ "ip " +:+ get_ip_source_address_s p +:+ " "
  +:+ get_ip_destination_address_s p +:+ " " +:+ show (get_ip_protocol p) +:+ " "
  +:+ show (get_ip_datagram_length p) +:+ " " +:+ show (get_ip_length_bytes p) +:+ " "
  +:+ show (get_ip_ttl p).

Definition ip_to_s_format : string :=
  packet_to_s_format +:+ newline +:+ "# ip source destination protocol datagram_length ihl ttl".

(** [IPPacket::checksum]: the loops of transport/src/packet/IPPacket.cc, word for word. *)
Definition checksum : list Z → Z := IPPacket.checksum.

(** The checksum of the first [sizeof(struct iphdr)] bytes, options not included. *)
Definition recalculate_ip_checksum (p : packet) : packet :=
  let p := set_ip_checksum 0 p in
  set_ip_checksum (checksum (slice (payload_ p) 0 sizeof_iphdr)) p.

(** The WiFu header's fields, for a header at offset [o]: version, type, protocol, length. *)
Definition wifu_version (o : nat) : field := byte o.
Definition wifu_type (o : nat) : field := byte (1 + o).
Definition wifu_protocol (o : nat) : field := byte (2 + o).
Definition wifu_len (o : nat) : field := byte (3 + o).

(** Pointers into the payload are offsets. *)
Definition get_next_header (p : packet) : nat :=
  let ip_length := Z.to_nat (get_ip_length_bytes p) in
  if get_ip_protocol p =? WIFU_PROTOCOL
  then (ip_length + Z.to_nat WIFU_LENGTH + Z.to_nat (get_field (wifu_len ip_length) p))%nat
  else ip_length.

Definition get_wifu (p : packet) : option nat :=
  if get_ip_protocol p =? WIFU_PROTOCOL then Some (Z.to_nat (get_ip_length_bytes p)) else None.

Definition get_shim (p : packet) : option nat :=
  if get_ip_protocol p =? WIFU_PROTOCOL
  then Some (Z.to_nat (get_ip_length_bytes p) + Z.to_nat WIFU_LENGTH)%nat else None.

(** ** The interface of a packet class that carries shims

    [ip_part] is the [IPPacket] base object; the two methods are the virtual ones. The laws say
    what [insert_shim] and [remove_shim] rely on: making room keeps the header and the
    lengths, and cleaning up touches only the derived object's own pointer. *)
Class Shimmable (T : Type) := {
  ip_part : T → packet;
  with_ip_part : packet → T → T;
  make_room_for_shim : Z → T → outcome T;
  cleanup_shim : T → T }.

(** [IPPacket]'s own methods do nothing. *)
#[export] Instance ip_shimmable : Shimmable packet := {
  ip_part p := p;
  with_ip_part q _ := q;
  make_room_for_shim _ p := Done p;
  cleanup_shim p := p }.

Section Shim.

(** The content of arrays the code does not initialise ([unsigned char mangle[BUF_SIZE]],
    [new unsigned char[BUF_SIZE]]). *)
Variable uninitialised : mem.

(** [copy_payload()], run by both constructors. *)
Definition copy_payload (p : packet) : outcome packet :=
  if preserve_payload_ p && (0 <? payload_length_ p)
  then bytes ← memread (payload_ p) 0 (payload_length_ p);
       buf ← memcpy uninitialised 0 bytes;
       Done (with_buffer buf p)
  else Done p.

Definition new_packet (id payload_length : Z) (payload : mem) (filter : Filter) (preserve_payload : bool) : outcome packet :=
  copy_payload {| id_ := id; payload_length_ := payload_length; payload_ := payload; filter_ := filter;
                  preserve_payload_ := preserve_payload |}.

(** The constructor from another packet, with its default [preserve_payload = true]. *)
Definition copy_packet (p : packet) : outcome packet :=
  copy_payload {| id_ := id_ p; payload_length_ := payload_length_ p; payload_ := payload_ p;
                  filter_ := filter_ p; preserve_payload_ := true |}.

Context {T : Type} `{Shimmable T}.

Definition insert_shim (shim : mem) (shim_type shim_length : Z) (x : T) : outcome T :=
  x ← make_room_for_shim shim_length x;
  let p := ip_part x in
  let wifu_length := WIFU_LENGTH + shim_length in
  let new_length := u16 (get_ip_datagram_length p + wifu_length) in
  if MAX_IP_LENGTH <? new_length then Done x
  else
    let mangle_length := payload_length_ p + wifu_length in
    let mangle := uninitialised in
    let ip_length := get_ip_length_bytes p in
    let protocol := get_ip_protocol p in
    let p := set_ip_protocol WIFU_PROTOCOL p in
    let p := set_ip_datagram_length new_length p in
    let p := recalculate_ip_checksum p in
    header ← memread (payload_ p) 0 ip_length;
    mangle ← memcpy mangle 0 header;
    let wifu := Z.to_nat ip_length in
    mangle ← memcpy mangle wifu [WIFU_VERSION; shim_type; protocol; shim_length];
    let new_shim := (wifu + Z.to_nat WIFU_LENGTH)%nat in
    shim_bytes ← memread shim 0 shim_length;
    mangle ← memcpy mangle new_shim shim_bytes;
    let data := Z.to_nat (ip_length + wifu_length) in
    orig ← memread (payload_ p) (Z.to_nat ip_length) (payload_length_ p - ip_length);
    mangle ← memcpy mangle data orig;
    whole ← memread mangle 0 mangle_length;
    payload ← memcpy (payload_ p) 0 whole;
    Done (cleanup_shim (with_ip_part (with_length mangle_length (with_buffer payload p)) x)).

Definition remove_shim (x : T) : outcome T :=
  let p := ip_part x in
  if negb (get_ip_protocol p =? WIFU_PROTOCOL) then Done x
  else
    let ip_length := get_ip_length_bytes p in
    let wifu := Z.to_nat ip_length in
    let shim_length := get_field (wifu_len wifu) p in
    let mangle := uninitialised in
    let wifu_length := WIFU_LENGTH + shim_length in
    let new_length := u16 (get_ip_datagram_length p - wifu_length) in
    let p := set_ip_protocol (get_field (wifu_protocol wifu) p) p in
    let p := set_ip_datagram_length new_length p in
    let p := recalculate_ip_checksum p in
    header ← memread (payload_ p) 0 ip_length;
    mangle ← memcpy mangle 0 header;
    let mangle_length := payload_length_ p - wifu_length in
    orig ← memread (payload_ p) (Z.to_nat (ip_length + wifu_length)) (mangle_length - ip_length);
    mangle ← memcpy mangle (Z.to_nat ip_length) orig;
    whole ← memread mangle 0 mangle_length;
    payload ← memcpy (payload_ p) 0 whole;
    Done (cleanup_shim (with_ip_part (with_length mangle_length (with_buffer payload p)) x)).

End Shim.

(** ** Memory that is built piece by piece *)

#[local] Open Scope list_scope.

Lemma memread_middle a b c (off : nat) len :
  off = length a → len = Z.of_nat (length b) → memread (a ++ b ++ c) off len = Done b.
Proof.
  intros -> ->. unfold memread. rewrite decide_True by (rewrite !length_app; lia). f_equal. unfold slice.
  rewrite Nat2Z.id, drop_app_length, take_app_length. reflexivity.
Qed.

Lemma memread_prefix b c len : len = Z.of_nat (length b) → memread (b ++ c) 0 len = Done b.
Proof. intros. apply (memread_middle [] b c); [reflexivity | assumption]. Qed.

(** Copying behind what was copied before. *)
Lemma memcpy_append pre tail (off : nat) d :
  off = length pre → (length d ≤ length tail)%nat →
  memcpy (pre ++ tail) off d = Done ((pre ++ d) ++ drop (length d) tail).
Proof.
  intros -> H. rewrite memcpy_fits by (rewrite length_app; lia).
  rewrite take_app_length, drop_app_add, app_assoc. reflexivity.
Qed.

Lemma memcpy_prefix m d :
  (length d ≤ length m)%nat → memcpy m 0 d = Done (d ++ drop (length d) m).
Proof. intros. apply (memcpy_append [] m); [reflexivity | assumption]. Qed.

Lemma byte_at_app_l a b i : (i < length a)%nat → byte_at (a ++ b) i = byte_at a i.
Proof. intros. unfold byte_at. rewrite lookup_app_l by assumption. reflexivity. Qed.

Lemma byte_at_app_r a b i : byte_at (a ++ b) (length a + i) = byte_at b i.
Proof. unfold byte_at. rewrite lookup_app_r by lia. do 2 f_equal. lia. Qed.

Lemma get_app f a b : field_ok (length a) f = true → get f (a ++ b) = get f a.
Proof.
  intros (Hf & _ & _)%field_ok_spec. apply get_ext. intros o Ho. apply byte_at_app_l.
  rewrite List.Forall_forall in Hf. apply Hf, list_elem_of_In, Ho.
Qed.

Lemma put_bytes_app offs v a b :
  Forall (fun o => o < length a)%nat offs → put_bytes offs v (a ++ b) = put_bytes offs v a ++ b.
Proof.
  revert v. induction offs as [|o r IH]; intros v H; cbn; [reflexivity |]. apply Forall_cons in H as [Ho Hr].
  rewrite IH by assumption. rewrite insert_app_l by (rewrite length_put_bytes; assumption). reflexivity.
Qed.

Lemma put_app f v a b : field_ok (length a) f = true → put f v (a ++ b) = put f v a ++ b.
Proof.
  intros (Hf & _ & _)%field_ok_spec. destruct f as [offs | o s w]; cbn in *; [apply put_bytes_app, Hf |].
  apply Forall_cons in Hf as [Ho _]. rewrite byte_at_app_l, insert_app_l by assumption. reflexivity.
Qed.

Lemma take_app_prefix (n : nat) (a b : mem) : (n ≤ length a)%nat → take n (a ++ b) = take n a.
Proof. intros. apply take_app_le. assumption. Qed.

(** ** Rewriting the IP header *)

(** The header [h] with its checksum recalculated. *)
Definition checksummed (h : mem) : mem :=
  put f_check (checksum (slice (put f_check 0 h) 0 sizeof_iphdr)) (put f_check 0 h).

(** The header with another protocol and length. *)
Definition stamp (protocol len : Z) (h : mem) : mem := checksummed (put f_tot_len len (put f_protocol protocol h)).

(** A header of at least 20 bytes is its twenty fixed bytes and its options. *)
Lemma header_bytes (h : mem) :
  (20 ≤ length h)%nat →
  ∃ b0 b1 b2 b3 b4 b5 b6 b7 b8 b9 b10 b11 b12 b13 b14 b15 b16 b17 b18 b19 o,
    h = [b0; b1; b2; b3; b4; b5; b6; b7; b8; b9; b10; b11; b12; b13; b14; b15; b16; b17; b18; b19] ++ o.
Proof. intros H. do 20 (destruct h as [| ? h]; [cbn in H; lia |]). repeat eexists. Qed.

Ltac header_cases h H :=
  destruct (header_bytes h H)
    as (? & ? & ? & ? & ? & ? & ? & ? & ? & ? & ? & ? & ? & ? & ? & ? & ? & ? & ? & ? & ? & ->).

Lemma length_stamp pr n h : length (stamp pr n h) = length h.
Proof. unfold stamp, checksummed. rewrite !length_put. reflexivity. Qed.

Lemma checksummed_app h t :
  (20 ≤ length h)%nat → checksummed (h ++ t) = checksummed h ++ t.
Proof. intros H. header_cases h H. reflexivity. Qed.

Lemma stamp_app pr n h t : (20 ≤ length h)%nat → stamp pr n (h ++ t) = stamp pr n h ++ t.
Proof. intros H. header_cases h H. reflexivity. Qed.

Lemma get_stamp_ihl pr n h : (20 ≤ length h)%nat → get f_ihl (stamp pr n h) = get f_ihl h.
Proof. intros H. header_cases h H. reflexivity. Qed.

Lemma get_stamp_protocol pr n h : (20 ≤ length h)%nat → get f_protocol (stamp pr n h) = u8 pr.
Proof. intros H. header_cases h H. cbn -[Z.modulo]. unfold byte_at, u8. cbn -[Z.modulo]. word_lia. Qed.

Lemma get_stamp_total pr n h : (20 ≤ length h)%nat → get f_tot_len (stamp pr n h) = u16 n.
Proof.
  intros H. unfold stamp, checksummed. rewrite !get_put_other by (rewrite ?length_put; header_cases h H; reflexivity).
  rewrite get_put_same by (rewrite ?length_put; header_cases h H; reflexivity). reflexivity.
Qed.

(** Only the last stamp counts. *)
Lemma stamp_stamp pr n pr' n' h : (20 ≤ length h)%nat → stamp pr n (stamp pr' n' h) = stamp pr n h.
Proof. intros H. header_cases h H. reflexivity. Qed.

(** The checksum field holds what [recalculate_ip_checksum] would put there. *)
Definition header_checksum_ok (h : mem) : Prop := checksummed h = h.

Lemma stamp_ok pr n h : (20 ≤ length h)%nat → header_checksum_ok (stamp pr n h).
Proof. intros H. header_cases h H. reflexivity. Qed.

Lemma put_get_tot_len h : Forall is_byte h → (20 ≤ length h)%nat → put f_tot_len (get f_tot_len h) h = h.
Proof.
  intros Hb H. header_cases h H. rewrite Forall_app, !Forall_cons in Hb. unfold is_byte in Hb. cbn. unfold byte_at. cbn.
  repeat f_equal; word_lia.
Qed.

Lemma stamp_id h :
  Forall is_byte h → (20 ≤ length h)%nat → header_checksum_ok h → stamp (get f_protocol h) (get f_tot_len h) h = h.
Proof.
  intros Hb H Hc. unfold stamp.
  assert (put f_protocol (get f_protocol h) h = h) as ->.
  { header_cases h H. rewrite Forall_app, !Forall_cons in Hb. unfold is_byte in Hb. cbn. unfold byte_at. cbn. repeat f_equal. word_lia. }
  rewrite put_get_tot_len by assumption. exact Hc.
Qed.

Lemma stamp_is_byte pr n h : Forall is_byte h → (20 ≤ length h)%nat → Forall is_byte (stamp pr n h).
Proof.
  intros Hb H. unfold stamp, checksummed. repeat (apply put_is_byte; [rewrite ?length_put; header_cases h H; reflexivity |]). exact Hb.
Qed.

(** ** What a packet's buffer holds *)

(** The packet's bytes are [c], and its buffer has room for [slack] more. *)
Definition holds (p : packet) (c : mem) (slack : nat) : Prop :=
  ∃ tail, payload_ p = c ++ tail ∧ payload_length_ p = Z.of_nat (length c) ∧ (slack ≤ length tail)%nat.

(** A datagram as the kernel hands it up: a header [h] of the length it says, with its total
    length and checksum right, and what follows it. *)
Record datagram (h rest : mem) : Prop := {
  dg_bytes : Forall is_byte (h ++ rest);
  dg_ihl : 5 ≤ get f_ihl h;
  dg_length : Z.of_nat (length h) = 4 * get f_ihl h;
  dg_total : get f_tot_len h = Z.of_nat (length (h ++ rest));
  dg_check : header_checksum_ok h }.

Lemma ihl_bound h : Forall is_byte h → 0 ≤ get f_ihl h < 16.
Proof. intros H. apply (get_bound f_ihl h H). Qed.

Lemma datagram_header h rest : datagram h rest → (20 ≤ length h ≤ 60)%nat ∧ Forall is_byte h ∧ Forall is_byte rest.
Proof.
  intros [Hb Hi Hl _ _]. apply Forall_app in Hb as [Hh Hr]. pose proof (ihl_bound h Hh). repeat split; [lia | lia | assumption..].
Qed.

(** The IP header fields of a packet are those of the header its buffer starts with. *)
Lemma get_field_head f p h t :
  payload_ p = h ++ t → field_ok (length h) f = true → get_field f p = get f h.
Proof. unfold get_field. intros -> H. apply get_app, H. Qed.

Lemma ip_header_field_ok (h : mem) f : (20 ≤ length h)%nat → field_ok 20 f = true → field_ok (length h) f = true.
Proof.
  intros H Hf. pose proof (field_ok_spec _ _ Hf) as (Ho & Hn & Hw). unfold field_ok in *.
  apply andb_true_iff in Hf as [Hf H3]. apply andb_true_iff in Hf as [H1 H2]. rewrite H2, H3, !andb_true_r.
  rewrite forallb_forall in *. intros o Hin. specialize (H1 o Hin). apply Nat.ltb_lt in H1. apply Nat.ltb_lt. lia.
Qed.

(** The header fields of a packet whose buffer starts with [h]. *)
Lemma head_fields p h t :
  payload_ p = h ++ t → (20 ≤ length h)%nat → Forall is_byte h → Z.of_nat (length h) = 4 * get f_ihl h →
  get_ip_length_bytes p = Z.of_nat (length h) ∧ get_ip_protocol p = get f_protocol h ∧
  get_ip_datagram_length p = get f_tot_len h.
Proof.
  intros Hp H Hb Hl. unfold get_ip_length_bytes, get_ip_length, get_ip_protocol, get_ip_datagram_length, NUM_WORDS.
  rewrite !(get_field_head _ p h t) by (exact Hp || (apply ip_header_field_ok; [exact H | reflexivity])).
  pose proof (ihl_bound h Hb). repeat split; [| reflexivity..]. rewrite u8_small by word_lia. lia.
Qed.

(** What [insert_shim] and [remove_shim] do to the header. *)
Lemma restamped p h t pr n :
  payload_ p = h ++ t → (20 ≤ length h)%nat →
  payload_ (recalculate_ip_checksum (set_ip_datagram_length n (set_ip_protocol pr p))) = stamp pr n h ++ t.
Proof. intros Hp H. rewrite <- stamp_app by assumption. cbn [payload_ recalculate_ip_checksum set_ip_checksum set_ip_datagram_length set_ip_protocol set_field with_buffer]. rewrite Hp. reflexivity. Qed.

Lemma restamped_length p pr n :
  payload_length_ (recalculate_ip_checksum (set_ip_datagram_length n (set_ip_protocol pr p))) = payload_length_ p.
Proof. reflexivity. Qed.

Lemma word_bytes_range (h : mem) i : Forall is_byte h → is_byte (byte_at h i).
Proof. intros. apply byte_at_is_byte. assumption. Qed.

(** What the laws of [Shimmable] promise to [insert_shim] and [remove_shim]. *)
Class ShimmableLaws (T : Type) `{Shimmable T} := {
  ip_part_with q (x : T) : ip_part (with_ip_part q x) = q;
  ip_part_cleanup (x : T) : ip_part (cleanup_shim x) = ip_part x;
  make_room_id n (x x' : T) : make_room_for_shim n x = Done x' → id_ (ip_part x') = id_ (ip_part x) }.

#[export] Instance ip_shimmable_laws : ShimmableLaws packet.
Proof. split; [reflexivity.. | intros n x x' [= ->]; reflexivity]. Qed.

(** The bytes of the datagram with a shim. *)
Definition with_shim (h rest sb : mem) (ty : Z) : mem :=
  stamp WIFU_PROTOCOL (Z.of_nat (length (h ++ rest)) + (WIFU_LENGTH + Z.of_nat (length sb))) h
  ++ [WIFU_VERSION; ty; get f_protocol h; Z.of_nat (length sb)] ++ sb ++ rest.

(** A shim changes neither the packet's id ... *)
Lemma insert_shim_id {T} `{ShimmableLaws T} uninitialised shim ty n (x q : T) :
  insert_shim uninitialised shim ty n x = Done q → id_ (ip_part q) = id_ (ip_part x).
Proof.
  unfold insert_shim. intros E. apply outcome_bind_Done in E as (x' & Hr & E). rewrite <- (make_room_id _ _ _ Hr).
  destruct (_ <? _); outcome_inv; [reflexivity |]. rewrite ip_part_cleanup, ip_part_with. reflexivity.
Qed.

(** ... nor does its removal. *)
Lemma remove_shim_id {T} `{ShimmableLaws T} uninitialised (x q : T) :
  remove_shim uninitialised x = Done q → id_ (ip_part q) = id_ (ip_part x).
Proof.
  unfold remove_shim. intros E. destruct (negb _); outcome_inv; [reflexivity |]. rewrite ip_part_cleanup, ip_part_with. reflexivity.
Qed.

(** The packet with a shim is again a datagram: the rest of the network can forward it. *)
Lemma with_shim_datagram h rest sb ty :
  datagram h rest → Forall is_byte sb → is_byte ty → (length (h ++ rest) + 4 + length sb ≤ 1500)%nat → (length sb < 256)%nat →
  datagram (stamp WIFU_PROTOCOL (Z.of_nat (length (h ++ rest)) + (WIFU_LENGTH + Z.of_nat (length sb))) h)
    ([WIFU_VERSION; ty; get f_protocol h; Z.of_nat (length sb)] ++ sb ++ rest).
Proof.
  intros Hd Hsb Hty Hfit Hn. pose proof (datagram_header _ _ Hd) as (H20 & Hb & Hrest).
  split.
  - rewrite !Forall_app. split; [apply stamp_is_byte; [assumption | lia] |]. split; [| split; assumption].
    unfold WIFU_VERSION. repeat apply Forall_cons_2; [unfold is_byte; lia | assumption | apply (get_bound f_protocol h Hb) | unfold is_byte; lia | apply Forall_nil_2].
  - rewrite get_stamp_ihl by lia. apply (dg_ihl _ _ Hd).
  - rewrite length_stamp, get_stamp_ihl by lia. apply (dg_length _ _ Hd).
  - rewrite get_stamp_total by lia. rewrite !length_app, length_stamp in *. cbn [length]. unfold WIFU_LENGTH. rewrite u16_small by word_lia. lia.
  - apply stamp_ok. lia.
Qed.

Section ShimSpec.

Variable uninitialised : mem.
Hypothesis stack_size : length uninitialised = BUF_SIZE.
Context {T : Type} `{ShimmableLaws T}.

Lemma insert_shim_holds (x x' : T) h rest slack sb more ty :
  make_room_for_shim (Z.of_nat (length sb)) x = Done x' → holds (ip_part x') (h ++ rest) slack → datagram h rest →
  (length (h ++ rest) + 4 + length sb ≤ 1500)%nat → (4 + length sb ≤ slack)%nat →
  ∃ q, insert_shim uninitialised (sb ++ more) ty (Z.of_nat (length sb)) x = Done q ∧
       holds (ip_part q) (with_shim h rest sb ty) (slack - 4 - length sb).
Proof.
  intros Hr (tail & Hp & Hl & Hs) Hd Hfit Hslack. pose proof (datagram_header _ _ Hd) as (H20 & Hb & _).
  unfold insert_shim. rewrite Hr. cbn [mbind outcome_bind]. rewrite <- app_assoc in Hp.
  destruct (head_fields _ h _ Hp ltac:(lia) Hb (dg_length _ _ Hd)) as (El & Epr & Ed).
  set (n := Z.of_nat (length sb)) in *. rewrite El, Epr, Ed, (dg_total _ _ Hd).
  rewrite (u16_small (Z.of_nat (length (h ++ rest)) + _)) by (unfold WIFU_LENGTH; word_lia).
  rewrite (proj2 (Z.ltb_ge _ _)) by (unfold MAX_IP_LENGTH, WIFU_LENGTH; lia).
  rewrite (restamped _ h (rest ++ tail)) by (assumption || lia). cbn [payload_length_ with_length].
  rewrite restamped_length, Hl. unfold WIFU_LENGTH in *. rewrite length_app in *.
  remember (stamp WIFU_PROTOCOL _ h) as h' eqn:Eh'.
  assert (length h' = length h) as Hh' by (subst h'; apply length_stamp). unfold BUF_SIZE in stack_size.
  rewrite (memread_prefix h') by lia. cbn [mbind outcome_bind].
  rewrite memcpy_prefix by lia. cbn [mbind outcome_bind].
  rewrite (memcpy_append h') by (rewrite ?length_drop; cbn [length]; lia). cbn [mbind outcome_bind]. rewrite drop_drop.
  rewrite (memread_prefix sb) by reflexivity. cbn [mbind outcome_bind].
  rewrite memcpy_append by (rewrite ?length_app, ?length_drop; cbn [length]; lia). cbn [mbind outcome_bind]. rewrite drop_drop.
  rewrite (memread_middle h' rest tail) by lia. cbn [mbind outcome_bind].
  rewrite memcpy_append by (rewrite ?length_app, ?length_drop; cbn [length]; lia). cbn [mbind outcome_bind]. rewrite drop_drop.
  rewrite memread_prefix by (rewrite !length_app; cbn [length]; lia). cbn [mbind outcome_bind].
  rewrite memcpy_prefix by (rewrite !length_app; cbn [length]; lia). cbn [mbind outcome_bind].
  eexists. split; [reflexivity |]. rewrite ip_part_cleanup, ip_part_with. eexists. cbn [payload_ payload_length_ with_length with_buffer].
  unfold with_shim, WIFU_LENGTH. rewrite (length_app h rest). fold n. rewrite <- Eh'. split; [| split].
  - rewrite <- !app_assoc. reflexivity.
  - rewrite !length_app. cbn [length]. lia.
  - rewrite length_drop, !length_app. cbn [length]. lia.
Qed.

(** Without room under [MAX_IP_LENGTH] the packet stays as [make_room_for_shim] left it. *)
Lemma insert_shim_no_room (x x' : T) h rest slack shim ty n :
  make_room_for_shim n x = Done x' → holds (ip_part x') (h ++ rest) slack → datagram h rest → 0 ≤ n < 256 →
  1500 < Z.of_nat (length (h ++ rest)) + 4 + n < 2 ^ 16 →
  insert_shim uninitialised shim ty n x = Done x'.
Proof.
  intros Hr (tail & Hp & Hl & Hs) Hd Hn Hfit. pose proof (datagram_header _ _ Hd) as (H20 & Hb & _).
  unfold insert_shim. rewrite Hr. cbn [mbind outcome_bind]. rewrite <- app_assoc in Hp.
  destruct (head_fields _ h _ Hp ltac:(lia) Hb (dg_length _ _ Hd)) as (_ & _ & Ed). rewrite Ed, (dg_total _ _ Hd).
  rewrite u16_small by (unfold WIFU_LENGTH, is_u16; lia). rewrite (proj2 (Z.ltb_lt _ _)) by (unfold MAX_IP_LENGTH, WIFU_LENGTH; lia). reflexivity.
Qed.

Lemma remove_shim_holds (y : T) h v ty pr sb rest slack :
  holds (ip_part y) (h ++ [v; ty; pr; Z.of_nat (length sb)] ++ sb ++ rest) slack → Forall is_byte h → (20 ≤ length h)%nat →
  Z.of_nat (length h) = 4 * get f_ihl h → get f_protocol h = WIFU_PROTOCOL → is_byte pr → (length sb < 256)%nat →
  (length h + length rest ≤ BUF_SIZE)%nat →
  ∃ r, remove_shim uninitialised y = Done r ∧
       holds (ip_part r) (stamp pr (u16 (get f_tot_len h - (4 + Z.of_nat (length sb)))) h ++ rest) (slack + 4 + length sb).
Proof.
  intros (tail & Hp & Hl & Hs) Hb H20 Hlen Hpr Hprb Hn Hfit. unfold BUF_SIZE in *.
  set (n := Z.of_nat (length sb)) in *. rewrite <- !app_assoc in Hp.
  destruct (head_fields _ h _ Hp H20 Hb Hlen) as (El & Epr & Ed).
  assert (get_field (wifu_len (length h)) (ip_part y) = n) as Elen.
  { unfold get_field. rewrite Hp. unfold wifu_len, byte, get, get_bytes. rewrite Nat.add_comm, byte_at_app_r. unfold byte_at. cbn. lia. }
  assert (get_field (wifu_protocol (length h)) (ip_part y) = pr) as Ewp.
  { unfold get_field. rewrite Hp. unfold wifu_protocol, byte, get, get_bytes. rewrite Nat.add_comm, byte_at_app_r. unfold byte_at. cbn. lia. }
  unfold remove_shim. rewrite El, Epr, Ed, Hpr, Nat2Z.id, Elen, Ewp. cbn [negb Z.eqb WIFU_PROTOCOL Pos.eqb].
  rewrite (restamped _ h _) by eassumption. rewrite restamped_length, Hl.
  unfold WIFU_LENGTH. remember (stamp pr _ h) as h' eqn:Eh'. assert (length h' = length h) as Hh' by (subst h'; apply length_stamp).
  rewrite !length_app. cbn [length].
  rewrite (memread_prefix h') by lia. cbn [mbind outcome_bind]. rewrite memcpy_prefix by lia. cbn [mbind outcome_bind].
  replace (h' ++ [v; ty; pr; n] ++ sb ++ rest ++ tail) with ((h' ++ [v; ty; pr; n] ++ sb) ++ rest ++ tail) by (rewrite <- !app_assoc; reflexivity).
  rewrite (memread_middle (h' ++ [v; ty; pr; n] ++ sb) rest tail) by (rewrite ?length_app; cbn [length]; lia). cbn [mbind outcome_bind].
  rewrite memcpy_append by (rewrite ?length_drop; lia). cbn [mbind outcome_bind]. rewrite drop_drop.
  rewrite memread_prefix by (rewrite !length_app; cbn [length]; lia). cbn [mbind outcome_bind].
  rewrite memcpy_prefix by (rewrite !length_app; cbn [length]; lia). cbn [mbind outcome_bind].
  eexists. split; [reflexivity |]. rewrite ip_part_cleanup, ip_part_with. eexists. cbn [payload_ payload_length_ with_length with_buffer].
  split; [reflexivity | split].
  - rewrite !length_app. lia.
  - rewrite length_drop, !length_app. cbn [length]. lia.
Qed.

(** Whoever holds the packet with the shim gets the datagram back. *)
Lemma remove_shim_restores (y : T) h rest sb ty slack :
  holds (ip_part y) (with_shim h rest sb ty) slack → datagram h rest → (length sb < 256)%nat → (length (h ++ rest) + 4 + length sb ≤ 1500)%nat →
  ∃ r, remove_shim uninitialised y = Done r ∧ holds (ip_part r) (h ++ rest) (slack + 4 + length sb).
Proof.
  intros Hy Hd Hn Hfit. pose proof (datagram_header _ _ Hd) as (H20 & Hb & _). unfold with_shim in Hy.
  destruct (remove_shim_holds y _ _ _ _ sb rest slack Hy) as (r & E & Hr).
  - apply stamp_is_byte; [assumption | lia].
  - rewrite length_stamp. lia.
  - rewrite length_stamp, get_stamp_ihl by lia. apply (dg_length _ _ Hd).
  - rewrite get_stamp_protocol by lia. reflexivity.
  - apply (get_bound f_protocol h Hb).
  - assumption.
  - unfold BUF_SIZE. rewrite length_stamp. rewrite length_app in Hfit. lia.
  - exists r. split; [exact E |]. replace (h ++ rest) with (stamp (get f_protocol h) (get f_tot_len h) h ++ rest)
      by (rewrite stamp_id by (try apply Hd; assumption || lia); reflexivity).
    rewrite get_stamp_total, stamp_stamp in Hr by lia. rewrite (dg_total _ _ Hd).
    replace (u16 _) with (Z.of_nat (length (h ++ rest))) in Hr; [exact Hr |].
    unfold WIFU_LENGTH. rewrite u16_small by word_lia. rewrite u16_small by word_lia. lia.
Qed.

End ShimSpec.

(** ** Shims are transparent

    The header accessors of a packet that carries a shim find the WiFu header, the shim and
    what followed the IP header. *)
Lemma slice_at a b c (off len : nat) : off = length a → len = length b → slice (a ++ b ++ c) off len = b.
Proof. intros -> ->. unfold slice. rewrite drop_app_length. apply take_app_length. Qed.

Lemma shim_accessors q h rest sb ty slack :
  holds q (with_shim h rest sb ty) slack → datagram h rest → (length sb < 256)%nat →
  get_ip_protocol q = WIFU_PROTOCOL ∧
  get_wifu q = Some (length h) ∧
  slice (payload_ q) (length h) 4 = [WIFU_VERSION; ty; get f_protocol h; Z.of_nat (length sb)] ∧
  get_shim q = Some (length h + 4)%nat ∧
  slice (payload_ q) (length h + 4) (length sb) = sb ∧
  slice (payload_ q) (get_next_header q) (length rest) = rest.
Proof.
  intros (tail & Hp & _ & _) Hd Hn. pose proof (datagram_header _ _ Hd) as (H20 & Hb & _). unfold with_shim in Hp.
  remember (stamp _ _ h) as h' eqn:Eh'. assert (length h' = length h) as Hh' by (subst h'; apply length_stamp).
  rewrite <- !app_assoc in Hp.
  destruct (head_fields q h' _ Hp) as (El & Epr & _).
  { lia. } { subst h'. apply stamp_is_byte; [assumption | lia]. }
  { subst h'. rewrite length_stamp, get_stamp_ihl by lia. apply (dg_length _ _ Hd). }
  assert (get f_protocol h' = WIFU_PROTOCOL) as Hpr by (subst h'; rewrite get_stamp_protocol by lia; reflexivity).
  assert (get_field (wifu_len (length h)) q = Z.of_nat (length sb)) as Elen.
  { unfold get_field. rewrite Hp, <- Hh'. unfold wifu_len, byte, get, get_bytes. rewrite Nat.add_comm, byte_at_app_r. unfold byte_at. cbn. lia. }
  unfold get_wifu, get_shim, get_next_header. rewrite Epr, Hpr, El, Nat2Z.id, Hh', Elen, Nat2Z.id. cbn [Z.eqb WIFU_PROTOCOL Pos.eqb]. rewrite Hp.
  unfold WIFU_LENGTH. change (Z.to_nat 4) with 4%nat. repeat split.
  - apply slice_at; [lia | reflexivity].
  - replace (h' ++ _) with ((h' ++ [WIFU_VERSION; ty; get f_protocol h; Z.of_nat (length sb)]) ++ sb ++ rest ++ tail) by (rewrite <- !app_assoc; reflexivity).
    apply slice_at; [rewrite length_app; cbn [length]; lia | reflexivity].
  - replace (h' ++ _) with ((h' ++ [WIFU_VERSION; ty; get f_protocol h; Z.of_nat (length sb)] ++ sb) ++ rest ++ tail) by (rewrite <- !app_assoc; reflexivity).
    apply slice_at; [rewrite !length_app; cbn [length]; lia | reflexivity].
Qed.

(** The Internet checksum of a header without options verifies. *)
Definition header_verifies (h : mem) : Prop := ones_complement (word_sum h) = 65535.

Lemma ones_complement_verifies s : 0 ≤ s → ones_complement (s + (65535 - ones_complement s)) = 65535.
Proof.
  intros H. unfold ones_complement at 2. destruct (s =? 0) eqn:E; bool_to_prop; [subst; reflexivity |].
  unfold ones_complement. destruct (_ =? 0) eqn:E'; bool_to_prop; word_lia.
Qed.

Lemma header_checksum_verifies h :
  length h = 20%nat → Forall is_byte h → header_checksum_ok h → header_verifies h.
Proof.
  intros Hl Hb Hc. unfold header_verifies. rewrite <- Hc. unfold checksummed, checksum.
  set (h0 := put f_check 0 h). assert (length h0 = 20%nat) as Hl0 by (unfold h0; rewrite length_put; exact Hl).
  assert (Forall is_byte h0) as Hb0 by (apply put_is_byte; [rewrite Hl; reflexivity | exact Hb]).
  assert (∀ m, length m = 20%nat → word_sum m = words 10 m) as W.
  { intros m Hm. rewrite <- slice_words by lia. unfold slice. rewrite drop_0, take_ge by lia. reflexivity. }
  replace (slice h0 0 sizeof_iphdr) with h0 by (unfold slice; rewrite drop_0, take_ge by (unfold sizeof_iphdr; lia); reflexivity).
  rewrite (checksum_eq _ Hb0), !W by (rewrite ?length_put; exact Hl0). unfold f_check. change (le16 10) with (le16 (2 * 5)).
  rewrite words_put_word by lia. rewrite decide_True by lia.
  assert (get (le16 (2 * 5)) h0 = 0) as -> by (unfold h0, f_check; rewrite get_put_same by (rewrite Hl; reflexivity); reflexivity).
  pose proof (words_nonneg 10 h0 Hb0) as Hp. pose proof (ones_complement_range _ Hp) as R.
  rewrite u16_small by (unfold is_u16; lia). rewrite Z.sub_0_r. apply ones_complement_verifies, Hp.
Qed.

(** With options it does not: the recalculated checksum leaves them out. *)
Definition header_with_option : mem :=
  stamp 17 24 [70; 0; 0; 0; 0; 1; 0; 0; 64; 0; 0; 0; 10; 0; 0; 1; 10; 0; 0; 2; 148; 4; 0; 0].

Lemma options_spoil_checksum :
  Z.of_nat (length header_with_option) = 4 * get f_ihl header_with_option ∧ header_checksum_ok header_with_option ∧
  ¬ header_verifies header_with_option.
Proof. split; [| split]; [vm_compute; reflexivity | vm_compute; reflexivity | intros H; vm_compute in H; congruence]. Qed.

(** C24: A shim inserted into any datagram that leaves room for it can be read where
    [get_wifu] and [get_shim] point, leaves a datagram of the right length, whose header
    checksum verifies if there are no IP options, whose next header is found behind the shim, and [remove_shim], run on those bytes in any
    buffer, gives the original datagram, bit for bit. *)
Theorem shim_round_trip uninitialised p h rest slack sb more ty :
  length uninitialised = BUF_SIZE → holds p (h ++ rest) slack → datagram h rest →
  Forall is_byte sb → is_byte ty → (length sb < 256)%nat →
  (length (h ++ rest) + 4 + length sb ≤ 1500)%nat → (4 + length sb ≤ slack)%nat →
  ∃ q h' rest', insert_shim uninitialised (sb ++ more) ty (Z.of_nat (length sb)) p = Done q ∧
    holds q (h' ++ rest') (slack - 4 - length sb) ∧ datagram h' rest' ∧
    (length h = 20%nat → header_verifies h') ∧
    get_ip_protocol q = WIFU_PROTOCOL ∧ get_wifu q = Some (length h) ∧ get_shim q = Some (length h + 4)%nat ∧
    slice (payload_ q) (length h + 4) (length sb) = sb ∧
    slice (payload_ q) (get_next_header q) (length rest) = rest ∧
    ∀ q' slack', holds q' (h' ++ rest') slack' →
      ∃ r, remove_shim uninitialised q' = Done r ∧ holds r (h ++ rest) (slack' + 4 + length sb).
Proof.
  intros Hu Hp Hd Hsb Hty Hn Hfit Hslack.
  assert (make_room_for_shim (Z.of_nat (length sb)) p = Done p) as Hroom by reflexivity.
  destruct (insert_shim_holds uninitialised Hu p p h rest slack sb more ty Hroom Hp Hd Hfit Hslack) as (q & E & Hq).
  destruct (shim_accessors q h rest sb ty _ Hq Hd Hn) as (A1 & A2 & _ & A4 & A5 & A6).
  exists q, (stamp WIFU_PROTOCOL (Z.of_nat (length (h ++ rest)) + (WIFU_LENGTH + Z.of_nat (length sb))) h),
    ([WIFU_VERSION; ty; get f_protocol h; Z.of_nat (length sb)] ++ sb ++ rest).
  split; [exact E |]. split; [exact Hq |].
  pose proof (with_shim_datagram h rest sb ty Hd Hsb Hty Hfit Hn) as Hd'. split; [exact Hd' |].
  split; [intros Hl; apply header_checksum_verifies; [rewrite length_stamp; exact Hl | apply (datagram_header _ _ Hd') | apply Hd'] |].
  do 5 (split; [assumption |]). intros q' slack' Hq'. exact (remove_shim_restores uninitialised Hu q' h rest sb ty slack' Hq' Hd Hn Hfit).
Qed.

Definition sample_header : mem :=
  Eval vm_compute in stamp UDP 30 [69; 0; 0; 0; 0; 1; 0; 0; 64; 0; 0; 0; 10; 0; 0; 1; 10; 0; 0; 2].
Definition sample_rest : mem := [19; 136; 31; 64; 0; 10; 0; 0; 104; 105].

Definition sample_packet : packet :=
  {| id_ := 7; payload_length_ := 30; payload_ := sample_header ++ sample_rest ++ replicate 100 0;
     filter_ := output; preserve_payload_ := false |}.

Lemma sample_datagram : datagram sample_header sample_rest.
Proof.
  split; [| vm_compute; congruence | reflexivity | reflexivity | reflexivity].
  cbn. repeat (apply Forall_cons; split; [unfold is_byte; lia |]). apply Forall_nil_2.
Qed.

Lemma sample_holds : holds sample_packet (sample_header ++ sample_rest) 100.
Proof. exists (replicate 100 0). split; [| split]; [reflexivity.. | cbn; lia]. Qed.

Lemma shim_round_trip_witness :
  ∃ q h' rest', insert_shim (replicate BUF_SIZE 255) [100; 0; 0; 0] 0 4 sample_packet = Done q ∧
    holds q (h' ++ rest') 92 ∧ datagram h' rest' ∧
    ∀ q' slack', holds q' (h' ++ rest') slack' →
      ∃ r, remove_shim (replicate BUF_SIZE 255) q' = Done r ∧ holds r (sample_header ++ sample_rest) (slack' + 4 + 4).
Proof.
  destruct (shim_round_trip (replicate BUF_SIZE 255) sample_packet sample_header sample_rest 100 [100; 0; 0; 0] [] 0
    (length_replicate _ _) sample_holds sample_datagram) as (q & h' & rest' & E & Hq & Hd & _ & _ & _ & _ & _ & _ & Hr).
  - repeat (apply Forall_cons; split; [unfold is_byte; lia |]). apply Forall_nil_2.
  - unfold is_byte. lia.
  - cbn. lia.
  - cbn. lia.
  - cbn. lia.
  - exists q, h', rest'. split; [exact E |]. split; [exact Hq |]. split; [exact Hd | exact Hr].
Defined.
