(* ===== verification/CoreTransport.v ===== *)
(** * WiFu Core: classes TCPPacket and UDPPacket (core/src/packet)

    A TCP or UDP packet is an IP packet with a pointer to its transport header, computed by
    the constructor and again by [cleanup_shim]. TCP makes room for a shim by lowering the
    maximum segment size that a SYN announces; the walk over the TCP options is here, with
    what it finds and that it stays inside the options. *)
From stdpp Require Import pretty.
From S2P Require Import Prelude.
From S2P Require Import HeaderMem.
From S2P Require Import IPPacket.
From S2P Require Import CorePacket.

#[local] Open Scope string_scope.
#[local] Open Scope Z_scope.

(** ** Constants of <netinet/tcp.h> *)

Definition sizeof_tcphdr : Z := 20.
Definition TCPOPT_EOL : Z := 0.
Definition TCPOPT_NOP : Z := 1.
Definition TCPOPT_MAXSEG : Z := 2.
Definition TCPOLEN_MAXSEG : Z := 4.
Definition TCPOPT_TIMESTAMP : Z := 8.
Definition TCPOLEN_TIMESTAMP : Z := 10.

(** A field of a header that starts at offset [o]. *)
Definition shift (o : nat) (f : field) : field :=
  match f with
  | Bytes offs => Bytes (map (Nat.add o) offs)
  | Bits b s w => Bits (o + b) s w
  end.

Definition tcp_source : field := be16 0.
Definition tcp_dest : field := be16 2.
Definition tcp_seq : field := be32 4.
Definition tcp_ack_seq : field := be32 8.
Definition tcp_doff : field := Bits 12 4 4.
Definition tcp_fin : field := Bits 13 0 1.
Definition tcp_syn : field := Bits 13 1 1.
Definition tcp_rst : field := Bits 13 2 1.
Definition tcp_psh : field := Bits 13 3 1.
Definition tcp_ack : field := Bits 13 4 1.
Definition tcp_urg : field := Bits 13 5 1.
Definition tcp_window : field := be16 14.
Definition tcp_check : field := le16 16.
Definition tcp_urg_ptr : field := be16 18.

Definition udp_source : field := be16 0.
Definition udp_dest : field := be16 2.
Definition udp_length : field := be16 4.
Definition udp_check : field := le16 6.

(** ** class TCPPacket *)

Record tcp_packet := { tcp_ip : packet; tcp_ : nat }.

Definition with_tcp_ip (q : packet) (x : tcp_packet) : tcp_packet := {| tcp_ip := q; tcp_ := tcp_ x |}.

Definition get_tcp (f : field) (x : tcp_packet) : Z := get_field (shift (tcp_ x) f) (tcp_ip x).
Definition set_tcp (f : field) (v : Z) (x : tcp_packet) : tcp_packet :=
  with_tcp_ip (set_field (shift (tcp_ x) f) v (tcp_ip x)) x.

Definition get_tcp_source_port : tcp_packet → Z := get_tcp tcp_source.
Definition set_tcp_source_port (port : Z) : tcp_packet → tcp_packet := set_tcp tcp_source port.
Definition get_tcp_destination_port : tcp_packet → Z := get_tcp tcp_dest.
Definition set_tcp_destination_port (port : Z) : tcp_packet → tcp_packet := set_tcp tcp_dest port.
Definition get_tcp_sequence_number : tcp_packet → Z := get_tcp tcp_seq.
Definition set_tcp_sequence_number (seq_num : Z) : tcp_packet → tcp_packet := set_tcp tcp_seq seq_num.
Definition get_tcp_ack_number : tcp_packet → Z := get_tcp tcp_ack_seq.
Definition set_tcp_ack_number (ack_num : Z) : tcp_packet → tcp_packet := set_tcp tcp_ack_seq ack_num.
Definition get_tcp_length : tcp_packet → Z := get_tcp tcp_doff.
Definition get_tcp_length_bytes (x : tcp_packet) : Z := get_tcp_length x * NUM_WORDS.
Definition set_tcp_length (length : Z) : tcp_packet → tcp_packet := set_tcp tcp_doff length.
Definition is_tcp_urg (x : tcp_packet) : bool := negb (get_tcp tcp_urg x =? 0).
Definition set_tcp_urg (b : bool) : tcp_packet → tcp_packet := set_tcp tcp_urg (Z.b2z b).
Definition is_tcp_ack (x : tcp_packet) : bool := negb (get_tcp tcp_ack x =? 0).
Definition set_tcp_ack (b : bool) : tcp_packet → tcp_packet := set_tcp tcp_ack (Z.b2z b).
Definition is_tcp_psh (x : tcp_packet) : bool := negb (get_tcp tcp_psh x =? 0).
Definition set_tcp_psh (b : bool) : tcp_packet → tcp_packet := set_tcp tcp_psh (Z.b2z b).
Definition is_tcp_rst (x : tcp_packet) : bool := negb (get_tcp tcp_rst x =? 0).
Definition set_tcp_rst (b : bool) : tcp_packet → tcp_packet := set_tcp tcp_rst (Z.b2z b).
Definition is_tcp_syn (x : tcp_packet) : bool := negb (get_tcp tcp_syn x =? 0).
Definition set_tcp_syn (b : bool) : tcp_packet → tcp_packet := set_tcp tcp_syn (Z.b2z b).
Definition is_tcp_fin (x : tcp_packet) : bool := negb (get_tcp tcp_fin x =? 0).
Definition set_tcp_fin (b : bool) : tcp_packet → tcp_packet := set_tcp tcp_fin (Z.b2z b).
Definition get_tcp_receive_window_size : tcp_packet → Z := get_tcp tcp_window.
Definition set_tcp_receive_window_size (window : Z) : tcp_packet → tcp_packet := set_tcp tcp_window window.
Definition get_tcp_checksum : tcp_packet → Z := get_tcp tcp_check.
Definition set_tcp_checksum (checksum : Z) : tcp_packet → tcp_packet := set_tcp tcp_check checksum.
Definition get_tcp_urgent_pointer : tcp_packet → Z := get_tcp tcp_urg_ptr.
Definition set_tcp_urgent_pointer (urg_ptr : Z) : tcp_packet → tcp_packet := set_tcp tcp_urg_ptr urg_ptr.

Definition show_bool (b : bool) : string := if b then "1" else "0".

Definition tcp_to_s (x : tcp_packet) : string :=
  ip_to_s (tcp_ip x) +:+ newline +:+ "tcp " +:+ show (get_tcp_source_port x) +:+ " "
  +:+ show (get_tcp_destination_port x) +:+ " " +:+ show (get_tcp_sequence_number x) +:+ " "
  +:+ show (get_tcp_ack_number x) +:+ " " +:+ show (get_tcp_length x) +:+ " "
  +:+ show_bool (is_tcp_urg x) +:+ " " +:+ show_bool (is_tcp_ack x) +:+ " " +:+ show_bool (is_tcp_psh x) +:+ " "
  +:+ show_bool (is_tcp_rst x) +:+ " " +:+ show_bool (is_tcp_syn x) +:+ " " +:+ show_bool (is_tcp_fin x).

Definition tcp_to_s_format : string :=
  ip_to_s_format +:+ newline +:+ "# tcp sport dport seq_num ack_num header_length URG ACK PSH RST SYN FIN".

(** *** The options

    The loop that [set_tcp_maxseg_option] and [get_tcp_timestamp_option] share: the offset of
    the data of the first option [kind], if it has the length [size]. Two bytes are read
    before the length is tested, as in the code. *)
Fixpoint find_option (kind size : Z) (fuel : nat) (m : mem) (ptr : nat) (length : Z) : outcome (option nat) :=
  match fuel with
  | O => Done None
  | S fuel =>
      if negb (0 <? length) then Done None
      else
        opcode ← load m ptr;
        if opcode =? TCPOPT_EOL then Done None
        else if opcode =? TCPOPT_NOP then find_option kind size fuel m (S ptr) (length - 1)
        else
          opsize ← load m (S ptr);
          (* "silly options" *)
          if opsize <? 2 then Done None
          (* don't parse partial options *)
          else if length <? opsize then Done None
          else if opcode =? kind then Done (if opsize =? size then Some (2 + ptr)%nat else None)
          else find_option kind size fuel m (2 + ptr + Z.to_nat (opsize - 2)) (length - opsize)
  end.

(** The bytes of options after the fixed header, and where they start. *)
Definition options_length (x : tcp_packet) : Z := get_tcp_length_bytes x - sizeof_tcphdr.
Definition options_start (x : tcp_packet) : nat := (tcp_ x + Z.to_nat sizeof_tcphdr)%nat.

(** Every round of the loop takes at least one byte, so their number is fuel enough. *)
Definition search_options (kind size : Z) (x : tcp_packet) : outcome (option nat) :=
  find_option kind size (Z.to_nat (options_length x)) (payload_ (tcp_ip x)) (options_start x) (options_length x).

Definition set_tcp_maxseg_option (extra : Z) (x : tcp_packet) : outcome tcp_packet :=
  if negb (is_tcp_syn x) then Done x
  else
    maxseg ← search_options TCPOPT_MAXSEG TCPOLEN_MAXSEG x;
    match maxseg with
    | None => Done x
    | Some o =>
        let mss := get_field (be16 o) (tcp_ip x) in
        Done (with_tcp_ip (set_field (be16 o) (u16 (mss - extra)) (tcp_ip x)) x)
    end.

(** The words TSval and TSecr as they are in memory; [None]: the structure is left alone. *)
Definition get_tcp_timestamp_option (x : tcp_packet) : outcome (option (list Z * list Z)) :=
  timestamp ← search_options TCPOPT_TIMESTAMP TCPOLEN_TIMESTAMP x;
  Done (match timestamp with
        | None => None
        | Some o => Some (slice (payload_ (tcp_ip x)) o 4, slice (payload_ (tcp_ip x)) (o + 4) 4)
        end).

(** ** class UDPPacket *)

Record udp_packet := { udp_ip : packet; udp_ : nat }.

Definition with_udp_ip (q : packet) (x : udp_packet) : udp_packet := {| udp_ip := q; udp_ := udp_ x |}.

Definition get_udp (f : field) (x : udp_packet) : Z := get_field (shift (udp_ x) f) (udp_ip x).
Definition set_udp (f : field) (v : Z) (x : udp_packet) : udp_packet :=
  with_udp_ip (set_field (shift (udp_ x) f) v (udp_ip x)) x.

Definition get_udp_source_port : udp_packet → Z := get_udp udp_source.
Definition set_udp_source_port (port : Z) : udp_packet → udp_packet := set_udp udp_source port.
Definition get_udp_destination_port : udp_packet → Z := get_udp udp_dest.
Definition set_udp_destination_port (port : Z) : udp_packet → udp_packet := set_udp udp_dest port.
Definition get_udp_length : udp_packet → Z := get_udp udp_length.
Definition set_udp_length (length : Z) : udp_packet → udp_packet := set_udp udp_length length.
Definition get_udp_checksum : udp_packet → Z := get_udp udp_check.
Definition set_udp_checksum (checksum : Z) : udp_packet → udp_packet := set_udp udp_check checksum.

Definition udp_to_s (x : udp_packet) : string :=
  ip_to_s (udp_ip x) +:+ newline +:+ "udp " +:+ show (get_udp_source_port x) +:+ " "
  +:+ show (get_udp_destination_port x) +:+ " " +:+ show (get_udp_length x).

Definition udp_to_s_format : string := ip_to_s_format +:+ newline +:+ "# udp sport dport length".

Section Transport.

Variable uninitialised : mem.

(** [IPPacket::udptcp_checksum] of the header at offset [header]: always as many bytes as
    follow the IP header, wherever the pointer points. *)
Definition udptcp_checksum (header : nat) (p : packet) : outcome Z :=
  let packet := uninitialised in
  let length := get_payload_length p - get_ip_length_bytes p in
  packet ← memcpy packet 0 (pseudo_header (payload_ p) length);
  let packet_length := u16 (Z.of_nat sizeof_ip_pseudo_header + length) in
  bytes ← memread (payload_ p) header length;
  packet ← memcpy packet sizeof_ip_pseudo_header bytes;
  covered ← memread packet 0 packet_length;
  Done (checksum covered).

Definition recalculate_tcp_checksum (x : tcp_packet) : outcome tcp_packet :=
  let x := set_tcp_checksum 0 x in
  sum ← udptcp_checksum (tcp_ x) (tcp_ip x);
  Done (set_tcp_checksum sum x).

Definition recalculate_udp_checksum (x : udp_packet) : outcome udp_packet :=
  let x := set_udp_checksum 0 x in
  sum ← udptcp_checksum (udp_ x) (udp_ip x);
  Done (set_udp_checksum sum x).

Definition make_room_tcp (length : Z) (x : tcp_packet) : outcome tcp_packet :=
  if is_tcp_syn x
  then x ← set_tcp_maxseg_option (u16 (WIFU_LENGTH + length)) x; recalculate_tcp_checksum x
  else Done x.

Definition cleanup_tcp (x : tcp_packet) : tcp_packet := {| tcp_ip := tcp_ip x; tcp_ := get_next_header (tcp_ip x) |}.
Definition cleanup_udp (x : udp_packet) : udp_packet := {| udp_ip := udp_ip x; udp_ := get_next_header (udp_ip x) |}.

(** The constructors from another packet. *)
Definition new_tcp_packet (p : packet) : outcome tcp_packet :=
  q ← copy_packet uninitialised p; Done {| tcp_ip := q; tcp_ := get_next_header q |}.
Definition new_udp_packet (p : packet) : outcome udp_packet :=
  q ← copy_packet uninitialised p; Done {| udp_ip := q; udp_ := get_next_header q |}.

#[export] Instance tcp_shimmable : Shimmable tcp_packet := {
  ip_part := tcp_ip;
  with_ip_part := with_tcp_ip;
  make_room_for_shim := make_room_tcp;
  cleanup_shim := cleanup_tcp }.

(** [UDPPacket::make_room_for_shim(u_int8_t)] has another signature than the virtual method,
    which is inherited; both do nothing. *)
#[export] Instance udp_shimmable : Shimmable udp_packet := {
  ip_part := udp_ip;
  with_ip_part := with_udp_ip;
  make_room_for_shim _ x := Done x;
  cleanup_shim := cleanup_udp }.

Lemma make_room_tcp_id n x x' : make_room_tcp n x = Done x' → id_ (tcp_ip x') = id_ (tcp_ip x).
Proof.
  unfold make_room_tcp, set_tcp_maxseg_option, recalculate_tcp_checksum. intros E. destruct (is_tcp_syn x); outcome_inv; [| reflexivity].
  cbn [tcp_ip set_tcp_checksum set_tcp with_tcp_ip id_ set_field with_buffer].
  match goal with H : (if _ then _ else _) = Done _ |- _ => destruct (negb _) in H; outcome_inv; [reflexivity |] end.
  match goal with H : match ?r with _ => _ end = Done _ |- _ => destruct r; outcome_inv; reflexivity end.
Qed.

#[export] Instance tcp_shimmable_laws : ShimmableLaws tcp_packet.
Proof. split; [reflexivity.. | exact make_room_tcp_id]. Qed.

#[export] Instance udp_shimmable_laws : ShimmableLaws udp_packet.
Proof. split; [reflexivity.. | intros n x x' [= ->]; reflexivity]. Qed.

End Transport.

#[local] Open Scope list_scope.

(** ** The walk over the options *)

Lemma load_Done m o : (o < length m)%nat → load m o = Done (byte_at m o).
Proof. intros H. unfold load, byte_at. destruct (lookup_lt_is_Some_2 m o H) as [b E]. rewrite E. reflexivity. Qed.

(** Whatever the option bytes are, the walk ends after at most as many rounds as there are
    option bytes (more fuel changes nothing), reads at most one byte behind them, and an
    option it finds lies inside them. *)
Lemma find_option_safe kind size m fuel ptr len :
  2 ≤ size → (Z.to_nat len ≤ fuel)%nat → Z.of_nat ptr + Z.max 0 len < Z.of_nat (length m) →
  ∃ r, find_option kind size fuel m ptr len = Done r ∧
       (∀ fuel', (Z.to_nat len ≤ fuel')%nat → find_option kind size fuel' m ptr len = Done r) ∧
       match r with
       | None => True
       | Some o => (ptr + 2 ≤ o)%nat ∧ Z.of_nat o + (size - 2) ≤ Z.of_nat ptr + len ∧
                   byte_at m (o - 2) = kind ∧ byte_at m (o - 1) = size
       end.
Proof.
  intros Hsize. revert ptr len. induction fuel as [| fuel IH]; intros ptr len Hf Hl.
  { exists None. split; [reflexivity | split; [| exact I]]. intros [| f'] _; cbn; [reflexivity |].
    rewrite (proj2 (Z.ltb_ge _ _)) by lia. reflexivity. }
  assert (∀ f', (Z.to_nat len ≤ f')%nat → 0 < len → ∃ f'', f' = S f'' ∧ (Z.to_nat (len - 1) ≤ f'')%nat) as Hpred.
  { intros [| f''] Hf' Hpos; [lia |]. exists f''. split; [reflexivity | lia]. }
  destruct (Z.ltb_spec 0 len) as [Hpos | Hle].
  2: { exists None. cbn [find_option]. rewrite (proj2 (Z.ltb_ge 0 len)) by lia. split; [reflexivity | split; [| exact I]].
       intros [| f'] _; cbn [find_option]; [reflexivity |]. rewrite (proj2 (Z.ltb_ge 0 len)) by lia. reflexivity. }
  set (body := fun (rec : mem → nat → Z → outcome (option nat)) =>
    if byte_at m ptr =? TCPOPT_EOL then Done None
    else if byte_at m ptr =? TCPOPT_NOP then rec m (S ptr) (len - 1)
    else if byte_at m (S ptr) <? 2 then Done None
    else if len <? byte_at m (S ptr) then Done None
    else if byte_at m ptr =? kind then Done (if byte_at m (S ptr) =? size then Some (2 + ptr)%nat else None)
    else rec m (2 + ptr + Z.to_nat (byte_at m (S ptr) - 2))%nat (len - byte_at m (S ptr))).
  assert (∀ f, find_option kind size (S f) m ptr len = body (find_option kind size f)) as Eb.
  { intros f. cbn [find_option]. rewrite (proj2 (Z.ltb_lt 0 len)) by lia. cbn [negb].
    rewrite (load_Done m ptr) by lia. cbn [mbind outcome_bind]. unfold body.
    destruct (_ =? TCPOPT_EOL); [reflexivity |]. destruct (_ =? TCPOPT_NOP); [reflexivity |].
    rewrite (load_Done m (S ptr)) by lia. reflexivity. }
  assert (∃ r, body (find_option kind size fuel) = Done r ∧
    (∀ f', (Z.to_nat (len - 1) ≤ f')%nat → body (find_option kind size f') = Done r) ∧
    match r with None => True | Some o => (ptr + 2 ≤ o)%nat ∧ Z.of_nat o + (size - 2) ≤ Z.of_nat ptr + len ∧
      byte_at m (o - 2) = kind ∧ byte_at m (o - 1) = size end) as (r & E & Hr & Ho).
  { unfold body. destruct (byte_at m ptr =? TCPOPT_EOL); [eauto |]. destruct (byte_at m ptr =? TCPOPT_NOP) eqn:En.
    - destruct (IH (S ptr) (len - 1)) as (r & E & Hr & Ho); [lia | lia |]. exists r. split; [exact E | split; [exact Hr |]].
      destruct r; [intuition lia | exact I].
    - destruct (byte_at m (S ptr) <? 2) eqn:E2; [eauto |]. destruct (len <? byte_at m (S ptr)) eqn:E3; [eauto |].
      destruct (byte_at m ptr =? kind) eqn:E4.
      + bool_to_prop. eexists. split; [reflexivity | split; [reflexivity |]].
        destruct (byte_at m (S ptr) =? size) eqn:E5; [| exact I]. bool_to_prop.
        replace (2 + ptr - 2)%nat with ptr by lia. replace (2 + ptr - 1)%nat with (S ptr) by lia. repeat split; try assumption; lia.
      + bool_to_prop. destruct (IH (2 + ptr + Z.to_nat (byte_at m (S ptr) - 2))%nat (len - byte_at m (S ptr))) as (r & E & Hr & Ho); [lia | lia |].
        exists r. split; [exact E | split; [intros f' Hf'; apply Hr; lia |]]. destruct r; [| exact I]. intuition lia. }
  exists r. rewrite Eb. split; [exact E | split; [| exact Ho]]. intros f' Hf'.
  destruct (Hpred f' Hf' Hpos) as (f'' & -> & Hf''). rewrite Eb. apply Hr, Hf''.
Qed.

(** *** What it finds *)

Inductive tcp_option := Nop | Opt (kind : Z) (data : list Z).

Definition encode_option (o : tcp_option) : list Z :=
  match o with Nop => [TCPOPT_NOP] | Opt kind data => kind :: (2 + Z.of_nat (length data)) :: data end.

Definition encode_options (os : list tcp_option) : list Z := concat (map encode_option os).

(** A proper option that is not of the kind that is looked for. *)
Definition other_option (kind : Z) (o : tcp_option) : Prop :=
  match o with Nop => True | Opt k data => k ≠ TCPOPT_EOL ∧ k ≠ TCPOPT_NOP ∧ k ≠ kind ∧ (length data < 254)%nat end.

Lemma byte_at_middle a b c i : (i < length b)%nat → byte_at (a ++ b ++ c) (length a + i) = byte_at b i.
Proof. intros. rewrite byte_at_app_r. apply byte_at_app_l. assumption. Qed.

Lemma load_middle a b c i : (i < length b)%nat → load (a ++ b ++ c) (i + length a) = Done (byte_at b i).
Proof. intros. rewrite load_Done by (rewrite !length_app; lia). rewrite Nat.add_comm, byte_at_middle by assumption. reflexivity. Qed.

(** The walk steps over options of other kinds. *)
Lemma find_option_skip kind size pre : ∀ a c fuel len,
  Forall (other_option kind) pre → (length (encode_options pre) < length c + length (encode_options pre))%nat →
  Z.of_nat (length (encode_options pre)) ≤ len → (Z.to_nat len ≤ fuel)%nat →
  find_option kind size fuel (a ++ encode_options pre ++ c) (length a) len
  = find_option kind size (fuel - length pre) (a ++ encode_options pre ++ c) (length a + length (encode_options pre))
      (len - Z.of_nat (length (encode_options pre))).
Proof.
  induction pre as [| o pre IH]; intros a c fuel len Ho Hc Hl Hf.
  { cbn [encode_options map concat length]. rewrite Nat.add_0_r, Nat.sub_0_r, Z.sub_0_r. reflexivity. }
  apply Forall_cons in Ho as [Ho Hos]. change (encode_options (o :: pre)) with (encode_option o ++ encode_options pre) in *.
  rewrite length_app in *.
  assert (1 ≤ length (encode_option o))%nat as H1 by (destruct o; cbn; lia).
  destruct fuel as [| fuel]; [lia |].
  specialize (IH (a ++ encode_option o) c fuel (len - Z.of_nat (length (encode_option o))) Hos ltac:(lia) ltac:(lia) ltac:(lia)).
  rewrite <- !app_assoc, length_app in IH.
  transitivity (find_option kind size fuel (a ++ (encode_option o ++ encode_options pre) ++ c) (length a + length (encode_option o)) (len - Z.of_nat (length (encode_option o)))).
  - cbn [find_option]. rewrite (proj2 (Z.ltb_lt 0 len)) by lia. cbn [negb]. rewrite <- !(app_assoc (encode_option o)).
    rewrite (load_middle a (encode_option o) _ 0) by lia. cbn [mbind outcome_bind].
    destruct o as [| k data]; cbn [encode_option length] in *.
    + cbn. rewrite Nat.add_1_r. reflexivity.
    + change (byte_at (k :: _ :: data) 0) with k. destruct Ho as (N0 & N1 & Nk & Hd).
      rewrite (proj2 (Z.eqb_neq _ _) N0), (proj2 (Z.eqb_neq _ _) N1).
      rewrite (load_middle a (k :: 2 + Z.of_nat (length data) :: data) _ 1) by (cbn [length]; lia). cbn [mbind outcome_bind].
      change (byte_at (k :: 2 + Z.of_nat (length data) :: data) 1) with (2 + Z.of_nat (length data)).
      rewrite !(proj2 (Z.ltb_ge _ _)) by lia. rewrite (proj2 (Z.eqb_neq _ _) Nk). f_equal; lia.
  - rewrite <- app_assoc, IH. f_equal; cbn [length]; lia.
Qed.

(** The first option of the kind, if it has the right size. *)
Lemma find_option_found kind data pre a c len :
  Forall (other_option kind) pre → kind ≠ TCPOPT_EOL → kind ≠ TCPOPT_NOP → (length data < 254)%nat →
  Z.of_nat (length (encode_options pre) + 2 + length data) ≤ len →
  find_option kind (2 + Z.of_nat (length data)) (Z.to_nat len) (a ++ encode_options pre ++ (kind :: (2 + Z.of_nat (length data)) :: data) ++ c) (length a) len
  = Done (Some (length a + length (encode_options pre) + 2)%nat).
Proof.
  intros Hpre N0 N1 Hd Hl. rewrite find_option_skip by (try assumption; cbn [length app]; lia).
  assert (length pre ≤ length (encode_options pre))%nat as Hp.
  { clear. induction pre as [| o pre IH]; cbn; [lia |]. rewrite length_app. destruct o; cbn; unfold encode_options in IH; lia. }
  destruct (Z.to_nat len - length pre)%nat as [| f] eqn:Ef; [lia |]. cbn [find_option].
  rewrite (proj2 (Z.ltb_lt 0 _)) by lia. cbn [negb]. rewrite app_assoc.
  assert (∀ i, (i < 2 + length data)%nat →
    load ((a ++ encode_options pre) ++ (kind :: 2 + Z.of_nat (length data) :: data) ++ c) (i + (length a + length (encode_options pre)))
    = Done (byte_at (kind :: 2 + Z.of_nat (length data) :: data) i)) as Hload.
  { intros i Hi. rewrite <- length_app. apply load_middle. cbn [length]. lia. }
  pose proof (Hload 0%nat ltac:(lia)) as L0. pose proof (Hload 1%nat ltac:(lia)) as L1. cbn [Nat.add] in L0, L1. rewrite L0. cbn [mbind outcome_bind]. change (byte_at (kind :: _ :: data) 0) with kind.
  rewrite (proj2 (Z.eqb_neq _ _) N0), (proj2 (Z.eqb_neq _ _) N1). rewrite L1. cbn [mbind outcome_bind].
  change (byte_at (kind :: (2 + Z.of_nat (length data)) :: data) 1) with (2 + Z.of_nat (length data)).
  rewrite !(proj2 (Z.ltb_ge _ _)) by lia. rewrite !Z.eqb_refl. do 2 f_equal. lia.
Qed.

(** What it finds is behind proper options of other kinds. *)
Lemma load_inv m o b : load m o = Done b → m !! o = Some b.
Proof. unfold load. destruct (m !! o); [intros [= ->]; reflexivity | discriminate]. Qed.

Lemma find_option_sound kind size m stop fuel : ∀ ptr len o,
  (∀ i b, m !! i = Some b → (i < stop)%nat → is_byte b) → Z.of_nat ptr + len ≤ Z.of_nat stop → find_option kind size fuel m ptr len = Done (Some o) →
  ∃ pre rest, Forall (other_option kind) pre ∧ drop ptr m = encode_options pre ++ kind :: size :: rest ∧
    o = (ptr + length (encode_options pre) + 2)%nat.
Proof.
  intros ptr len o Hm. revert ptr len. induction fuel as [| fuel IH]; intros ptr len Hstop; cbn [find_option]; [discriminate |].
  destruct (Z.ltb_spec 0 len); cbn [negb]; [| discriminate]. intros E. apply outcome_bind_Done in E as (code & Ec & E).
  destruct (Z.eqb_spec code TCPOPT_EOL) as [| N0]; [discriminate |]. apply load_inv in Ec as Ec.
  destruct (Z.eqb_spec code TCPOPT_NOP) as [-> | N1].
  { destruct (IH (S ptr) (len - 1) ltac:(lia) E) as (pre & rest & Hpre & Hd & ->). exists (Nop :: pre), rest. split; [constructor; [exact I | exact Hpre] |].
    change (encode_options (Nop :: pre)) with (TCPOPT_NOP :: encode_options pre). rewrite (drop_S _ _ _ Ec), Hd. cbn [length app]. split; [reflexivity | lia]. }
  apply outcome_bind_Done in E as (n & En & E). apply load_inv in En as En.
  destruct (Z.ltb_spec n 2) as [| H2]; [discriminate |]. destruct (Z.ltb_spec len n); [discriminate |].
  pose proof (Hm _ _ En ltac:(lia)) as Hn. unfold is_byte in Hn.
  pose proof (drop_S _ _ _ Ec) as D0. pose proof (drop_S _ _ _ En) as D1.
  destruct (Z.eqb_spec code kind) as [-> | Nk].
  { destruct (Z.eqb_spec n size) as [-> | ?]; [| discriminate]. injection E as <-. exists [], (drop (S (S ptr)) m).
    split; [constructor |]. split; [rewrite D0, D1; reflexivity | cbn; lia]. }
  destruct (IH (2 + ptr + Z.to_nat (n - 2))%nat (len - n) ltac:(lia) E) as (pre & rest & Hpre & Hd & ->). set (k := Z.to_nat (n - 2)) in *.
  assert (length (take k (drop (S (S ptr)) m)) = k) as Hk.
  { rewrite length_take, length_drop. apply (f_equal length) in Hd. rewrite length_drop, length_app in Hd. cbn [length] in Hd. lia. }
  exists (Opt code (take k (drop (S (S ptr)) m)) :: pre), rest. split; [constructor; [| exact Hpre]; cbn; rewrite Hk; repeat split; try assumption; lia |].
  change (encode_options (?a :: pre)) with (encode_option a ++ encode_options pre). cbn [encode_option]. rewrite Hk, <- app_assoc. cbn [app].
  rewrite <- Hd, D0, D1. split.
  - do 2 f_equal; [lia |]. replace (2 + ptr + k)%nat with (S (S ptr) + k)%nat by lia. rewrite <- drop_drop. symmetry. apply take_drop.
  - cbn [length]. rewrite length_app, Hk. lia.
Qed.

(** ** Fields of the transport header *)

Lemma byte_at_shift h t o : byte_at (h ++ t) (length h + o) = byte_at t o.
Proof. apply byte_at_app_r. Qed.

Lemma get_shift f h t : get (shift (length h) f) (h ++ t) = get f t.
Proof.
  destruct f as [offs | o s w]; cbn; [| rewrite byte_at_shift; reflexivity].
  induction offs as [| o offs IH]; cbn; [reflexivity |]. rewrite byte_at_shift, IH. reflexivity.
Qed.

Lemma put_shift f v h t : put (shift (length h) f) v (h ++ t) = h ++ put f v t.
Proof.
  destruct f as [offs | o s w]; cbn; [| rewrite byte_at_shift, insert_app_r; reflexivity].
  revert v. induction offs as [| o offs IH]; intros v; cbn; [reflexivity |]. rewrite IH, insert_app_r. reflexivity.
Qed.

Lemma get_tcp_app f x h t : payload_ (tcp_ip x) = h ++ t → tcp_ x = length h → get_tcp f x = get f t.
Proof. unfold get_tcp, get_field. intros -> ->. apply get_shift. Qed.

Lemma set_tcp_app f v x h t :
  payload_ (tcp_ip x) = h ++ t → tcp_ x = length h → payload_ (tcp_ip (set_tcp f v x)) = h ++ put f v t.
Proof. unfold set_tcp, set_field. cbn [tcp_ip with_tcp_ip payload_ with_buffer]. intros -> ->. apply put_shift. Qed.

(** A segment of at least a TCP header keeps its length and its tail under a field update. *)
Lemma put_segment f v seg t : field_ok 20 f = true → (20 ≤ length seg)%nat → put f v (seg ++ t) = put f v seg ++ t.
Proof. intros Hf Hs. apply put_app, ip_header_field_ok; assumption. Qed.

(** ** Transport checksums *)

Lemma datagram_rest h seg seg' : datagram h seg → length seg' = length seg → Forall is_byte seg' → datagram h seg'.
Proof.
  intros [Hb Hi Hl Ht Hc] E H. apply Forall_app in Hb as [Hh _]. split; try assumption.
  - apply Forall_app. split; assumption.
  - rewrite Ht, !length_app, E. reflexivity.
Qed.

Lemma pseudo_header_app h t n : (20 ≤ length h)%nat → pseudo_header (h ++ t) n = pseudo_header h n.
Proof. intros H. header_cases h H. reflexivity. Qed.

Lemma pseudo_header_bytes h n : Forall is_byte h → Forall is_byte (pseudo_header h n).
Proof.
  intros H. unfold pseudo_header. repeat apply Forall_app_2; try (apply slice_is_byte; exact H).
  repeat apply Forall_cons_2; [unfold is_byte; lia | apply byte_at_is_byte, H | unfold is_byte; word_lia | unfold is_byte; word_lia | apply Forall_nil_2].
Qed.

(** The checksum that covers the pseudo header of [h] and the segment. *)
Definition segment_checksum (h seg : mem) : Z := checksum (pseudo_header h (Z.of_nat (length seg)) ++ seg).

Definition segment_verifies (h seg : mem) : Prop :=
  ones_complement (word_sum (pseudo_header h (Z.of_nat (length seg)) ++ seg)) = 65535.

(** The segment with its checksum recalculated. *)
Definition tcp_checksummed (h seg : mem) : mem :=
  put tcp_check (segment_checksum h (put tcp_check 0 seg)) (put tcp_check 0 seg).

Lemma length_tcp_checksummed h seg : length (tcp_checksummed h seg) = length seg.
Proof. unfold tcp_checksummed. rewrite !length_put. reflexivity. Qed.

Lemma put_check_bytes v seg : (20 ≤ length seg)%nat → Forall is_byte seg → Forall is_byte (put tcp_check v seg).
Proof. intros H Hb. apply put_is_byte; [apply ip_header_field_ok; [exact H | reflexivity] | exact Hb]. Qed.

(** Storing [v] in a zeroed checksum field adds [v] to the sum of the words. *)
Lemma word_sum_check ph v seg :
  length ph = 12%nat → (20 ≤ length seg)%nat → is_u16 v →
  word_sum (ph ++ put tcp_check v (put tcp_check 0 seg)) = word_sum (ph ++ put tcp_check 0 seg) + v.
Proof.
  intros Hp H Hv. rewrite !word_sum_app by (rewrite Hp; reflexivity). rewrite <- Z.add_assoc. f_equal.
  header_cases seg H. cbn [word_sum app put put_bytes tcp_check le16 insert list_insert]. change (0 mod 256) with 0. change (0 / 256 mod 256) with 0.
  word_lia.
Qed.

(** The recalculated checksum verifies at the receiver. *)
Lemma tcp_checksummed_verifies h seg :
  (20 ≤ length h)%nat → Forall is_byte h → (20 ≤ length seg)%nat → Forall is_byte seg → segment_verifies h (tcp_checksummed h seg).
Proof.
  intros Hh Hb H Hs. unfold segment_verifies, tcp_checksummed, segment_checksum, checksum. rewrite !length_put.
  pose proof (pseudo_header_bytes h (Z.of_nat (length seg)) Hb) as Pb.
  pose proof (length_pseudo_header h (Z.of_nat (length seg)) Hh) as Pl.
  set (ph := pseudo_header h _) in *. assert (Forall is_byte (ph ++ put tcp_check 0 seg)) as Hall.
  { apply Forall_app. split; [exact Pb | apply put_check_bytes; assumption]. }
  rewrite (checksum_eq _ Hall). pose proof (word_sum_nonneg _ Hall) as Hn. pose proof (ones_complement_range _ Hn) as R.
  rewrite word_sum_check by (try assumption; unfold is_u16; lia). apply ones_complement_verifies, Hn.
Qed.

(** A segment that announces the segment size [mss] after the options [pre]. *)
Definition announcing (fixed : mem) (pre : list tcp_option) (post : mem) (mss : Z) : mem :=
  fixed ++ encode_options pre ++ [TCPOPT_MAXSEG; TCPOLEN_MAXSEG; mss / 256; mss mod 256] ++ post.

(** Its first option of that kind, which has the right length, ends inside the header. *)
Record announces (seg fixed : mem) (pre : list tcp_option) (post : mem) (mss : Z) : Prop := {
  ann_segment : seg = announcing fixed pre post mss;
  ann_fixed : length fixed = 20%nat;
  ann_others : Forall (other_option TCPOPT_MAXSEG) pre;
  ann_inside : Z.of_nat (24 + length (encode_options pre)) ≤ 4 * get tcp_doff fixed;
  ann_mss : is_u16 mss }.

(** [seg'] is [seg] with the maximum segment size it announces lowered by [extra], modulo
    2^16; [seg] itself only if it announces none. *)
Definition mss_lowered (extra : Z) (seg seg' : mem) : Prop :=
  (∃ fixed pre post mss, announces seg fixed pre post mss ∧ seg' = announcing fixed pre post (u16 (mss - extra))) ∨
  (seg' = seg ∧ ∀ fixed pre post mss, ¬ announces seg fixed pre post mss).

Lemma be16_shift (n o : nat) : be16 (n + o) = shift n (be16 o).
Proof. unfold be16. cbn. rewrite Nat.add_succ_r. reflexivity. Qed.

Lemma be16_ok n o : (o + 2 ≤ n)%nat → field_ok n (be16 o) = true.
Proof.
  intros H. unfold field_ok, be16, offsets. rewrite andb_true_r. apply andb_true_iff. split.
  - apply forallb_forall. intros x [<- | [<- | []]]; apply Nat.ltb_lt; lia.
  - apply bool_decide_eq_true, NoDup_cons. split; [| apply NoDup_singleton]. rewrite list_elem_of_singleton. lia.
Qed.

Lemma length_announcing fixed pre post mss mss' : length (announcing fixed pre post mss) = length (announcing fixed pre post mss').
Proof. unfold announcing. rewrite !length_app. reflexivity. Qed.

Lemma announcing_bytes fixed pre post mss mss' :
  is_u16 mss' → Forall is_byte (announcing fixed pre post mss) → Forall is_byte (announcing fixed pre post mss').
Proof.
  intros R. unfold announcing. rewrite !Forall_app. intros (Hf & Ho & _ & Hp). split; [exact Hf | split; [exact Ho | split; [| exact Hp]]].
  unfold TCPOPT_MAXSEG, TCPOLEN_MAXSEG. repeat apply Forall_cons_2; try apply Forall_nil_2; unfold is_byte; word_lia.
Qed.

Lemma mss_lowered_bytes extra seg seg' : mss_lowered extra seg seg' → Forall is_byte seg → Forall is_byte seg'.
Proof.
  intros [(fixed & pre & post & mss & [-> _ _ _ _] & ->) | [-> _]] Hb; [| exact Hb]. apply (announcing_bytes _ _ _ mss); [apply u16_range | exact Hb].
Qed.

Section TransportSpec.

Variable uninitialised : mem.
Hypothesis stack_size : length uninitialised = BUF_SIZE.

Lemma udptcp_checksum_spec p h seg slack :
  holds p (h ++ seg) slack → datagram h seg → (length (h ++ seg) ≤ 1500)%nat →
  udptcp_checksum uninitialised (length h) p = Done (segment_checksum h seg).
Proof.
  intros (tail & Hp & Hl & _) Hd Hfit. pose proof (datagram_header _ _ Hd) as (H20 & Hb & _). rewrite <- app_assoc in Hp.
  destruct (head_fields p h _ Hp ltac:(lia) Hb (dg_length _ _ Hd)) as (El & _ & _).
  unfold udptcp_checksum, get_payload_length. rewrite Hl, El, Hp, length_app in *. unfold BUF_SIZE in *.
  replace (Z.of_nat (length h + length seg) - Z.of_nat (length h)) with (Z.of_nat (length seg)) by lia.
  rewrite pseudo_header_app by lia.
  assert (length (pseudo_header h (Z.of_nat (length seg))) = 12%nat) as Hph by (apply length_pseudo_header; lia).
  remember (pseudo_header h (Z.of_nat (length seg))) as ph eqn:Eph.
  rewrite memcpy_prefix by lia. cbn [mbind outcome_bind].
  rewrite (memread_middle h seg tail) by lia. cbn [mbind outcome_bind].
  rewrite memcpy_append by (rewrite ?length_drop; unfold sizeof_ip_pseudo_header; lia). cbn [mbind outcome_bind].
  rewrite memread_prefix by (unfold sizeof_ip_pseudo_header; rewrite length_app, u16_small by word_lia; lia).
  cbn [mbind outcome_bind]. unfold segment_checksum. rewrite <- Eph. reflexivity.
Qed.

Lemma recalculate_tcp_checksum_spec x h seg slack :
  holds (tcp_ip x) (h ++ seg) slack → tcp_ x = length h → datagram h seg → (20 ≤ length seg)%nat → (length (h ++ seg) ≤ 1500)%nat →
  ∃ x', recalculate_tcp_checksum uninitialised x = Done x' ∧ tcp_ x' = length h ∧ holds (tcp_ip x') (h ++ tcp_checksummed h seg) slack.
Proof.
  intros (tail & Hp & Hl & Hs) Ht Hd H20 Hfit. rewrite <- app_assoc in Hp.
  pose proof (set_tcp_app tcp_check 0 x h _ Hp Ht) as Hp0. rewrite put_segment in Hp0 by (reflexivity || assumption).
  unfold recalculate_tcp_checksum, set_tcp_checksum. set (x0 := set_tcp tcp_check 0 x) in *.
  assert (tcp_ x0 = length h) as Ht0 by exact Ht.
  assert (holds (tcp_ip x0) (h ++ put tcp_check 0 seg) slack) as Hx0.
  { exists tail. rewrite <- app_assoc. split; [exact Hp0 | split; [| exact Hs]]. change (payload_length_ (tcp_ip x0)) with (payload_length_ (tcp_ip x)).
    rewrite Hl, !length_app, length_put. reflexivity. }
  destruct (datagram_header _ _ Hd) as (_ & Hh & Hb).
  assert (datagram h (put tcp_check 0 seg)) as Hd0 by (apply (datagram_rest h seg); [exact Hd | apply length_put | apply put_check_bytes; assumption]).
  rewrite Ht0, (udptcp_checksum_spec _ h _ slack Hx0 Hd0) by (rewrite length_app, length_put, <- length_app; exact Hfit).
  cbn [mbind outcome_bind]. eexists. split; [reflexivity | split; [exact Ht0 |]].
  pose proof (set_tcp_app tcp_check (segment_checksum h (put tcp_check 0 seg)) x0 h _ Hp0 Ht0) as Hp1.
  rewrite put_segment in Hp1 by (reflexivity || (rewrite length_put; assumption)).
  exists tail. rewrite <- app_assoc. split; [exact Hp1 | split; [| exact Hs]].
  change (payload_length_ (tcp_ip (set_tcp tcp_check _ x0))) with (payload_length_ (tcp_ip x)). rewrite Hl, !length_app, length_tcp_checksummed. reflexivity.
Qed.

Lemma options_at x h seg tail :
  payload_ (tcp_ip x) = h ++ seg ++ tail → tcp_ x = length h → (20 ≤ length seg)%nat →
  options_start x = (length h + 20)%nat ∧ options_length x = 4 * get tcp_doff seg - 20 ∧
  is_tcp_syn x = negb (get tcp_syn seg =? 0).
Proof.
  intros Hp Ht H20. unfold options_start, options_length, get_tcp_length_bytes, get_tcp_length, is_tcp_syn, NUM_WORDS, sizeof_tcphdr.
  rewrite !(get_tcp_app _ x h (seg ++ tail) Hp Ht), !get_app by (apply ip_header_field_ok; [exact H20 | reflexivity]).
  rewrite Ht. repeat split. lia.
Qed.

Lemma announcing_put a mss v post :
  is_u16 v → put (be16 (length a + 2)) v (a ++ [TCPOPT_MAXSEG; TCPOLEN_MAXSEG; mss / 256; mss mod 256] ++ post)
  = a ++ [TCPOPT_MAXSEG; TCPOLEN_MAXSEG; v / 256; v mod 256] ++ post.
Proof. intros Hv. rewrite be16_shift, put_shift. f_equal. cbn -[Z.modulo Z.div]. repeat f_equal; word_lia. Qed.

Lemma announcing_get a mss post :
  is_u16 mss → get (be16 (length a + 2)) (a ++ [TCPOPT_MAXSEG; TCPOLEN_MAXSEG; mss / 256; mss mod 256] ++ post) = mss.
Proof. intros Hv. rewrite be16_shift, get_shift. cbn -[Z.modulo Z.div]. unfold byte_at. cbn -[Z.modulo Z.div]. word_lia. Qed.

Lemma search_announces x h seg tail fixed pre post mss :
  payload_ (tcp_ip x) = h ++ seg ++ tail → tcp_ x = length h → announces seg fixed pre post mss →
  search_options TCPOPT_MAXSEG TCPOLEN_MAXSEG x = Done (Some (length (h ++ fixed ++ encode_options pre) + 2)%nat).
Proof.
  intros Hp Ht [-> H20 Hpre Hdoff _].
  destruct (options_at x h _ tail Hp Ht) as (Eo & El & _); [unfold announcing; rewrite length_app; lia |].
  unfold announcing at 1 in El. rewrite get_app in El by (rewrite H20; reflexivity). unfold search_options. rewrite Eo, El.
  pose proof (find_option_found TCPOPT_MAXSEG [mss / 256; mss mod 256] pre (h ++ fixed) (post ++ tail) (4 * get tcp_doff fixed - 20) Hpre
    ltac:(discriminate) ltac:(discriminate) ltac:(cbn; lia) ltac:(cbn [length]; lia)) as F.
  assert ((h ++ fixed) ++ encode_options pre ++ (TCPOPT_MAXSEG :: (2 + Z.of_nat (length [mss / 256; mss mod 256])) :: [mss / 256; mss mod 256]) ++ post ++ tail
    = payload_ (tcp_ip x)) as Em by (rewrite Hp; unfold announcing; rewrite <- !app_assoc; reflexivity).
  rewrite Em, length_app, H20 in F. rewrite app_assoc, !length_app, H20. exact F.
Qed.

(** What the search finds is announced. *)
Lemma found_announces x h seg tail o :
  payload_ (tcp_ip x) = h ++ seg ++ tail → tcp_ x = length h → (20 ≤ length seg)%nat → 4 * get tcp_doff seg ≤ Z.of_nat (length seg) →
  (1 ≤ length tail)%nat → Forall is_byte (h ++ seg) → search_options TCPOPT_MAXSEG TCPOLEN_MAXSEG x = Done (Some o) →
  ∃ fixed pre post mss, announces seg fixed pre post mss.
Proof.
  intros Hp Ht H20 Hdoff H1 Hb E. destruct (options_at x h seg tail Hp Ht H20) as (Eo & El & _).
  unfold search_options in E. rewrite Eo, El, Hp in E.
  destruct (find_option_safe TCPOPT_MAXSEG TCPOLEN_MAXSEG (h ++ seg ++ tail) _ (length h + 20) (4 * get tcp_doff seg - 20)
    ltac:(unfold TCPOLEN_MAXSEG; lia) (Nat.le_refl _)) as (r & E' & _ & Ho); [rewrite !length_app; lia |].
  rewrite E' in E. injection E as ->. destruct Ho as (_ & Ho & _).
  destruct (find_option_sound TCPOPT_MAXSEG TCPOLEN_MAXSEG (h ++ seg ++ tail) (length h + length seg) (Z.to_nat (4 * get tcp_doff seg - 20)) (length h + 20)%nat
    (4 * get tcp_doff seg - 20) o) as (pre & rest & Hpre & Hd & ->); [| lia | exact E' |].
  { intros i b Hi Hlt. rewrite app_assoc, lookup_app_l in Hi by (rewrite length_app; lia). exact (Forall_lookup_1 _ _ _ _ Hb Hi). }
  unfold TCPOLEN_MAXSEG in Ho. apply Forall_app in Hb as [_ Hb].
  assert (drop 20 seg ++ tail = encode_options pre ++ TCPOPT_MAXSEG :: TCPOLEN_MAXSEG :: rest) as Hd'.
  { rewrite <- Hd, <- drop_drop, drop_app_length. symmetry. apply drop_app_le. exact H20. }
  assert (∃ a b post, drop 20 seg = encode_options pre ++ [TCPOPT_MAXSEG; TCPOLEN_MAXSEG; a; b] ++ post) as (a & b & post & Ed).
  { pose proof (f_equal length Hd') as Hlen. rewrite !length_app, length_drop in Hlen. cbn [length] in Hlen.
    destruct rest as [| a [| b rest]]; [cbn in Hlen; lia | cbn in Hlen; lia |]. exists a, b, (take (length seg - 24 - length (encode_options pre)) rest).
    transitivity (take (length seg - 20) (drop 20 seg ++ tail)); [symmetry; apply take_app_length'; rewrite length_drop; reflexivity |]. rewrite Hd'.
    replace (length seg - 20)%nat with (length (encode_options pre) + S (S (S (S (length seg - 24 - length (encode_options pre))))))%nat by lia.
    rewrite take_app_add. reflexivity. }
  pose proof (f_equal length Ed) as Hlen. rewrite length_drop, !length_app in Hlen. cbn [length] in Hlen.
  rewrite <- (take_drop 20 seg) in Hb. rewrite Ed, !Forall_app in Hb. destruct Hb as (_ & _ & Hab & _).
  rewrite !Forall_cons in Hab. destruct Hab as (_ & _ & Ha & Hb & _). unfold is_byte in Ha, Hb.
  exists (take 20 seg), pre, post, (256 * a + b). split; [| apply length_take_le; exact H20 | exact Hpre | | unfold is_u16; lia].
  - unfold announcing. replace ((256 * a + b) / 256) with a by word_lia.
    replace ((256 * a + b) mod 256) with b by word_lia. rewrite <- Ed. symmetry. apply take_drop.
  - assert (get tcp_doff (take 20 seg) = get tcp_doff seg) as ->; [| lia].
    rewrite <- (take_drop 20 seg) at 2. symmetry. apply get_app. rewrite length_take_le by exact H20. reflexivity.
Qed.

Lemma set_tcp_maxseg_option_announced extra x h seg fixed pre post mss slack :
  holds (tcp_ip x) (h ++ seg) slack → tcp_ x = length h → get tcp_syn seg ≠ 0 → announces seg fixed pre post mss →
  ∃ x', set_tcp_maxseg_option extra x = Done x' ∧ tcp_ x' = length h ∧ holds (tcp_ip x') (h ++ announcing fixed pre post (u16 (mss - extra))) slack.
Proof.
  intros (tail & Hp & Hl & Hs) Ht Hsyn Ha. pose proof Ha as [-> H20 _ _ Hm]. rewrite <- app_assoc in Hp.
  destruct (options_at x h _ tail Hp Ht) as (_ & _ & Esyn); [unfold announcing; rewrite length_app; lia |].
  unfold set_tcp_maxseg_option. rewrite Esyn, (proj2 (Z.eqb_neq _ _) Hsyn), (search_announces x h _ tail _ _ _ _ Hp Ht Ha). cbn [negb mbind outcome_bind].
  set (a := h ++ fixed ++ encode_options pre).
  assert (payload_ (tcp_ip x) = a ++ [TCPOPT_MAXSEG; TCPOLEN_MAXSEG; mss / 256; mss mod 256] ++ post ++ tail) as Ea by (rewrite Hp; unfold announcing, a; rewrite <- !app_assoc; reflexivity).
  unfold set_field, get_field. rewrite Ea, announcing_get, announcing_put by (assumption || apply u16_range).
  eexists. split; [reflexivity | split; [exact Ht |]]. exists tail. cbn [tcp_ip with_tcp_ip payload_ payload_length_ with_buffer]. split; [| split; [| exact Hs]].
  - unfold announcing, a. rewrite <- !app_assoc. reflexivity.
  - rewrite Hl, !length_app. rewrite (length_announcing fixed pre post mss (u16 (mss - extra))). reflexivity.
Qed.

Lemma set_tcp_maxseg_option_spec extra x h seg slack :
  holds (tcp_ip x) (h ++ seg) slack → tcp_ x = length h → (20 ≤ length seg)%nat → 4 * get tcp_doff seg ≤ Z.of_nat (length seg) →
  (1 ≤ slack)%nat → Forall is_byte (h ++ seg) → get tcp_syn seg ≠ 0 →
  ∃ x' seg', set_tcp_maxseg_option extra x = Done x' ∧ tcp_ x' = length h ∧ holds (tcp_ip x') (h ++ seg') slack ∧
    length seg' = length seg ∧ mss_lowered extra seg seg'.
Proof.
  intros Hx Ht H20 Hdoff H1 Hb Hsyn. pose proof Hx as (tail & Hp & Hl & Hs). rewrite <- app_assoc in Hp.
  destruct (options_at x h seg tail Hp Ht H20) as (Eo & El & Esyn).
  assert (∃ r, search_options TCPOPT_MAXSEG TCPOLEN_MAXSEG x = Done r) as (r & E).
  { unfold search_options. rewrite Eo, El.
    destruct (find_option_safe TCPOPT_MAXSEG TCPOLEN_MAXSEG (payload_ (tcp_ip x)) _ (length h + 20) (4 * get tcp_doff seg - 20)
      ltac:(unfold TCPOLEN_MAXSEG; lia) (Nat.le_refl _)) as (r & E & _); [rewrite Hp, !length_app; lia | eauto]. }
  destruct r as [o |].
  - destruct (found_announces x h seg tail o Hp Ht H20 Hdoff ltac:(lia) Hb E) as (fixed & pre & post & mss & Ha).
    destruct (set_tcp_maxseg_option_announced extra x h seg fixed pre post mss slack Hx Ht Hsyn Ha) as (x' & Ex & Ht' & Hx').
    exists x', (announcing fixed pre post (u16 (mss - extra))). split; [exact Ex | split; [exact Ht' | split; [exact Hx' | split]]].
    + rewrite (ann_segment _ _ _ _ _ Ha). apply length_announcing.
    + left. eauto 10.
  - exists x, seg. split; [| split; [exact Ht | split; [exact Hx | split; [reflexivity | right; split; [reflexivity |]]]]].
    + unfold set_tcp_maxseg_option. rewrite Esyn, (proj2 (Z.eqb_neq _ _) Hsyn), E. reflexivity.
    + intros fixed pre post mss Ha. rewrite (search_announces x h seg tail _ _ _ _ Hp Ht Ha) in E. discriminate.
Qed.

(** What [make_room_for_shim] leaves of a TCP segment. *)
Definition room_made (h : mem) (n : Z) (seg seg' : mem) : Prop :=
  if get tcp_syn seg =? 0 then seg' = seg
  else ∃ seg1, length seg1 = length seg ∧ mss_lowered (u16 (WIFU_LENGTH + n)) seg seg1 ∧ seg' = tcp_checksummed h seg1.

Lemma make_room_tcp_spec x h seg slack n :
  holds (tcp_ip x) (h ++ seg) slack → tcp_ x = length h → datagram h seg → (20 ≤ length seg)%nat → 4 * get tcp_doff seg ≤ Z.of_nat (length seg) →
  (1 ≤ slack)%nat → (length (h ++ seg) ≤ 1500)%nat →
  ∃ x' seg', make_room_tcp uninitialised n x = Done x' ∧ tcp_ x' = length h ∧ holds (tcp_ip x') (h ++ seg') slack ∧
    room_made h n seg seg' ∧ datagram h seg' ∧ length seg' = length seg.
Proof.
  intros Hx Ht Hd H20 Hdoff H1 Hfit. unfold room_made, make_room_tcp.
  pose proof Hx as (tail & Hp & _). rewrite <- app_assoc in Hp. destruct (options_at x h seg tail Hp Ht H20) as (_ & _ & ->).
  destruct (Z.eqb_spec (get tcp_syn seg) 0) as [E | Hsyn]; cbn [negb]; [eauto 10 |].
  destruct (datagram_header _ _ Hd) as (_ & Hhb & Hb).
  destruct (set_tcp_maxseg_option_spec (u16 (WIFU_LENGTH + n)) x h seg slack Hx Ht H20 Hdoff H1 (Forall_app_2 _ _ _ Hhb Hb) Hsyn) as (x1 & seg1 & E1 & Ht1 & Hx1 & L1 & M1).
  rewrite E1. cbn [mbind outcome_bind].
  pose proof (mss_lowered_bytes _ _ _ M1 Hb) as Hb1. assert (datagram h seg1) as Hd1 by (apply (datagram_rest h seg); assumption).
  destruct (recalculate_tcp_checksum_spec x1 h seg1 slack Hx1 Ht1 Hd1 ltac:(lia)) as (x' & E' & Ht' & Hx').
  { rewrite length_app, L1, <- length_app. exact Hfit. }
  exists x', (tcp_checksummed h seg1). split; [exact E' | split; [exact Ht' | split; [exact Hx' | split; [eauto |]]]].
  rewrite length_tcp_checksummed, L1. split; [| reflexivity]. apply (datagram_rest h seg); [exact Hd | rewrite length_tcp_checksummed; exact L1 |].
  unfold tcp_checksummed. repeat apply put_check_bytes; rewrite ?length_put; try lia; assumption.
Qed.

(** Before a shim of [n] bytes goes into a SYN, the maximum segment size that the SYN
    announces, behind whatever other options, is lowered by the [4 + n] bytes that every later
    segment will carry (modulo 2^16), nothing else of the segment changes, and the recalculated
    TCP checksum verifies. *)
Theorem syn_makes_room x h seg fixed pre post mss slack n :
  holds (tcp_ip x) (h ++ seg) slack → tcp_ x = length h → datagram h seg → announces seg fixed pre post mss →
  get tcp_syn fixed ≠ 0 → 0 ≤ n < 256 → (length (h ++ seg) ≤ 1500)%nat →
  let seg' := tcp_checksummed h (announcing fixed pre post (u16 (mss - (4 + n)))) in
  ∃ x', make_room_tcp uninitialised n x = Done x' ∧ tcp_ x' = length h ∧ holds (tcp_ip x') (h ++ seg') slack ∧
        segment_verifies h seg' ∧ length seg' = length seg.
Proof.
  intros Hx Ht Hd Ha Hsyn Hn Hfit seg'. destruct (datagram_header _ _ Hd) as ((Hh & _) & Hhb & Hb). pose proof Ha as [-> H20 _ _ _].
  assert (get tcp_syn (announcing fixed pre post mss) = get tcp_syn fixed) as Es by (apply get_app; rewrite H20; reflexivity).
  assert (20 ≤ length (announcing fixed pre post mss))%nat as Hlen by (unfold announcing; rewrite length_app; lia).
  destruct (set_tcp_maxseg_option_announced (u16 (WIFU_LENGTH + n)) x h _ fixed pre post mss slack Hx Ht ltac:(rewrite Es; exact Hsyn) Ha) as (x1 & E1 & Ht1 & Hx1).
  unfold WIFU_LENGTH in *. rewrite (u16_small (4 + n)) in E1, Hx1 by (unfold is_u16; lia).
  pose proof (announcing_bytes fixed pre post mss (u16 (mss - (4 + n))) (u16_range _) Hb) as Hb1.
  pose proof (length_announcing fixed pre post mss (u16 (mss - (4 + n)))) as Hla.
  assert (datagram h (announcing fixed pre post (u16 (mss - (4 + n))))) as Hd1 by (apply (datagram_rest h (announcing fixed pre post mss)); [exact Hd | lia | exact Hb1]).
  destruct (recalculate_tcp_checksum_spec x1 h _ slack Hx1 Ht1 Hd1 ltac:(lia)) as (x' & E' & Ht' & Hx').
  { rewrite length_app in *. lia. }
  exists x'. unfold make_room_tcp. pose proof Hx as (tail & Hp & _). rewrite <- app_assoc in Hp.
  destruct (options_at x h _ tail Hp Ht Hlen) as (_ & _ & ->). rewrite Es.
  rewrite (proj2 (Z.eqb_neq _ _) Hsyn). cbn [negb]. unfold WIFU_LENGTH. rewrite (u16_small (4 + n)) by (unfold is_u16; lia). rewrite E1. cbn [mbind outcome_bind].
  split; [exact E' | split; [exact Ht' | split; [exact Hx' | split]]].
  - apply tcp_checksummed_verifies; [lia | exact Hhb | lia | exact Hb1].
  - unfold seg'. rewrite length_tcp_checksummed. lia.
Qed.

End TransportSpec.

(** A SYN with timestamp-like padding options before its segment size 1460. *)
Definition syn_header : mem := Eval vm_compute in stamp TCP 46 [69; 0; 0; 0; 0; 1; 0; 0; 64; 0; 0; 0; 10; 0; 0; 1; 10; 0; 0; 2].
Definition syn_fixed : mem := [19; 136; 31; 64; 0; 0; 0; 1; 0; 0; 0; 0; 112; 2; 255; 255; 0; 0; 0; 0].
Definition syn_packet : tcp_packet :=
  {| tcp_ip := {| id_ := 8; payload_length_ := 46; payload_ := syn_header ++ announcing syn_fixed [Nop; Nop] [] 1460 ++ replicate 60 0;
                  filter_ := output; preserve_payload_ := true |}; tcp_ := 20 |}.

Lemma syn_makes_room_witness :
  let seg' := tcp_checksummed syn_header (announcing syn_fixed [Nop; Nop] [] 1452) in
  ∃ x', make_room_tcp (replicate BUF_SIZE 255) 4 syn_packet = Done x' ∧ tcp_ x' = 20%nat ∧
        holds (tcp_ip x') (syn_header ++ seg') 60 ∧ segment_verifies syn_header seg' ∧ length seg' = 26%nat.
Proof.
  apply (syn_makes_room (replicate BUF_SIZE 255) (length_replicate _ _) syn_packet syn_header
    (announcing syn_fixed [Nop; Nop] [] 1460) syn_fixed [Nop; Nop] [] 1460 60 4).
  - exists (replicate 60 0). split; [| split]; [reflexivity.. | cbn; lia].
  - reflexivity.
  - split; [| vm_compute; congruence | reflexivity..].
    repeat (apply Forall_cons; split; [vm_compute; split; congruence |]). apply Forall_nil_2.
  - split; [reflexivity | reflexivity | repeat constructor | vm_compute; congruence | unfold is_u16; lia].
  - vm_compute. congruence.
  - lia.
  - cbn. lia.
Defined.
