(* ===== verification/CoreHandler.v ===== *)
(** * WiFu Core: handlers and the netfilter loop (core/src/core, core/src/common, core/src/test)

    The main program receives packets from five netfilter queues and hands each to the method
    of the handler for that queue; the handler answers with verdicts. Effects are collected in
    a state: the verdicts given to netfilter, the lines of the log, the lines printed. A
    handler is a record of its methods; the default one accepts everything, TestHandler
    inserts a shim on output and removes it on input. *)
From Stdlib Require Import Ascii.
From stdpp Require Import pretty.
From S2P Require Import Prelude.
From S2P Require Import HeaderMem.
From S2P Require Import IPPacket.
From S2P Require Import CorePacket.
From S2P Require Import CoreTransport.

#[local] Open Scope string_scope.
#[local] Open Scope Z_scope.

(** ** Command lines (common/option_parser.cc) *)

(** An entry of the [struct option] table: its name and whether it takes an argument. *)
Record long_option := { opt_name : string; opt_has_arg : bool }.

(** One result of [getopt_long]: the character returned, the index stored (-1 if none) and
    [optarg]. The command line itself is what these results say. *)
Record getopt_result := { got_char : Z; got_index : Z; got_arg : string }.

(** The maps are keyed by the literals' addresses; a compiler that keeps one copy of equal
    literals, as this needs, makes that the names. *)
Record options := { present_ : gmap string bool; argument_ : gmap string string }.

Definition no_options : options := {| present_ := ∅; argument_ := ∅ |}.

(** The character '?'. *)
Definition getopt_error : Z := 63%Z.

(** The loop: it ends at -1, skips what has no index. *)
Fixpoint parse (table : list long_option) (results : list getopt_result) (o : options) : outcome options :=
  match results with
  | [] => Done o
  | r :: results =>
      if got_char r =? -1 then Done o
      else if got_index r =? -1 then parse table results o
      else if got_char r =? getopt_error then parse table results o
      else
        entry ← match table !! Z.to_nat (got_index r) with Some e => Done e | None => Fault OutOfBounds end;
        parse table results
          {| present_ := <[opt_name entry := true]> (present_ o);
             argument_ := if opt_has_arg entry then <[opt_name entry := got_arg r]> (argument_ o) else argument_ o |}
  end.

Definition present (name : string) (o : options) : bool := default false (present_ o !! name).
(** A null pointer when the option had no argument. *)
Definition argument (name : string) (o : options) : option string := argument_ o !! name.

(** ** Time (common/utils.cc)

    [gettimeofday] and [localtime] are the system's. The stream's width applies to the month
    only, and [tm_mon] counts from 0. *)
Definition MILLION : Z := 1000000.

Definition time_of (tv_sec tv_usec : Z) : Z := u64 (u64 (u64 tv_sec * MILLION) + u64 tv_usec).

Record tm := { tm_year : Z; tm_mon : Z; tm_mday : Z; tm_hour : Z; tm_min : Z; tm_sec : Z }.

Definition two_digits (n : Z) : string := if n <? 10 then "0" +:+ show n else show n.

Definition asc_time (t : tm) : string :=
  show (1900 + tm_year t) +:+ "-" +:+ two_digits (tm_mon t) +:+ "-" +:+ show (tm_mday t) +:+ "-"
  +:+ show (tm_hour t) +:+ "-" +:+ show (tm_min t) +:+ "-" +:+ show (tm_sec t).

(** ** class Logger (common/logger.cc) *)

Record logger := { commented_ : bool; log_file_ : list string; times_ : nat }.

Definition new_logger : logger := {| commented_ := false; log_file_ := []; times_ := 0 |}.

Definition log_message (message : string) (l : logger) : logger :=
  {| commented_ := commented_ l; log_file_ := (log_file_ l ++ [message])%list; times_ := times_ l |}.

(** What [Logger::log] of a packet uses of a packet: its virtual text methods. *)
Class Printable (T : Type) := { to_s : T → string; to_s_format : string }.

#[export] Instance ip_printable : Printable packet := { to_s := ip_to_s; to_s_format := ip_to_s_format }.
#[export] Instance tcp_printable : Printable tcp_packet := { to_s := tcp_to_s; to_s_format := tcp_to_s_format }.
#[export] Instance udp_printable : Printable udp_packet := { to_s := udp_to_s; to_s_format := udp_to_s_format }.

Section Core.

(** The clock at the n-th call of [get_time]. *)
Variable get_time : nat → Z.
Variable uninitialised : mem.
Variable verbose_ : bool.

Definition log_packet {T} `{Printable T} (p : T) (l : logger) : logger :=
  let head := if commented_ l then [] else ["# timestamp usec"; to_s_format (T := T); ""] in
  {| commented_ := true; log_file_ := (log_file_ l ++ head ++ [show (get_time (times_ l)); to_s p; ""])%list; times_ := S (times_ l) |}.

(** ** Effects of a handler *)

Record effects := { verdicts : list verdict; logged : logger; printed : list string }.

Definition no_effects : effects := {| verdicts := []; logged := new_logger; printed := [] |}.

Definition action := effects → outcome effects.

Definition give (v : outcome verdict) : action := fun s =>
  v ← v; Done {| verdicts := (verdicts s ++ [v])%list; logged := logged s; printed := printed s |}.

Definition print (line : string) : action := fun s =>
  Done {| verdicts := verdicts s; logged := logged s; printed := (printed s ++ [line])%list |}.

Definition write_log {T} `{Printable T} (logging : bool) (p : T) : action := fun s =>
  Done (if logging then {| verdicts := verdicts s; logged := log_packet p (logged s); printed := printed s |} else s).

Definition andthen (a b : action) : action := fun s => s ← a s; b s.

(** ** class Handler (core/handler.cc) *)

Record Handler := {
  on_input : packet → action;
  on_output : packet → action;
  on_forward : packet → action;
  on_prerouting : packet → action;
  on_postrouting : packet → action }.

Definition default_method (p : packet) : action := give (accept p).

Definition default_handler : Handler :=
  {| on_input := default_method; on_output := default_method; on_forward := default_method;
     on_prerouting := default_method; on_postrouting := default_method |}.

(** ** class TestHandler (test/test_handler.cc) *)

Record test_options := { logging_ : bool; insert_shim_ : bool }.

(** [parse_options] of the handler. *)
Definition test_long_options : list long_option :=
  [{| opt_name := "test-log"; opt_has_arg := false |}; {| opt_name := "test-shim"; opt_has_arg := false |}].

Definition test_parse_options (results : list getopt_result) : outcome test_options :=
  o ← parse test_long_options results no_options;
  Done {| logging_ := present "test-log" o; insert_shim_ := present "test-shim" o |}.

(** [struct test_shim { u_int32_t a; }] with [a = 100], in host order. *)
Definition test_shim : mem := [100; 0; 0; 0].
Definition sizeof_test_shim : Z := 4.

Definition announce (what : string) (p : packet) : action := fun s =>
  if verbose_ then print ("Processing " +:+ what +:+ " packet " +:+ show (id p)) s else Done s.

(** The end of each branch: log and accept. *)
Definition log_and_accept {T} `{Shimmable T} `{Printable T} (logging : bool) (x : T) : action :=
  andthen (write_log logging x) (give (accept (ip_part x))).

(** The value printed for the shim header: the word [a]. *)
Definition print_shim (p : packet) : action := fun s =>
  o ← deref (get_shim p);
  a ← memread (payload_ p) o sizeof_test_shim;
  print ("shim header a: " +:+ show (get (Bytes [0; 1; 2; 3]%nat) a)) s.

Definition test_input (t : test_options) (p : packet) : action :=
  andthen (announce "input" p) (fun s =>
    if negb (get_ip_protocol p =? WIFU_PROTOCOL) then give (accept p) s
    else
      s ← print_shim p s;
      wifu ← deref (get_wifu p);
      let protocol := get_field (wifu_protocol wifu) p in
      if protocol =? UDP then
        packet ← new_udp_packet uninitialised p;
        packet ← remove_shim (H := udp_shimmable) uninitialised packet;
        log_and_accept (logging_ t) packet s
      else if protocol =? TCP then
        packet ← new_tcp_packet uninitialised p;
        packet ← remove_shim (H := tcp_shimmable uninitialised) uninitialised packet;
        log_and_accept (H := tcp_shimmable uninitialised) (logging_ t) packet s
      else
        p ← remove_shim uninitialised p;
        log_and_accept (logging_ t) p s).

(** [if (insert_shim_) insert_shim(&shim, 0, length)] *)
Definition maybe_insert {T} `{Shimmable T} (t : test_options) (x : T) : outcome T :=
  if insert_shim_ t then insert_shim uninitialised test_shim 0 sizeof_test_shim x else Done x.

(** The TCP branch does not return: the packet it was made from goes on as any other. *)
Definition test_output (t : test_options) (p : packet) : action :=
  andthen (announce "output" p) (fun s =>
    let protocol := get_ip_protocol p in
    let others s := p ← maybe_insert t p; log_and_accept (logging_ t) p s in
    if protocol =? UDP then
      packet ← new_udp_packet uninitialised p;
      packet ← maybe_insert (H := udp_shimmable) t packet;
      log_and_accept (logging_ t) packet s
    else if protocol =? TCP then
      packet ← new_tcp_packet uninitialised p;
      packet ← maybe_insert (H := tcp_shimmable uninitialised) t packet;
      s ← log_and_accept (H := tcp_shimmable uninitialised) (logging_ t) packet s;
      others s
    else others s).

(** Neither branch returns. *)
Definition test_forward (t : test_options) (p : packet) : action :=
  andthen (announce "forward" p) (fun s =>
    let protocol := get_ip_protocol p in
    s ← (if protocol =? UDP then packet ← new_udp_packet uninitialised p; log_and_accept (logging_ t) packet s else Done s);
    s ← (if protocol =? TCP then packet ← new_tcp_packet uninitialised p; log_and_accept (H := tcp_shimmable uninitialised) (logging_ t) packet s else Done s);
    log_and_accept (logging_ t) p s).

Definition print_packet {T} `{Printable T} (p : T) : action :=
  andthen (print (to_s_format (T := T))) (andthen (print (to_s p)) (print "")).

Definition test_handler (t : test_options) : Handler :=
  {| on_input := test_input t; on_output := test_output t; on_forward := test_forward t;
     on_prerouting := default_method; on_postrouting := default_method |}.

(** [create_handler]: no return statement is reached for another name. *)
Inductive handler_class := DefaultHandler | TestHandler.

Definition create_handler (name : string) : outcome handler_class :=
  if String.eqb name "default" then Done DefaultHandler
  else if String.eqb name "test" then Done TestHandler
  else Fault MissingReturn.

(** The virtual [parse_options]: [results] are those of [getopt_long] with the handler's table. *)
Definition handler_parse_options (c : handler_class) (results : list getopt_result) : outcome Handler :=
  match c with
  | DefaultHandler => Done default_handler
  | TestHandler => t ← test_parse_options results; Done (test_handler t)
  end.

(** ** The main program (core/wifu.cc) *)

Definition main_long_options : list long_option :=
  [{| opt_name := "verbose"; opt_has_arg := false |}; {| opt_name := "flush-iptables"; opt_has_arg := false |};
   {| opt_name := "interface"; opt_has_arg := true |}; {| opt_name := "config"; opt_has_arg := true |};
   {| opt_name := "handler"; opt_has_arg := true |}].

Record settings := {
  set_verbose : bool;
  flush_iptables_ : bool;
  interface_ : option string;
  config_file_ : option string;
  handler_ : Handler }.

Definition parse_options (results handler_results : list getopt_result) : outcome settings :=
  o ← parse main_long_options results no_options;
  c ← (if present "handler" o then name ← deref (argument "handler" o); create_handler name else Done DefaultHandler);
  h ← handler_parse_options c handler_results;
  Done {| set_verbose := present "verbose" o;
          flush_iptables_ := present "flush-iptables" o;
          interface_ := if present "interface" o then argument "interface" o else Some "wlan0";
          config_file_ := if present "config" o then argument "config" o else Some "wifu.conf";
          handler_ := h |}.

(** *** setup_iptables

    The lines that [while (!file.eof()) getline(file, line)] sees: a final newline is
    followed by one more, empty, line. *)
Fixpoint lines_of (cs : list Ascii.ascii) (line : list Ascii.ascii) : list (list Ascii.ascii) :=
  match cs with
  | [] => [line]
  | c :: cs => if bool_decide (c = Ascii.ascii_of_nat 10) then line :: lines_of cs [] else lines_of cs (line ++ [c])%list
  end.

Definition file_lines (content : string) : list string := map String.string_of_list_ascii (lines_of (String.list_ascii_of_string content) []).

(** Lines that are neither empty nor comments. *)
Definition is_rule (line : string) : bool :=
  match line with EmptyString => false | String c _ => negb (Ascii.eqb c "#"%char) end.

(** The commands given to [system()]; no file, no rules. *)
Definition setup_iptables (add flush : bool) (file : option string) : list string :=
  ((if add && flush then ["iptables -t mangle -F"] else []) ++
   match file with
   | None => []
   | Some content =>
       map (fun line => (if add then "iptables -t mangle -A " else "iptables -t mangle -D ") +:+ line)
         (List.filter is_rule (file_lines content))
   end)%list.

(** *** Netfilter queues

    The callbacks: the packet is made in the receive buffer, without a copy. *)
Definition callback (filter : Filter) (h : Handler) (id payload_length : Z) (payload : mem) : action := fun s =>
  p ← new_packet uninitialised id payload_length payload filter false;
  (match filter with
   | input => on_input h
   | output => on_output h
   | forward => on_forward h
   | prerouting => on_prerouting h
   | postrouting => on_postrouting h
   end) p s.

(** The callback that [setup_nfq] registers for each queue number. *)
Definition queue_callbacks : list (nat * Filter) :=
  [(0, input); (1, output); (2, forward); (3, prerouting); (4, postrouting)]%nat.

Definition queue_filter (queue : nat) : option Filter :=
  snd <$> List.find (fun e => Nat.eqb (fst e) queue) queue_callbacks.

(** What one [recv] on the netlink socket gives: an error, with [ENOBUFS] apart, or a message
    that [nfq_handle_packet] hands to the callback of its queue, if there is one. *)
Inductive received :=
| Message (queue : nat) (id payload_length : Z) (payload : mem)
| RecvEnobufs
| RecvError.

Definition nfq_handle_packet (h : Handler) (queue : nat) (id payload_length : Z) (payload : mem) : action := fun s =>
  match queue_filter queue with Some f => callback f h id payload_length payload s | None => Done s end.

Inductive loop_state := Waiting | Left.

(** [while (1)]: the receptions so far, the count of dropped ones, and whether the loop is left. *)
Fixpoint main_loop (h : Handler) (rs : list received) (enobufs_ : nat) (s : effects) : outcome (loop_state * nat * effects) :=
  match rs with
  | [] => Done (Waiting, enobufs_, s)
  | RecvEnobufs :: rs => main_loop h rs (S enobufs_) s
  | RecvError :: _ => Done (Left, enobufs_, s)
  | Message queue id payload_length payload :: rs =>
      s ← nfq_handle_packet h queue id payload_length payload s; main_loop h rs enobufs_ s
  end.

(** [quit()], after the queues are destroyed: the rules are removed and the count logged. *)
Definition quit (file : option string) (flush : bool) (enobufs_ : nat) (l : logger) : list string * logger :=
  (setup_iptables false flush file, log_message ("enobufs " +:+ pretty enobufs_) l).

End Core.

(** *** setup_nfq

    [nfq_open], [nfq_bind_pf], [nfq_create_queue] and [nfq_set_mode] are the library's; what
    they return is given. The error message is what [perror] prints before [exit(1)]. *)
Section Setup.

Variable nfq_open : bool.
Variable nfq_bind_pf : Z.
Variable nfq_create_queue : nat → bool.
Variable nfq_set_mode : nat → Z.

Definition queue_name (queue : nat) : string :=
  match queue with 0 => "input" | 1 => "output" | 2 => "forward" | 3 => "prerouting" | _ => "postrouting" end%nat.

Fixpoint create_queues (queues handles : list nat) : string + list nat :=
  match queues with
  | [] => inr handles
  | q :: queues =>
      if negb (nfq_create_queue q) then inl ("Can't create netfilter " +:+ queue_name q +:+ " queue")
      else if nfq_set_mode q <? 0 then inl ("Can't set netfilter copy mode for " +:+ queue_name q +:+ " queue")
      else create_queues queues (handles ++ [q])%list
  end.

Definition setup_nfq : string + list nat :=
  if negb nfq_open then inl "Can't get netfilter handle"
  else if nfq_bind_pf <? 0 then inl "Can't bind netfilter handle"
  else create_queues [0; 1; 2; 3; 4]%nat [].

End Setup.

#[local] Open Scope list_scope.

(** ** Verdicts *)

Definition accepting (id : Z) (c : mem) : verdict :=
  {| verdict_id := id; verdict_code := NF_ACCEPT; verdict_payload := Some c |}.

(** A packet is accepted with the bytes it holds. *)
Lemma accept_holds p c slack : holds p c slack → accept p = Done (accepting (id_ p) c).
Proof.
  intros (tail & Hp & Hl & _). unfold accept, set_verdict. rewrite Hp, Hl, memread_prefix by reflexivity. reflexivity.
Qed.

Lemma copy_packet_holds uninitialised p c slack :
  length uninitialised = BUF_SIZE → holds p c slack → (0 < length c ≤ BUF_SIZE)%nat →
  ∃ q, copy_packet uninitialised p = Done q ∧ holds q c (BUF_SIZE - length c) ∧ id_ q = id_ p.
Proof.
  intros Hu (tail & Hp & Hl & _) Hc. unfold copy_packet, copy_payload. cbn [preserve_payload_ payload_length_ payload_].
  rewrite Hl, (proj2 (Z.ltb_lt 0 _)) by lia. cbn [andb]. rewrite Hp, memread_prefix by reflexivity. cbn [mbind outcome_bind].
  rewrite memcpy_prefix by lia. cbn [mbind outcome_bind]. eexists. split; [reflexivity | split; [| reflexivity]].
  eexists. split; [reflexivity | split; [reflexivity |]]. rewrite length_drop, Hu. lia.
Qed.

(** ** Which verdicts a method gives *)

(** The method returns, with [vs] the verdicts it gave. *)
Definition gives (a : action) (vs : list verdict) : Prop :=
  ∀ s, ∃ s', a s = Done s' ∧ verdicts s' = verdicts s ++ vs.

Lemma gives_andthen a b vs ws : gives a vs → gives b ws → gives (andthen a b) (vs ++ ws).
Proof.
  intros Ha Hb s. destruct (Ha s) as (s1 & E1 & V1). destruct (Hb s1) as (s2 & E2 & V2).
  exists s2. unfold andthen. rewrite E1. cbn [mbind outcome_bind]. rewrite V2, V1, <- app_assoc. auto.
Qed.

Lemma gives_give v : gives (give (Done v)) [v].
Proof. intros s. eexists. split; reflexivity. Qed.

Lemma gives_print line : gives (print line) [].
Proof. intros s. eexists. split; [reflexivity |]. cbn. rewrite app_nil_r. reflexivity. Qed.

Lemma gives_announce verbose what p : gives (announce verbose what p) [].
Proof.
  intros s. unfold announce. destruct verbose; [apply gives_print |]. exists s. rewrite app_nil_r. split; reflexivity.
Qed.

Lemma gives_log_and_accept {T} `{Shimmable T} `{Printable T} get_time lg (x : T) c slack :
  holds (ip_part x) c slack → gives (log_and_accept get_time lg x) [accepting (id_ (ip_part x)) c].
Proof.
  intros Hx. apply (gives_andthen _ _ [] [_]).
  - intros s. eexists. split; [reflexivity |]. rewrite app_nil_r. destruct lg; reflexivity.
  - rewrite (accept_holds _ _ _ Hx). apply gives_give.
Qed.

(** ** TestHandler *)

(** Room for the shim of TestHandler, and a whole TCP header if it is TCP. *)
Record sendable (h rest : mem) : Prop := {
  sendable_datagram : datagram h rest;
  sendable_room : (length (h ++ rest) + 8 ≤ 1500)%nat;
  sendable_tcp : get f_protocol h = TCP → (20 ≤ length rest)%nat ∧ 4 * get tcp_doff rest ≤ Z.of_nat (length rest) }.

Definition shimmed (h rest : mem) : mem := with_shim h rest test_shim 0.

Lemma length_with_shim h rest sb ty : length (with_shim h rest sb ty) = (length (h ++ rest) + 4 + length sb)%nat.
Proof. unfold with_shim. rewrite !length_app, length_stamp. cbn [length]. lia. Qed.

Lemma byte_at_in_slice m o n i : (i < n)%nat → byte_at (slice m o n) i = byte_at m (o + i).
Proof. intros H. unfold byte_at, slice. rewrite lookup_take_lt, lookup_drop by assumption. reflexivity. Qed.

Section TestHandlerSpec.

Variable get_time : nat → Z.
Variable uninitialised : mem.
Hypothesis stack_size : length uninitialised = BUF_SIZE.
Variable verbose_ : bool.

(** Inserting the shim, for each packet class. *)
Lemma maybe_insert_holds {T} `{ShimmableLaws T} t (x x' : T) h rest slack :
  insert_shim_ t = true → make_room_for_shim 4 x = Done x' → holds (ip_part x') (h ++ rest) slack → datagram h rest →
  (length (h ++ rest) + 8 ≤ 1500)%nat → (8 ≤ slack)%nat →
  ∃ q, maybe_insert uninitialised t x = Done q ∧ holds (ip_part q) (shimmed h rest) (slack - 8) ∧ id_ (ip_part q) = id_ (ip_part x).
Proof.
  intros Ht Hr Hx Hd Hfit Hs. unfold maybe_insert. rewrite Ht.
  destruct (insert_shim_holds uninitialised stack_size x x' h rest slack test_shim [] 0 Hr Hx Hd) as (q & E & Hq).
  { cbn [length test_shim]. lia. } { cbn [length test_shim]. lia. }
  rewrite app_nil_r in E. change (Z.of_nat (length test_shim)) with sizeof_test_shim in E.
  exists q. split; [exact E | split; [| exact (insert_shim_id _ _ _ _ _ _ E)]].
  replace (slack - 8)%nat with (slack - 4 - length test_shim)%nat by (cbn [length test_shim]; lia). exact Hq.
Qed.

(** What output puts on the wire in place of [rest]. *)
Definition sent (h rest rest' : mem) : Prop :=
  if get f_protocol h =? TCP then room_made h 4 rest rest' else rest' = rest.

(** The sending half: the first verdict carries the datagram with a shim; only TCP gives a
    second one. *)
Lemma test_output_gives t p h rest slack :
  insert_shim_ t = true → holds p (h ++ rest) slack → (8 ≤ slack)%nat → sendable h rest →
  ∃ rest', sent h rest rest' ∧ datagram h rest' ∧ length rest' = length rest ∧
    gives (test_output get_time uninitialised verbose_ t p)
      (accepting (id_ p) (shimmed h rest') ::
       if get f_protocol h =? TCP then [accepting (id_ p) (shimmed h rest)] else []).
Proof.
  intros Ht Hp Hslack [Hd Hfit Htcp]. pose proof (datagram_header _ _ Hd) as ((H20 & _) & Hb & _).
  pose proof Hp as (tail & Ep & _). rewrite <- app_assoc in Ep.
  destruct (head_fields p h _ Ep H20 Hb (dg_length _ _ Hd)) as (_ & Epr & _).
  assert (0 < length (h ++ rest) ≤ BUF_SIZE)%nat as Hlen by (unfold BUF_SIZE; rewrite length_app in *; lia).
  destruct (copy_packet_holds uninitialised p _ _ stack_size Hp Hlen) as (q & Eq & Hq & Iq).
  assert (∀ x, holds x (h ++ rest) (BUF_SIZE - length (h ++ rest)) → get f_protocol h ≠ WIFU_PROTOCOL → get_next_header x = length h) as Hnext.
  { intros x (tl & Ex & _) Hne. rewrite <- app_assoc in Ex. destruct (head_fields x h _ Ex H20 Hb (dg_length _ _ Hd)) as (El & Epx & _).
    unfold get_next_header. rewrite Epx, El, Nat2Z.id, (proj2 (Z.eqb_neq _ _) Hne). reflexivity. }
  assert (8 ≤ BUF_SIZE - length (h ++ rest))%nat as Hroom by (unfold BUF_SIZE; lia).
  (* the branch for all other protocols, which TCP packets reach as well *)
  destruct (maybe_insert_holds (H := ip_shimmable) t p p h rest slack Ht eq_refl Hp Hd Hfit Hslack) as (r & Er & Hr & Ir).
  change (ip_part r) with r in *. change (ip_part p) with p in *.
  pose proof (gives_log_and_accept get_time (logging_ t) r _ _ Hr) as Gr. change (ip_part r) with r in Gr. rewrite Ir in Gr.
  unfold sent. destruct (Z.eqb_spec (get f_protocol h) TCP) as [HT | HT].
  - destruct (Htcp HT) as [T20 Tdoff].
    destruct (make_room_tcp_spec uninitialised stack_size {| tcp_ip := q; tcp_ := get_next_header q |} h rest _ 4 Hq) as (x' & rest' & Em & Etx & Hx' & Hrm & Hd' & Hl').
    { apply Hnext; [exact Hq |]. rewrite HT. discriminate. } { exact Hd. } { exact T20. } { exact Tdoff. } { unfold BUF_SIZE in *; lia. } { lia. }
    exists rest'. split; [exact Hrm | split; [exact Hd' | split; [exact Hl' |]]].
    destruct (maybe_insert_holds (H := tcp_shimmable uninitialised) t {| tcp_ip := q; tcp_ := get_next_header q |} x' h rest' _ Ht Em Hx' Hd') as (y & Ey & Hy & Iy).
    { rewrite length_app, Hl', <- length_app. exact Hfit. } { exact Hroom. }
    pose proof (gives_log_and_accept (H := tcp_shimmable uninitialised) get_time (logging_ t) y _ _ Hy) as Gy. rewrite Iy in Gy.
    change (id_ (ip_part {| tcp_ip := q; tcp_ := get_next_header q |})) with (id_ q) in Gy. rewrite Iq in Gy.
    apply (gives_andthen _ _ [] [_; _]); [apply gives_announce |]. intros s. cbv beta zeta. rewrite Epr, HT.
    change (TCP =? UDP) with false. rewrite Z.eqb_refl. unfold new_tcp_packet. rewrite Eq. cbn [mbind outcome_bind]. rewrite Ey. cbn [mbind outcome_bind].
    destruct (Gy s) as (s1 & E1 & V1). rewrite E1. cbn [mbind outcome_bind]. rewrite Er. cbn [mbind outcome_bind].
    destruct (Gr s1) as (s2 & E2 & V2). exists s2. split; [exact E2 |]. rewrite V2, V1, <- app_assoc. reflexivity.
  - exists rest. split; [reflexivity | split; [exact Hd | split; [reflexivity |]]].
    apply (gives_andthen _ _ [] [_]); [apply gives_announce |]. intros s. cbv beta zeta. rewrite Epr.
    rewrite (proj2 (Z.eqb_neq _ TCP) HT). destruct (Z.eqb_spec (get f_protocol h) UDP) as [HU | HU].
    + destruct (maybe_insert_holds (H := udp_shimmable) t {| udp_ip := q; udp_ := get_next_header q |} {| udp_ip := q; udp_ := get_next_header q |} h rest _ Ht eq_refl Hq Hd Hfit Hroom) as (y & Ey & Hy & Iy).
      pose proof (gives_log_and_accept (H := udp_shimmable) get_time (logging_ t) y _ _ Hy) as Gy. rewrite Iy in Gy.
      change (id_ (ip_part {| udp_ip := q; udp_ := get_next_header q |})) with (id_ q) in Gy. rewrite Iq in Gy.
      unfold new_udp_packet. rewrite Eq. cbn [mbind outcome_bind]. rewrite Ey. cbn [mbind outcome_bind]. exact (Gy s).
    + rewrite Er. cbn [mbind outcome_bind]. exact (Gr s).
Qed.

(** The receiving half: the shim is taken off and the datagram accepted, once. *)
Lemma test_input_gives t q h rest slack :
  holds q (shimmed h rest) slack → datagram h rest → (length (h ++ rest) + 8 ≤ 1500)%nat →
  gives (test_input get_time uninitialised verbose_ t q) [accepting (id_ q) (h ++ rest)].
Proof.
  intros Hq Hd Hfit.
  assert (length (h ++ rest) + 4 + length test_shim ≤ 1500)%nat as Hfit' by (cbn [length test_shim]; lia).
  assert (length test_shim < 256)%nat as Hsmall by (cbn; lia).
  destruct (shim_accessors q h rest test_shim 0 slack Hq Hd Hsmall) as (Epr & Ew & Eh & Es & Esb & _).
  assert (get_field (wifu_protocol (length h)) q = get f_protocol h) as Ewp.
  { unfold get_field, wifu_protocol, byte, get, get_bytes. replace (2 + length h)%nat with (length h + 2)%nat by lia.
    rewrite <- (byte_at_in_slice (payload_ q) (length h) 4 2) by lia. rewrite Eh.
    change (get f_protocol h + 256 * 0 = get f_protocol h). lia. }
  assert (∃ a, memread (payload_ q) (length h + 4) sizeof_test_shim = Done a) as [a Ea].
  { destruct Hq as (tail & Ep & _). unfold memread. rewrite decide_True; [eauto |].
    rewrite Ep, length_app. unfold shimmed. rewrite length_with_shim, length_app. cbn [length test_shim]. unfold sizeof_test_shim. lia. }
  assert (length (shimmed h rest) = length (h ++ rest) + 8)%nat as Hlen by (unfold shimmed; rewrite length_with_shim; cbn; lia).
  destruct (copy_packet_holds uninitialised q _ _ stack_size Hq) as (c & Ec & Hc & Ic); [unfold BUF_SIZE; lia |].
  apply (gives_andthen _ _ [] [_]); [apply gives_announce |]. intros s. cbv beta. rewrite Epr. cbn [negb Z.eqb WIFU_PROTOCOL Pos.eqb].
  unfold print_shim. rewrite Es. cbn [deref mbind outcome_bind]. rewrite Ea. cbn [mbind outcome_bind].
  match goal with |- context [print ?line s] => destruct (gives_print line s) as (s1 & E1 & V1) end.
  rewrite E1. cbn [mbind outcome_bind]. rewrite Ew. cbn [deref mbind outcome_bind]. rewrite Ewp.
  rewrite app_nil_r in V1. rewrite <- V1.
  destruct (get f_protocol h =? UDP); [| destruct (get f_protocol h =? TCP)].
  - destruct (remove_shim_restores (H := udp_shimmable) uninitialised stack_size {| udp_ip := c; udp_ := get_next_header c |} h rest test_shim 0 _ Hc Hd Hsmall Hfit') as (r & Er & Hr).
    unfold new_udp_packet. rewrite Ec. cbn [mbind outcome_bind]. rewrite Er. cbn [mbind outcome_bind].
    pose proof (gives_log_and_accept (H := udp_shimmable) get_time (logging_ t) r _ _ Hr s1) as G.
    rewrite (remove_shim_id _ _ _ Er) in G. change (id_ (ip_part {| udp_ip := c; udp_ := get_next_header c |})) with (id_ c) in G. rewrite Ic in G. exact G.
  - destruct (remove_shim_restores (H := tcp_shimmable uninitialised) uninitialised stack_size {| tcp_ip := c; tcp_ := get_next_header c |} h rest test_shim 0 _ Hc Hd Hsmall Hfit') as (r & Er & Hr).
    unfold new_tcp_packet. rewrite Ec. cbn [mbind outcome_bind]. rewrite Er. cbn [mbind outcome_bind].
    pose proof (gives_log_and_accept (H := tcp_shimmable uninitialised) get_time (logging_ t) r _ _ Hr s1) as G.
    rewrite (remove_shim_id _ _ _ Er) in G. change (id_ (ip_part {| tcp_ip := c; tcp_ := get_next_header c |})) with (id_ c) in G. rewrite Ic in G. exact G.
  - destruct (remove_shim_restores (H := ip_shimmable) uninitialised stack_size q h rest test_shim 0 slack Hq Hd Hsmall Hfit') as (r & Er & Hr).
    rewrite Er. cbn [mbind outcome_bind].
    pose proof (gives_log_and_accept (H := ip_shimmable) get_time (logging_ t) r _ _ Hr s1) as G.
    rewrite (remove_shim_id (H := ip_shimmable) _ _ _ Er) in G. exact G.
Qed.

(** C23: two hosts running TestHandler with shims are transparent to the traffic between them.
    For every datagram that leaves room, the sender's first verdict releases it with a shim,
    and the receiver, which sees those bytes in a buffer of its own, accepts exactly the
    datagram that was sent, once; of a TCP SYN, the segment in which the maximum segment size
    it announces is lowered by the 8 bytes of the shim and its header, modulo 2^16 (unchanged if it announces
    none), with the checksum recalculated so that it verifies. (A TCP packet gets a second
    verdict at the sender.) *)
Theorem test_handlers_transparent t t' p h rest slack :
  insert_shim_ t = true → holds p (h ++ rest) slack → (8 ≤ slack)%nat → sendable h rest →
  ∃ c rest' vs, gives (test_output get_time uninitialised verbose_ t p) (accepting (id_ p) c :: vs) ∧
    (get f_protocol h ≠ TCP → vs = [] ∧ rest' = rest) ∧
    (get f_protocol h = TCP → vs ≠ [] ∧ room_made h 4 rest rest' ∧ (get tcp_syn rest ≠ 0 → segment_verifies h rest')) ∧
    ∀ q slack', holds q c slack' →
      gives (test_input get_time uninitialised verbose_ t' q) [accepting (id_ q) (h ++ rest')].
Proof.
  intros Ht Hp Hslack Hs. pose proof Hs as [Hd Hfit Htcp].
  destruct (test_output_gives t p h rest slack Ht Hp Hslack Hs) as (rest' & Hsent & Hd' & Hl & G).
  exists (shimmed h rest'), rest'. eexists. split; [exact G |]. unfold sent in Hsent. split; [| split].
  - intros HT. apply Z.eqb_neq in HT. rewrite HT in *. auto.
  - intros HT. pose proof (Htcp HT) as [T20 Tdoff]. rewrite HT, Z.eqb_refl in *. split; [discriminate | split; [exact Hsent |]].
    intros Hsyn. unfold room_made in Hsent. rewrite (proj2 (Z.eqb_neq _ _) Hsyn) in Hsent. destruct Hsent as (seg1 & L1 & M1 & ->).
    destruct (datagram_header _ _ Hd) as ((H20 & _) & Hh & Hb).
    apply tcp_checksummed_verifies; [exact H20 | exact Hh | lia | exact (mss_lowered_bytes _ _ _ M1 Hb)].
  - intros q slack' Hq. apply (test_input_gives t' q h rest' slack' Hq Hd'). rewrite length_app, Hl, <- length_app. exact Hfit.
Qed.

End TestHandlerSpec.

Lemma sample_has_room : sendable sample_header sample_rest.
Proof. split; [exact sample_datagram | cbn; lia | vm_compute; intros; discriminate]. Qed.

(** A SYN that announces 1460 bytes, with padding before and after. *)
Definition syn_segment : mem := announcing syn_fixed [Nop; Nop] [0; 0] 1460.
Definition syn_ip : mem := Eval vm_compute in stamp TCP 48 [69; 0; 0; 0; 0; 1; 0; 0; 64; 0; 0; 0; 10; 0; 0; 1; 10; 0; 0; 2].
Definition syn_datagram : packet :=
  {| id_ := 8; payload_length_ := 48; payload_ := syn_ip ++ syn_segment ++ replicate 60 0; filter_ := output; preserve_payload_ := true |}.

Lemma syn_has_room : sendable syn_ip syn_segment.
Proof.
  split; [| cbn; lia | intros _; split; [cbn; lia | vm_compute; congruence]]. split; [| vm_compute; congruence | reflexivity..].
  repeat (apply Forall_cons; split; [vm_compute; split; congruence |]). apply Forall_nil_2.
Qed.

(** A UDP datagram and a SYN. *)
Lemma test_handlers_transparent_witness :
  (∃ c rest' vs,
    gives (test_output (fun _ => 0) (replicate BUF_SIZE 255) true {| logging_ := true; insert_shim_ := true |} sample_packet) (accepting 7 c :: vs) ∧
    (vs = [] ∧ rest' = sample_rest) ∧
    ∀ q slack', holds q c slack' →
      gives (test_input (fun _ => 0) (replicate BUF_SIZE 255) true {| logging_ := false; insert_shim_ := false |} q) [accepting (id_ q) (sample_header ++ rest')]) ∧
  (∃ c rest' vs,
    gives (test_output (fun _ => 0) (replicate BUF_SIZE 255) true {| logging_ := false; insert_shim_ := true |} syn_datagram) (accepting 8 c :: vs) ∧
    room_made syn_ip 4 syn_segment rest' ∧ segment_verifies syn_ip rest').
Proof.
  split.
  - destruct (test_handlers_transparent (fun _ => 0) (replicate BUF_SIZE 255) (length_replicate _ _) true {| logging_ := true; insert_shim_ := true |}
      {| logging_ := false; insert_shim_ := false |} sample_packet sample_header sample_rest 100 eq_refl sample_holds ltac:(lia) sample_has_room)
      as (c & rest' & vs & G & Hother & _ & H).
    exists c, rest', vs. split; [exact G | split; [| exact H]]. apply Hother. vm_compute. discriminate.
  - destruct (test_handlers_transparent (fun _ => 0) (replicate BUF_SIZE 255) (length_replicate _ _) true {| logging_ := false; insert_shim_ := true |}
      {| logging_ := false; insert_shim_ := false |} syn_datagram syn_ip syn_segment 60) as (c & rest' & vs & G & _ & Htcp & _).
    + reflexivity.
    + exists (replicate 60 0). split; [| split]; [reflexivity.. | cbn; lia].
    + lia.
    + exact syn_has_room.
    + destruct Htcp as (_ & Hroom & Hv); [vm_compute; reflexivity |]. exists c, rest', vs. split; [exact G | split; [exact Hroom |]].
      apply Hv. vm_compute. discriminate.
Defined.

(** The second verdict for a TCP packet, on concrete data: the packet without shims is
    accepted twice under one id, by output and by forward (where UDP packets are as well). *)
Definition verdict_ids (o : outcome effects) : option (list Z) :=
  match o with Done s => Some (map verdict_id (verdicts s)) | Fault _ => None end.

Definition no_shims : test_options := {| logging_ := false; insert_shim_ := false |}.

Lemma tcp_output_two_verdicts :
  verdict_ids (test_output (fun _ => 0) (replicate BUF_SIZE 255) false no_shims (tcp_ip syn_packet) no_effects) = Some [8; 8].
Proof. vm_compute. reflexivity. Qed.

Lemma forward_two_verdicts :
  verdict_ids (test_forward (fun _ => 0) (replicate BUF_SIZE 255) false no_shims sample_packet no_effects) = Some [7; 7] ∧
  verdict_ids (test_forward (fun _ => 0) (replicate BUF_SIZE 255) false no_shims (tcp_ip syn_packet) no_effects) = Some [8; 8].
Proof. split; vm_compute; reflexivity. Qed.

(** ** The main loop *)

Section MainLoop.

Variable uninitialised : mem.

(** What is received before the first error that is not [ENOBUFS]. *)
Fixpoint before_error (rs : list received) : list received :=
  match rs with
  | [] => []
  | RecvError :: _ => []
  | r :: rs => r :: before_error rs
  end.

Definition is_enobufs (r : received) : bool := match r with RecvEnobufs => true | _ => false end.
Definition has_error (r : received) : bool := match r with RecvError => true | _ => false end.

(** A handler answers each reception with [answer], as far as the loop gets. *)
Lemma main_loop_gives h (answer : received → list verdict) rs n s :
  (∀ q i l m, Message q i l m ∈ before_error rs → gives (nfq_handle_packet uninitialised h q i l m) (answer (Message q i l m))) →
  answer RecvEnobufs = [] →
  ∃ s', main_loop uninitialised h rs n s = Done (if existsb has_error rs then Left else Waiting, (n + length (List.filter is_enobufs (before_error rs)))%nat, s') ∧
        verdicts s' = verdicts s ++ concat (map answer (before_error rs)).
Proof.
  intros H HE. revert n s. induction rs as [| r rs IH]; intros n s.
  { exists s. cbn. rewrite app_nil_r, Nat.add_0_r. auto. }
  destruct r as [q i l m | |].
  - destruct (H q i l m ltac:(cbn [before_error]; apply list_elem_of_here) s) as (s1 & E1 & V1).
    destruct (IH ltac:(intros; apply H; cbn [before_error]; apply list_elem_of_further; assumption) n s1) as (s2 & E2 & V2).
    exists s2. cbn [main_loop]. rewrite E1. cbn [mbind outcome_bind]. rewrite E2. split; [reflexivity |].
    rewrite V2, V1, <- app_assoc. reflexivity.
  - destruct (IH ltac:(intros; apply H; cbn [before_error]; apply list_elem_of_further; assumption) (S n) s) as (s2 & E2 & V2).
    exists s2. cbn [main_loop]. rewrite E2. cbn [before_error List.filter is_enobufs existsb has_error length map concat]. rewrite HE. split; [| exact V2].
    do 3 f_equal. lia.
  - exists s. cbn. rewrite app_nil_r, Nat.add_0_r. auto.
Qed.

(** The default handler's answer: what came from one of the five queues goes back as it came. *)
Definition accepted (r : received) : list verdict :=
  match r with
  | Message queue id payload_length payload =>
      if Nat.ltb queue 5 then [accepting id (take (Z.to_nat payload_length) payload)] else []
  | _ => []
  end.

Definition received_ok (r : received) : Prop :=
  match r with Message _ _ l m => 0 ≤ l ≤ Z.of_nat (length m) | _ => True end.

(** With the default handler every packet received on one of the five queues, in the
    order of reception, is accepted exactly once with its own id and its bytes unchanged; lost
    packets (ENOBUFS) are counted and do not stop the loop, which only another error ends. *)
Theorem default_handler_accepts_all rs n s :
  Forall received_ok rs →
  ∃ s', main_loop uninitialised default_handler rs n s
        = Done (if existsb has_error rs then Left else Waiting, (n + length (List.filter is_enobufs (before_error rs)))%nat, s') ∧
        verdicts s' = verdicts s ++ concat (map accepted (before_error rs)).
Proof.
  intros Hok. apply main_loop_gives; [| reflexivity]. intros q i l m Hin.
  assert (received_ok (Message q i l m)) as Hl.
  { rewrite List.Forall_forall in Hok. apply Hok. apply list_elem_of_In in Hin. clear - Hin. induction rs as [| r rs IH]; cbn in Hin; [exact Hin |].
    destruct r; cbn in Hin; [destruct Hin as [Hin | Hin]; [left; exact Hin | right; auto].. | destruct Hin]. }
  assert (∀ f, gives (callback uninitialised f default_handler i l m) [accepting i (take (Z.to_nat l) m)]) as G.
  { intros f. assert (holds {| id_ := i; payload_length_ := l; payload_ := m; filter_ := f; preserve_payload_ := false |} (take (Z.to_nat l) m) 0) as Hh.
    { exists (drop (Z.to_nat l) m). cbn [received_ok] in Hl. split; [symmetry; apply take_drop | split; [| lia]]. cbn [payload_length_]. rewrite length_take. lia. }
    unfold callback, new_packet, copy_payload. cbn [preserve_payload_ andb]. intros s'. cbn [mbind outcome_bind].
    destruct f; cbn [default_handler on_input on_output on_forward on_prerouting on_postrouting]; unfold default_method; rewrite (accept_holds _ _ _ Hh); apply (gives_give (accepting i (take (Z.to_nat l) m))). }
  unfold nfq_handle_packet, accepted. do 5 (destruct q as [| q]; [apply G |]).
  intros s'. exists s'. cbn. rewrite app_nil_r. auto.
Qed.

End MainLoop.

Lemma default_handler_accepts_all_witness :
  Forall received_ok [Message 0 1 2 [69; 0; 7]; RecvEnobufs; Message 9 2 0 []; Message 4 3 1 [69]; RecvError; Message 1 4 0 []] ∧
  ∃ s', main_loop [] default_handler [Message 0 1 2 [69; 0; 7]; RecvEnobufs; Message 9 2 0 []; Message 4 3 1 [69]; RecvError; Message 1 4 0 []] 0 no_effects
        = Done (Left, 1%nat, s') ∧ verdicts s' = [accepting 1 [69; 0]; accepting 3 [69]].
Proof.
  assert (Forall received_ok [Message 0 1 2 [69; 0; 7]; RecvEnobufs; Message 9 2 0 []; Message 4 3 1 [69]; RecvError; Message 1 4 0 []]) as H
    by (repeat constructor; cbn; lia).
  split; [exact H |]. exact (default_handler_accepts_all [] _ 0 no_effects H).
Defined.

(** ** Rules and command lines on concrete data *)

(** The rules deleted when the program ends are those added when it starts. *)
Lemma rules_removed flush file :
  ∃ rules, setup_iptables true flush file = (if flush then ["iptables -t mangle -F"%string] else []) ++ map (fun r => "iptables -t mangle -A "%string +:+ r) rules ∧
           setup_iptables false flush file = map (fun r => "iptables -t mangle -D "%string +:+ r) rules.
Proof. exists (match file with None => [] | Some c => List.filter is_rule (file_lines c) end). destruct file, flush; split; reflexivity. Qed.

Lemma file_lines_example :
  List.filter is_rule (file_lines ("# wifu"%string +:+ newline +:+ "INPUT -j NFQUEUE"%string +:+ newline)) = ["INPUT -j NFQUEUE"%string].
Proof. reflexivity. Qed.

Lemma unknown_handler : create_handler "tset" = Fault MissingReturn.
Proof. reflexivity. Qed.

(** The third of January 2012, 4:05:06, in the name of a log file. *)
Lemma asc_time_month :
  asc_time {| tm_year := 112; tm_mon := 0; tm_mday := 3; tm_hour := 4; tm_min := 5; tm_sec := 6 |} = "2012-00-3-4-5-6"%string.
Proof. reflexivity. Qed.
